(* ===== verification/_CoqProject ===== *)
-Q . S2P
Prelude.v
CString.v
Util.v
ByteStream.v
StreamStore.v
Buffer.v
Parser.v
Checksum.v
Hexdump.v
Process.v
Storage.v
FileDescriptor.v
EventLoop.v
Reentry.v
Relay.v
StreamPair.v
Address.v
Socket.v
Doctests.v
Network.v
NetMachine.v
SocketExamples.v
StreamTests.v
Webget.v

