(* ===== verification/Prelude.v ===== *)
(** * A verification development for [tcp-sponge]

    The repository is the first lab of the sponge TCP stack: a library,
    [src/libsponge], and a command-line client that is still a stub,
    [src/apps/webget.cc].  This library models the whole of [libsponge], class
    by class, and proves what makes each class correct, or shows exactly how
    it departs from what its comments promise.

    ** The program and its model

    The classes are small and build on each other: strings held in shared
    buffers ([Buffer]) are parsed and unparsed ([NetParser], [NetUnparser]) and
    checksummed ([InternetChecksum]); views of them are what a
    [FileDescriptor] writes; an [EventLoop] waits for the descriptors of its
    rules and calls back; sockets are descriptors with more system calls;
    [ByteStream] stands alone.  Each file below holds the data, the operations
    and then the lemmas and theorems of a part; a definition has the name of
    the method it models, in a [Module] of the class's name where two classes
    share method names.

    - [Prelude.v] (this file): machine integers as [Z] with explicit
      wrap-around, bytes, outcomes ([Ret], [Throw], [Undef], [NoFuel]), the
      state monad [M] in which the state survives an exception, as in C++,
      tactics, hint databases, and the lemmas the parts share.
    - [CString.v]: what the code uses of C and C++ strings, [to_string] and
      [stoi].
    - [Util.v]: [timestamp_ms] and [get_random_generator] of [util/util.cc],
      with the seeding and the numbers of [mt19937].
    - [ByteStream.v]: [libsponge/byte_stream.{hh,cc}].  The record
      [ByteStream] has the members of the class; [Contract] is the documented
      stream, [WriteLog] the machine the code implements.
    - [StreamStore.v]: [ByteStream] objects in memory, with the array their
      copies share.
    - [Buffer.v]: [util/buffer.{hh,cc}], [Buffer], [BufferList] and
      [BufferViewList], with a string where the code has a pointer to one.
    - [Parser.v]: [util/parser.{hh,cc}], with a reference parser on plain
      strings.
    - [Checksum.v]: [InternetChecksum] of [util/util.{hh,cc}], against the
      arithmetic of RFC 1071.
    - [Hexdump.v]: [hexdump] of [util/util.cc], as a user of the flags,
      fill character and width of [std::cout], against the layout it prints.
    - [Process.v]: the process around the library: the system calls as a
      class [Kernel] with the promises of their manual pages as a class
      [KernelLaws], [errno], [SystemCall] and the errors of [util/util.cc],
      shared objects with reference counts, and [Loopback], a concrete system
      on which the definitions run.
    - [Storage.v]: [util/buffer.{hh,cc}] again, with the strings as counted
      objects in a heap and the views as bare pointers, and programs over
      variables of these classes.
    - [FileDescriptor.v]: [util/file_descriptor.{hh,cc}].  A descriptor is a
      handle to a shared [FDWrapper]; [step] and [run] are programs over
      descriptor variables.
    - [EventLoop.v]: [util/eventloop.{hh,cc}].  [setup] and [dispatch] are the
      two loops of [wait_next_event]; [spec_wait] is its specification and
      [passes] the second loop as a step relation.
    - [Reentry.v]: the event loop with the nodes and iterators of its list, and
      callbacks that may call [wait_next_event] themselves.
    - [Relay.v]: the event loop and descriptors together, in the program
      their comments describe: copy what comes in until its end.  The class
      [FiniteInput] is what it needs of the system: an input that ends, and
      that [poll] fails to report only finitely often.
    - [StreamPair.v]: two descriptors joined as a stream, and programs that
      send and receive at both ends.
    - [Address.v]: [util/address.{hh,cc}], over a class [Resolver].
    - [Socket.v]: [util/socket.{hh,cc}] and [util/tun.{hh,cc}], over a class
      [SocketKernel], with the promises of the manual pages as the classes
      [SocketLaws] and [NameLaws].
    - [Doctests.v]: the socket and address programs of [src/doctests] (the
      parser's is in [Parser.v]).
    - [Network.v]: datagram sockets on one machine: the interface
      [DatagramNetwork] of a system whose calls may fail and whose datagrams
      may be lost, repeated and reordered, and what the operations of
      [UDPSocket] do there.
    - [NetMachine.v]: a machine that implements it, call by call, and loses
      as many datagrams as it is told to.
    - [SocketExamples.v]: the first socket example on such a network.
    - [StreamTests.v]: the byte stream's test harness and its five test
      programs, of [src/tests].
    - [Webget.v]: the [main] of [apps/webget.cc].

    ** What the theorems show

    The theorems that state properties of the code are numbered C1 to C40, in
    the order of their importance; each has, where it has hypotheses, a lemma
    of the same name followed by [_witness] that applies it to a concrete
    case.  Theorems without a number state further behaviour of an operation.

    - The event loop (C1, C2, C8, C9, C18, C19, C27, C28): it refines a
      specification without indices; it is memory-safe and terminates for callbacks that
      are; which rules survive the first loop; the second loop as passes of a
      relation; what [poll]'s answers lead to; [Success] comes only of passes
      that add no rule, and a ready callback that adds one runs off the array;
      the list's iterators stand for positions; callbacks that wait in
      their turn are safe as long as no rule is finished meanwhile, and
      [reentry_at_end] is the end of one that finishes its own.  Without a
      number: a callback that reads is never taken for a busy wait
      ([reading_is_progress]).
    - Descriptors and sockets (C3, C4, C20, C30, C34, C36, C39): no sequence of
      calls leaves a dangling handle or a wrong count; [write] hands over
      exactly a prefix, whatever the short writes; [read], [recv], [sendto],
      [send] and the addresses of a socket on every branch; no constructor
      leaks a descriptor.
    - Whole programs (C5-C7, C32, C38): the copying loop ends, having written
      all its input, thrown or been interrupted by a signal; a stream between
      two descriptors delivers what
      was sent, in order, whatever the cuts and failures; the documentation's
      first socket example never takes wrong data for what was sent to it,
      whatever is lost or fails, and its socket and address programs end and
      release what they acquired; which of the byte
      stream's own tests pass.
    - Storage (C10, C17, C25): sharing strings between buffers cannot be told
      from copying them, and frees each exactly when its last copy is gone;
      views are good exactly as long as something shares their storage; the
      pointers and lengths of a view list stand for its strings.
    - The byte stream (C11, C12, C22-C24, C37): the machine the code is, the
      part of the contract it meets, and the parts it does not, the reason
      being that [buffer_size] returns 0; copies of a stream share an array,
      which cannot be seen, and is never freed.
    - Buffers, parsing, checksum (C13-C16, C21, C26, C33, C35):
      functional correctness, round trips, error behaviour, the agreement of
      views with the list they were taken from, and the bounds within which
      these hold.
    - Addresses, the hex dump and the clock (C29, C31, C40): round trip of a
      numeric address, what is printed on a stream with any flags, and what
      the milliseconds count.  Without a number: no list
      of the resolver is leaked or freed twice ([resolver_lists_freed]).

    ** Conventions and bounds

    A [size_t] or other unsigned value is a [Z] reduced by [u8] to [u64], an
    [int] a [Z] in its range, and a narrowing conversion is written where the
    source has one; signed overflow the code could meet is [undefined] where
    it is modelled and excluded by a hypothesis otherwise.  Out-of-range array
    accesses, reads through null or dangling pointers and reads past the end
    of memory are [Undef].  What a constructor leaves uninitialised is a
    parameter.  Constants and layouts are those of Linux on a 64-bit
    little-endian machine.

    Loops that are not structural take fuel, and running out of it is
    [NoFuel], which the theorems named here exclude: [FileDescriptor.write]
    takes one round more than there are bytes, since a round that writes none
    throws ([handles_never_dangle], [write_appends_prefix]); folding a 32-bit sum
    takes at most three tests ([checksum_is_rfc1071]); the first loop of
    [wait_next_event] takes one round per rule and one more, when no callback
    adds rules ([wait_next_event_safe]); the copying loop calls it at most
    two times more than there are bytes and polls that report nothing
    ([copy_loop_terminates]); calls of
    [wait_next_event] within its callbacks go as deep as a measure the
    callbacks lower ([reentrant_waits_return]); an [int] has at most eight
    hexadecimal and eleven octal digits.

    ** What is not modelled

    Allocation failure; the message the system has for an error code, which is
    a parameter of the text of an exception; the entries after the first of
    the list [getaddrinfo] returns, which the code does not look at; the locale of
    [std::cout]; what the network does beyond the datagrams of one machine; the tests
    of classes the repository does not have, and the script that runs [webget]
    against a server. *)

From Stdlib Require Export ZArith Lia.
From Stdlib.Init Require Byte.
From Stdlib.Strings Require Byte.
From Stdlib.Strings Require Export String.
From stdpp Require Export base tactics list option numbers gmap strings.

#[global] Set Default Goal Selector "!".

Declare Scope sponge_scope.
Delimit Scope sponge_scope with sponge.
#[global] Open Scope sponge_scope.

Create HintDb sponge.
Create Rewrite HintDb sponge_rw.

(** ** Machine integers: a value of a [w]-bit unsigned type is a [Z] in
    [0, 2^w), a conversion to it is the reduction modulo [2^w] of the C++
    standard; [s32] is the (modular) conversion to [int]. *)

Definition wrapu (w z : Z) : Z := z `mod` 2 ^ w.

Abbreviation u8 := (wrapu 8).
Abbreviation u16 := (wrapu 16).
Abbreviation u32 := (wrapu 32).
Abbreviation u64 := (wrapu 64).

Definition s32 (z : Z) : Z := (z + 2 ^ 31) `mod` 2 ^ 32 - 2 ^ 31.

Definition INT_MAX : Z := 2 ^ 31 - 1.
Definition SIZE_MAX : Z := 2 ^ 64 - 1.

(** What [main] returns. *)
Definition EXIT_SUCCESS : Z := 0.
Definition EXIT_FAILURE : Z := 1.

(** [ssize_t(x)] for a 64-bit value. *)
Definition s64 (z : Z) : Z := (z + 2 ^ 63) `mod` 2 ^ 64 - 2 ^ 63.

(** A C++ [bool] converted to an integer or tested from one. *)
Definition nonzero (z : Z) : bool := negb (z =? 0)%Z.

(** ** Bytes: a [char] of a [std::string] is a [byte]. *)

Abbreviation byte := Byte.byte.
Abbreviation bytes := (list byte).

#[export] Instance byte_eq_dec : EqDecision byte := Byte.byte_eq_dec.

(** [uint8_t(c)] *)
Definition b2z (b : byte) : Z := Z.of_N (Byte.to_N b).

(** [static_cast<char>(v)] *)
Definition z2b (z : Z) : byte :=
  default Byte.x00 (Byte.of_N (Z.to_N (u8 z))).

(** A string literal of the source. *)
Definition lit (s : string) : bytes := list_byte_of_string s.

(** [size()] of a string, a vector or a deque. *)
Definition zlen {A} (l : list A) : Z := Z.of_nat (length l).

(** [l[i]] with an index of an integer type; [None] is out of range. *)
Definition znth {A} (l : list A) (i : Z) : option A :=
  if (0 <=? i)%Z then l !! Z.to_nat i else None.

(** [l[i] = x]; [None] is out of range. *)
Definition zset {A} (l : list A) (i : Z) (x : A) : option (list A) :=
  if (0 <=? i)%Z && (i <? zlen l)%Z then Some (<[Z.to_nat i := x]> l) else None.

Definition ztake {A} (n : Z) (l : list A) : list A := take (Z.to_nat n) l.
Definition zdrop {A} (n : Z) (l : list A) : list A := drop (Z.to_nat n) l.

(** ** Outcomes: what a C++ call does. *)

(** The exceptions the source throws or lets through. *)
Inductive exn : Type :=
  | out_of_range (what : string)
  | runtime_error (what : bytes)
  | length_error (what : string)
  | invalid_argument (what : string)
  | bad_array_new_length
  | unix_error (attempt : bytes) (error : Z)
  | tagged_error (category attempt : bytes) (error_code : Z)
  | ByteStreamExpectationViolation (msg : bytes).

(** A call returns, throws, has undefined behaviour, or (for a loop that is
    given a bound on its iterations) does not return within the bound. *)
Inductive outcome (A : Type) : Type :=
  | Ret (a : A)
  | Throw (e : exn)
  | Undef
  | NoFuel.
Arguments Ret {A} a.
Arguments Throw {A} e.
Arguments Undef {A}.
Arguments NoFuel {A}.

#[export] Instance outcome_ret : MRet outcome := fun A a => Ret a.
#[export] Instance outcome_bind : MBind outcome := fun A B f m =>
  match m with
  | Ret a => f a
  | Throw e => Throw e
  | Undef => Undef
  | NoFuel => NoFuel
  end.
#[export] Instance outcome_fmap : FMap outcome := fun A B f m =>
  match m with
  | Ret a => Ret (f a)
  | Throw e => Throw e
  | Undef => Undef
  | NoFuel => NoFuel
  end.

(** ** Stateful calls: the state survives an exception, as in C++. *)

Definition M (S A : Type) : Type := S -> outcome A * S.

#[export] Instance M_ret {S} : MRet (M S) := fun A a s => (Ret a, s).
#[export] Instance M_bind {S} : MBind (M S) := fun A B f m s =>
  match m s with
  | (Ret a, s') => f a s'
  | (Throw e, s') => (Throw e, s')
  | (Undef, s') => (Undef, s')
  | (NoFuel, s') => (NoFuel, s')
  end.

Definition get {S} : M S S := fun s => (Ret s, s).
Definition gets {S A} (f : S -> A) : M S A := fun s => (Ret (f s), s).
Definition modify {S} (f : S -> S) : M S unit := fun s => (Ret tt, f s).
Definition throw {S A} (e : exn) : M S A := fun s => (Throw e, s).
Definition undefined {S A} : M S A := fun s => (Undef, s).
Definition out_of_fuel {S A} : M S A := fun s => (NoFuel, s).

(** A pure call that can fail, inside a stateful one. *)
Definition lift {S A} (o : outcome A) : M S A := fun s => (o, s).

(** [try { m } catch (e) { h }] *)
Definition try_catch {S A} (m : M S A) (h : exn -> M S A) : M S A := fun s =>
  match m s with
  | (Throw e, s') => h e s'
  | r => r
  end.

Definition when {S} (b : bool) (m : M S unit) : M S unit :=
  if b then m else mret tt.

(** [a; b] for statements without a value. *)
Notation "m ';;;' k" := (mbind (fun _ => k) m)
  (at level 100, k at level 200, right associativity) : sponge_scope.

(** A call on a part of a larger state. *)
Definition zoom {S T A} (view : S -> T) (upd : T -> S -> S) (m : M T A) : M S A :=
  fun s => let '(r, t) := m (view s) in (r, upd t s).

(** The state after a call, and its outcome. *)
Definition exec {S A} (m : M S A) (s : S) : S := snd (m s).
Definition result {S A} (m : M S A) (s : S) : outcome A := fst (m s).

(** A call that returns or throws, rather than going wrong or running out of
    fuel. *)
Definition returns {A} (o : outcome A) : Prop :=
  match o with Ret _ | Throw _ => True | Undef | NoFuel => False end.

(** From a state satisfying [I] the call returns or throws, and leaves a state
    satisfying [I] either way: the form an invariant has when exceptions keep
    the state. *)
Definition safe {S A} (I : S -> Prop) (m : M S A) : Prop :=
  forall s, I s -> I (exec m s) /\ returns (result m s).

(** From a state satisfying [P]: where the call returns, what it returns and
    the state it leaves satisfy [Q], and where it throws, the exception
    satisfies [E]. *)
Definition attempts {S A} (E : exn -> Prop) (P : S -> Prop) (m : M S A) (Q : A -> S -> Prop) :
    Prop :=
  forall s, P s -> match m s with
                   | (Ret a, s') => Q a s'
                   | (Throw e, _) => E e
                   | _ => True
                   end.

(** ** Automation *)

Ltac munfold :=
  unfold try_catch, when, zoom, lift, get, gets, modify, throw, undefined,
    out_of_fuel, exec, result, mbind, M_bind, mret, M_ret,
    outcome_bind, outcome_ret, fmap, outcome_fmap in *.

Tactic Notation "msimpl" := munfold; simpl in *.

Ltac zcase :=
  match goal with
  | |- context [(?a <? ?b)%Z] => destruct (Z.ltb_spec a b)
  | |- context [(?a <=? ?b)%Z] => destruct (Z.leb_spec a b)
  | |- context [(?a =? ?b)%Z] => destruct (Z.eqb_spec a b)
  | |- context [(?a >? ?b)%Z] => rewrite (Z.gtb_ltb a b)
  | |- context [(?a >=? ?b)%Z] => rewrite (Z.geb_leb a b)
  end.

(** Case analysis on every integer comparison of the goal, closing the
    contradictory branches. *)
Ltac zcases := repeat (zcase; try lia).

(** Splits a conjunction and closes the parts that are immediate. *)
Ltac splits := split_and!; try done; try lia.

(** ** Lemmas on integers *)

Section Integers.
Local Open Scope Z_scope.

Lemma wrapu_small (w z : Z) : 0 <= z < 2 ^ w -> wrapu w z = z.
Proof. apply Z.mod_small. Qed.

Lemma wrapu_range (w z : Z) : 0 <= w -> 0 <= wrapu w z < 2 ^ w.
Proof. intros H. apply Z.mod_pos_bound. by apply Z.pow_pos_nonneg. Qed.

Lemma wrapu_le (w z : Z) : 0 <= w -> 0 <= z -> wrapu w z <= z.
Proof.
  intros Hw Hz. apply Z.mod_le; [lia|]. by apply Z.pow_pos_nonneg.
Qed.

Lemma wrapu_add_l (w a b : Z) : wrapu w (wrapu w a + b) = wrapu w (a + b).
Proof. unfold wrapu. by rewrite Zplus_mod_idemp_l. Qed.

Lemma wrapu_add_r (w a b : Z) : wrapu w (a + wrapu w b) = wrapu w (a + b).
Proof. unfold wrapu. by rewrite Zplus_mod_idemp_r. Qed.

Lemma wrapu_idemp (w a : Z) : wrapu w (wrapu w a) = wrapu w a.
Proof. unfold wrapu. by rewrite Zmod_mod. Qed.

Lemma s32_small (z : Z) : - 2 ^ 31 <= z < 2 ^ 31 -> s32 z = z.
Proof. intros H. unfold s32. rewrite Z.mod_small; lia. Qed.

Lemma s32_range (z : Z) : - 2 ^ 31 <= s32 z < 2 ^ 31.
Proof.
  unfold s32. pose proof (Z.mod_pos_bound (z + 2 ^ 31) (2 ^ 32) ltac:(lia)). lia.
Qed.

Lemma s32_eqm (z : Z) : s32 z `mod` 2 ^ 32 = z `mod` 2 ^ 32.
Proof.
  unfold s32. rewrite Zminus_mod_idemp_l. f_equal. lia.
Qed.

(** Two values with the same residue modulo [2^32] convert to the same [int]. *)
Lemma s32_cong (a b : Z) : a `mod` 2 ^ 32 = b `mod` 2 ^ 32 -> s32 a = s32 b.
Proof.
  intros H. unfold s32. f_equal.
  rewrite <- (Zplus_mod_idemp_l a), <- (Zplus_mod_idemp_l b). by rewrite H.
Qed.

(** A [size_t] narrowed to [int]. *)
Lemma s32_u64 (z : Z) : s32 (u64 z) = s32 z.
Proof.
  apply s32_cong. unfold wrapu.
  rewrite Z.mod_mod_divide; [done|].
  by exists (2 ^ 32).
Qed.

Lemma s32_add_l (a b : Z) : s32 (s32 a + b) = s32 (a + b).
Proof. apply s32_cong. by rewrite <- Zplus_mod_idemp_l, s32_eqm, Zplus_mod_idemp_l. Qed.

(** An [unsigned int] that is incremented changes. *)
Lemma u32_succ_ne (n : Z) : wrapu 32 (n + 1) <> n.
Proof.
  intros E. pose proof (wrapu_range 32 (n + 1) ltac:(lia)) as Hr. rewrite E in Hr.
  destruct (decide (n + 1 = 2 ^ 32)) as [Hn|Hn].
  - rewrite Hn in E. unfold wrapu in E. rewrite Z_mod_same_full in E. lia.
  - rewrite wrapu_small in E by lia. lia.
Qed.

Lemma s64_small (z : Z) : - 2 ^ 63 <= z < 2 ^ 63 -> s64 z = z.
Proof. intros H. unfold s64. rewrite Z.mod_small; lia. Qed.

Lemma mod_add_step (a n : Z) : 0 < n -> 0 <= a < n ->
  (if a + 1 >=? n then 0 else a + 1) = (a + 1) `mod` n.
Proof.
  intros Hn Ha. zcases.
  - replace (a + 1) with n by lia. by rewrite Z_mod_same_full.
  - by rewrite Z.mod_small by lia.
Qed.

End Integers.

(** ** Lemmas on bytes and lists *)

Section Bytes.
Local Open Scope Z_scope.

Lemma b2z_range (b : byte) : 0 <= b2z b < 256.
Proof.
  unfold b2z. pose proof (Byte.to_N_bounded b). lia.
Qed.

Lemma b2z_z2b (z : Z) : b2z (z2b z) = u8 z.
Proof.
  unfold z2b, b2z. pose proof (wrapu_range 8 z ltac:(lia)) as Hr.
  destruct (Byte.of_N (Z.to_N (u8 z))) as [b|] eqn:E; simpl.
  - apply Byte.to_of_N in E. rewrite E. lia.
  - apply Byte.of_N_None_iff in E. lia.
Qed.

Lemma z2b_b2z (b : byte) : z2b (b2z b) = b.
Proof.
  unfold z2b, b2z. pose proof (b2z_range b) as Hr. unfold b2z in Hr.
  rewrite wrapu_small by lia. rewrite N2Z.id, Byte.of_to_N. done.
Qed.

Lemma b2z_inj (a b : byte) : b2z a = b2z b -> a = b.
Proof. intros H. by rewrite <- (z2b_b2z a), H, z2b_b2z. Qed.

End Bytes.

Section Lists.
Context {A : Type}.
Implicit Types l : list A.
Local Open Scope Z_scope.

Lemma zlen_nonneg l : 0 <= zlen l.
Proof. unfold zlen. lia. Qed.

Lemma zlen_nil : zlen (@nil A) = 0.
Proof. done. Qed.

Lemma zlen_cons (x : A) l : zlen (x :: l) = 1 + zlen l.
Proof. unfold zlen. simpl. lia. Qed.

Lemma zlen_app l1 l2 : zlen (l1 ++ l2) = zlen l1 + zlen l2.
Proof. unfold zlen. rewrite length_app. lia. Qed.

Lemma zlen_0 l : zlen l = 0 -> l = [].
Proof. unfold zlen. destruct l; simpl; [done | lia]. Qed.

Lemma zlen_ztake (n : Z) l : 0 <= n -> zlen (ztake n l) = Z.min n (zlen l).
Proof. intros. unfold zlen, ztake. rewrite length_take. lia. Qed.

Lemma zlen_zdrop (n : Z) l : 0 <= n -> zlen (zdrop n l) = Z.max 0 (zlen l - n).
Proof. intros. unfold zlen, zdrop. rewrite length_drop. lia. Qed.

Lemma zlen_insert (i : nat) (x : A) l : zlen (<[i:=x]> l) = zlen l.
Proof. unfold zlen. by rewrite length_insert. Qed.

Lemma ztake_all (n : Z) l : zlen l <= n -> ztake n l = l.
Proof. unfold zlen, ztake. intros. apply take_ge. lia. Qed.

Lemma zdrop_all (n : Z) l : zlen l <= n -> zdrop n l = [].
Proof. unfold zlen, zdrop. intros. apply drop_ge. lia. Qed.

Lemma zdrop_0 l : zdrop 0 l = l.
Proof. done. Qed.

Lemma ztake_zdrop (n : Z) l : ztake n l ++ zdrop n l = l.
Proof. apply take_drop. Qed.

Lemma zdrop_zdrop (n m : Z) l : 0 <= n -> 0 <= m ->
  zdrop n (zdrop m l) = zdrop (m + n) l.
Proof. intros. unfold zdrop. rewrite drop_drop. f_equal. lia. Qed.

Lemma ztake_add (n m : Z) l : 0 <= n -> 0 <= m ->
  ztake (n + m) l = ztake n l ++ ztake m (zdrop n l).
Proof. intros. unfold ztake, zdrop. by rewrite take_take_drop, Z2Nat.inj_add. Qed.

Lemma ztake_app (n : Z) l1 l2 : 0 <= n ->
  ztake n (l1 ++ l2) = ztake n l1 ++ ztake (n - zlen l1) l2.
Proof. intros. unfold ztake, zlen. rewrite take_app. do 2 f_equal. lia. Qed.

Lemma zdrop_app (n : Z) l1 l2 : 0 <= n ->
  zdrop n (l1 ++ l2) = zdrop n l1 ++ zdrop (n - zlen l1) l2.
Proof. intros. unfold zdrop, zlen. rewrite drop_app. do 2 f_equal. lia. Qed.

Lemma zdrop_app_ge (n : Z) l1 l2 : zlen l1 <= n ->
  zdrop n (l1 ++ l2) = zdrop (n - zlen l1) l2.
Proof.
  intros. pose proof (zlen_nonneg l1). rewrite zdrop_app by lia.
  by rewrite zdrop_all.
Qed.

Lemma zdrop_app_lt (n : Z) l1 l2 : 0 <= n <= zlen l1 ->
  zdrop n (l1 ++ l2) = zdrop n l1 ++ l2.
Proof.
  intros. rewrite zdrop_app by lia.
  unfold zdrop at 2. replace (Z.to_nat (n - zlen l1)) with 0%nat by lia. done.
Qed.

Lemma Forall_sublist (P : A -> Prop) l1 l2 : l1 `sublist_of` l2 -> Forall P l2 -> Forall P l1.
Proof. rewrite !Forall_forall. eauto using elem_of_sublist. Qed.

Lemma znth_Some (i : Z) l : 0 <= i < zlen l -> is_Some (znth l i).
Proof.
  intros. unfold znth. zcases. apply lookup_lt_is_Some. unfold zlen in *. lia.
Qed.

Lemma zset_Some (i : Z) (x : A) l : 0 <= i < zlen l ->
  zset l i x = Some (<[Z.to_nat i := x]> l).
Proof. intros. unfold zset. zcases. done. Qed.

Lemma zlen_zset (i : Z) (x : A) l l' : zset l i x = Some l' -> zlen l' = zlen l.
Proof. unfold zset. case_match; [|done]. intros [= <-]. apply zlen_insert. Qed.

Lemma znth_zset_eq (i : Z) (x : A) l l' : zset l i x = Some l' -> znth l' i = Some x.
Proof.
  unfold zset, znth. intros H. case_match; [|done]. simplify_eq.
  rewrite andb_true_iff, Z.leb_le, Z.ltb_lt in *. zcases.
  apply list_lookup_insert_eq. unfold zlen in *. lia.
Qed.

Lemma znth_zset_ne (i j : Z) (x : A) l l' : zset l i x = Some l' -> 0 <= j -> i <> j ->
  znth l' j = znth l j.
Proof.
  unfold zset, znth. intros H Hj Hne. case_match; [|done]. simplify_eq.
  rewrite andb_true_iff, Z.leb_le, Z.ltb_lt in *. zcases.
  apply list_lookup_insert_ne. lia.
Qed.

Lemma znth_app_l (i : Z) l1 l2 : i < zlen l1 -> znth (l1 ++ l2) i = znth l1 i.
Proof.
  intros. unfold znth, zlen in *. zcases; [|done]. apply lookup_app_l. lia.
Qed.

Lemma znth_app_r (i : Z) l1 l2 : zlen l1 <= i -> znth (l1 ++ l2) i = znth l2 (i - zlen l1).
Proof.
  intros. unfold znth, zlen in *. zcases. rewrite lookup_app_r by lia. f_equal. lia.
Qed.

End Lists.

(** ** Lemmas on stateful calls *)

Section Calls.
Context {S : Type}.

Lemma bind_Ret {A B} (m : M S A) (f : A -> M S B) (s s' : S) (a : A) :
  m s = (Ret a, s') -> (m ≫= f) s = f a s'.
Proof. intros H. msimpl. by rewrite H. Qed.

Lemma bind_Throw {A B} (m : M S A) (f : A -> M S B) (s s' : S) (e : exn) :
  m s = (Throw e, s') -> (m ≫= f) s = (Throw e, s').
Proof. intros H. msimpl. by rewrite H. Qed.

Lemma bind_Ret_inv {A B} (m : M S A) (f : A -> M S B) (s s' : S) (b : B) :
  (m ≫= f) s = (Ret b, s') -> exists a s1, m s = (Ret a, s1) /\ f a s1 = (Ret b, s').
Proof.
  msimpl. destruct (m s) as [[] s1] eqn:E; naive_solver.
Qed.

Lemma bind_assoc {A B C} (m : M S A) (f : A -> M S B) (g : B -> M S C) (s : S) :
  ((m ≫= f) ≫= g) s = (m ≫= (fun a => f a ≫= g)) s.
Proof. msimpl. by destruct (m s) as [[] ?]. Qed.

Lemma safe_bind {A B} (I : S -> Prop) (m : M S A) (f : A -> M S B) :
  safe I m -> (forall a, safe I (f a)) -> safe I (m ≫= f).
Proof.
  intros Hm Hf s Hs. destruct (Hm s Hs) as [H1 H2]. msimpl.
  destruct (m s) as [[] s1]; simpl in *; try done. by apply Hf.
Qed.

Lemma safe_ret {A} (I : S -> Prop) (a : A) : safe I (mret a : M S A).
Proof. by intros s Hs. Qed.

Lemma safe_throw {A} (I : S -> Prop) e : safe I (throw e : M S A).
Proof. by intros s Hs. Qed.

Lemma safe_get (I : S -> Prop) : safe I get.
Proof. by intros s Hs. Qed.

Lemma safe_gets {A} (I : S -> Prop) (f : S -> A) : safe I (gets f).
Proof. by intros s Hs. Qed.

Lemma safe_lift {A} (I : S -> Prop) (o : outcome A) : returns o -> safe I (lift o).
Proof. by intros Ho s Hs. Qed.

Lemma safe_modify (I : S -> Prop) (f : S -> S) :
  (forall s, I s -> I (f s)) -> safe I (modify f).
Proof. intros H s Hs. split; [by apply H | done]. Qed.

Lemma safe_when (I : S -> Prop) b (m : M S unit) : safe I m -> safe I (when b m).
Proof. intros H. destruct b; [done | apply safe_ret]. Qed.

Lemma safe_if {A} (I : S -> Prop) (b : bool) (m1 m2 : M S A) :
  safe I m1 -> safe I m2 -> safe I (if b then m1 else m2).
Proof. by destruct b. Qed.

Lemma safe_try {A} (I : S -> Prop) (m : M S A) (h : exn -> M S A) :
  safe I m -> (forall e, safe I (h e)) -> safe I (try_catch m h).
Proof.
  intros Hm Hh s Hs. destruct (Hm s Hs) as [H1 H2]. msimpl.
  destruct (m s) as [[] s1]; simpl in *; try done. by apply Hh.
Qed.

Lemma attempts_ret {A} E (P : S -> Prop) (a : A) (Q : A -> S -> Prop) :
  (forall s, P s -> Q a s) -> attempts E P (mret a) Q.
Proof. intros HQ s Hs. by apply HQ. Qed.

Lemma attempts_throw {A} (E : exn -> Prop) (P : S -> Prop) e (Q : A -> S -> Prop) : E e ->
  attempts E P (throw e) Q.
Proof. by intros He s Hs. Qed.

Lemma attempts_bind {A B} E (P : S -> Prop) (m : M S A) (f : A -> M S B) Q R :
  attempts E P m Q -> (forall a, attempts E (Q a) (f a) R) -> attempts E P (m ≫= f) R.
Proof.
  intros Hm Hf s Hs. specialize (Hm s Hs). unfold mbind, M_bind.
  destruct (m s) as [[a|e| |] s1]; try done. by apply Hf.
Qed.

Lemma attempts_post {A} E (P : S -> Prop) (m : M S A) (Q Q' : A -> S -> Prop) :
  attempts E P m Q -> (forall a s, Q a s -> Q' a s) -> attempts E P m Q'.
Proof.
  intros Hm HQ s Hs. specialize (Hm s Hs). destruct (m s) as [[a|e| |] s1]; try done. by apply HQ.
Qed.

(** A fact about the value, apart from the state. *)
Lemma attempts_pure {A} E (F : Prop) (P : S -> Prop) (m : M S A) Q :
  (F -> attempts E P m Q) -> attempts E (fun s => F /\ P s) m Q.
Proof. intros Hm s [HF Hs]. by apply Hm. Qed.

Lemma attempts_ex {A X} E (P : X -> S -> Prop) (m : M S A) Q :
  (forall x, attempts E (P x) m Q) -> attempts E (fun s => exists x, P x s) m Q.
Proof. intros Hm s [x Hs]. by apply (Hm x). Qed.

(** A call on a part of the state, when the rest does not matter to [I]. *)
Lemma safe_zoom {T A} (view : S -> T) (upd : T -> S -> S) (I : S -> Prop) (J : T -> Prop)
    (m : M T A) :
  safe J m -> (forall s, I s -> J (view s)) -> (forall s t, I s -> J t -> I (upd t s)) ->
  safe I (zoom view upd m).
Proof.
  intros Hm H1 H2 s Hs. destruct (Hm (view s) (H1 s Hs)) as [G1 G2]. msimpl.
  destruct (m (view s)) as [o t]. split; [by apply H2 | done].
Qed.

End Calls.

#[export] Hint Resolve wrapu_range s32_range b2z_range zlen_nonneg : sponge.
#[export] Hint Resolve safe_bind safe_ret safe_throw safe_get safe_gets safe_lift
  safe_modify safe_when safe_if safe_try : sponge.
(** [lia] with the lengths of the goal and the context known to be
    non-negative. *)
Ltac zlens :=
  repeat match goal with
  | |- context [zlen ?l] =>
      lazymatch goal with
      | _ : (0 <= zlen l)%Z |- _ => fail
      | _ => pose proof (zlen_nonneg l)
      end
  | _ : context [zlen ?l] |- _ =>
      lazymatch goal with
      | _ : (0 <= zlen l)%Z |- _ => fail
      | _ => pose proof (zlen_nonneg l)
      end
  end.
Ltac zlia := zlens; lia.

#[export] Hint Rewrite @zlen_cons @zlen_app @zlen_insert : sponge_rw.
#[export] Hint Rewrite @zlen_ztake @zlen_zdrop using zlia : sponge_rw.
#[export] Hint Rewrite wrapu_small s32_small s64_small using lia : sponge_rw.

(** [zlen []] is convertible to 0, which confuses [rewrite]. *)
Ltac zlen_nil_simpl :=
  repeat match goal with
  | |- context [zlen (@nil ?A)] => change (zlen (@nil A)) with 0%Z
  | H : context [zlen (@nil ?A)] |- _ => change (zlen (@nil A)) with 0%Z in H
  end.

(** Normalises lengths, takes and drops, and conversions of small integers. *)
Ltac znorm := zlen_nil_simpl; autorewrite with sponge_rw in *; zlen_nil_simpl.
