(* ===== verification/CString.v ===== *)
(** What the library uses of C and C++ strings: [std::string::resize], buffers
    that the system fills, NUL-terminated strings, [std::to_string] and
    [std::stoi], and the round trips between them. *)

From S2P Require Import Prelude.
From stdpp Require Import pretty.

Local Open Scope Z_scope.

(** [std::string::resize] *)
Definition str_resize (n : Z) (s : bytes) : bytes :=
  ztake n s ++ replicate (Z.to_nat (n - zlen s)) Byte.x00.

(** The kernel stores the first [ret] bytes of a buffer. *)
Definition fill (data s : bytes) : bytes := ztake (zlen s) (data ++ zdrop (zlen data) s).

(** [s.c_str()] handed to a C function: it sees the bytes before the first
    NUL. *)
Fixpoint c_str (s : bytes) : bytes :=
  match s with
  | [] => []
  | c :: s' => if b2z c =? 0 then [] else c :: c_str s'
  end.

(** [std::string(array.data())]: the bytes before the first NUL, and undefined
    behaviour when the array holds none. *)
Definition string_of_array (a : bytes) : outcome bytes :=
  if existsb (fun c => b2z c =? 0) a then Ret (c_str a) else Undef.

(** Text, as opposed to arbitrary bytes. *)
Definition no_nul (s : bytes) : Prop := Forall (fun c => b2z c <> 0) s.

(** [std::to_string] *)
Definition to_string (z : Z) : bytes := lit (pretty z).

Definition is_digit (c : byte) : bool := (48 <=? b2z c) && (b2z c <=? 57).

(** [isspace], in the "C" locale *)
Definition is_space (c : byte) : bool :=
  (b2z c =? 32) || ((9 <=? b2z c) && (b2z c <=? 13)).

Fixpoint skip_spaces (s : bytes) : bytes :=
  match s with
  | c :: s' => if is_space c then skip_spaces s' else s
  | [] => []
  end.

(** The digits at the front of [s] after the number [acc]. *)
Fixpoint digits (s : bytes) (acc : Z) : Z :=
  match s with
  | c :: s' => if is_digit c then digits s' (10 * acc + (b2z c - 48)) else acc
  | [] => acc
  end.

(** [std::stoi(s)]: spaces, a sign, then at least one digit; a value that does
    not fit an [int] throws. *)
Definition stoi (s : bytes) : outcome Z :=
  let s := skip_spaces s in
  let '(sign, s) := match s with
                    | c :: s' => if b2z c =? 45 then (-1, s')
                                 else if b2z c =? 43 then (1, s') else (1, s)
                    | [] => (1, [])
                    end in
  match s with
  | c :: _ =>
      if is_digit c then
        let v := sign * digits s 0 in
        if (- 2 ^ 31 <=? v) && (v <? 2 ^ 31) then Ret v else Throw (out_of_range "stoi")
      else Throw (invalid_argument "stoi")
  | [] => Throw (invalid_argument "stoi")
  end.

(** ** Resizing and filling *)

Section Buffers.

Lemma fill_own data s : zlen data <= zlen s ->
  str_resize (zlen data) (fill data s) = data.
Proof.
  intros. zlens. unfold str_resize, fill. znorm.
  rewrite Z.min_l by lia. replace (Z.to_nat (zlen data - _)) with 0%nat by lia. simpl.
  rewrite app_nil_r. unfold ztake. rewrite take_take, Nat.min_l by lia.
  unfold zlen at 1. rewrite Nat2Z.id. by rewrite take_app_length.
Qed.

Lemma zlen_str_resize n s : 0 <= n -> zlen (str_resize n s) = n.
Proof.
  intros. unfold str_resize. rewrite zlen_app, zlen_ztake by lia. unfold zlen.
  rewrite length_replicate. lia.
Qed.

Lemma zlen_fill data s : zlen (fill data s) = zlen s.
Proof. zlens. unfold fill. rewrite zlen_ztake by lia. znorm. lia. Qed.

End Buffers.

(** ** NUL-terminated strings *)

Section NulTerminated.

Lemma c_str_id s : no_nul s -> c_str s = s.
Proof.
  induction 1 as [|c s Hc _ IH]; [done|]. simpl.
  by rewrite (proj2 (Z.eqb_neq _ _) Hc), IH.
Qed.

Lemma c_str_app s t : no_nul s -> c_str (s ++ Byte.x00 :: t) = s.
Proof.
  induction 1 as [|c s Hc _ IH]; [done|]. simpl.
  by rewrite (proj2 (Z.eqb_neq _ _) Hc), IH.
Qed.

(** A string that the system stored in an array with room for it. *)
Lemma string_of_filled s a : no_nul s -> zlen s < zlen a ->
  string_of_array (fill (s ++ [Byte.x00]) a) = Ret s.
Proof.
  intros Hs Hl. zlens. unfold fill. rewrite <- app_assoc, ztake_app by lia.
  rewrite (ztake_all (zlen a) s) by lia. simpl app.
  assert (exists t, ztake (zlen a - zlen s)
    (Byte.x00 :: zdrop (zlen (s ++ [Byte.x00])) a) = Byte.x00 :: t) as [t ->].
  { unfold ztake. destruct (Z.to_nat (zlen a - zlen s)) eqn:E; [lia|]. by eexists. }
  unfold string_of_array. rewrite existsb_app. simpl. rewrite orb_true_r.
  by rewrite c_str_app.
Qed.

End NulTerminated.

(** ** Numbers *)

Section Numbers.

Lemma lit_cons c s : lit (String c s) = Ascii.byte_of_ascii c :: lit s.
Proof. done. Qed.

Lemma digit_char (x : N) : (x < 10)%N ->
  b2z (Ascii.byte_of_ascii (pretty_N_char x)) = Z.of_N x + 48.
Proof.
  intros Hx. assert (x = 0 \/ x = 1 \/ x = 2 \/ x = 3 \/ x = 4 \/ x = 5 \/ x = 6 \/ x = 7 \/
    x = 8 \/ x = 9)%N as Hc by lia.
  by destruct Hc as [->|[->|[->|[->|[->|[->|[->|[->|[->| ->]]]]]]]]].
Qed.

Lemma digits_snoc ds c acc : Forall (fun c => is_digit c) ds -> is_digit c ->
  digits (ds ++ [c]) acc = 10 * digits ds acc + (b2z c - 48).
Proof.
  intros Hd Hc. apply Is_true_true in Hc. revert acc.
  induction Hd as [|d ds Hd _ IH]; intros acc; simpl; [by rewrite Hc|].
  apply Is_true_true in Hd. rewrite Hd. apply IH.
Qed.

(** The decimal digits of a number, read back after anything. *)
Lemma pretty_go_digits (x : N) : forall s, exists ds,
  lit (pretty_N_go x s) = ds ++ lit s /\ Forall (fun c => is_digit c) ds /\
  ((0 < x)%N -> ds <> []) /\ digits ds 0 = Z.of_N x /\
  (forall n, (x < 10 ^ N.of_nat n)%N -> (length ds <= n)%nat).
Proof.
  induction (N.lt_wf_0 x) as [x _ IH]; intros s.
  destruct (decide (x = 0)%N) as [->|Hx].
  { exists []. split_and!; try done. intros. simpl. lia. }
  rewrite pretty_N_go_step by lia.
  destruct (IH (x `div` 10)%N ltac:(apply N.div_lt; lia)
    (String (pretty_N_char (x `mod` 10)) s)) as (ds & E & Hd & _ & Hv & Hl).
  set (c := Ascii.byte_of_ascii (pretty_N_char (x `mod` 10))) in *.
  pose proof (N.mod_lt x 10 ltac:(lia)) as Hm. pose proof (digit_char _ Hm) as Hc. fold c in Hc.
  assert (Hdig : is_digit c).
  { unfold is_digit. apply Is_true_true. rewrite Hc, andb_true_iff, !Z.leb_le.
    clear -Hm. revert Hm. generalize (x `mod` 10)%N. lia. }
  exists (ds ++ [c]). split_and!.
  - rewrite E, lit_cons, <- app_assoc. done.
  - apply Forall_app. by split; [|constructor].
  - by destruct ds.
  - rewrite digits_snoc, Hv, Hc, N2Z.inj_div, N2Z.inj_mod by done.
    pose proof (Z.div_mod (Z.of_N x) 10 ltac:(lia)). lia.
  - intros n Hn. rewrite length_app. simpl. destruct n as [|n]; [simpl in Hn; lia|].
    assert (length ds <= n)%nat; [|lia]. apply Hl.
    apply N.Div0.div_lt_upper_bound. rewrite <- N.pow_succ_r'. by rewrite <- Nat2N.inj_succ.
Qed.

(** [std::to_string] of a number that is not negative. *)
Lemma to_string_digits z : 0 <= z ->
  Forall (fun c => is_digit c) (to_string z) /\ to_string z <> [] /\
  digits (to_string z) 0 = z /\ (forall n, z < 10 ^ Z.of_nat n -> (1 <= n)%nat ->
    zlen (to_string z) <= Z.of_nat n).
Proof.
  intros Hz. destruct z as [|x|x]; [|clear Hz|lia].
  { split_and!; [by repeat constructor | done | done |]. intros n _ Hn.
    change (zlen (to_string 0)) with 1. lia. }
  destruct (pretty_go_digits (Npos x) "") as (ds & E & Hd & Hne & Hv & Hl).
  assert (Hs : to_string (Zpos x) = ds).
  { unfold to_string. change (pretty (Zpos x)) with (pretty_N_go (Npos x) "").
    by rewrite E, app_nil_r. }
  rewrite Hs. split_and!; [done | by apply Hne | done |].
  intros n Hn _. unfold zlen. apply inj_le, Hl. apply N2Z.inj_lt.
  rewrite N2Z.inj_pow, nat_N_Z. done.
Qed.

Lemma digit_not_space c : is_digit c = true -> is_space c = false /\ b2z c <> 45 /\
  b2z c <> 43 /\ b2z c <> 0.
Proof.
  unfold is_digit, is_space. rewrite andb_true_iff, !Z.leb_le. intros Hc.
  rewrite orb_false_iff, andb_false_iff, Z.eqb_neq, !Z.leb_gt. lia.
Qed.

Lemma no_nul_to_string z : 0 <= z -> no_nul (to_string z).
Proof.
  intros Hz. destruct (to_string_digits z Hz) as (Hd & _). eapply Forall_impl; [exact Hd|].
  intros c Hc. apply Is_true_true in Hc. by apply digit_not_space in Hc as (_ & _ & _ & Hn).
Qed.

Lemma stoi_to_string z : 0 <= z < 2 ^ 31 -> stoi (to_string z) = Ret z.
Proof.
  intros Hz. destruct (to_string_digits z ltac:(lia)) as (Hd & Hne & Hv & _).
  destruct (to_string z) as [|c s]; [done|]. apply Forall_cons in Hd as [Hc _].
  apply Is_true_true in Hc. destruct (digit_not_space c Hc) as (Hs & H1 & H2 & _).
  unfold stoi. cbn [skip_spaces]. rewrite Hs.
  rewrite (proj2 (Z.eqb_neq _ _) H1), (proj2 (Z.eqb_neq _ _) H2), Hc.
  rewrite Z.mul_1_l, Hv. rewrite (proj2 (Z.leb_le _ _)), (proj2 (Z.ltb_lt _ _)) by lia. done.
Qed.

End Numbers.
