(* ===== verification/Util.v ===== *)
(** The clock and the seed of [libsponge/util/util.cc]: [timestamp_ms] over a
    steady clock, and [get_random_generator] over a random device, with the
    standard's [seed_seq] and the state and numbers of [mt19937] written out. *)

From Stdlib Require Import Sorting.Sorted.
From S2P Require Import Prelude.

Local Open Scope Z_scope.

(** ** The clock *)

(** [steady_clock::now()], as nanoseconds since the clock's epoch; it never
    goes back. *)
Class SteadyClock (K : Type) : Type := {
  now : K -> Z * K;
  reading : K -> Z;
  now_law : forall k, let '(t, k') := now k in t = reading k' /\ reading k <= t
}.

Section Clock.
Context {K : Type} `{SteadyClock K}.

(** The clock and the function's [static] variable, which is initialised by
    the first call. *)
Definition ClockState : Type := K * option Z.

Definition read_clock : M ClockState Z := fun s =>
  let '(t, k) := now (fst s) in (Ret t, (k, snd s)).

(** [duration_cast<milliseconds>(d).count()] of nanoseconds, as a [uint64_t]. *)
Definition to_milliseconds (d : Z) : Z := u64 (Z.quot d 1000000).

Definition timestamp_ms : M ClockState Z :=
  s ← get;
  program_start ← match snd s with
                  | Some t => mret t
                  | None => t ← read_clock; modify (fun s => (fst s, Some t)) ;;; mret t
                  end;
  now ← read_clock;
  mret (to_milliseconds (now - program_start)).

(** The results of [n] calls in a row. *)
Fixpoint timestamps (n : nat) : M ClockState (list Z) :=
  match n with
  | O => mret []
  | S n' => t ← timestamp_ms; ts ← timestamps n'; mret (t :: ts)
  end.

(** [n] readings of the clock in a row. *)
Fixpoint readings (n : nat) (k : K) : list Z * K :=
  match n with
  | O => ([], k)
  | S n' => let '(t, k) := now k in let '(ts, k') := readings n' k in (t :: ts, k')
  end.

End Clock.

(** ** The generator *)

(** [mt19937::state_size], and the word it must not be without. *)
Definition state_size : nat := 624.

(** A 32-bit word at an index taken modulo the length. *)
Definition word (l : list Z) (i : nat) : Z := nth (i `mod` length l)%nat l 0.
Definition set_word (l : list Z) (i : nat) (v : Z) : list Z :=
  <[(i `mod` length l)%nat := u32 v]> l.

(** [T(x) = x ^ (x >> 27)] *)
Definition mix (x : Z) : Z := Z.lxor x (Z.shiftr x 27).

(** [seed_seq::generate] ([rand.util.seedseq] of the C++ standard): the first
    loop from its round [k] on, for the seeds [v] and the distances [p], [q]. *)
Fixpoint generate_add (rounds k p q : nat) (v l : list Z) : list Z :=
  match rounds with
  | O => l
  | S rounds' =>
      let r1 := u32 (1664525 *
        mix (Z.lxor (word l k) (Z.lxor (word l (k + p)) (word l (k + length l - 1))))) in
      let r2 := u32 (r1 +
        (if (k =? 0)%nat then zlen v
         else if (k <=? length v)%nat
              then Z.of_nat (k `mod` length l)%nat + nth (k - 1) v 0
              else Z.of_nat (k `mod` length l)%nat)) in
      let l := set_word l (k + p) (word l (k + p) + r1) in
      let l := set_word l (k + q) (word l (k + q) + r2) in
      let l := set_word l k r2 in
      generate_add rounds' (S k) p q v l
  end.

(** The second loop. *)
Fixpoint generate_xor (rounds k p q : nat) (l : list Z) : list Z :=
  match rounds with
  | O => l
  | S rounds' =>
      let r3 := u32 (1566083941 *
        mix (u32 (word l k + word l (k + p) + word l (k + length l - 1)))) in
      let r4 := u32 (r3 - Z.of_nat (k `mod` length l)%nat) in
      let l := set_word l (k + p) (Z.lxor (word l (k + p)) r3) in
      let l := set_word l (k + q) (Z.lxor (word l (k + q)) r4) in
      let l := set_word l k r4 in
      generate_xor rounds' (S k) p q l
  end.

(** [seed_seq(v).generate(begin, begin + n)], for [n] words of 32 bits. *)
Definition generate (v : list Z) (n : nat) : list Z :=
  let t := if (623 <=? n)%nat then 11%nat else if (68 <=? n)%nat then 7%nat
           else if (39 <=? n)%nat then 5%nat else if (7 <=? n)%nat then 3%nat
           else ((n - 1) / 2)%nat in
  let p := ((n - t) / 2)%nat in
  let q := (p + t)%nat in
  let m := Nat.max (S (length v)) n in
  let l := replicate n 0x8b8b8b8b in
  let l := generate_add m 0 p q v l in
  generate_xor n m p q l.

(** The state [mt19937(seed)] starts from: the words generated, unless all of
    them but the low 31 bits of the first are zero. *)
Definition stuck (l : list Z) : bool :=
  match l with
  | x :: rest => (Z.shiftr x 31 =? 0) && forallb (fun y => y =? 0) rest
  | [] => true
  end.

Definition mt19937_of_seed (v : list Z) : list Z :=
  let l := generate v state_size in
  if stuck l then set_word l 0 (2 ^ 31) else l.

(** An engine: its words, and the index of the next to give; those of a new
    engine are all used up. *)
Definition mt19937 : Type := list Z * nat.

(** The transition of the whole state ([rand.eng.mers]), word after word in
    place. *)
Fixpoint twist (rounds k : nat) (l : list Z) : list Z :=
  match rounds with
  | O => l
  | S rounds' =>
      let y := Z.lor (Z.land (word l k) 0x80000000) (Z.land (word l (k + 1)) 0x7fffffff) in
      let a := if Z.odd y then 0x9908b0df else 0 in
      twist rounds' (S k) (set_word l k (Z.lxor (word l (k + 397)) (Z.lxor (Z.shiftr y 1) a)))
  end.

Definition temper (z : Z) : Z :=
  let z := Z.lxor z (Z.land (Z.shiftr z 11) 0xffffffff) in
  let z := Z.lxor z (Z.land (Z.shiftl z 7) 0x9d2c5680) in
  let z := Z.lxor z (Z.land (Z.shiftl z 15) 0xefc60000) in
  Z.lxor z (Z.shiftr z 18).

(** [operator()()] *)
Definition next_number (e : mt19937) : Z * mt19937 :=
  let '(l, p) := e in
  let '(l, p) := if (state_size <=? p)%nat then (twist state_size 0 l, 0%nat) else (l, p) in
  (temper (word l p), (l, S p)).

Fixpoint numbers (n : nat) (e : mt19937) : list Z :=
  match n with
  | O => []
  | S n' => let '(z, e) := next_number e in z :: numbers n' e
  end.

Section Random.
Context {K : Type} (random_word : K -> Z * K).

(** [std::generate(begin, end, [&] { return rd(); })] into [uint32_t]s. *)
Fixpoint generate_words (n : nat) : M K (list Z) :=
  match n with
  | O => mret []
  | S n' =>
      w ← (fun k => let '(w, k') := random_word k in (Ret w, k'));
      ws ← generate_words n';
      mret (u32 w :: ws)
  end.

Definition get_random_generator : M K mt19937 :=
  seed_data ← generate_words state_size;
  mret (mt19937_of_seed seed_data, state_size).

(** The device after [n] words. *)
Fixpoint draws (n : nat) (k : K) : list Z * K :=
  match n with
  | O => ([], k)
  | S n' => let '(w, k) := random_word k in let '(ws, k) := draws n' k in (w :: ws, k)
  end.

End Random.

(** A clock that advances by [step] nanoseconds between readings. *)
Module TickingClock.

Definition step : Z := 2500000.

#[global] Program Instance TickingClock : SteadyClock Z := {|
  now := fun k => (k + step, k + step);
  reading := fun k => k
|}.
Next Obligation. intros k. simpl. unfold step. lia. Qed.

End TickingClock.

(** ** Lemmas on the clock *)

Section ClockFacts.
Context {K : Type} `{SteadyClock K}.

(** A call after the first. *)
Lemma timestamp_ms_later (k : K) start :
  let '(t, k') := now k in
  timestamp_ms (k, Some start) = (Ret (to_milliseconds (t - start)), (k', Some start)).
Proof.
  unfold timestamp_ms, read_clock. munfold. simpl. by destruct (now k).
Qed.

Lemma timestamp_ms_first (k : K) :
  let '(start, k1) := now k in
  timestamp_ms (k, None) = timestamp_ms (k1, Some start).
Proof.
  unfold timestamp_ms, read_clock. munfold. simpl. by destruct (now k) as [start k1].
Qed.

Lemma to_milliseconds_small d : 0 <= d < 2 ^ 63 -> to_milliseconds d = d / 1000000.
Proof.
  intros Hd. unfold to_milliseconds. rewrite Z.quot_div_nonneg by lia. apply wrapu_small.
  split; [apply Z.div_pos; lia|].
  apply (Z.le_lt_trans _ d); [apply Z.div_le_upper_bound|]; lia.
Qed.

(** Readings of the clock never go back. *)
Lemma readings_sorted n : forall k : K, let '(ts, k') := readings n k in
  reading k <= reading k' /\ StronglySorted Z.le ts /\
  Forall (fun t => reading k <= t <= reading k') ts.
Proof.
  induction n as [|n IH]; intros k; simpl; [split_and!; constructor || lia|].
  pose proof (now_law k) as Hn. destruct (now k) as [t k1]. destruct Hn as [Ht Hle].
  specialize (IH k1). destruct (readings n k1) as [ts k']. destruct IH as (Hr & Hs & Hts).
  split; [lia|]. split; constructor; try done; try lia.
  - eapply Forall_impl; [exact Hts|]. simpl. lia.
  - eapply Forall_impl; [exact Hts|]. simpl. lia.
Qed.

(** Calls after the first: one reading each. *)
Lemma timestamps_later n : forall (k : K) start,
  timestamps n (k, Some start) =
    (Ret (map (fun t => to_milliseconds (t - start)) (fst (readings n k))),
     (snd (readings n k), Some start)).
Proof.
  induction n as [|n IH]; intros k start; simpl; [done|].
  pose proof (timestamp_ms_later k start) as Hf. destruct (now k) as [t k1].
  rewrite (bind_Ret _ _ _ _ _ Hf), (bind_Ret _ _ _ _ _ (IH k1 start)).
  by destruct (readings n k1).
Qed.

End ClockFacts.

(** ** Lemmas on the generator *)

Lemma generate_words_draws {K} (random_word : K -> Z * K) n : forall k,
  generate_words random_word n k =
    (Ret (map u32 (fst (draws random_word n k))), snd (draws random_word n k)).
Proof.
  induction n as [|n IH]; intros k; simpl; [done|].
  unfold mbind, M_bind at 1. destruct (random_word k) as [w k1].
  unfold M_bind. rewrite IH. by destruct (draws random_word n k1).
Qed.

(** ** Properties *)

(** C40. Any number of calls of [timestamp_ms] read the clock once more than
    they are, and each returns the whole milliseconds from the first of these
    readings to its own, in order and never going back, as long as the clock
    has run for less than [2^63] nanoseconds since.  The start is not the
    program's, as the comments say, but the clock at the first call, which
    therefore returns only the time between its own two readings. *)
Theorem timestamps_count_from_first_call {K : Type} `{SteadyClock K} n (k : K) :
  let '(start, k1) := now k in
  let '(ts, k') := readings (S n) k1 in
  reading k' - start < 2 ^ 63 ->
  let results := map (fun t => (t - start) / 1000000) ts in
  timestamps (S n) (k, None) = (Ret results, (k', Some start)) /\
  StronglySorted Z.le (0 :: results).
Proof.
  pose proof (timestamp_ms_first k) as Hf. pose proof (now_law k) as Hn.
  destruct (now k) as [start k1] eqn:E1. destruct Hn as [Hstart _].
  pose proof (timestamps_later (S n) k1 start) as Hl.
  pose proof (readings_sorted (S n) k1) as Hs.
  assert (E : timestamps (S n) (k, None) = timestamps (S n) (k1, Some start)).
  { cbn [timestamps]. unfold mbind, M_bind at 1 3. by rewrite Hf. }
  rewrite E, Hl. destruct (readings (S n) k1) as [ts k']. simpl fst. simpl snd.
  destruct Hs as (_ & Hsort & Hts). intros Hb. split.
  - do 2 f_equal. apply map_ext_in. intros t Ht. apply to_milliseconds_small.
    rewrite Forall_forall in Hts. apply list_elem_of_In in Ht. specialize (Hts t Ht). lia.
  - constructor.
    + clear -Hsort. induction Hsort as [|t ts _ IH Ht]; simpl; constructor; [done|].
      apply Forall_map. eapply Forall_impl; [exact Ht|]. intros t' Htt. apply Z.div_le_mono; lia.
    + apply Forall_map. eapply Forall_impl; [exact Hts|]. intros t [Ht _].
      apply Z.div_pos; lia.
Qed.

Lemma timestamps_count_from_first_call_witness :
  timestamps 3 (7, None) = (Ret [2; 5; 7], (7 + 4 * TickingClock.step, Some (7 + TickingClock.step))) /\
  StronglySorted Z.le [0; 2; 5; 7].
Proof. exact (timestamps_count_from_first_call 2 7 ltac:(by vm_compute)). Defined.
