(* ===== verification/ByteStream.v ===== *)
(** The flow-controlled in-memory byte stream of
    [libsponge/byte_stream.{hh,cc}], method by method, with the documented
    contract as an abstract machine and the relation between the two. *)

From S2P Require Import Prelude.

Local Open Scope Z_scope.

(** ** The class *)

(** [size_t] members of the interface are [Z]s in [0, 2^64), [int] members are
    [Z]s in the range of [int].  [m_buf] is the array the constructor
    allocates. *)
Record ByteStream : Type := mkByteStream {
  m_tail : Z;
  m_head : Z;
  m_closed : bool;
  m_buf : bytes;
  m_buf_size : Z;
  _error : bool;
  m_num_of_r : Z;
  m_num_of_w : Z
}.

(** What the constructor leaves uninitialised: the fresh array and the two
    counters, which have whatever value the memory holds. *)
Record Uninit : Type := mkUninit {
  uninit_char : nat -> byte;
  uninit_r : Z;
  uninit_w : Z
}.

Definition set_tail (v : Z) (s : ByteStream) : ByteStream :=
  mkByteStream v (m_head s) (m_closed s) (m_buf s) (m_buf_size s) (_error s)
    (m_num_of_r s) (m_num_of_w s).
Definition set_head (v : Z) (s : ByteStream) : ByteStream :=
  mkByteStream (m_tail s) v (m_closed s) (m_buf s) (m_buf_size s) (_error s)
    (m_num_of_r s) (m_num_of_w s).
Definition set_closed (v : bool) (s : ByteStream) : ByteStream :=
  mkByteStream (m_tail s) (m_head s) v (m_buf s) (m_buf_size s) (_error s)
    (m_num_of_r s) (m_num_of_w s).
Definition set_buf (v : bytes) (s : ByteStream) : ByteStream :=
  mkByteStream (m_tail s) (m_head s) (m_closed s) v (m_buf_size s) (_error s)
    (m_num_of_r s) (m_num_of_w s).
Definition set_err (v : bool) (s : ByteStream) : ByteStream :=
  mkByteStream (m_tail s) (m_head s) (m_closed s) (m_buf s) (m_buf_size s) v
    (m_num_of_r s) (m_num_of_w s).
Definition set_num_of_r (v : Z) (s : ByteStream) : ByteStream :=
  mkByteStream (m_tail s) (m_head s) (m_closed s) (m_buf s) (m_buf_size s)
    (_error s) v (m_num_of_w s).
Definition set_num_of_w (v : Z) (s : ByteStream) : ByteStream :=
  mkByteStream (m_tail s) (m_head s) (m_closed s) (m_buf s) (m_buf_size s)
    (_error s) (m_num_of_r s) v.

(** [m_buf_size=capacity+1; m_buf=new char[m_buf_size];]: the sum is a
    [size_t] converted to [int]; a negative array size throws. *)
Definition ByteStream_new (u : Uninit) (capacity : Z) : outcome ByteStream :=
  let buf_size := s32 (u64 (capacity + 1)) in
  if buf_size <? 0 then Throw bad_array_new_length
  else Ret (mkByteStream 0 0 false
              (map (uninit_char u) (seq 0 (Z.to_nat buf_size)))
              buf_size false (uninit_r u) (uninit_w u)).

Definition set_error : M ByteStream unit := modify (set_err true).

Definition input_ended (s : ByteStream) : bool := m_closed s.

Definition error (s : ByteStream) : bool := _error s.

(** The distance [r] is computed and then dropped: the method returns 0. *)
Definition buffer_size (s : ByteStream) : Z :=
  let r := m_head s - m_tail s in
  let r := if r <? 0 then r + m_buf_size s else r in
  0.

Definition buffer_empty (s : ByteStream) : bool := m_head s =? m_tail s.

Definition eof (s : ByteStream) : bool := input_ended s && buffer_empty s.

(** An [int] returned as [size_t]. *)
Definition bytes_written (s : ByteStream) : Z := u64 (m_num_of_w s).

Definition bytes_read (s : ByteStream) : Z := u64 (m_num_of_r s).

Definition remaining_capacity (s : ByteStream) : Z :=
  u64 (m_buf_size s - 1 - buffer_size s).

(** [m_buf[m_head++]=c; if (m_head>=m_buf_size) m_head=0;]: a store outside
    the array is undefined behaviour. *)
Definition store_head (c : byte) : M ByteStream unit :=
  s ← get;
  buf ← lift (match zset (m_buf s) (m_head s) c with Some b => Ret b | None => Undef end);
  modify (fun s => set_head (m_head s + 1) (set_buf buf s)) ;;;
  modify (fun s => if m_head s >=? m_buf_size s then set_head 0 s else s).

(** The loop over the first [n] characters of [data]. *)
Fixpoint write_loop (cs : bytes) : M ByteStream unit :=
  match cs with
  | [] => mret tt
  | c :: cs' => store_head c ;;; write_loop cs'
  end.

Definition write (data : bytes) : M ByteStream Z :=
  s ← get;
  if m_closed s || _error s then set_error ;;; mret 0
  else
    let n := zlen data in
    let r := remaining_capacity s in
    let n := if n >? r then r else n in
    write_loop (ztake n data) ;;;
    modify (fun s => set_num_of_w (s32 (u64 (m_num_of_w s + n))) s) ;;;
    mret n.

(** [s[i]=c] on a [std::string]: past the end it is undefined behaviour
    (at [size()] too, unless the terminator is rewritten with itself). *)
Definition string_set (str : bytes) (i : Z) (c : byte) : outcome bytes :=
  match zset str i c with
  | Some str' => Ret str'
  | None => if (i =? zlen str) && (b2z c =? 0) then Ret str else Undef
  end.

(** [reserve] leaves the string empty: the loop writes [s[i]] past its end. *)
Fixpoint peek_loop (bs : ByteStream) (str : bytes) (t i : Z) (todo : nat) : outcome bytes :=
  match todo with
  | O => Ret str
  | S todo' =>
      c ← (match znth (m_buf bs) t with Some c => Ret c | None => Undef end : outcome byte);
      str' ← string_set str i c;
      let t := t + 1 in
      let t := if t >=? m_buf_size bs then 0 else t in
      peek_loop bs str' t (i + 1) todo'
  end.

Definition peek_output (len : Z) (s : ByteStream) : outcome bytes :=
  if _error s then Ret []
  else
    let r := buffer_size s in
    let n := if len >? r then r else len in
    peek_loop s [] (m_tail s) 0 (Z.to_nat n).

Definition pop_output (len : Z) : M ByteStream unit :=
  s ← get;
  if _error s then mret tt
  else
    let r := buffer_size s in
    let n := if len >? r then r else len in
    modify (fun s => set_tail (s32 (u64 (m_tail s + n))) s) ;;;
    modify (fun s => if m_tail s >=? m_buf_size s
                     then set_tail (m_tail s - m_buf_size s) s else s) ;;;
    modify (fun s => set_num_of_r (s32 (u64 (m_num_of_r s + n))) s).

Definition read (len : Z) : M ByteStream bytes :=
  s ← get;
  ret ← lift (peek_output len s);
  pop_output len ;;;
  mret ret.

Definition end_input : M ByteStream unit := modify (set_closed true).

(** ** Runs: the calls a client can make on one stream, and what it sees *)

Inductive op : Type :=
  | Write (data : bytes)
  | Peek (len : Z)
  | Pop (len : Z)
  | Read (len : Z)
  | EndInput
  | SetError.

Inductive obs : Type :=
  | Count (n : Z)
  | Bytes (b : bytes)
  | Done.

Definition step (o : op) : M ByteStream obs :=
  match o with
  | Write d => n ← write d; mret (Count n)
  | Peek len => s ← get; b ← lift (peek_output len s); mret (Bytes b)
  | Pop len => pop_output len ;;; mret Done
  | Read len => b ← read len; mret (Bytes b)
  | EndInput => end_input ;;; mret Done
  | SetError => set_error ;;; mret Done
  end.

Fixpoint run (ops : list op) : M ByteStream (list obs) :=
  match ops with
  | [] => mret []
  | o :: ops' => r ← step o; rs ← run ops'; mret (r :: rs)
  end.

(** The bytes of the ring from [m_tail] up to [m_head], oldest first: what
    [peek_output] is documented to show. *)
Definition stored (s : ByteStream) : bytes :=
  if m_tail s <=? m_head s then ztake (m_head s - m_tail s) (zdrop (m_tail s) (m_buf s))
  else zdrop (m_tail s) (m_buf s) ++ ztake (m_head s) (m_buf s).

(** ** The documented contract ([byte_stream.hh], lines 11-92) *)

Module Contract.

(** The stream of the class comment: at most [cap] unread bytes, in order,
    ended or not, with the counters of all bytes written and popped. *)
Record stream : Type := mkStream {
  cap : Z;
  pending : bytes;
  total_written : Z;
  total_read : Z;
  ended : bool;
  failed : bool
}.

Definition new (capacity : Z) : stream := mkStream capacity [] 0 0 false false.

Definition remaining (a : stream) : Z := cap a - zlen (pending a).

Definition write (d : bytes) (a : stream) : Z * stream :=
  if ended a || failed a
  then (0, mkStream (cap a) (pending a) (total_written a) (total_read a) (ended a) true)
  else
    let n := Z.min (zlen d) (remaining a) in
    (n, mkStream (cap a) (pending a ++ ztake n d) (total_written a + n) (total_read a)
          (ended a) (failed a)).

Definition peek (len : Z) (a : stream) : bytes :=
  if failed a then [] else ztake len (pending a).

Definition pop (len : Z) (a : stream) : stream :=
  if failed a then a
  else
    let n := Z.min len (zlen (pending a)) in
    mkStream (cap a) (zdrop n (pending a)) (total_written a) (total_read a + n)
      (ended a) (failed a).

Definition end_input (a : stream) : stream :=
  mkStream (cap a) (pending a) (total_written a) (total_read a) true (failed a).

Definition set_error (a : stream) : stream :=
  mkStream (cap a) (pending a) (total_written a) (total_read a) (ended a) true.

Definition step (o : op) (a : stream) : obs * stream :=
  match o with
  | Write d => let '(n, a') := write d a in (Count n, a')
  | Peek len => (Bytes (peek len a), a)
  | Pop len => (Done, pop len a)
  | Read len => (Bytes (peek len a), pop len a)
  | EndInput => (Done, end_input a)
  | SetError => (Done, set_error a)
  end.

Fixpoint run (ops : list op) (a : stream) : list obs * stream :=
  match ops with
  | [] => ([], a)
  | o :: ops' =>
      let '(r, a1) := step o a in
      let '(rs, a2) := run ops' a1 in
      (r :: rs, a2)
  end.

End Contract.

(** ** What the code implements: a log of accepted bytes *)

Module WriteLog.

(** The state the class keeps, abstractly: everything accepted since
    construction.  Reads have no effect, and a write is limited by the
    capacity alone, never by what is stored. *)
Record log : Type := mkLog {
  limit : Z;
  accepted : bytes;
  closed : bool;
  failed : bool
}.

Definition new (limit : Z) : log := mkLog limit [] false false.

Definition write (d : bytes) (a : log) : Z * log :=
  if closed a || failed a then (0, mkLog (limit a) (accepted a) (closed a) true)
  else
    let n := Z.min (zlen d) (limit a) in
    (n, mkLog (limit a) (accepted a ++ ztake n d) (closed a) (failed a)).

Definition step (o : op) (a : log) : obs * log :=
  match o with
  | Write d => let '(n, a') := write d a in (Count n, a')
  | Peek _ | Read _ => (Bytes [], a)
  | Pop _ => (Done, a)
  | EndInput => (Done, mkLog (limit a) (accepted a) true (failed a))
  | SetError => (Done, mkLog (limit a) (accepted a) (closed a) true)
  end.

Fixpoint run (ops : list op) (a : log) : list obs * log :=
  match ops with
  | [] => ([], a)
  | o :: ops' =>
      let '(r, a1) := step o a in
      let '(rs, a2) := run ops' a1 in
      (r :: rs, a2)
  end.

End WriteLog.

(** ** Invariants and relations *)

(** The array holds the last [size] bytes of [acc], byte [j] in slot
    [j mod size]. *)
Definition ring_ok (size : Z) (buf acc : bytes) : Prop :=
  zlen buf = size /\
  forall j, 0 <= j < zlen acc -> zlen acc - size <= j ->
    znth buf (j `mod` size) = znth acc j.

(** The class invariant of every stream the constructor returns. *)
Definition wf (s : ByteStream) : Prop :=
  1 <= m_buf_size s <= INT_MAX /\
  m_tail s = 0 /\
  0 <= m_head s < m_buf_size s /\
  zlen (m_buf s) = m_buf_size s.

(** The stream implements the log [a]; [w0] and [r0] are the values the
    counters had before the first call. *)
Definition implements_log (w0 r0 : Z) (a : WriteLog.log) (s : ByteStream) : Prop :=
  0 <= WriteLog.limit a < INT_MAX /\
  m_buf_size s = WriteLog.limit a + 1 /\
  m_tail s = 0 /\
  m_head s = zlen (WriteLog.accepted a) `mod` m_buf_size s /\
  ring_ok (m_buf_size s) (m_buf s) (WriteLog.accepted a) /\
  m_closed s = WriteLog.closed a /\
  _error s = WriteLog.failed a /\
  m_num_of_w s = s32 (w0 + zlen (WriteLog.accepted a)) /\
  m_num_of_r s = r0.

(** A call of the reader side. *)
Definition reader_op (o : op) : bool :=
  match o with Pop _ | Peek _ | Read _ => true | _ => false end.

(** The [size_t] arguments of a call. *)
Definition valid_op (o : op) : bool :=
  match o with Pop len | Peek len | Read len => 0 <=? len | _ => true end.

(** The number of bytes a run offers to [write]. *)
Fixpoint offered (ops : list op) : Z :=
  match ops with
  | [] => 0
  | Write d :: ops' => zlen d + offered ops'
  | _ :: ops' => offered ops'
  end.

(** A capacity the constructor represents exactly, and counters that are
    [int]s. *)
Definition good_capacity (capacity : Z) : Prop := 0 <= capacity < INT_MAX.

Definition good_uninit (u : Uninit) : Prop :=
  - 2 ^ 31 <= uninit_w u < 2 ^ 31 /\ - 2 ^ 31 <= uninit_r u < 2 ^ 31.

(** The log and the documented stream agree as long as nothing is read and
    everything fits. *)
Definition log_contract (a : WriteLog.log) (c : Contract.stream) : Prop :=
  WriteLog.limit a = Contract.cap c /\ WriteLog.accepted a = Contract.pending c /\
  WriteLog.closed a = Contract.ended c /\ WriteLog.failed a = Contract.failed c /\
  Contract.total_written c = zlen (Contract.pending c).

(** The zero-filled memory, for concrete runs. *)
Definition zeroed : Uninit := mkUninit (fun _ => Byte.x00) 0 0.

(** A session, for concrete runs. *)
Definition demo_ops : list op :=
  [Write (lit "cat"); Peek 3; Pop 2; Write (lit "tac"); EndInput; Write (lit "x"); Read 1].

(** ** The ring *)

Lemma ring_push size buf acc c :
  0 < size -> ring_ok size buf acc ->
  exists buf', zset buf (zlen acc `mod` size) c = Some buf' /\ ring_ok size buf' (acc ++ [c]).
Proof.
  intros Hs [Hlen Hring]. pose proof (zlen_nonneg acc) as Hacc.
  pose proof (Z.mod_pos_bound (zlen acc) size Hs) as Hm.
  exists (<[Z.to_nat (zlen acc `mod` size) := c]> buf).
  assert (Hz : zset buf (zlen acc `mod` size) c =
    Some (<[Z.to_nat (zlen acc `mod` size) := c]> buf)) by (apply zset_Some; lia).
  split; [done|]. split; [by rewrite zlen_insert|].
  intros j Hj Hold. rewrite zlen_app, zlen_cons, zlen_nil in *.
  destruct (decide (j = zlen acc)) as [->|Hne].
  - rewrite (znth_zset_eq _ _ _ _ Hz), znth_app_r by lia. by rewrite Z.sub_diag.
  - rewrite (znth_zset_ne _ _ _ _ _ Hz).
    + rewrite Hring by lia. by rewrite znth_app_l by lia.
    + apply Z.mod_pos_bound. lia.
    + intros E.
      assert ((zlen acc - j) `mod` size = 0) as H0.
      { rewrite Zminus_mod, E, Z.sub_diag, Zmod_0_l. done. }
      rewrite Z.mod_small in H0; lia.
Qed.

Lemma store_head_spec s acc c :
  1 <= m_buf_size s -> m_head s = zlen acc `mod` m_buf_size s ->
  ring_ok (m_buf_size s) (m_buf s) acc ->
  exists buf', ring_ok (m_buf_size s) buf' (acc ++ [c]) /\
    store_head c s =
      (Ret tt, set_head ((zlen acc + 1) `mod` m_buf_size s) (set_buf buf' s)).
Proof.
  intros Hs Hh Hr. destruct (ring_push (m_buf_size s) _ _ c ltac:(lia) Hr) as (buf' & Hz & Hr').
  exists buf'. split; [done|].
  unfold store_head. msimpl. rewrite Hh, Hz. f_equal.
  pose proof (Z.mod_pos_bound (zlen acc) (m_buf_size s) ltac:(lia)) as Hm.
  pose proof (mod_add_step (zlen acc `mod` m_buf_size s) (m_buf_size s)
    ltac:(lia) ltac:(lia)) as Hstep.
  rewrite Zplus_mod_idemp_l in Hstep. rewrite <- Hstep. by case_match.
Qed.

Lemma write_loop_spec cs : forall s acc,
  1 <= m_buf_size s -> m_head s = zlen acc `mod` m_buf_size s ->
  ring_ok (m_buf_size s) (m_buf s) acc ->
  exists buf', ring_ok (m_buf_size s) buf' (acc ++ cs) /\
    write_loop cs s =
      (Ret tt, set_head (zlen (acc ++ cs) `mod` m_buf_size s) (set_buf buf' s)).
Proof.
  induction cs as [|c cs IH]; intros s acc Hs Hh Hr; simpl.
  - exists (m_buf s). rewrite app_nil_r. split; [done|]. rewrite <- Hh. by destruct s.
  - destruct (store_head_spec s acc c Hs Hh Hr) as (b1 & Hr1 & E1).
    erewrite bind_Ret by exact E1.
    destruct (IH (set_head ((zlen acc + 1) `mod` m_buf_size s) (set_buf b1 s)) (acc ++ [c]))
      as (b2 & Hr2 & E2); [done | by simpl; rewrite zlen_app, zlen_cons, zlen_nil | done |].
    exists b2. rewrite <- app_assoc in Hr2, E2. simpl in *. by split.
Qed.

(** ** One call *)

Lemma remaining_capacity_eq s :
  1 <= m_buf_size s <= INT_MAX -> remaining_capacity s = m_buf_size s - 1.
Proof. unfold remaining_capacity, buffer_size, INT_MAX. intros. rewrite wrapu_small; lia. Qed.

Lemma peek_output_eq len s : 0 <= len -> peek_output len s = Ret [].
Proof.
  intros Hlen. unfold peek_output, buffer_size. case_match; [done|].
  replace (Z.to_nat _) with 0%nat; [done|]. zcases.
Qed.

Lemma pop_output_eq len s :
  0 <= len -> 1 <= m_buf_size s -> m_tail s = 0 -> - 2 ^ 31 <= m_num_of_r s < 2 ^ 31 ->
  pop_output len s = (Ret tt, s).
Proof.
  intros Hlen Hsz Ht Hr. unfold pop_output, buffer_size. msimpl.
  destruct (_error s) eqn:Ee; [done|].
  replace (if len >? 0 then 0 else len) with 0 by zcases.
  rewrite !s32_u64, !Z.add_0_r, Ht, (s32_small 0) by lia. simpl. zcases.
  destruct s; simpl in *; subst. by rewrite s32_small by lia.
Qed.

Lemma read_eq len s :
  0 <= len -> 1 <= m_buf_size s -> m_tail s = 0 -> - 2 ^ 31 <= m_num_of_r s < 2 ^ 31 ->
  read len s = (Ret [], s).
Proof.
  intros. unfold read. msimpl. rewrite peek_output_eq by done.
  by rewrite pop_output_eq by done.
Qed.

Lemma write_rejected d s :
  m_closed s || _error s = true -> write d s = (Ret 0, set_err true s).
Proof. intros H. unfold write. msimpl. by rewrite H. Qed.

Lemma write_accepted d s acc :
  1 <= m_buf_size s <= INT_MAX -> m_head s = zlen acc `mod` m_buf_size s ->
  ring_ok (m_buf_size s) (m_buf s) acc -> m_closed s || _error s = false ->
  let n := Z.min (zlen d) (m_buf_size s - 1) in
  let acc' := acc ++ ztake n d in
  exists buf', ring_ok (m_buf_size s) buf' acc' /\
    write d s = (Ret n, set_num_of_w (s32 (m_num_of_w s + n))
                          (set_head (zlen acc' `mod` m_buf_size s) (set_buf buf' s))).
Proof.
  intros Hsz Hh Hr Hopen n acc'. unfold write. msimpl. rewrite Hopen.
  rewrite remaining_capacity_eq by done.
  replace (if zlen d >? m_buf_size s - 1 then m_buf_size s - 1 else zlen d) with n
    by (subst n; zcases).
  destruct (write_loop_spec (ztake n d) s acc ltac:(lia) Hh Hr) as (buf' & Hr' & E).
  exists buf'. split; [done|]. rewrite E. simpl. by rewrite s32_u64.
Qed.

(** ** Construction *)

Lemma ByteStream_new_ok u capacity : good_capacity capacity ->
  exists buf, zlen buf = capacity + 1 /\
    ByteStream_new u capacity =
      Ret (mkByteStream 0 0 false buf (capacity + 1) false (uninit_r u) (uninit_w u)).
Proof.
  unfold good_capacity, ByteStream_new, INT_MAX. intros H.
  rewrite s32_u64, s32_small by lia. zcases.
  eexists. split; [|done]. unfold zlen. rewrite length_map, length_seq. lia.
Qed.

Lemma implements_log_new u capacity s :
  good_capacity capacity -> good_uninit u -> ByteStream_new u capacity = Ret s ->
  implements_log (uninit_w u) (uninit_r u) (WriteLog.new capacity) s.
Proof.
  intros Hc [Hw Hr] E. destruct (ByteStream_new_ok u capacity Hc) as (buf & Hl & E').
  rewrite E in E'. simplify_eq. unfold good_capacity in Hc.
  unfold implements_log, ring_ok; simpl.
  change (zlen (@nil byte)) with 0. rewrite Zmod_0_l, Z.add_0_r, s32_small by lia.
  split_and!; auto; intros; lia.
Qed.

(** ** The log is what the class implements *)

Lemma step_simulates w0 r0 a s o :
  - 2 ^ 31 <= r0 < 2 ^ 31 -> valid_op o -> implements_log w0 r0 a s ->
  exists s', step o s = (Ret (fst (WriteLog.step o a)), s') /\
    implements_log w0 r0 (snd (WriteLog.step o a)) s'.
Proof.
  intros Hr0 Hval (Hlim & Hsz & Ht & Hh & Hring & Hcl & Herr & Hw & Hr).
  destruct o as [d|len|len|len| |]; simpl step; simpl in Hval;
    rewrite ?Is_true_true, ?Z.leb_le in Hval; msimpl.
  - unfold WriteLog.write. destruct (WriteLog.closed a || WriteLog.failed a) eqn:Hc.
    + rewrite write_rejected by (by rewrite Hcl, Herr). eexists. split; [done|].
      unfold implements_log; simpl. splits.
    + destruct (write_accepted d s (WriteLog.accepted a)) as (buf' & Hr' & E);
        [lia | done | done | by rewrite Hcl, Herr |].
      replace (m_buf_size s - 1) with (WriteLog.limit a) in * by lia.
      rewrite E. eexists. split; [done|].
      unfold implements_log; simpl. splits.
      zlens. rewrite Hw, s32_add_l. znorm. f_equal. lia.
  - rewrite peek_output_eq by done. eexists. split; [done|]. splits.
  - rewrite pop_output_eq by lia. eexists. split; [done|]. splits.
  - rewrite read_eq by lia. eexists. split; [done|]. splits.
  - eexists. split; [done|]. unfold implements_log; simpl. splits.
  - eexists. split; [done|]. unfold implements_log; simpl. splits.
Qed.

Lemma run_simulates w0 r0 ops : forall a s,
  - 2 ^ 31 <= r0 < 2 ^ 31 -> forallb valid_op ops -> implements_log w0 r0 a s ->
  exists s', run ops s = (Ret (fst (WriteLog.run ops a)), s') /\
    implements_log w0 r0 (snd (WriteLog.run ops a)) s'.
Proof.
  induction ops as [|o ops IH]; intros a s Hr0 Hval Hs; simpl run.
  - exists s. done.
  - simpl in Hval. apply andb_prop_elim in Hval as [Ho Hops].
    destruct (step_simulates w0 r0 a s o Hr0 Ho Hs) as (s1 & E1 & H1).
    destruct (IH _ _ Hr0 Hops H1) as (s2 & E2 & H2).
    exists s2. erewrite bind_Ret by exact E1. erewrite bind_Ret by exact E2.
    simpl WriteLog.run. destruct (WriteLog.step o a) as [r a1]. simpl in *.
    by destruct (WriteLog.run ops a1).
Qed.

(** The simulation from the constructor on. *)
Lemma run_from_new u capacity s ops :
  good_capacity capacity -> good_uninit u -> forallb valid_op ops ->
  ByteStream_new u capacity = Ret s ->
  let '(rs, a) := WriteLog.run ops (WriteLog.new capacity) in
  exists s', run ops s = (Ret rs, s') /\ implements_log (uninit_w u) (uninit_r u) a s'.
Proof.
  intros Hc Hu Hval E.
  destruct (run_simulates (uninit_w u) (uninit_r u) ops (WriteLog.new capacity) s)
    as (s' & Hrun & H); [apply Hu | done | by apply implements_log_new |].
  destruct (WriteLog.run ops (WriteLog.new capacity)). eauto.
Qed.

Lemma log_limit ops : forall a, WriteLog.limit (snd (WriteLog.run ops a)) = WriteLog.limit a.
Proof.
  induction ops as [|o ops IH]; intros a; simpl; [done|].
  destruct (WriteLog.step o a) as [r a1] eqn:E. specialize (IH a1).
  destruct (WriteLog.run ops a1). simpl in *. rewrite IH. clear IH.
  destruct o; simpl in E; unfold WriteLog.write in E; repeat case_match;
    by simplify_eq/=.
Qed.

(** ** What is stored *)

Lemma list_eq_znth {A} (l1 l2 : list A) :
  zlen l1 = zlen l2 -> (forall j, 0 <= j < zlen l1 -> znth l1 j = znth l2 j) -> l1 = l2.
Proof.
  intros Hl H. apply list_eq. intros i.
  destruct (decide (Z.of_nat i < zlen l1)) as [Hi|Hi].
  - specialize (H (Z.of_nat i) ltac:(lia)). unfold znth in H.
    destruct (Z.leb_spec 0 (Z.of_nat i)); [|lia]. by rewrite Nat2Z.id in H.
  - unfold zlen in *. rewrite !lookup_ge_None_2 by lia. done.
Qed.

Lemma znth_ztake {A} (n j : Z) (l : list A) : 0 <= j < n -> znth (ztake n l) j = znth l j.
Proof. intros. unfold znth, ztake. zcases. apply lookup_take_lt. lia. Qed.

Lemma znth_zdrop {A} (n j : Z) (l : list A) : 0 <= j -> 0 <= n ->
  znth (zdrop n l) j = znth l (n + j).
Proof.
  intros. unfold znth, zdrop. zcases. rewrite lookup_drop. f_equal. lia.
Qed.

(** The slots below [m_head] hold the end of the log, from the last multiple
    of the array size on. *)
Lemma stored_of_log w0 r0 a s : implements_log w0 r0 a s ->
  stored s = zdrop (zlen (WriteLog.accepted a) - m_head s) (WriteLog.accepted a).
Proof.
  intros (Hlim & Hsz & Ht & Hh & [Hbl Hring] & _).
  set (acc := WriteLog.accepted a) in *. zlens.
  pose proof (Z.mod_pos_bound (zlen acc) (m_buf_size s) ltac:(lia)) as Hm.
  pose proof (Z.mod_le (zlen acc) (m_buf_size s) ltac:(lia) ltac:(lia)) as Hle.
  unfold stored. rewrite Ht. zcases. rewrite Z.sub_0_r, zdrop_0.
  apply list_eq_znth; [znorm; lia|]. znorm. intros j Hj.
  rewrite znth_ztake, znth_zdrop by lia. rewrite <- Hring by lia. f_equal.
  replace (zlen acc - m_head s + j) with (j + zlen acc / m_buf_size s * m_buf_size s).
  - by rewrite Z_mod_plus_full, Z.mod_small by lia.
  - rewrite Hh, Z.mod_eq; lia.
Qed.

(** ** The writer's side of the contract *)

Lemma log_contract_run ops : forall a c,
  forallb (fun o => negb (reader_op o)) ops -> log_contract a c ->
  zlen (Contract.pending c) + offered ops <= Contract.cap c ->
  fst (WriteLog.run ops a) = fst (Contract.run ops c) /\
  log_contract (snd (WriteLog.run ops a)) (snd (Contract.run ops c)) /\
  zlen (Contract.pending (snd (Contract.run ops c))) <=
    Contract.cap (snd (Contract.run ops c)).
Proof.
  assert (Hoff : forall ops, 0 <= offered ops)
    by (clear; induction ops as [|[] ? ?]; simpl; zlia).
  induction ops as [|o ops IH]; intros a c Hw Hac Hle.
  { simpl in *. splits. }
  simpl in Hw. apply andb_prop_elim in Hw as [Ho Hops].
  enough (exists r a1 c1, WriteLog.step o a = (r, a1) /\ Contract.step o c = (r, c1) /\
    log_contract a1 c1 /\ Contract.cap c1 = Contract.cap c /\
    zlen (Contract.pending c1) + offered ops <= Contract.cap c) as
    (r & a1 & c1 & E1 & E2 & H1 & Hcap & Hle1).
  { simpl. rewrite E1, E2. rewrite <- Hcap in Hle1.
    destruct (IH a1 c1 Hops H1 Hle1) as (F1 & F2 & F3).
    destruct (WriteLog.run ops a1), (Contract.run ops c1). simpl in *.
    subst. splits. }
  destruct Hac as (A1 & A2 & A3 & A4 & A5).
  destruct o as [d|len|len|len| |]; simpl in Ho, Hle |- *; try done; zlens.
  2-3: do 3 eexists; split; [done|]; split; [done|]; unfold log_contract; simpl; splits.
  specialize (Hoff ops). unfold WriteLog.write, Contract.write, Contract.remaining.
  rewrite A3, A4. destruct (Contract.ended c || Contract.failed c).
  - do 3 eexists. split; [done|]. split; [done|]. unfold log_contract; simpl. splits.
  - rewrite A1, !Z.min_l by lia. do 3 eexists. split; [done|]. split; [done|].
    rewrite ztake_all by lia. unfold log_contract; simpl. rewrite A2. znorm. splits.
Qed.

(** The contract counts no bytes read where nothing is read. *)
Lemma contract_reads_nothing ops : forall c, forallb (fun o => negb (reader_op o)) ops ->
  Contract.total_read (snd (Contract.run ops c)) = Contract.total_read c /\
  Contract.cap (snd (Contract.run ops c)) = Contract.cap c.
Proof.
  induction ops as [|o ops IH]; intros c Hw; [done|].
  simpl in Hw. apply andb_prop_elim in Hw as [Ho Hops]. simpl.
  destruct (Contract.step o c) as [r c1] eqn:E. specialize (IH c1 Hops).
  destruct (Contract.run ops c1). simpl in *. destruct IH as [-> ->].
  destruct o; simpl in Ho, E; try done; unfold Contract.write in E; repeat case_match; by simplify_eq/=.
Qed.

(** ** Capacities *)

(** An array of no bytes: the stream claims room for [SIZE_MAX], and the
    first store is outside it. *)
Lemma empty_array_write u capacity d :
  (capacity + 1) `mod` 2 ^ 32 = 0 -> 0 < zlen d <= SIZE_MAX ->
  exists s, ByteStream_new u capacity = Ret s /\
    remaining_capacity s = SIZE_MAX /\ result (write d) s = Undef.
Proof.
  unfold SIZE_MAX. intros Hm Hd. unfold ByteStream_new.
  assert (s32 (u64 (capacity + 1)) = 0) as ->.
  { rewrite s32_u64. transitivity (s32 0); [|done]. apply s32_cong. by rewrite Hm. }
  simpl. eexists. split; [done|]. split; [done|].
  unfold write. msimpl. unfold remaining_capacity, buffer_size; simpl.
  change (u64 (0 - 1 - 0)) with (2 ^ 64 - 1). zcases.
  rewrite ztake_all by lia. destruct d as [|c d]; [unfold zlen in Hd; simpl in Hd; lia|].
  reflexivity.
Qed.

(** The constructor throws on a negative array size, and otherwise the
    capacity is reported if it was not truncated. *)
Lemma capacity_reported u capacity :
  0 <= capacity <= SIZE_MAX ->
  (ByteStream_new u capacity = Throw bad_array_new_length <->
     2 ^ 31 <= (capacity + 1) `mod` 2 ^ 32) /\
  (forall s, ByteStream_new u capacity = Ret s ->
     remaining_capacity s = capacity <-> capacity < INT_MAX \/ capacity = SIZE_MAX).
Proof.
  unfold SIZE_MAX, INT_MAX. intros Hc. unfold ByteStream_new. rewrite s32_u64.
  pose proof (s32_eqm (capacity + 1)) as Hq. pose proof (s32_range (capacity + 1)) as Hr.
  set (b := s32 (capacity + 1)) in *.
  assert (Hb : b < 0 /\ 2 ^ 31 <= (capacity + 1) `mod` 2 ^ 32 \/
    0 <= b /\ b = (capacity + 1) `mod` 2 ^ 32).
  { rewrite <- Hq. destruct (decide (b < 0)) as [Hn|Hn]; [left | right]; split; try lia.
    - rewrite <- (Z_mod_plus_full b 1), Z.mod_small; lia.
    - rewrite Z.mod_small; lia. }
  split; [zcases; split; intros; try done; lia|].
  intros s. zcases; intros [= <-]. unfold remaining_capacity, buffer_size; simpl.
  destruct Hb as [|[_ Hb]]; [lia|].
  destruct (decide (b = 0)) as [E0|Hn0].
  - rewrite E0. change (u64 (0 - 1 - 0)) with (2 ^ 64 - 1).
    split; [lia|]. intros [Hlt|]; [|lia].
    rewrite E0, Z.mod_small in Hb; lia.
  - rewrite wrapu_small by lia. split; [lia|].
    intros [Hlt|Hm]; [rewrite Z.mod_small in Hb; lia|].
    exfalso. apply Hn0. by rewrite Hb, Hm.
Qed.

(** ** Properties *)

(** C11. Functional behaviour of every method, composed: from a constructor
    call with a representable capacity, every sequence of calls returns
    without undefined behaviour exactly what the log machine returns (a write
    accepts [min(|data|, capacity)] bytes whatever is stored, reads return
    the empty string), and the final ring, indices, flags and counters are
    those of the log. *)
Theorem run_refines_log u capacity s ops :
  good_capacity capacity -> good_uninit u -> forallb valid_op ops ->
  ByteStream_new u capacity = Ret s ->
  exists s', run ops s = (Ret (fst (WriteLog.run ops (WriteLog.new capacity))), s') /\
    implements_log (uninit_w u) (uninit_r u)
      (snd (WriteLog.run ops (WriteLog.new capacity))) s'.
Proof.
  intros Hc Hu Hval E. apply run_simulates; [apply Hu | done | by apply implements_log_new].
Qed.

Lemma run_refines_log_witness :
  exists s s', ByteStream_new zeroed 2 = Ret s /\
    run demo_ops s = (Ret (fst (WriteLog.run demo_ops (WriteLog.new 2))), s').
Proof.
  destruct (run_refines_log zeroed 2 (mkByteStream 0 0 false [Byte.x00; Byte.x00; Byte.x00] 3 false 0 0)
    demo_ops ltac:(unfold good_capacity, INT_MAX; lia) ltac:(unfold good_uninit; simpl; lia)
    ltac:(vm_compute; exact I) eq_refl) as (s' & E & _).
  eexists. exists s'. split; [reflexivity | exact E].
Defined.

(** C12. Refinement of the documented contract, writer's side: if nothing is
    read and what is offered fits the capacity, every call returns what the
    contract says, and what is stored between [m_tail] and [m_head], the
    emptiness and end-of-file tests and the flags are the contract's.  The
    byte counts are the contract's only if the memory of the object held zeros
    when it was constructed: in general the count of writes is the contract's
    on top of what the memory held, as an [int], and the count of reads is what
    the memory held. *)
Theorem writer_refines_contract u capacity s ops :
  good_capacity capacity -> good_uninit u ->
  forallb (fun o => negb (reader_op o)) ops -> offered ops <= capacity ->
  ByteStream_new u capacity = Ret s ->
  let '(rs, c') := Contract.run ops (Contract.new capacity) in
  exists s', run ops s = (Ret rs, s') /\
    stored s' = Contract.pending c' /\
    buffer_empty s' = bool_decide (Contract.pending c' = []) /\
    eof s' = Contract.ended c' && bool_decide (Contract.pending c' = []) /\
    error s' = Contract.failed c' /\
    bytes_written s' = u64 (s32 (uninit_w u + Contract.total_written c')) /\
    bytes_read s' = u64 (uninit_r u) /\
    (uninit_w u = 0 -> bytes_written s' = Contract.total_written c') /\
    (uninit_r u = 0 -> bytes_read s' = Contract.total_read c').
Proof.
  intros Hc Hu Hw Hoff E.
  assert (Hval : forallb valid_op ops).
  { clear -Hw. induction ops as [|[] ops IH]; simpl in *; try done; auto. }
  pose proof (run_from_new u capacity s ops Hc Hu Hval E) as Hrun.
  destruct (log_contract_run ops (WriteLog.new capacity) (Contract.new capacity))
    as (F1 & (G1 & G2 & G3 & G4 & G5) & F3); [done | done | by (simpl; znorm) |].
  pose proof (contract_reads_nothing ops (Contract.new capacity) Hw) as [Hread Hcap].
  destruct (WriteLog.run ops (WriteLog.new capacity)) as [rs a].
  destruct (Contract.run ops (Contract.new capacity)) as [rs' c']. simpl in *. subst rs'.
  destruct Hrun as (s' & Erun & H). pose proof (stored_of_log _ _ _ _ H) as Hst.
  destruct H as (Hlim & Hsz & Ht & Hh & Hring & Hcl & Herr & Hnw & Hnr).
  assert (Hhead : m_head s' = zlen (Contract.pending c')).
  { rewrite Hh, G2. apply Z.mod_small. zlia. }
  assert (Hemp : buffer_empty s' = bool_decide (Contract.pending c' = [])).
  { unfold buffer_empty. rewrite Ht, Hhead. case_bool_decide as Hp.
    - by rewrite Hp.
    - apply Z.eqb_neq. intros E0. by apply zlen_0 in E0. }
  exists s'. split_and!; try done.
  - rewrite Hst, G2, Hhead, Z.sub_diag. done.
  - unfold eof, input_ended. by rewrite Hcl, G3, Hemp.
  - unfold error. by rewrite Herr.
  - unfold bytes_written. by rewrite Hnw, G2, G5.
  - unfold bytes_read. by rewrite Hnr.
  - intros Hz. unfold bytes_written. rewrite Hnw, Hz, G2, G5.
    unfold good_capacity, INT_MAX in Hc. zlens. rewrite s32_small by lia. apply wrapu_small; lia.
  - intros Hz. unfold bytes_read. rewrite Hnr, Hz, Hread. done.
Qed.

Lemma writer_refines_contract_witness :
  exists s s', ByteStream_new zeroed 3 = Ret s /\
    run [Write (lit "ca"); Write (lit "t"); EndInput] s = (Ret [Count 2; Count 1; Done], s') /\
    stored s' = lit "cat".
Proof.
  destruct (writer_refines_contract zeroed 3
    (mkByteStream 0 0 false [Byte.x00; Byte.x00; Byte.x00; Byte.x00] 4 false 0 0)
    [Write (lit "ca"); Write (lit "t"); EndInput]
    ltac:(unfold good_capacity, INT_MAX; lia) ltac:(unfold good_uninit; simpl; lia)
    ltac:(vm_compute; exact I) ltac:(vm_compute; discriminate) eq_refl) as (s' & E & H & _).
  eexists. exists s'. split; [reflexivity | split; [exact E | exact H]].
Defined.

(** C22. What survives in the stream after any run: the bytes between
    [m_tail] and [m_head] are the last [n mod (capacity+1)] of the [n] bytes
    accepted, because a write never looks at what is stored: each time the
    ring fills, everything unread is lost. *)
Theorem stored_after_run u capacity s ops :
  good_capacity capacity -> good_uninit u -> forallb valid_op ops ->
  ByteStream_new u capacity = Ret s ->
  exists rs s', run ops s = (Ret rs, s') /\
    let acc := WriteLog.accepted (snd (WriteLog.run ops (WriteLog.new capacity))) in
    stored s' = zdrop (zlen acc - zlen acc `mod` (capacity + 1)) acc.
Proof.
  intros Hc Hu Hval E. pose proof (run_from_new u capacity s ops Hc Hu Hval E) as H.
  pose proof (log_limit ops (WriteLog.new capacity)) as Hlim.
  destruct (WriteLog.run ops (WriteLog.new capacity)) as [rs a].
  destruct H as (s' & Hrun & H). exists rs, s'. split; [done|]. simpl in *.
  rewrite (stored_of_log _ _ _ _ H). destruct H as (_ & Hsz & _ & -> & _).
  by rewrite Hsz, Hlim.
Qed.

(** Writing five bytes, then three more, into a stream of capacity 5: two
    bytes are left of the eight accepted. *)
Lemma stored_after_run_witness :
  exists s rs s', ByteStream_new zeroed 5 = Ret s /\
    run [Write (lit "abcde"); Write (lit "fgh")] s = (Ret rs, s') /\ stored s' = lit "gh".
Proof.
  destruct (stored_after_run zeroed 5
    (mkByteStream 0 0 false (replicate 6 Byte.x00) 6 false 0 0)
    [Write (lit "abcde"); Write (lit "fgh")]
    ltac:(unfold good_capacity, INT_MAX; lia) ltac:(unfold good_uninit; simpl; lia)
    ltac:(vm_compute; exact I) eq_refl) as (rs & s' & E & H).
  eexists. exists rs, s'. split; [reflexivity | split; [exact E | exact H]].
Defined.

(** [eof] after any run: it holds exactly when the input was ended and
    the number of bytes accepted is a multiple of [capacity+1], so it can
    hold with every byte unread. *)
Theorem eof_iff_wrapped u capacity s ops :
  good_capacity capacity -> good_uninit u -> forallb valid_op ops ->
  ByteStream_new u capacity = Ret s ->
  exists rs s', run ops s = (Ret rs, s') /\
    let a := snd (WriteLog.run ops (WriteLog.new capacity)) in
    (eof s' = true <->
      WriteLog.closed a = true /\ (capacity + 1 | zlen (WriteLog.accepted a))).
Proof.
  intros Hc Hu Hval E. pose proof (run_from_new u capacity s ops Hc Hu Hval E) as H.
  pose proof (log_limit ops (WriteLog.new capacity)) as Hlim.
  destruct (WriteLog.run ops (WriteLog.new capacity)) as [rs a].
  destruct H as (s' & Hrun & H). exists rs, s'. split; [done|]. simpl in *.
  destruct H as (Hl & Hsz & Ht & Hh & _ & Hcl & _).
  unfold eof, input_ended, buffer_empty. rewrite andb_true_iff, Z.eqb_eq.
  rewrite Hcl, Ht, Hh, Hsz, Hlim, Z.mod_divide by lia. done.
Qed.

(** Three unread bytes in a stream of capacity 2: at end of file. *)
Lemma eof_iff_wrapped_witness :
  exists s rs s', ByteStream_new zeroed 2 = Ret s /\
    run [Write (lit "ca"); Write (lit "t"); EndInput] s = (Ret rs, s') /\ eof s' = true.
Proof.
  destruct (eof_iff_wrapped zeroed 2 (mkByteStream 0 0 false (replicate 3 Byte.x00) 3 false 0 0)
    [Write (lit "ca"); Write (lit "t"); EndInput]
    ltac:(unfold good_capacity, INT_MAX; lia) ltac:(unfold good_uninit; simpl; lia)
    ltac:(vm_compute; exact I) eq_refl) as (rs & s' & E & H).
  eexists. exists rs, s'. split; [reflexivity|]. split; [exact E|].
  apply H. split; [reflexivity | exists 1; reflexivity].
Defined.

(** C23. The reader's side departs from the contract on every stream that
    holds something: whenever bytes are stored and no error is set, asking
    for [len > 0] of them shows none, popping them removes none, and
    [buffer_size] and [remaining_capacity] ignore them. *)
Theorem reader_departs_from_contract s c len :
  wf s -> - 2 ^ 31 <= m_num_of_r s < 2 ^ 31 -> error s = false ->
  stored s = Contract.pending c -> Contract.failed c = false ->
  m_buf_size s = Contract.cap c + 1 -> stored s <> [] -> 0 < len ->
  peek_output len s = Ret [] /\ Contract.peek len c <> [] /\
  pop_output len s = (Ret tt, s) /\ stored s <> Contract.pending (Contract.pop len c) /\
  buffer_size s = 0 /\ 0 < zlen (Contract.pending c) /\
  remaining_capacity s <> Contract.remaining c.
Proof.
  intros (Hsz & Ht & Hh & Hl) Hr _ Hst Hf Hcap Hne Hlen.
  assert (Hpos : 0 < zlen (Contract.pending c)).
  { rewrite <- Hst. destruct (stored s); [done|]. rewrite zlen_cons. zlia. }
  split_and!; [apply peek_output_eq; lia | | apply pop_output_eq; lia | | done | done |].
  - unfold Contract.peek. rewrite Hf. intros E%(f_equal zlen). znorm. lia.
  - unfold Contract.pop. rewrite Hf, Hst. simpl. intros E%(f_equal zlen). znorm. lia.
  - rewrite remaining_capacity_eq by done. unfold Contract.remaining. lia.
Qed.

Lemma reader_departs_from_contract_witness :
  peek_output 3 (mkByteStream 0 3 false (lit "cat?") 4 false 0 3) = Ret [].
Proof.
  apply (reader_departs_from_contract (mkByteStream 0 3 false (lit "cat?") 4 false 0 3)
    (Contract.mkStream 3 (lit "cat") 3 0 false false) 3);
    try (vm_compute; split_and!; congruence); try reflexivity;
    unfold wf, INT_MAX; simpl; try done; lia.
Defined.

(** C37. Capacities: the constructor throws exactly when [capacity+1] reduced
    to an [int] is negative; otherwise the stream reports its capacity
    exactly when it is below [INT_MAX] or is [SIZE_MAX], every other one
    being truncated to 31 bits.  When [capacity+1] is a multiple of [2^32]
    ([SIZE_MAX] is one such capacity), the array has no bytes and the stream
    claims room for [SIZE_MAX]: writing anything to it is undefined
    behaviour. *)
Theorem capacity_representable u capacity :
  0 <= capacity <= SIZE_MAX ->
  (ByteStream_new u capacity = Throw bad_array_new_length <->
     2 ^ 31 <= (capacity + 1) `mod` 2 ^ 32) /\
  (forall s, ByteStream_new u capacity = Ret s ->
     remaining_capacity s = capacity <-> capacity < INT_MAX \/ capacity = SIZE_MAX) /\
  ((capacity + 1) `mod` 2 ^ 32 = 0 -> forall d, 0 < zlen d <= SIZE_MAX ->
     exists s, ByteStream_new u capacity = Ret s /\
       remaining_capacity s = SIZE_MAX /\ result (write d) s = Undef).
Proof.
  intros Hc. destruct (capacity_reported u capacity Hc) as [H1 H2]. split_and!; [done..|].
  intros Hm d Hd. by apply empty_array_write.
Qed.

Lemma capacity_representable_witness :
  ByteStream_new zeroed (2 ^ 32 - 2) = Throw bad_array_new_length /\
  remaining_capacity (mkByteStream 0 0 false [Byte.x00; Byte.x00] 2 false 0 0) <> 2 ^ 32 + 1 /\
  exists s, ByteStream_new zeroed SIZE_MAX = Ret s /\
    remaining_capacity s = SIZE_MAX /\ result (write (lit "x")) s = Undef.
Proof.
  split; [|split].
  - apply (capacity_representable zeroed (2 ^ 32 - 2)); [by unfold SIZE_MAX | by vm_compute].
  - intros E.
    destruct (capacity_representable zeroed (2 ^ 32 + 1)) as (_ & H & _); [by unfold SIZE_MAX|].
    apply H in E; [|reflexivity]. by destruct E.
  - apply (capacity_representable zeroed SIZE_MAX); by vm_compute.
Defined.

(** The write counter: the constructor does not initialise it, so after
    any run accepting fewer than [2^31] bytes it is the number of bytes
    accepted exactly when the memory happened to hold 0. *)
Theorem bytes_written_needs_zeroed_memory u capacity s ops :
  good_capacity capacity -> good_uninit u -> forallb valid_op ops ->
  ByteStream_new u capacity = Ret s ->
  zlen (WriteLog.accepted (snd (WriteLog.run ops (WriteLog.new capacity)))) <= INT_MAX ->
  exists rs s', run ops s = (Ret rs, s') /\
    (bytes_written s' =
       zlen (WriteLog.accepted (snd (WriteLog.run ops (WriteLog.new capacity)))) <->
     uninit_w u = 0).
Proof.
  unfold INT_MAX. intros Hc Hu Hval E Hle.
  pose proof (run_from_new u capacity s ops Hc Hu Hval E) as H.
  destruct (WriteLog.run ops (WriteLog.new capacity)) as [rs a]. simpl in *.
  destruct H as (s' & Hrun & H). exists rs, s'. split; [done|].
  destruct H as (_ & _ & _ & _ & _ & _ & _ & Hw & _).
  destruct Hu as [Hu _]. unfold bytes_written. rewrite Hw. zlens.
  set (n := zlen (WriteLog.accepted a)) in *.
  pose proof (s32_range (uninit_w u + n)) as Hr. split.
  - intros Hb. assert (s32 (uninit_w u + n) = n) as Hn.
    { unfold wrapu in Hb.
      destruct (decide (s32 (uninit_w u + n) < 0)) as [Hneg|Hpos].
      - rewrite <- (Z_mod_plus_full _ 1), Z.mod_small in Hb; lia.
      - rewrite Z.mod_small in Hb; lia. }
    unfold s32 in Hn. revert Hn.
    assert (Hq : uninit_w u + n + 2 ^ 31 < 2 ^ 32 \/ 2 ^ 32 <= uninit_w u + n + 2 ^ 31) by lia.
    destruct Hq.
    + rewrite Z.mod_small; lia.
    + rewrite <- (Z_mod_plus_full _ (-1)), Z.mod_small; lia.
  - intros ->. rewrite Z.add_0_l, s32_small, wrapu_small; lia.
Qed.

Lemma bytes_written_needs_zeroed_memory_witness :
  exists s rs s', ByteStream_new (mkUninit (fun _ => Byte.x00) 0 7) 5 = Ret s /\
    run [Write (lit "cat")] s = (Ret rs, s') /\ bytes_written s' <> 3.
Proof.
  destruct (bytes_written_needs_zeroed_memory (mkUninit (fun _ => Byte.x00) 0 7) 5
    (mkByteStream 0 0 false (replicate 6 Byte.x00) 6 false 0 7) [Write (lit "cat")]
    ltac:(unfold good_capacity, INT_MAX; lia) ltac:(unfold good_uninit; simpl; lia)
    ltac:(vm_compute; exact I) eq_refl ltac:(vm_compute; congruence)) as (rs & s' & E & H).
  eexists. exists rs, s'. split; [reflexivity|]. split; [exact E|].
  intros Hb. apply H in Hb. discriminate Hb.
Defined.
