(* ===== verification/StreamStore.v ===== *)
(** [ByteStream] objects as they are in memory: [m_buf] is a pointer to an
    array that the constructor of [libsponge/byte_stream.cc] allocates, that
    the implicit copy constructor and assignment of the class copy as a
    pointer, and that its implicit destructor does not free. *)

From S2P Require Import Prelude ByteStream.

Local Open Scope Z_scope.

(** ** Objects and arrays *)

(** [m_buf], and the other members; those have no array of their own. *)
Record object : Type := mkObject { pointer : positive; members : ByteStream }.

(** The arrays [new char[]] has made, and the variables of a program, each
    until its scope ends. *)
Record Store : Type := mkStore {
  arrays : gmap positive bytes;
  next_array : positive;
  variables : list (option object)
}.

Definition start : Store := mkStore ∅ 1%positive [].

(** A program on streams: variable [i] is the [i]-th declared.  A constructor
    that throws leaves a variable that cannot be used. *)
Inductive stream_op : Type :=
  | Construct (u : Uninit) (capacity : Z)
  | CopyConstruct (i : nat)
  | CopyAssign (i j : nat)
  | Call (i : nat) (o : op)
  | EndOfScope (i : nat).

Inductive stream_obs : Type :=
  | Made
  | Nothing
  | Seen (o : obs).

Definition variable (i : nat) : M Store object :=
  s ← get; match variables s !! i with Some (Some o) => mret o | _ => undefined end.

Definition declare (o : option object) : M Store unit :=
  modify (fun s => mkStore (arrays s) (next_array s) (variables s ++ [o])).

Definition assign (i : nat) (o : option object) : M Store unit :=
  modify (fun s => mkStore (arrays s) (next_array s) (<[i := o]> (variables s))).

(** [ByteStream(capacity)]: the array is new. *)
Definition construct (u : Uninit) (capacity : Z) : M Store unit :=
  match ByteStream_new u capacity with
  | Ret b =>
      s ← get;
      modify (fun s => mkStore (<[next_array s := m_buf b]> (arrays s)) (Pos.succ (next_array s))
                         (variables s)) ;;;
      declare (Some (mkObject (next_array s) (set_buf [] b)))
  | Throw e => declare None ;;; throw e
  | Undef => undefined
  | NoFuel => out_of_fuel
  end.

(** A method of [variable i], which finds its array where [m_buf] points. *)
Definition method {A} (i : nat) (m : M ByteStream A) : M Store A :=
  o ← variable i;
  s ← get;
  match arrays s !! pointer o with
  | None => undefined
  | Some array =>
      let '(r, b) := m (set_buf array (members o)) in
      modify (fun s => mkStore (<[pointer o := m_buf b]> (arrays s)) (next_array s) (variables s)) ;;;
      assign i (Some (mkObject (pointer o) (set_buf [] b))) ;;;
      lift r
  end.

Definition stream_step (o : stream_op) : M Store stream_obs :=
  match o with
  | Construct u capacity => construct u capacity ;;; mret Made
  | CopyConstruct i => o ← variable i; declare (Some o) ;;; mret Nothing
  | CopyAssign i j => _ ← variable i; o ← variable j; assign i (Some o) ;;; mret Nothing
  | Call i o => r ← method i (step o); mret (Seen r)
  | EndOfScope i => _ ← variable i; assign i None ;;; mret Nothing
  end.

(** The same program where a stream is a value with an array of its own. *)
Definition value (i : nat) : M (list (option ByteStream)) ByteStream :=
  s ← get; match s !! i with Some (Some b) => mret b | _ => undefined end.

Definition value_step (o : stream_op) : M (list (option ByteStream)) stream_obs :=
  match o with
  | Construct u capacity =>
      match ByteStream_new u capacity with
      | Ret b => modify (fun s => s ++ [Some b]) ;;; mret Made
      | Throw e => modify (fun s => s ++ [None]) ;;; throw e
      | Undef => undefined
      | NoFuel => out_of_fuel
      end
  | CopyConstruct i => b ← value i; modify (fun s => s ++ [Some b]) ;;; mret Nothing
  | CopyAssign i j => _ ← value i; b ← value j; modify (fun s => <[i := Some b]> s) ;;; mret Nothing
  | Call i o =>
      b ← value i;
      let '(r, b') := step o b in
      modify (fun s => <[i := Some b']> s) ;;;
      r ← lift r;
      mret (Seen r)
  | EndOfScope i => _ ← value i; modify (fun s => <[i := None]> s) ;;; mret Nothing
  end.

(** A program that catches what its calls throw and goes on, until one has
    undefined behaviour. *)
Fixpoint run_program {S} (step : stream_op -> M S stream_obs) (ops : list stream_op) (s : S) :
    list (outcome stream_obs) * S :=
  match ops with
  | [] => ([], s)
  | o :: ops' =>
      let '(r, s) := step o s in
      match r with
      | Ret _ | Throw _ => let '(rs, s) := run_program step ops' s in (r :: rs, s)
      | Undef | NoFuel => ([r], s)
      end
  end.

(** How many streams were constructed. *)
Definition is_made (r : outcome stream_obs) : bool := match r with Ret Made => true | _ => false end.
Definition made (rs : list (outcome stream_obs)) : nat := length (List.filter is_made rs).

(** What the two have in common: every member but the bytes of the array. *)
Definition same_members (b b' : ByteStream) : Prop :=
  set_buf [] b = set_buf [] b' /\ zlen (m_buf b) = zlen (m_buf b').

Definition stands_for (h : gmap positive bytes) (o : option object) (v : option ByteStream) : Prop :=
  match o, v with
  | Some o, Some b => exists array, h !! pointer o = Some array /\
      members o = set_buf [] b /\ zlen array = zlen (m_buf b)
  | None, None => True
  | _, _ => False
  end.

Definition represents (s : Store) (vs : list (option ByteStream)) : Prop :=
  Forall2 (stands_for (arrays s)) (variables s) vs /\
  (forall l, (next_array s <= l)%positive -> arrays s !! l = None).

(** A program in which two variables share an array, for concrete runs. *)
Definition sharing_ops : list stream_op :=
  [Construct zeroed 2; Call 0 (Write (lit "ab")); CopyConstruct 0; Call 1 (Write (lit "cd"));
   EndOfScope 1; EndOfScope 0].

(** ** The methods do not look at the bytes of the array *)

(** From two streams that differ in those bytes only, the two do the same, and
    keep the arrays' length. *)
Definition alike {A} (m m' : M ByteStream A) : Prop := forall b b', same_members b b' ->
  fst (m b) = fst (m' b') /\ same_members (snd (m b)) (snd (m' b')) /\
  zlen (m_buf (snd (m b))) = zlen (m_buf b).

Lemma alike_ret {A} (a : A) : alike (mret a) (mret a).
Proof. by intros b b' Hb. Qed.

Lemma alike_lift {A} (r : outcome A) : alike (lift r) (lift r).
Proof. intros b b' Hb. unfold lift. by destruct r. Qed.

Lemma alike_bind {A B} (m m' : M ByteStream A) (k k' : A -> M ByteStream B) :
  alike m m' -> (forall a, alike (k a) (k' a)) -> alike (m ≫= k) (m' ≫= k').
Proof.
  intros Hm Hk b b' Hb. destruct (Hm b b' Hb) as (Ho & Hs & Hl). unfold mbind, M_bind.
  destruct (m b) as [o s], (m' b') as [o' s']. simpl in *. subst o'.
  destruct o as [a|e| |]; simpl; try done.
  destruct (Hk a s s' Hs) as (? & ? & ?). split; [done|]. split; [done | congruence].
Qed.

Lemma alike_get {A} (k k' : ByteStream -> M ByteStream A) :
  (forall b b', same_members b b' -> alike (k b) (k' b')) -> alike (get ≫= k) (get ≫= k').
Proof. intros Hk b b' Hb. by apply (Hk b b' Hb b b'). Qed.

Lemma alike_modify (f : ByteStream -> ByteStream) :
  (forall b b', same_members b b' -> same_members (f b) (f b') /\ zlen (m_buf (f b)) = zlen (m_buf b)) ->
  alike (modify f) (modify f).
Proof. intros Hf b b' Hb. simpl. by destruct (Hf b b' Hb). Qed.

Lemma zset_alike i c (l l' : bytes) : zlen l = zlen l' ->
  match zset l i c, zset l' i c with
  | Some a, Some a' => zlen a = zlen l /\ zlen a' = zlen l'
  | None, None => True
  | _, _ => False
  end.
Proof.
  intros Hl. destruct (zset l i c) as [a|] eqn:E, (zset l' i c) as [a'|] eqn:E'; try done.
  - by apply zlen_zset in E, E'.
  - unfold zset in E, E'. rewrite Hl in E. by destruct (_ && _).
  - unfold zset in E, E'. rewrite Hl in E. by destruct (_ && _).
Qed.

Lemma alike_update (f : ByteStream -> ByteStream) :
  (forall b, m_buf (f b) = m_buf b) -> (forall b, set_buf [] (f b) = set_buf [] (f (set_buf [] b))) ->
  alike (modify f) (modify f).
Proof.
  intros Hb Hm. apply alike_modify. intros b b' [E Hl]. unfold same_members. rewrite !Hb.
  split; [|done]. split; [|done]. by rewrite (Hm b), (Hm b'), E.
Qed.

Lemma alike_store c : alike (store_head c) (store_head c).
Proof.
  intros [t h cl buf sz er r w] [t' h' cl' buf' sz' er' r' w'] [E Hl]. unfold set_buf in E. simpl in *.
  injection E as -> -> -> -> -> -> ->. unfold store_head. msimpl.
  pose proof (zset_alike h' c buf buf' Hl) as Hz.
  destruct (zset buf h' c) as [a|], (zset buf' h' c) as [a'|]; try done. destruct Hz as [Ha Ha'].
  simpl. unfold same_members, set_head, set_buf. destruct (_ >=? _); simpl; by rewrite Ha, Ha'.
Qed.

Lemma alike_write_loop cs : alike (write_loop cs) (write_loop cs).
Proof.
  induction cs as [|c cs IH]; [apply alike_ret|]. apply alike_bind; [apply alike_store | done].
Qed.

Lemma alike_write d : alike (write d) (write d).
Proof.
  unfold write. apply alike_get. intros b b' [E Hl].
  assert (m_closed b = m_closed b' /\ _error b = _error b' /\ remaining_capacity b = remaining_capacity b')
    as (-> & -> & ->).
  { destruct b, b'. unfold set_buf in E. simpl in E. by injection E as -> -> -> -> -> -> ->. }
  destruct (_ || _).
  - apply alike_bind; [by apply alike_update | intros; apply alike_ret].
  - apply alike_bind; [apply alike_write_loop|]. intros _.
    apply alike_bind; [by apply alike_update | intros; apply alike_ret].
Qed.

(** Nothing is ever shown, whatever is asked for. *)
Lemma peek_output_nothing len b : peek_output len b = Ret [].
Proof.
  unfold peek_output. destruct (_error b); [done|]. change (buffer_size b) with 0.
  replace (Z.to_nat _) with 0%nat; [done|]. destruct (Z.gtb_spec len 0); lia.
Qed.

Lemma alike_pop len : alike (pop_output len) (pop_output len).
Proof.
  unfold pop_output. apply alike_get. intros b b' [E Hl].
  assert (_error b = _error b') as -> by by apply (f_equal _error) in E.
  destruct (_error b'); [apply alike_ret|]. change (buffer_size b) with 0. change (buffer_size b') with 0.
  apply alike_bind; [by apply alike_update|]. intros _.
  apply alike_bind; [|intros; by apply alike_update].
  apply alike_update; intros s; simpl; by destruct (_ >=? _).
Qed.

Lemma alike_step o : alike (step o) (step o).
Proof.
  destruct o as [d|len|len|len| |]; simpl.
  - apply alike_bind; [apply alike_write | intros; apply alike_ret].
  - apply alike_get. intros b b' _. rewrite !peek_output_nothing.
    apply alike_bind; [apply alike_lift | intros; apply alike_ret].
  - apply alike_bind; [apply alike_pop | intros; apply alike_ret].
  - apply alike_bind; [|intros; apply alike_ret]. unfold read. apply alike_get. intros b b' _.
    rewrite !peek_output_nothing. apply alike_bind; [apply alike_lift|]. intros ?.
    apply alike_bind; [apply alike_pop | intros; apply alike_ret].
  - apply alike_bind; [by apply alike_update | intros; apply alike_ret].
  - apply alike_bind; [by apply alike_update | intros; apply alike_ret].
Qed.

(** ** Variables *)

Implicit Types (s : Store) (vs : list (option ByteStream)).

Lemma stands_for_grow h h' o v :
  (forall l array, h !! l = Some array -> exists array', h' !! l = Some array' /\ zlen array' = zlen array) ->
  stands_for h o v -> stands_for h' o v.
Proof.
  intros Hh. destruct o as [o|], v as [b|]; try done. intros (array & Ha & Hm & Hl).
  destruct (Hh _ _ Ha) as (array' & Ha' & Hl'). exists array'. split; [done|]. split; [done | congruence].
Qed.

Lemma represents_vars h n l l' : represents (mkStore h n l) l' -> Forall2 (stands_for h) l l'.
Proof. by intros [? _]. Qed.

(** Using a variable: both find it, or neither does. *)
Lemma variable_value s vs i : represents s vs ->
  (exists o b, variable i s = (Ret o, s) /\ value i vs = (Ret b, vs) /\ stands_for (arrays s) (Some o) (Some b)) \/
  (variable i s = (Undef, s) /\ value i vs = (Undef, vs)).
Proof.
  intros [Hv _]. unfold variable, value. msimpl. destruct (variables s !! i) as [o|] eqn:Ho.
  - destruct (Forall2_lookup_l _ _ _ _ _ Hv Ho) as (v & Hi & Hs). rewrite Hi.
    destruct o as [o|], v as [b|]; try done; [left; by exists o, b | by right].
  - assert (vs !! i = None) as ->; [|by right].
    apply lookup_ge_None. apply lookup_ge_None in Ho. by rewrite <- (Forall2_length _ _ _ Hv).
Qed.

Lemma represents_declare s vs o v : represents s vs -> stands_for (arrays s) o v ->
  represents (mkStore (arrays s) (next_array s) (variables s ++ [o])) (vs ++ [v]).
Proof. intros [Hv Hn] Hs. split; [|done]. apply Forall2_app; [done | by constructor]. Qed.

Lemma represents_assign s vs i o v : represents s vs -> stands_for (arrays s) o v ->
  represents (mkStore (arrays s) (next_array s) (<[i := o]> (variables s))) (<[i := v]> vs).
Proof. intros [Hv Hn] Hs. split; [|done]. by apply Forall2_insert. Qed.

(** A store to an array that exists, without a change of length. *)
Lemma represents_store s vs l array array' : represents s vs -> arrays s !! l = Some array ->
  zlen array' = zlen array ->
  represents (mkStore (<[l := array']> (arrays s)) (next_array s) (variables s)) vs.
Proof.
  intros [Hv Hn] Ha Hl. split; simpl.
  - eapply Forall2_impl; [exact Hv|]. intros o v. apply stands_for_grow. intros l' a' Ha'.
    destruct (decide (l' = l)) as [->|Hne]; [|rewrite lookup_insert_ne by done; eauto].
    rewrite lookup_insert_eq. exists array'. split; [done | congruence].
  - intros l' Hl'. rewrite lookup_insert_ne; [by apply Hn|]. intros ->.
    rewrite Hn in Ha by done. done.
Qed.

Lemma represents_construct s vs b : represents s vs ->
  represents (mkStore (<[next_array s := m_buf b]> (arrays s)) (Pos.succ (next_array s))
                (variables s ++ [Some (mkObject (next_array s) (set_buf [] b))])) (vs ++ [Some b]).
Proof.
  intros [Hv Hn]. split; simpl.
  - apply Forall2_app.
    + eapply Forall2_impl; [exact Hv|]. intros o v. apply stands_for_grow. intros l array Ha.
      rewrite lookup_insert_ne; [eauto|]. intros <-. rewrite Hn in Ha; [done | lia].
    + constructor; [|constructor]. exists (m_buf b). simpl. by rewrite lookup_insert_eq.
  - intros l Hl. rewrite lookup_insert_ne by lia. apply Hn. lia.
Qed.

(** ** One step *)

(** The two programs do the same, and one more array exists for each stream
    made, none less. *)
Definition steps_alike (c : outcome stream_obs * Store) (c' : outcome stream_obs * list (option ByteStream))
    (before : nat) : Prop :=
  fst c = fst c' /\ represents (snd c) (snd c') /\
  base.size (arrays (snd c)) = (before + made [fst c])%nat.

Lemma step_construct u capacity s vs : represents s vs ->
  steps_alike (stream_step (Construct u capacity) s) (value_step (Construct u capacity) vs)
    (base.size (arrays s)).
Proof.
  intros Hr. unfold steps_alike. cbn [stream_step value_step]. unfold construct, declare.
  destruct (ByteStream_new u capacity) as [b|e| |]; msimpl.
  - split; [done|]. split; [by apply represents_construct|].
    rewrite map_size_insert_None; [unfold made; simpl; lia|]. apply Hr. lia.
  - split; [done|]. split; [by apply represents_declare|]. unfold made. simpl. lia.
  - split; [done|]. split; [done|]. unfold made. simpl. lia.
  - split; [done|]. split; [done|]. unfold made. simpl. lia.
Qed.

Lemma step_call i o s vs : represents s vs ->
  steps_alike (stream_step (Call i o) s) (value_step (Call i o) vs) (base.size (arrays s)).
Proof.
  intros Hr. unfold steps_alike. cbn [stream_step value_step]. unfold method, assign.
  destruct (variable_value s vs i Hr) as [(ob & b & E & E' & array & Ha & Hm & Hl)|[E E']].
  2:{ unfold mbind, M_bind. rewrite E, E'. split; [done|]. split; [done|]. unfold made. simpl. lia. }
  assert (Hsame : same_members (set_buf array (members ob)) b) by (rewrite Hm; by split).
  destruct (alike_step o _ _ Hsame) as (Ho & Hs & Hlen).
  unfold mbind, M_bind. rewrite E, E'. unfold get. rewrite Ha.
  destruct (step o (set_buf array (members ob))) as [r b1], (step o b) as [r' b1'].
  simpl in *. subst r'. unfold modify. simpl.
  assert (Hrep : represents
    (mkStore (<[pointer ob := m_buf b1]> (arrays s)) (next_array s)
       (<[i := Some (mkObject (pointer ob) (set_buf [] b1))]> (variables s))) (<[i := Some b1']> vs)).
  { destruct Hs as [Hs Hs'].
    pose proof (represents_store s vs _ _ _ Hr Ha Hlen) as Hst.
    pose proof (represents_assign _ _ i (Some (mkObject (pointer ob) (set_buf [] b1))) (Some b1') Hst) as Hv.
    apply Hv. exists (m_buf b1). simpl. by rewrite lookup_insert_eq. }
  assert (Hsize : base.size (<[pointer ob := m_buf b1]> (arrays s)) = base.size (arrays s))
    by (rewrite map_size_insert_Some; [done | by eexists]).
  destruct r; (split; [done|]; split; [exact Hrep|]); simpl; rewrite Hsize; unfold made; simpl; lia.
Qed.

Lemma step_alike o s vs : represents s vs ->
  steps_alike (stream_step o s) (value_step o vs) (base.size (arrays s)).
Proof.
  intros Hr. destruct o as [u capacity|i|i j|i o|i]; [by apply step_construct | | | by apply step_call |];
    unfold steps_alike; cbn [stream_step value_step]; unfold assign, declare.
  - destruct (variable_value s vs i Hr) as [(ob & b & E & E' & Hs)|[E E']]; unfold mbind, M_bind;
      rewrite E, E'; simpl; (split; [done|]; split; [|unfold made; simpl; lia]); [|done].
    by apply represents_declare.
  - destruct (variable_value s vs i Hr) as [(ob & b & E & E' & _)|[E E']]; unfold mbind, M_bind;
      rewrite E, E'; simpl; [|split; [done|]; split; [done|]; unfold made; simpl; lia].
    destruct (variable_value s vs j Hr) as [(ob2 & b2 & E2 & E2' & Hs)|[E2 E2']];
      rewrite E2, E2'; simpl; (split; [done|]; split; [|unfold made; simpl; lia]); [|done].
    by apply represents_assign.
  - destruct (variable_value s vs i Hr) as [(ob & b & E & E' & Hs)|[E E']]; unfold mbind, M_bind;
      rewrite E, E'; simpl; (split; [done|]; split; [|unfold made; simpl; lia]); [|done].
    by apply represents_assign.
Qed.

Lemma run_alike ops : forall s vs, represents s vs ->
  exists vs', run_program value_step ops vs = (fst (run_program stream_step ops s), vs') /\
    represents (snd (run_program stream_step ops s)) vs' /\
    base.size (arrays (snd (run_program stream_step ops s))) =
      (base.size (arrays s) + made (fst (run_program stream_step ops s)))%nat.
Proof.
  induction ops as [|o ops IH]; intros s vs Hr; cbn [run_program].
  { exists vs. simpl. split; [done|]. split; [done|]. unfold made. simpl. lia. }
  pose proof (step_alike o s vs Hr) as (Ho & Hr' & Hn).
  destruct (stream_step o s) as [r s1], (value_step o vs) as [r' vs1]. simpl in Ho, Hr', Hn. subst r'.
  destruct r as [a|e| |]; [| |by exists vs1..];
    destruct (IH s1 vs1 Hr') as (vs' & E & Hr2 & Hn2); rewrite E;
    destruct (run_program stream_step ops s1) as [rs s2]; simpl in *; exists vs';
    (split; [done|]; split; [done|]); rewrite Hn2, Hn; unfold made; simpl;
    [destruct a; simpl; lia | lia].
Qed.

(** What the reader of variable [i] should see. *)
Example copies_overwrite_each_other :
  let '(rs, s) := run_program stream_step (firstn 4 sharing_ops) start in
  rs = [Ret Made; Ret (Seen (Count 2)); Ret Nothing; Ret (Seen (Count 2))] /\
  result (method 0 (gets stored)) s = Ret (lit "db").
Proof. vm_compute. split; reflexivity. Qed.

(** ** Properties *)

(** C24. Streams in memory: any program over [ByteStream] variables, that
    constructs, copies, assigns and calls them and leaves their scopes in any
    order, with what its calls throw caught, sees exactly what it would see if
    every copy had an array of its own: the copies share one, but no method
    shows its bytes.  The pointers of the variables are good throughout.  And
    no array is ever freed: however many scopes have ended, there are as many
    as streams were constructed. *)
Theorem streams_share_and_leak ops :
  let '(rs, s) := run_program stream_step ops start in
  exists vs, run_program value_step ops [] = (rs, vs) /\
    map (option_map members) (variables s) = map (option_map (set_buf [])) vs /\
    (forall i o, variables s !! i = Some (Some o) -> is_Some (arrays s !! pointer o)) /\
    base.size (arrays s) = made rs.
Proof.
  assert (Hstart : represents start []) by (by split; [constructor | intros; apply lookup_empty]).
  destruct (run_alike ops start [] Hstart) as (vs & E & [Hv _] & Hn).
  destruct (run_program stream_step ops start) as [rs s]. simpl in *. exists vs. split; [done|].
  split; [|split; [|by rewrite Hn, map_size_empty]].
  - clear -Hv. induction Hv as [|[o|] [b|] l l' Hs _ IH]; simpl; try done; f_equal; try done.
    destruct Hs as (array & _ & Hm & _). simpl. by rewrite Hm.
  - intros i o Hi. destruct (Forall2_lookup_l _ _ _ _ _ Hv Hi) as ([b|] & _ & Hs); [|done].
    destruct Hs as (array & Ha & _). by exists array.
Qed.
