(* ===== verification/Buffer.v ===== *)
(** Byte strings that drop bytes from the front: [Buffer], [BufferList] and
    [BufferViewList] of [libsponge/util/buffer.{hh,cc}], one Module each.  A
    [Buffer] carries its string; [Storage.v] has the pointers. *)

From S2P Require Import Prelude CString.

Local Open Scope Z_scope.

(** ** [Buffer]: a shared string and the offset of what is left of it *)

Module Buffer.

(** [_storage] is a [shared_ptr] to a string that nothing modifies once it
    is shared, so a copy of a [Buffer] is a copy of this record; [None] is
    the null pointer. *)
Record Buffer : Type := mkBuffer {
  _storage : option bytes;
  _starting_offset : Z
}.

(** [Buffer() = default] *)
Definition empty : Buffer := mkBuffer None 0.

(** [Buffer(std::string &&str)] *)
Definition of_string (s : bytes) : Buffer := mkBuffer (Some s) 0.

(** [{_storage->data() + _starting_offset, _storage->size() - _starting_offset}] *)
Definition str (b : Buffer) : bytes :=
  match _storage b with
  | None => []
  | Some s => ztake (u64 (zlen s - _starting_offset b)) (zdrop (_starting_offset b) s)
  end.

(** [operator std::string_view()] *)
Definition to_string_view (b : Buffer) : bytes := str b.

(** [str().at(n)], which throws out of range. *)
Definition at_ (n : Z) (b : Buffer) : outcome Z :=
  match znth (str b) n with
  | Some c => Ret (b2z c)
  | None => Throw (out_of_range "basic_string_view::at")
  end.

Definition size (b : Buffer) : Z := zlen (str b).

Definition copy (b : Buffer) : bytes := str b.

Definition remove_prefix (n : Z) : M Buffer unit :=
  b ← get;
  if n >? zlen (str b) then throw (out_of_range "Buffer::remove_prefix")
  else
    modify (fun b => mkBuffer (_storage b) (u64 (_starting_offset b + n))) ;;;
    modify (fun b =>
      match _storage b with
      | Some s => if _starting_offset b =? zlen s
                  then mkBuffer None (_starting_offset b) else b
      | None => b
      end).

(** The class invariant: the offset is inside the storage, and a string is
    shorter than the largest [size_t]. *)
Definition wf (b : Buffer) : Prop :=
  match _storage b with
  | Some s => 0 <= _starting_offset b <= zlen s /\ zlen s <= SIZE_MAX
  | None => 0 <= _starting_offset b <= SIZE_MAX
  end.

End Buffer.

Abbreviation Buffer := Buffer.Buffer.

(** ** [BufferList]: a queue of buffers read as one string *)

Module BufferList.

Definition t : Type := list Buffer.

(** [BufferList() = default], [BufferList(Buffer)], [BufferList(string &&)] *)
Definition empty : t := [].
Definition of_buffer (b : Buffer) : t := [b].

(** The loop of [append]: [_buffers.push_back(buf)] for each of [other]. *)
Fixpoint append (other : t) (l : t) : t :=
  match other with
  | [] => l
  | buf :: rest => append rest (l ++ [buf])
  end.

(** [l.append(l)]: the loop iterates over the queue it pushes to, and a push
    invalidates its iterators. *)
Definition append_to_itself (l : t) : outcome t :=
  match l with [] => Ret [] | _ :: _ => Undef end.

Definition of_string (s : bytes) : t := append [Buffer.of_string s] [].

(** [buffers()] *)
Definition buffers (l : t) : list Buffer := l.

(** [operator Buffer()] *)
Definition to_Buffer (l : t) : outcome Buffer :=
  match l with
  | [] => Ret Buffer.empty
  | [b] => Ret b
  | _ => Throw (runtime_error (lit "BufferList: please use concatenate() to combine a multi-Buffer BufferList into one Buffer"))
  end.

(** [ret.append(buf)] for each buffer in order. *)
Definition concatenate (l : t) : bytes :=
  fold_left (fun ret buf => ret ++ Buffer.str buf) l [].

Definition size (l : t) : Z :=
  fold_left (fun ret buf => u64 (ret + Buffer.size buf)) l 0.

(** The [while (n > 0)] loop; each round removes the first buffer or ends the
    loop, so it is a recursion on the queue. *)
Fixpoint remove_prefix_loop (n : Z) (l : t) : outcome unit * t :=
  if n >? 0 then
    match l with
    | [] => (Throw (out_of_range "BufferList::remove_prefix"), [])
    | b :: rest =>
        if n <? zlen (Buffer.str b)
        then let '(r, b') := Buffer.remove_prefix n b in (r, b' :: rest)
        else remove_prefix_loop (u64 (n - zlen (Buffer.str b))) rest
    end
  else (Ret tt, l).

Definition remove_prefix (n : Z) : M t unit := remove_prefix_loop n.

Definition wf (l : t) : Prop := Forall Buffer.wf l.

End BufferList.

(** ** [BufferViewList]: the same over [string_view]s, for system calls *)

Module BufferViewList.

(** A view is the bytes it shows. *)
Definition t : Type := list bytes.

(** What [writev(2)] and [sendmsg(2)] take: a base address, shown by the
    bytes found there, and a length. *)
Record iovec : Type := mkIovec { iov_base : bytes; iov_len : Z }.

Definition of_view (s : bytes) : t := [s].

(** From a [std::string] and from a C string, which is seen up to its NUL. *)
Definition of_std_string (str : bytes) : t := of_view str.
Definition of_c_string (s : bytes) : t := of_view (c_str s).

(** [_views.push_back(x)] for each buffer, converted by [operator string_view]. *)
Definition of_BufferList (l : BufferList.t) : t :=
  fold_left (fun views x => views ++ [Buffer.to_string_view x]) (BufferList.buffers l) [].

(** [string_view::remove_prefix] *)
Definition view_remove_prefix (n : Z) (v : bytes) : bytes := zdrop n v.

Fixpoint remove_prefix_loop (n : Z) (l : t) : outcome unit * t :=
  if n >? 0 then
    match l with
    | [] => (Throw (out_of_range "BufferListView::remove_prefix"), [])
    | v :: rest =>
        if n <? zlen v then (Ret tt, view_remove_prefix n v :: rest)
        else remove_prefix_loop (u64 (n - zlen v)) rest
    end
  else (Ret tt, l).

Definition remove_prefix (n : Z) : M t unit := remove_prefix_loop n.

Definition size (l : t) : Z := fold_left (fun ret v => u64 (ret + zlen v)) l 0.

Definition as_iovecs (l : t) : list iovec :=
  fold_left (fun ret x => ret ++ [mkIovec x (zlen x)]) l [].

(** The string a list of views, or of iovecs, stands for. *)
Definition contents (l : t) : bytes := concat l.
Definition iovec_bytes (v : iovec) : bytes := ztake (iov_len v) (iov_base v).
Definition iovecs_contents (l : list iovec) : bytes := concat (map iovec_bytes l).

(** The two exceptions differ by their text only. *)
Definition same_outcome (a b : outcome unit) : Prop :=
  match a, b with
  | Ret _, Ret _ => True
  | Throw (out_of_range _), Throw (out_of_range _) => True
  | _, _ => False
  end.

End BufferViewList.

(** ** Lemmas on one buffer *)

Lemma Buffer_str_eq b s : Buffer.wf b -> Buffer._storage b = Some s ->
  Buffer.str b = zdrop (Buffer._starting_offset b) s.
Proof.
  unfold Buffer.wf, Buffer.str, SIZE_MAX. intros Hwf E. rewrite E in *. zlens.
  rewrite wrapu_small by lia. apply ztake_all. znorm. lia.
Qed.

Lemma Buffer_str_of_string s : zlen s <= SIZE_MAX -> Buffer.str (Buffer.of_string s) = s.
Proof.
  intros. rewrite (Buffer_str_eq _ s); [apply zdrop_0 | | done].
  unfold Buffer.wf; simpl. zlia.
Qed.

Lemma Buffer_wf_of_string s : zlen s <= SIZE_MAX -> Buffer.wf (Buffer.of_string s).
Proof. unfold Buffer.wf; simpl. zlia. Qed.

Lemma Buffer_wf_empty : Buffer.wf Buffer.empty.
Proof. done. Qed.

Lemma Buffer_size_bound b : Buffer.wf b -> 0 <= zlen (Buffer.str b) <= SIZE_MAX.
Proof.
  intros Hwf. destruct (Buffer._storage b) as [s|] eqn:E.
  - rewrite (Buffer_str_eq b s) by done. unfold Buffer.wf in Hwf. rewrite E in Hwf.
    znorm. zlia.
  - unfold Buffer.str. rewrite E. by znorm.
Qed.

Lemma Buffer_remove_prefix_ok n b : Buffer.wf b -> 0 <= n <= zlen (Buffer.str b) ->
  exists b', Buffer.remove_prefix n b = (Ret tt, b') /\ Buffer.wf b' /\
    Buffer.str b' = zdrop n (Buffer.str b) /\
    (Buffer._storage b' = None <-> Buffer.str b' = []).
Proof.
  intros Hwf Hn. unfold Buffer.remove_prefix. msimpl. zcases.
  pose proof (Buffer_size_bound b Hwf) as Hb.
  destruct (Buffer._storage b) as [s|] eqn:E.
  - pose proof (Buffer_str_eq b s Hwf E) as Hs. rewrite Hs in *.
    unfold Buffer.wf in Hwf. rewrite E in Hwf. znorm. zlens.
    rewrite zdrop_zdrop, wrapu_small by (unfold SIZE_MAX in *; lia).
    set (off := Buffer._starting_offset b + n) in *. simpl.
    destruct (Z.eqb_spec off (zlen s)) as [Heq|Hne]; eexists; split; try done.
    + split; [unfold Buffer.wf; simpl; lia|]. rewrite zdrop_all by lia. done.
    + assert (Hwf' : Buffer.wf (Buffer.mkBuffer (Some s) off))
        by (unfold Buffer.wf; simpl; lia).
      split; [done|]. rewrite (Buffer_str_eq _ s Hwf' eq_refl). simpl.
      split; [done|]. split; [done|]. intros Hnil%(f_equal zlen). znorm. lia.
  - assert (Buffer.str b = []) as Hnil by (unfold Buffer.str; by rewrite E).
    rewrite Hnil in *. znorm. replace n with 0 by lia.
    eexists. split; [done|]. unfold Buffer.wf in *; rewrite E in *; simpl.
    rewrite Z.add_0_r, wrapu_small by (unfold SIZE_MAX in *; lia).
    unfold Buffer.str; simpl. splits.
Qed.

Lemma Buffer_remove_prefix_err n b : zlen (Buffer.str b) < n ->
  Buffer.remove_prefix n b = (Throw (out_of_range "Buffer::remove_prefix"), b).
Proof. intros H. unfold Buffer.remove_prefix. msimpl. by zcases. Qed.

(** ** Lemmas on lists of buffers and views *)

Lemma fold_app {A B} (f : A -> list B) (l : list A) : forall acc,
  fold_left (fun ret x => ret ++ f x) l acc = acc ++ concat (map f l).
Proof.
  induction l as [|x l IH]; intros acc; simpl; [by rewrite app_nil_r|].
  by rewrite IH, <- app_assoc.
Qed.

Lemma fold_size {A} (f : A -> bytes) (l : list A) : forall acc,
  fold_left (fun ret x => u64 (ret + zlen (f x))) l (u64 acc) =
    u64 (acc + zlen (concat (map f l))).
Proof.
  induction l as [|x l IH]; intros acc; simpl; [by znorm; rewrite Z.add_0_r|].
  rewrite wrapu_add_l, IH. znorm. f_equal. lia.
Qed.

Lemma concatenate_eq l : BufferList.concatenate l = concat (map Buffer.str l).
Proof. apply (fold_app Buffer.str l []). Qed.

Lemma concatenate_cons b l :
  BufferList.concatenate (b :: l) = Buffer.str b ++ BufferList.concatenate l.
Proof. by rewrite !concatenate_eq. Qed.

Lemma BufferList_size_eq l : BufferList.size l = u64 (zlen (BufferList.concatenate l)).
Proof.
  rewrite concatenate_eq. unfold BufferList.size, Buffer.size.
  apply (fold_size Buffer.str l 0).
Qed.

Lemma BufferViewList_size_eq l :
  BufferViewList.size l = u64 (zlen (BufferViewList.contents l)).
Proof.
  unfold BufferViewList.size, BufferViewList.contents.
  rewrite <- (list_fmap_id l) at 2. apply (fold_size id l 0).
Qed.

Lemma append_eq other : forall l, BufferList.append other l = l ++ other.
Proof.
  induction other as [|b other IH]; intros l; simpl; [by rewrite app_nil_r|].
  by rewrite IH, <- app_assoc.
Qed.

Lemma of_BufferList_eq l : BufferViewList.of_BufferList l = map Buffer.str l.
Proof.
  unfold BufferViewList.of_BufferList, BufferList.buffers, Buffer.to_string_view.
  rewrite (fold_app (fun x => [Buffer.str x])). simpl.
  induction l as [|b l IH]; simpl; [done|]. by rewrite IH.
Qed.

Lemma as_iovecs_eq l :
  BufferViewList.as_iovecs l = map (fun x => BufferViewList.mkIovec x (zlen x)) l.
Proof.
  unfold BufferViewList.as_iovecs.
  rewrite (fold_app (fun x => [BufferViewList.mkIovec x (zlen x)])). simpl.
  induction l as [|b l IH]; simpl; [done|]. by rewrite IH.
Qed.

Lemma iovecs_contents_eq l :
  BufferViewList.iovecs_contents (BufferViewList.as_iovecs l) = BufferViewList.contents l.
Proof.
  rewrite as_iovecs_eq. unfold BufferViewList.iovecs_contents, BufferViewList.contents.
  rewrite map_map. f_equal. rewrite <- (list_fmap_id l) at 2. apply map_ext. intros x.
  unfold BufferViewList.iovec_bytes; simpl. by apply ztake_all.
Qed.

(** A view list drops a prefix of the string it stands for, or is emptied. *)
Lemma view_remove_prefix_spec l : forall n,
  0 <= n <= SIZE_MAX ->
  if bool_decide (n <= zlen (BufferViewList.contents l))
  then exists l', BufferViewList.remove_prefix n l = (Ret tt, l') /\
         BufferViewList.contents l' = zdrop n (BufferViewList.contents l)
  else BufferViewList.remove_prefix n l =
         (Throw (out_of_range "BufferListView::remove_prefix"), []).
Proof.
  unfold BufferViewList.contents, SIZE_MAX.
  induction l as [|v l IH]; intros n Hn; simpl; znorm; zlens;
    (destruct (Z.gtb_spec n 0) as [Hp|Hz];
     [|rewrite bool_decide_eq_true_2 by lia; replace n with 0 by lia; by eexists]).
  - by rewrite bool_decide_eq_false_2 by lia.
  - destruct (Z.ltb_spec n (zlen v)) as [Hlt|Hge].
    + rewrite bool_decide_eq_true_2 by lia. eexists. split; [done|].
      simpl. by rewrite zdrop_app_lt by lia.
    + rewrite wrapu_small by lia. rewrite zdrop_app_ge by lia.
      specialize (IH (n - zlen v) ltac:(lia)).
      rewrite (bool_decide_ext _ (n <= zlen v + zlen (concat l))) in IH by lia. done.
Qed.

(** The same for a list of buffers, which drops what its views drop. *)
Lemma list_remove_prefix_views l : forall n,
  BufferList.wf l -> 0 <= n <= SIZE_MAX ->
  let '(r, l') := BufferList.remove_prefix n l in
  let '(rv, v') := BufferViewList.remove_prefix n (BufferViewList.of_BufferList l) in
  BufferViewList.same_outcome r rv /\ BufferViewList.of_BufferList l' = v' /\
  BufferList.wf l'.
Proof.
  unfold SIZE_MAX. induction l as [|b l IH]; intros n Hwf Hn;
    rewrite of_BufferList_eq in *; simpl;
    (destruct (Z.gtb_spec n 0) as [Hp|Hz]; [|rewrite of_BufferList_eq; by splits]).
  - by splits.
  - apply Forall_cons in Hwf as [Hb Hl].
    destruct (Z.ltb_spec n (zlen (Buffer.str b))) as [Hlt|Hge].
    + destruct (Buffer_remove_prefix_ok n b Hb ltac:(lia)) as (b' & E & Hb' & Hs & _).
      rewrite E. rewrite of_BufferList_eq. simpl. rewrite Hs. splits. by constructor.
    + zlens. rewrite wrapu_small by lia.
      apply (IH (n - zlen (Buffer.str b)) Hl ltac:(lia)).
Qed.

Lemma contents_of_BufferList l :
  BufferViewList.contents (BufferViewList.of_BufferList l) = BufferList.concatenate l.
Proof. by rewrite of_BufferList_eq, concatenate_eq. Qed.

Lemma BufferList_wf_append a b :
  BufferList.wf a -> BufferList.wf b -> BufferList.wf (BufferList.append b a).
Proof. intros. rewrite append_eq. by apply Forall_app. Qed.

Lemma BufferList_remove_prefix_spec n l : BufferList.wf l -> 0 <= n <= SIZE_MAX ->
  if bool_decide (n <= zlen (BufferList.concatenate l))
  then exists l', BufferList.remove_prefix n l = (Ret tt, l') /\ BufferList.wf l' /\
         BufferList.concatenate l' = zdrop n (BufferList.concatenate l)
  else exists e, BufferList.remove_prefix n l = (Throw (out_of_range e), []).
Proof.
  intros Hwf Hn. pose proof (list_remove_prefix_views l n Hwf Hn) as Hsim.
  pose proof (view_remove_prefix_spec (BufferViewList.of_BufferList l) n Hn) as Hv.
  rewrite contents_of_BufferList in Hv.
  destruct (BufferList.remove_prefix n l) as [r l'].
  case_bool_decide; [destruct Hv as (v' & E & Hc) | rename Hv into E];
    rewrite E in Hsim; destruct Hsim as (Ho & Hvl & Hwf').
  - destruct r as [[]|[]| |]; try done. exists l'.
    by rewrite <- contents_of_BufferList, Hvl.
  - destruct r as [|[]| |]; try done. rewrite of_BufferList_eq in Hvl.
    apply map_eq_nil in Hvl as ->. by eexists.
Qed.

(** ** Properties *)

(** [Buffer::remove_prefix] on every branch, for a well-formed buffer:
    within the size it drops exactly the first [n] bytes, keeps the buffer
    well formed and gives up the storage exactly when nothing is left; beyond
    it, it throws and changes nothing. *)
Theorem Buffer_remove_prefix_behaviour n b : Buffer.wf b -> 0 <= n ->
  if bool_decide (n <= Buffer.size b)
  then exists b', Buffer.remove_prefix n b = (Ret tt, b') /\ Buffer.wf b' /\
         Buffer.str b' = zdrop n (Buffer.str b) /\
         (Buffer._storage b' = None <-> n = Buffer.size b)
  else Buffer.remove_prefix n b = (Throw (out_of_range "Buffer::remove_prefix"), b).
Proof.
  unfold Buffer.size. intros Hwf Hn. case_bool_decide as Hle.
  - destruct (Buffer_remove_prefix_ok n b Hwf ltac:(lia)) as (b' & E & Hwf' & Hs & Hst).
    exists b'. split_and!; try done. rewrite Hst, Hs. split.
    + intros Hnil%(f_equal zlen). znorm. lia.
    + intros ->. by apply zdrop_all.
  - apply Buffer_remove_prefix_err. lia.
Qed.

Lemma Buffer_remove_prefix_behaviour_witness :
  exists b', Buffer.remove_prefix 2 (Buffer.of_string (lit "cat")) = (Ret tt, b') /\
    Buffer.wf b' /\ Buffer.str b' = lit "t" /\
    (Buffer._storage b' = None <-> 2 = 3).
Proof.
  exact (Buffer_remove_prefix_behaviour 2 (Buffer.of_string (lit "cat"))
    ltac:(unfold Buffer.wf; simpl; unfold zlen, SIZE_MAX; simpl; lia) ltac:(lia)).
Defined.



(** C26. A [BufferViewList] is a faithful view of a [BufferList], although it
    drops prefixes with a loop of its own, over strings that carry no offset:
    viewing a list and then dropping any prefix, within the list or beyond it,
    gives the views of the list after dropping it, and both calls return or
    both throw [out_of_range]. *)
Theorem views_simulate_buffers n l : BufferList.wf l -> 0 <= n <= SIZE_MAX ->
  let '(r, l') := BufferList.remove_prefix n l in
  let '(rv, v') := BufferViewList.remove_prefix n (BufferViewList.of_BufferList l) in
  BufferViewList.same_outcome r rv /\ BufferViewList.of_BufferList l' = v'.
Proof.
  intros Hwf Hn. pose proof (list_remove_prefix_views l n Hwf Hn) as H.
  destruct (BufferList.remove_prefix n l), (BufferViewList.remove_prefix n _). tauto.
Qed.

Lemma views_simulate_buffers_witness :
  BufferViewList.same_outcome (Throw (out_of_range "BufferList::remove_prefix"))
    (result (BufferViewList.remove_prefix 6) [lit "abc"; lit "de"]) /\
  BufferViewList.of_BufferList [] =
    exec (BufferViewList.remove_prefix 6) [lit "abc"; lit "de"].
Proof.
  exact (views_simulate_buffers 6 [Buffer.of_string (lit "abc"); Buffer.of_string (lit "de")]
    ltac:(repeat (apply Forall_cons_2; [by vm_compute|]); apply Forall_nil_2) ltac:(unfold SIZE_MAX; lia)).
Defined.

(** What the list operations mean on the string they stand for:
    appending concatenates, sizes are the length of the string (modulo
    [2^64], like the [size_t] sums that compute them), and the iovecs handed
    to a system call spell the same string. *)
Theorem BufferList_contents a b :
  let l := BufferList.append b a in
  BufferList.concatenate l = BufferList.concatenate a ++ BufferList.concatenate b /\
  BufferList.size l = u64 (BufferList.size a + BufferList.size b) /\
  BufferList.size l = u64 (zlen (BufferList.concatenate l)) /\
  BufferViewList.size (BufferViewList.of_BufferList l) = BufferList.size l /\
  BufferViewList.iovecs_contents
    (BufferViewList.as_iovecs (BufferViewList.of_BufferList l)) = BufferList.concatenate l.
Proof.
  intros l. subst l. rewrite BufferViewList_size_eq, contents_of_BufferList.
  rewrite iovecs_contents_eq, contents_of_BufferList, !BufferList_size_eq.
  assert (BufferList.concatenate (BufferList.append b a) =
    BufferList.concatenate a ++ BufferList.concatenate b) as ->.
  { by rewrite !concatenate_eq, append_eq, map_app, concat_app. }
  split_and!; try done. rewrite wrapu_add_l, wrapu_add_r. by znorm.
Qed.
