(* ===== verification/Parser.v ===== *)
(** Network-order integers: [NetParser] and [NetUnparser] of
    [libsponge/util/parser.{hh,cc}]. *)

From S2P Require Import Prelude Buffer.

Local Open Scope Z_scope.

(** ** Results *)

Inductive ParseResult : Type :=
  | NoError
  | BadChecksum
  | PacketTooShort
  | WrongIPVersion
  | HeaderTooShort
  | TruncatedPacket.

#[export] Instance ParseResult_eq_dec : EqDecision ParseResult.
Proof. solve_decision. Defined.

(** [static_cast<size_t>(r)] *)
Definition ParseResult_index (r : ParseResult) : nat :=
  match r with
  | NoError => 0
  | BadChecksum => 1
  | PacketTooShort => 2
  | WrongIPVersion => 3
  | HeaderTooShort => 4
  | TruncatedPacket => 5
  end.

Definition _names : list string :=
  ["NoError"; "BadChecksum"; "PacketTooShort"; "WrongIPVersion"; "HeaderTooShort";
   "TruncatedPacket"]%string.

(** An index past the table would be undefined behaviour. *)
Definition as_string (r : ParseResult) : outcome string :=
  match _names !! ParseResult_index r with Some n => Ret n | None => Undef end.

(** ** The parser *)

Module NetParser.

Record t : Type := mk { _buffer : Buffer; _error : ParseResult }.

(** [NetParser(Buffer buffer)] *)
Definition new (b : Buffer) : t := mk b NoError.

Definition buffer (p : t) : Buffer := _buffer p.
Definition get_error (p : t) : ParseResult := _error p.
Definition error (p : t) : bool := negb (bool_decide (get_error p = NoError)).

Definition set_error (res : ParseResult) : M t unit :=
  modify (fun p => mk (_buffer p) res).

Definition _check_size (size : Z) : M t unit :=
  p ← get; when (size >? Buffer.size (_buffer p)) (set_error PacketTooShort).

(** [_buffer.remove_prefix(n)] *)
Definition buffer_remove_prefix (n : Z) : M t unit :=
  zoom _buffer (fun b p => mk b (_error p)) (Buffer.remove_prefix n).

(** The loop of [_parse_int<T>] for a [w]-bit [T]: both compound assignments
    convert their result back to [T]. *)
Fixpoint parse_loop (w : Z) (b : Buffer) (todo : nat) (i ret : Z) : outcome Z :=
  match todo with
  | O => Ret ret
  | S todo' =>
      let ret := wrapu w (Z.shiftl ret 8) in
      c ← Buffer.at_ i b;
      let ret := wrapu w (ret + u8 c) in
      parse_loop w b todo' (i + 1) ret
  end.

(** [_parse_int<T>] with [len = sizeof(T)]. *)
Definition _parse_int (len : nat) : M t Z :=
  _check_size (Z.of_nat len) ;;;
  p ← get;
  if error p then mret 0
  else
    ret ← lift (parse_loop (8 * Z.of_nat len) (_buffer p) len 0 0);
    buffer_remove_prefix (Z.of_nat len) ;;;
    mret ret.

Definition u32 : M t Z := _parse_int 4.
Definition u16 : M t Z := _parse_int 2.
Definition u8 : M t Z := _parse_int 1.

Definition remove_prefix (n : Z) : M t unit :=
  _check_size n ;;;
  p ← get;
  if error p then mret tt else buffer_remove_prefix n.

(** The calls a client makes, with the integer each returns (0 for none). *)
Inductive op : Type :=
  | ParseInt (len : nat)
  | Skip (n : Z)
  | SetError (r : ParseResult).

Definition step (o : op) : M t Z :=
  match o with
  | ParseInt len => _parse_int len
  | Skip n => remove_prefix n ;;; mret 0
  | SetError r => set_error r ;;; mret 0
  end.

Fixpoint run (ops : list op) : M t (list Z) :=
  match ops with
  | [] => mret []
  | o :: ops' => v ← step o; vs ← run ops'; mret (v :: vs)
  end.

Definition wf (p : t) : Prop := Buffer.wf (_buffer p).

(** What is left to parse. *)
Definition rest (p : t) : bytes := Buffer.str (_buffer p).

(** The bytes an operation consumes. *)
Definition need (o : op) : Z :=
  match o with ParseInt len => Z.of_nat len | Skip n => n | SetError _ => 0 end.

Definition valid_op (o : op) : Prop :=
  match o with Skip n => 0 <= n <= SIZE_MAX | ParseInt len => (len <= 8)%nat | _ => True end.

End NetParser.

(** ** The unparser *)

Module NetUnparser.

(** The loop of [_unparse_int<T>]: [s.push_back] of the [i]-th byte. *)
Fixpoint unparse_loop (len i : Z) (todo : nat) (s : bytes) (val : Z) : bytes :=
  match todo with
  | O => s
  | S todo' =>
      let the_byte := Z.land (Z.shiftr val ((len - i - 1) * 8)) 0xff in
      unparse_loop len (i + 1) todo' (s ++ [z2b the_byte]) val
  end.

Definition _unparse_int (len : nat) (s : bytes) (val : Z) : bytes :=
  unparse_loop (Z.of_nat len) 0 len s val.

Definition u32 (s : bytes) (val : Z) : bytes := _unparse_int 4 s val.
Definition u16 (s : bytes) (val : Z) : bytes := _unparse_int 2 s val.
Definition u8 (s : bytes) (val : Z) : bytes := _unparse_int 1 s val.

(** A header: fields of given widths, written one after the other. *)
Definition fields (fs : list (nat * Z)) (s : bytes) : bytes :=
  fold_left (fun s f => _unparse_int (fst f) s (snd f)) fs s.

End NetUnparser.

(** ** Big-endian numerals, the reference *)

Fixpoint be_decode (bs : bytes) : Z :=
  match bs with
  | [] => 0
  | b :: bs' => b2z b * 2 ^ (8 * zlen bs') + be_decode bs'
  end.

Fixpoint be_encode (n : nat) (v : Z) : bytes :=
  match n with
  | O => []
  | S n' => z2b (v / 2 ^ (8 * Z.of_nat n')) :: be_encode n' v
  end.

(** ** The documentation's example ([doctests/parser_example.cc]) *)

Definition parser_example : outcome unit :=
  let val1 := 0xdeadbeef in
  let val2 := 0xc0c0 in
  let val3 := 0xff in
  let val4 := 0x0c05fefe in
  let buffer := [z2b 0x32] in
  let buffer := NetUnparser.u32 buffer val1 in
  let buffer := NetUnparser.u16 buffer val2 in
  let buffer := NetUnparser.u8 buffer val3 in
  let buffer := NetUnparser.u32 buffer val4 in
  fst ((out0 ← NetParser.u8;
        out1 ← NetParser.u32;
        out2 ← NetParser.u16;
        out3 ← NetParser.u8;
        out4 ← NetParser.u32;
        if negb (out0 =? 0x32) || negb (out1 =? val1) || negb (out2 =? val2) ||
           negb (out3 =? val3) || negb (out4 =? val4)
        then throw (runtime_error (lit "bad parse")) else mret tt)
       (NetParser.new (Buffer.of_string buffer))).

(** [main] of [doctests/parser_dt.cc] *)
Definition parser_dt : outcome Z :=
  match parser_example with
  | Ret _ => Ret EXIT_SUCCESS
  | Throw _ => Ret EXIT_FAILURE
  | Undef => Undef
  | NoFuel => NoFuel
  end.

(** ** The reference parser: a client's calls on a string of bytes *)

(** One call: too few bytes set [PacketTooShort] over whatever error there
    was; with an error set nothing is consumed and integers are 0. *)
Definition ref_step (o : NetParser.op) (err : ParseResult) (bs : bytes) :
    Z * ParseResult * bytes :=
  match o with
  | NetParser.SetError r => (0, r, bs)
  | _ =>
      let err := if zlen bs <? NetParser.need o then PacketTooShort else err in
      if decide (err = NoError) then
        (match o with
         | NetParser.ParseInt len => be_decode (ztake (Z.of_nat len) bs)
         | _ => 0
         end, err, zdrop (NetParser.need o) bs)
      else (0, err, bs)
  end.

Fixpoint ref_run (ops : list NetParser.op) (err : ParseResult) (bs : bytes) :
    list Z * ParseResult * bytes :=
  match ops with
  | [] => ([], err, bs)
  | o :: ops' =>
      let '(v, err1, bs1) := ref_step o err bs in
      let '(vs, err2, bs2) := ref_run ops' err1 bs1 in
      (v :: vs, err2, bs2)
  end.

Definition no_set_error (ops : list NetParser.op) : Prop :=
  Forall (fun o => match o with NetParser.SetError _ => False | _ => True end) ops.

Lemma zlen_be_encode n v : zlen (be_encode n v) = Z.of_nat n.
Proof. induction n as [|n IH]; simpl be_encode; znorm; lia. Qed.

Lemma be_decode_range bs : 0 <= be_decode bs < 2 ^ (8 * zlen bs).
Proof.
  induction bs as [|b bs IH]; simpl be_decode; [done|]. zlens. znorm.
  pose proof (b2z_range b) as Hb. rewrite Z.mul_add_distr_l, Z.pow_add_r by lia.
  change (2 ^ (8 * 1)) with 256. nia.
Qed.

Lemma be_decode_encode n v : be_decode (be_encode n v) = v `mod` 2 ^ (8 * Z.of_nat n).
Proof.
  induction n as [|n IH]; simpl be_encode; simpl be_decode; [by rewrite Z.mod_1_r|].
  rewrite IH, zlen_be_encode, b2z_z2b. unfold wrapu.
  replace (8 * Z.of_nat (S n)) with (8 * Z.of_nat n + 8) by lia.
  rewrite Z.pow_add_r, Z.rem_mul_r by lia. lia.
Qed.

Lemma be_encode_decode bs : be_encode (length bs) (be_decode bs) = bs.
Proof.
  assert (H : forall n v k, be_encode n (v + k * 2 ^ (8 * Z.of_nat n)) = be_encode n v).
  { induction n as [|n IH]; intros v k; simpl be_encode; [done|]. f_equal.
    - apply b2z_inj. rewrite !b2z_z2b. unfold wrapu.
      replace (8 * Z.of_nat (S n)) with (8 * Z.of_nat n + 8) by lia.
      rewrite Z.pow_add_r by lia.
      replace (k * (2 ^ (8 * Z.of_nat n) * 2 ^ 8)) with (k * 2 ^ 8 * 2 ^ (8 * Z.of_nat n)) by lia.
      rewrite Z.div_add by lia. apply Z_mod_plus_full.
    - replace (k * 2 ^ (8 * Z.of_nat (S n))) with (k * 2 ^ 8 * 2 ^ (8 * Z.of_nat n)).
      + apply IH.
      + replace (8 * Z.of_nat (S n)) with (8 * Z.of_nat n + 8) by lia.
        rewrite Z.pow_add_r by lia. lia. }
  induction bs as [|b bs IH]; simpl be_decode; simpl be_encode; [done|].
  pose proof (be_decode_range bs) as Hr. unfold zlen in *. f_equal.
  - rewrite Z.add_comm, Z.div_add, Z.div_small by lia. apply z2b_b2z.
  - rewrite Z.add_comm, H. apply IH.
Qed.

Lemma be_decode_app a b : be_decode (a ++ b) = be_decode a * 2 ^ (8 * zlen b) + be_decode b.
Proof.
  induction a as [|x a IH]; simpl; [done|]. rewrite IH. znorm. zlens.
  rewrite Z.mul_add_distr_l, Z.pow_add_r by lia. lia.
Qed.

(** ** The unparser writes the big-endian numeral *)

Lemma unparse_loop_eq todo : forall len i s val,
  Z.of_nat todo = len - i -> 
  NetUnparser.unparse_loop len i todo s val = s ++ be_encode todo val.
Proof.
  induction todo as [|todo IH]; intros len i s val H; simpl; [by rewrite app_nil_r|].
  rewrite IH, <- app_assoc by lia. simpl. do 2 f_equal.
  replace ((len - i - 1) * 8) with (8 * Z.of_nat todo) by lia.
  apply b2z_inj. rewrite !b2z_z2b. change 0xff with (Z.ones 8).
  rewrite Z.land_ones, Z.shiftr_div_pow2 by lia. apply wrapu_idemp.
Qed.

Lemma unparse_int_eq len s val :
  NetUnparser._unparse_int len s val = s ++ be_encode len val.
Proof. apply unparse_loop_eq. lia. Qed.

(** ** The parser reads it back *)

Lemma at_eq b i c : znth (Buffer.str b) i = Some c -> Buffer.at_ i b = Ret (b2z c).
Proof. intros H. unfold Buffer.at_. by rewrite H. Qed.

Lemma parse_loop_eq w b todo : 0 <= w -> forall i ret,
  0 <= i -> i + Z.of_nat todo <= zlen (Buffer.str b) -> 0 <= ret < 2 ^ w ->
  NetParser.parse_loop w b todo i ret =
    Ret (wrapu w (ret * 2 ^ (8 * Z.of_nat todo) +
      be_decode (ztake (Z.of_nat todo) (zdrop i (Buffer.str b))))).
Proof.
  intros Hw. induction todo as [|todo IH]; intros i ret Hi Hle Hret.
  - simpl. rewrite wrapu_small by lia. f_equal. lia.
  - destruct (znth_Some i (Buffer.str b) ltac:(lia)) as [c Hc].
    simpl. rewrite (at_eq b i c Hc). msimpl.
    rewrite IH by (try apply wrapu_range; lia). f_equal.
    assert (ztake (Z.of_nat (S todo)) (zdrop i (Buffer.str b)) =
      c :: ztake (Z.of_nat todo) (zdrop (i + 1) (Buffer.str b))) as ->.
    { unfold znth, ztake, zdrop in *. destruct (Z.leb_spec 0 i); [|lia].
      rewrite (drop_S _ c) by done. rewrite !Nat2Z.id. simpl.
      do 3 f_equal. lia. }
    simpl be_decode. pose proof (b2z_range c) as Hcr.
    rewrite zlen_ztake, zlen_zdrop, Z.min_l, (wrapu_small 8) by lia.
    replace (8 * Z.of_nat (S todo)) with (8 + 8 * Z.of_nat todo) by lia.
    rewrite Z.pow_add_r, Z.shiftl_mul_pow2, wrapu_add_l by lia.
    unfold wrapu. rewrite <- Zplus_mod_idemp_l, Zmult_mod_idemp_l, Zplus_mod_idemp_l.
    f_equal. lia.
Qed.

Lemma check_size_ok size p : size <= Buffer.size (NetParser._buffer p) ->
  NetParser._check_size size p = (Ret tt, p).
Proof. intros. unfold NetParser._check_size. msimpl. by zcases. Qed.

Lemma check_size_err size p : Buffer.size (NetParser._buffer p) < size ->
  NetParser._check_size size p =
    (Ret tt, NetParser.mk (NetParser._buffer p) PacketTooShort).
Proof. intros. unfold NetParser._check_size, NetParser.set_error. msimpl. by zcases. Qed.

Lemma error_false p : NetParser._error p = NoError -> NetParser.error p = false.
Proof. intros H. unfold NetParser.error, NetParser.get_error. by rewrite H. Qed.

Lemma error_true p : NetParser._error p <> NoError -> NetParser.error p = true.
Proof.
  intros H. unfold NetParser.error, NetParser.get_error. by rewrite bool_decide_eq_false_2.
Qed.

Lemma parse_int_ok len p :
  NetParser.wf p -> NetParser._error p = NoError -> Z.of_nat len <= zlen (NetParser.rest p) ->
  exists p', NetParser._parse_int len p =
      (Ret (be_decode (ztake (Z.of_nat len) (NetParser.rest p))), p') /\
    NetParser.wf p' /\ NetParser._error p' = NoError /\
    NetParser.rest p' = zdrop (Z.of_nat len) (NetParser.rest p).
Proof.
  unfold NetParser.rest, NetParser.wf. intros Hwf Herr Hle.
  destruct (Buffer_remove_prefix_ok (Z.of_nat len) _ Hwf ltac:(lia)) as (b' & E & Hwf' & Hs & _).
  exists (NetParser.mk b' NoError). simpl. split; [|done].
  unfold NetParser._parse_int. erewrite bind_Ret by (apply check_size_ok; done).
  unfold NetParser.buffer_remove_prefix. msimpl. rewrite error_false by done.
  rewrite parse_loop_eq by (try split; try apply Z.pow_pos_nonneg; lia). msimpl.
  rewrite E, Herr. do 2 f_equal. rewrite Z.mul_0_l, Z.add_0_l, zdrop_0.
  pose proof (be_decode_range (ztake (Z.of_nat len) (Buffer.str (NetParser._buffer p)))) as Hr.
  rewrite zlen_ztake, Z.min_l in Hr by lia. by rewrite wrapu_small.
Qed.

Lemma skip_ok n p :
  NetParser.wf p -> NetParser._error p = NoError -> 0 <= n <= zlen (NetParser.rest p) ->
  exists p', NetParser.remove_prefix n p = (Ret tt, p') /\
    NetParser.wf p' /\ NetParser._error p' = NoError /\
    NetParser.rest p' = zdrop n (NetParser.rest p).
Proof.
  unfold NetParser.rest, NetParser.wf. intros Hwf Herr Hle.
  destruct (Buffer_remove_prefix_ok n _ Hwf ltac:(lia)) as (b' & E & Hwf' & Hs & _).
  exists (NetParser.mk b' NoError). simpl. split; [|done].
  unfold NetParser.remove_prefix. erewrite bind_Ret by (apply check_size_ok; unfold Buffer.size; lia).
  unfold NetParser.buffer_remove_prefix. msimpl. rewrite error_false by done.
  by rewrite E, Herr.
Qed.

(** With an error set, and as soon as there are too few bytes, a call changes
    at most the error. *)
Lemma check_size_eq n p :
  NetParser._check_size n p =
    (Ret tt, NetParser.mk (NetParser._buffer p)
               (if zlen (NetParser.rest p) <? n then PacketTooShort else NetParser._error p)).
Proof.
  unfold NetParser.rest. destruct (Z.ltb_spec (zlen (Buffer.str (NetParser._buffer p))) n).
  - by apply check_size_err.
  - rewrite check_size_ok by done. by destruct p.
Qed.

Lemma parse_int_failed len p err :
  err = (if zlen (NetParser.rest p) <? Z.of_nat len then PacketTooShort
         else NetParser._error p) -> err <> NoError ->
  NetParser._parse_int len p = (Ret 0, NetParser.mk (NetParser._buffer p) err).
Proof.
  intros He Hne. unfold NetParser._parse_int.
  erewrite bind_Ret by apply check_size_eq. rewrite <- He. msimpl. by rewrite error_true.
Qed.

Lemma skip_failed n p err :
  err = (if zlen (NetParser.rest p) <? n then PacketTooShort
         else NetParser._error p) -> err <> NoError ->
  NetParser.remove_prefix n p = (Ret tt, NetParser.mk (NetParser._buffer p) err).
Proof.
  intros He Hne. unfold NetParser.remove_prefix.
  erewrite bind_Ret by apply check_size_eq. rewrite <- He. msimpl. by rewrite error_true.
Qed.

Lemma step_is_reference o p : NetParser.wf p -> NetParser.valid_op o ->
  let '(v, err, bs) := ref_step o (NetParser._error p) (NetParser.rest p) in
  exists p', NetParser.step o p = (Ret v, p') /\ NetParser.wf p' /\
    NetParser._error p' = err /\ NetParser.rest p' = bs.
Proof.
  intros Hwf Hval.
  destruct o as [len|n|r]; simpl NetParser.step; simpl NetParser.valid_op in Hval;
    unfold ref_step; simpl NetParser.need.
  - set (err := if zlen (NetParser.rest p) <? Z.of_nat len then _ else _).
    destruct (decide (err = NoError)) as [He|He].
    + subst err. case_match eqn:Hlt; [done|]. apply Z.ltb_ge in Hlt.
      destruct (parse_int_ok len p Hwf He Hlt) as (p' & ? & ? & ? & ?). exists p'.
      by rewrite He.
    + eexists. split; [by apply parse_int_failed|]. done.
  - set (err := if zlen (NetParser.rest p) <? n then _ else _).
    destruct (decide (err = NoError)) as [He|He].
    + subst err. case_match eqn:Hlt; [done|]. apply Z.ltb_ge in Hlt.
      destruct (skip_ok n p Hwf He ltac:(lia)) as (p' & E & ? & ? & ?). exists p'.
      erewrite bind_Ret by exact E. by rewrite He.
    + eexists. erewrite bind_Ret by (by apply skip_failed). by split.
  - eexists. split; [done|]. by split_and!.
Qed.

Lemma run_reference ops : forall p, NetParser.wf p -> Forall NetParser.valid_op ops ->
  let '(vs, err, bs) := ref_run ops (NetParser._error p) (NetParser.rest p) in
  exists p', NetParser.run ops p = (Ret vs, p') /\ NetParser.wf p' /\
    NetParser._error p' = err /\ NetParser.rest p' = bs.
Proof.
  induction ops as [|o ops IH]; intros p Hwf Hval; simpl; [by exists p|].
  apply Forall_cons in Hval as [Ho Hops].
  pose proof (step_is_reference o p Hwf Ho) as Hstep.
  destruct (ref_step o _ _) as [[v err1] bs1].
  destruct Hstep as (p1 & E1 & Hwf1 & <- & <-). specialize (IH p1 Hwf1 Hops).
  destruct (ref_run ops _ _) as [[vs err2] bs2]. destruct IH as (p2 & E2 & H2).
  exists p2. split; [|done]. erewrite bind_Ret by exact E1. by erewrite bind_Ret by exact E2.
Qed.

Lemma new_wf s : zlen s <= SIZE_MAX -> NetParser.wf (NetParser.new (Buffer.of_string s)).
Proof. apply Buffer_wf_of_string. Qed.

Lemma new_rest s : zlen s <= SIZE_MAX ->
  NetParser.rest (NetParser.new (Buffer.of_string s)) = s.
Proof. apply Buffer_str_of_string. Qed.

Lemma fields_eq fs : forall s,
  NetUnparser.fields fs s = s ++ concat (map (fun f => be_encode (fst f) (snd f)) fs).
Proof.
  induction fs as [|[len v] fs IH]; intros s; simpl; [by rewrite app_nil_r|].
  unfold NetUnparser.fields in IH. rewrite IH, unparse_int_eq, <- app_assoc. done.
Qed.

Lemma ref_run_fields fs tail :
  ref_run (map (fun f => NetParser.ParseInt (fst f)) fs) NoError
      (concat (map (fun f => be_encode (fst f) (snd f)) fs) ++ tail) =
    (map (fun f => wrapu (8 * Z.of_nat (fst f)) (snd f)) fs, NoError, tail).
Proof.
  induction fs as [|[len v] fs IH]; simpl; [done|]. rewrite <- app_assoc.
  pose proof (zlen_be_encode len v) as Hl. zlens.
  set (more := concat _ ++ tail) in *.
  assert ((zlen (be_encode len v ++ more) <? Z.of_nat len) = false) as ->.
  { apply Z.ltb_ge. znorm. zlia. }
  rewrite decide_True by done.
  rewrite ztake_app, ztake_all by lia. rewrite zdrop_app_ge, Hl, Z.sub_diag, zdrop_0 by lia.
  rewrite IH. unfold ztake. simpl. by rewrite app_nil_r, be_decode_encode.
Qed.

(** Once an error is set, only its value changes. *)
Lemma ref_run_sticky ops : forall err bs, no_set_error ops -> err <> NoError ->
  ref_run ops err bs =
    (map (fun _ => 0) ops,
     if forallb (fun o => NetParser.need o <=? zlen bs) ops then err else PacketTooShort, bs).
Proof.
  induction ops as [|o ops IH]; intros err bs Hno Hne; simpl; [done|].
  apply Forall_cons in Hno as [Ho Hops].
  assert (ref_step o err bs =
    (0, if NetParser.need o <=? zlen bs then err else PacketTooShort, bs)) as ->.
  { destruct o as [len|n|]; [| |done]; unfold ref_step; rewrite Z.ltb_antisym;
      [destruct (NetParser.need (NetParser.ParseInt len) <=? zlen bs)
      |destruct (NetParser.need (NetParser.Skip n) <=? zlen bs)];
      cbn [negb]; rewrite decide_False; done. }
  destruct (NetParser.need o <=? zlen bs); simpl; rewrite IH by done; [done|].
  by destruct (forallb _ ops).
Qed.

(** The example does not throw. *)
Example parser_example_returns : parser_example = Ret tt /\ parser_dt = Ret EXIT_SUCCESS.
Proof. split; vm_compute; reflexivity. Qed.

(** ** Properties *)

(** C13. The parser is the reference: on a well-formed buffer every sequence
    of calls returns (nothing ever throws, [at] and [remove_prefix] being
    guarded by the size check), and the integers, the error and the bytes
    left are those of the reference parser. *)
Theorem parser_is_reference p ops : NetParser.wf p -> Forall NetParser.valid_op ops ->
  let '(vs, err, bs) := ref_run ops (NetParser._error p) (NetParser.rest p) in
  exists p', NetParser.run ops p = (Ret vs, p') /\ NetParser.wf p' /\
    NetParser._error p' = err /\ NetParser.rest p' = bs.
Proof. intros. by apply run_reference. Qed.

Lemma parser_is_reference_witness :
  exists p', NetParser.run [NetParser.ParseInt 2; NetParser.ParseInt 4]
      (NetParser.new (Buffer.of_string (lit "abc"))) = (Ret [24930; 0], p') /\
    NetParser.wf p' /\ NetParser._error p' = PacketTooShort /\ NetParser.rest p' = lit "c".
Proof.
  exact (parser_is_reference (NetParser.new (Buffer.of_string (lit "abc")))
    [NetParser.ParseInt 2; NetParser.ParseInt 4]
    ltac:(by vm_compute)
    ltac:(repeat (apply Forall_cons_2; [simpl; lia|]); apply Forall_nil_2)).
Defined.

(** C14. Round trip: a header of any number of fields, each of at most 8
    bytes, written by the unparser is read back by the parser field by field,
    each value reduced to the width of its field, leaving what follows the
    header and no error. *)
Theorem unparse_parse_roundtrip fs tail :
  Forall (fun f => (fst f <= 8)%nat) fs -> zlen (NetUnparser.fields fs [] ++ tail) <= SIZE_MAX ->
  exists p', NetParser.run (map (fun f => NetParser.ParseInt (fst f)) fs)
      (NetParser.new (Buffer.of_string (NetUnparser.fields fs [] ++ tail))) =
        (Ret (map (fun f => wrapu (8 * Z.of_nat (fst f)) (snd f)) fs), p') /\
    NetParser.get_error p' = NoError /\ NetParser.rest p' = tail.
Proof.
  intros Hfs Hlen. set (s := NetUnparser.fields fs [] ++ tail) in *.
  pose proof (run_reference (map (fun f => NetParser.ParseInt (fst f)) fs)
    (NetParser.new (Buffer.of_string s)) (new_wf s Hlen)) as H.
  rewrite new_rest in H by done. simpl NetParser._error in H. subst s.
  rewrite fields_eq in *. simpl app in *. rewrite ref_run_fields in H.
  destruct H as (p' & E & _ & He & Hr); [|by exists p'].
  rewrite Forall_map. by eapply Forall_impl.
Qed.

Lemma unparse_parse_roundtrip_witness :
  exists p', NetParser.run [NetParser.ParseInt 4; NetParser.ParseInt 2; NetParser.ParseInt 1]
      (NetParser.new (Buffer.of_string
        (NetUnparser.u8 (NetUnparser.u16 (NetUnparser.u32 [] 0xdeadbeef) 80) 255 ++ lit "x"))) =
        (Ret [0xdeadbeef; 80; 255], p') /\
    NetParser.get_error p' = NoError /\ NetParser.rest p' = lit "x".
Proof.
  exact (unparse_parse_roundtrip [(4%nat, 0xdeadbeef); (2%nat, 80); (1%nat, 255)] (lit "x")
    ltac:(repeat (apply Forall_cons_2; [simpl; lia|]); apply Forall_nil_2)
    ltac:(by vm_compute)).
Defined.

(** The other direction: writing back the integer read from a parser
    that had enough bytes and no error restores exactly the bytes consumed. *)
Theorem parse_unparse_roundtrip len p :
  NetParser.wf p -> NetParser.get_error p = NoError ->
  Z.of_nat len <= zlen (NetParser.rest p) ->
  exists v p', NetParser._parse_int len p = (Ret v, p') /\ 0 <= v < 2 ^ (8 * Z.of_nat len) /\
    NetUnparser._unparse_int len [] v ++ NetParser.rest p' = NetParser.rest p.
Proof.
  intros Hwf He Hle. destruct (parse_int_ok len p Hwf He Hle) as (p' & E & _ & _ & Hr).
  eexists _, p'. split; [exact E|].
  set (bs := ztake (Z.of_nat len) (NetParser.rest p)).
  assert (zlen bs = Z.of_nat len) as Hl by (subst bs; rewrite zlen_ztake; lia).
  split; [rewrite <- Hl; apply be_decode_range|].
  rewrite unparse_int_eq, Hr. simpl.
  assert (len = length bs) as Hlen by (unfold zlen in Hl; lia).
  rewrite Hlen at 1. rewrite be_encode_decode. apply ztake_zdrop.
Qed.

Lemma parse_unparse_roundtrip_witness :
  exists v p', NetParser._parse_int 2 (NetParser.new (Buffer.of_string (lit "abc"))) =
      (Ret v, p') /\ 0 <= v < 2 ^ 16 /\
    NetUnparser._unparse_int 2 [] v ++ NetParser.rest p' = lit "abc".
Proof.
  exact (parse_unparse_roundtrip 2 (NetParser.new (Buffer.of_string (lit "abc")))
    ltac:(by vm_compute) eq_refl ltac:(by vm_compute)).
Defined.

(** C33. Errors are sticky but not stable: once an error is set, and until
    the client sets another, every call returns 0 and consumes nothing; the
    error keeps its value exactly if every call fits what is left, and is
    otherwise overwritten with [PacketTooShort]. *)
Theorem errors_sticky_not_stable p ops :
  NetParser.wf p -> Forall NetParser.valid_op ops -> no_set_error ops ->
  NetParser.get_error p <> NoError ->
  exists p', NetParser.run ops p = (Ret (map (fun _ => 0) ops), p') /\
    NetParser.error p' = true /\ NetParser.rest p' = NetParser.rest p /\
    NetParser.get_error p' =
      (if forallb (fun o => NetParser.need o <=? zlen (NetParser.rest p)) ops
       then NetParser.get_error p else PacketTooShort).
Proof.
  intros Hwf Hval Hno Hne. pose proof (run_reference ops p Hwf Hval) as H.
  rewrite ref_run_sticky in H by done. destruct H as (p' & E & _ & He & Hr).
  exists p'. split_and!; try done. apply error_true. rewrite He. by case_match.
Qed.

(** A checksum error reported as a short packet. *)
Lemma errors_sticky_not_stable_witness :
  exists p', NetParser.run [NetParser.ParseInt 4]
      (NetParser.mk (Buffer.of_string (lit "ab")) BadChecksum) = (Ret [0], p') /\
    NetParser.error p' = true /\ NetParser.rest p' = lit "ab" /\
    NetParser.get_error p' = PacketTooShort.
Proof.
  exact (errors_sticky_not_stable (NetParser.mk (Buffer.of_string (lit "ab")) BadChecksum)
    [NetParser.ParseInt 4] ltac:(by vm_compute)
    ltac:(repeat (apply Forall_cons_2; [simpl; lia|]); apply Forall_nil_2)
    ltac:(repeat (apply Forall_cons_2; [done|]); apply Forall_nil_2)
    ltac:(discriminate)).
Defined.
