(* ===== verification/Checksum.v ===== *)
(** The Internet checksum of [libsponge/util/util.{hh,cc}]: the class
    [InternetChecksum], against the ones' complement sum of RFC 1071. *)

From S2P Require Import Prelude.

Local Open Scope Z_scope.

(** ** The class *)

Record InternetChecksum : Type := mkChecksum { _sum : Z; _parity : bool }.

Definition new (initial_sum : Z) : InternetChecksum := mkChecksum initial_sum false.

(** One round of the loop of [add]. *)
Definition add_byte (c : InternetChecksum) (b : byte) : InternetChecksum :=
  let val := u16 (u8 (b2z b)) in
  let val := if negb (_parity c) then u16 (Z.shiftl val 8) else val in
  mkChecksum (u32 (_sum c + val)) (negb (_parity c)).

Definition add (data : bytes) (c : InternetChecksum) : InternetChecksum :=
  fold_left add_byte data c.

(** [while (ret > 0xffff) ret = (ret >> 16) + (ret & 0xffff);] *)
Fixpoint value_loop (fuel : nat) (ret : Z) : outcome Z :=
  match fuel with
  | O => NoFuel
  | S fuel' =>
      if ret >? 0xffff
      then value_loop fuel' (u32 (Z.shiftr ret 16 + Z.land ret 0xffff))
      else Ret ret
  end.

(** [return ~ret;] as a [uint16_t]. *)
Definition value (c : InternetChecksum) : outcome Z :=
  ret ← value_loop 3 (_sum c);
  Ret (u16 (Z.lnot ret)).

(** ** The reference *)

(** The sum of the 16-bit words in network order, an odd last byte being the
    high half of a word; [psum true] starts in the middle of a word. *)
Fixpoint psum (parity : bool) (data : bytes) : Z :=
  match data with
  | [] => 0
  | b :: rest => (if parity then b2z b else 256 * b2z b) + psum (negb parity) rest
  end.

Definition word_sum (data : bytes) : Z := psum false data.

(** Ones' complement reduction to 16 bits: 0 only for 0. *)
Definition fold16 (s : Z) : Z := if s =? 0 then 0 else (s - 1) `mod` 0xffff + 1.

Definition rfc1071 (s : Z) : Z := 0xffff - fold16 s.

(** The parity after [n] bytes. *)
Definition flip (data : bytes) (parity : bool) : bool :=
  xorb parity (Nat.odd (length data)).

(** A 16-bit field in network order. *)
Definition word_bytes (v : Z) : bytes := [z2b (v / 256); z2b v].

(** The largest payload whose sum cannot wrap. *)
Definition MAX_SAFE : Z := 131074.

(** ** Lemmas *)

Lemma psum_range parity data :
  0 <= psum parity data <= 0xffff * (zlen data / 2) + 0xff00 * (zlen data `mod` 2).
Proof.
  assert (H : forall data parity, 0 <= psum parity data /\
    2 * psum parity data <= 0xffff * zlen data + (if parity then - 0xfe01 else 0xfe01)
      * (zlen data `mod` 2)).
  { clear. induction data as [|b data IH]; intros parity; simpl psum.
    { znorm. by destruct parity. }
    pose proof (b2z_range b) as Hb. destruct (IH (negb parity)) as [H1 H2].
    rewrite zlen_cons. zlens.
    rewrite Z.add_mod by lia. pose proof (Z.mod_pos_bound (zlen data) 2 ltac:(lia)) as Hm.
    destruct (decide (zlen data `mod` 2 = 0)) as [E|E].
    - rewrite E in *. change ((1 `mod` 2 + 0) `mod` 2) with 1.
      destruct parity; simpl negb in *; cbn iota in *; lia.
    - assert (zlen data `mod` 2 = 1) as E1 by lia. rewrite E1 in *.
      change ((1 `mod` 2 + 1) `mod` 2) with 0.
      destruct parity; simpl negb in *; cbn iota in *; lia. }
  destruct (H data parity) as [H1 H2]. split; [done|]. zlens.
  pose proof (Z.div_mod (zlen data) 2 ltac:(lia)) as Hd.
  pose proof (Z.mod_pos_bound (zlen data) 2 ltac:(lia)) as Hm.
  destruct (decide (zlen data `mod` 2 = 0)); destruct parity; nia.
Qed.

Lemma psum_app a : forall parity b,
  psum parity (a ++ b) = psum parity a + psum (flip a parity) b.
Proof.
  induction a as [|x a IH]; intros parity b; simpl app; simpl psum.
  - unfold flip. by rewrite xorb_false_r.
  - rewrite IH. replace (flip (x :: a) parity) with (flip a (negb parity)); [lia|].
    unfold flip. simpl length. rewrite Nat.odd_succ, <- Nat.negb_odd.
    by destruct parity, (Nat.odd (length a)).
Qed.

Lemma add_spec data : forall c,
  add data c = mkChecksum (match data with [] => _sum c | _ => u32 (_sum c + psum (_parity c) data) end)
                 (flip data (_parity c)).
Proof.
  induction data as [|b data IH]; intros c; simpl.
  - unfold flip. rewrite xorb_false_r. by destruct c.
  - rewrite IH. pose proof (b2z_range b) as Hb.
    assert (Hv : (if negb (_parity c) then u16 (Z.shiftl (u16 (u8 (b2z b))) 8)
                  else u16 (u8 (b2z b))) =
                 (if _parity c then b2z b else 256 * b2z b)).
    { rewrite (wrapu_small 8), (wrapu_small 16 (b2z b)) by lia.
      rewrite Z.shiftl_mul_pow2 by lia. destruct (_parity c); simpl; [done|].
      rewrite wrapu_small by lia. lia. }
    unfold add_byte. rewrite Hv. simpl. f_equal.
    + destruct data; [simpl; f_equal; lia|]. rewrite wrapu_add_l. f_equal. lia.
    + unfold flip. simpl length. rewrite Nat.odd_succ, <- Nat.negb_odd.
      by destruct (_parity c), (Nat.odd (length data)).
Qed.

Lemma fold16_step s : 0xffff < s -> fold16 (Z.shiftr s 16 + Z.land s 0xffff) = fold16 s.
Proof.
  intros Hs. change (Z.land s 0xffff) with (Z.land s (Z.ones 16)). rewrite Z.land_ones, Z.shiftr_div_pow2 by lia.
  pose proof (Z.div_mod s (2 ^ 16) ltac:(lia)) as Hd.
  pose proof (Z.mod_pos_bound s (2 ^ 16) ltac:(lia)) as Hm.
  pose proof (Z.div_le_lower_bound s (2 ^ 16) 1 ltac:(lia) ltac:(lia)) as Hq.
  unfold fold16. zcases. f_equal.
  rewrite <- (Z_mod_plus_full (s / 2 ^ 16 + _ - 1) (s / 2 ^ 16)). f_equal. lia.
Qed.

Lemma fold16_small s : 0 <= s <= 0xffff -> fold16 s = s.
Proof. intros. unfold fold16. zcases. rewrite Z.mod_small; lia. Qed.

Lemma fold16_range s : 0 <= s -> 0 <= fold16 s <= 0xffff.
Proof.
  intros. unfold fold16. zcases.
  pose proof (Z.mod_pos_bound (s - 1) 0xffff ltac:(lia)). lia.
Qed.

Lemma fold16_eqm s : fold16 s `mod` 0xffff = s `mod` 0xffff.
Proof.
  unfold fold16. zcases; [by subst|]. rewrite Zplus_mod_idemp_l. f_equal. lia.
Qed.

(** Three tests of the loop condition are enough for a 32-bit sum. *)
Lemma value_loop_eq s : 0 <= s < 2 ^ 32 -> value_loop 3 s = Ret (fold16 s).
Proof.
  assert (Hr : forall s, 0 <= s < 2 ^ 32 -> 0xffff < s ->
    0 <= Z.shiftr s 16 + Z.land s 0xffff <= s / 2 ^ 16 + 0xffff /\
    (s / 2 ^ 16 <= 1 -> Z.land s 0xffff <= s - 2 ^ 16)).
  { clear. intros s Hs Hb. change (Z.land s 0xffff) with (Z.land s (Z.ones 16)).
    rewrite Z.land_ones, Z.shiftr_div_pow2 by lia.
    pose proof (Z.div_mod s (2 ^ 16) ltac:(lia)) as Hd.
    pose proof (Z.mod_pos_bound s (2 ^ 16) ltac:(lia)) as Hm.
    pose proof (Z.div_le_lower_bound s (2 ^ 16) 1 ltac:(lia) ltac:(lia)) as Hq.
    unfold Z.ones. simpl. lia. }
  intros Hs. cbn [value_loop]. destruct (Z.gtb_spec s 0xffff) as [H1|H1];
    [|by rewrite fold16_small by lia].
  destruct (Hr s Hs H1) as [Hb1 _]. pose proof (Z.div_lt_upper_bound s (2 ^ 16) (2 ^ 16)
    ltac:(lia) ltac:(lia)) as Hq.
  set (s1 := Z.shiftr s 16 + Z.land s 0xffff) in *.
  rewrite (wrapu_small 32 s1) by lia. rewrite <- (fold16_step s) by lia. fold s1.
  destruct (Z.gtb_spec s1 0xffff) as [H2|H2]; [|by rewrite fold16_small by lia].
  destruct (Hr s1 ltac:(lia) H2) as [_ Hb2].
  pose proof (Z.div_lt_upper_bound s1 (2 ^ 16) 2 ltac:(lia) ltac:(lia)) as Hq1.
  specialize (Hb2 ltac:(lia)).
  assert (Hsh : Z.shiftr s1 16 <= 1) by (rewrite Z.shiftr_div_pow2; lia).
  assert (0 <= Z.shiftr s1 16) by (apply Z.shiftr_nonneg; lia).
  assert (0 <= Z.land s1 0xffff) by (apply Z.land_nonneg; lia).
  rewrite <- (fold16_step s1) by lia.
  rewrite (wrapu_small 32) by lia.
  destruct (Z.gtb_spec (Z.shiftr s1 16 + Z.land s1 0xffff) 0xffff); [lia|].
  by rewrite fold16_small by lia.
Qed.

Lemma value_eq c : 0 <= _sum c < 2 ^ 32 -> value c = Ret (rfc1071 (_sum c)).
Proof.
  intros H. unfold value. rewrite value_loop_eq by done. msimpl.
  pose proof (fold16_range (_sum c) ltac:(lia)) as Hf. unfold rfc1071. f_equal.
  unfold Z.lnot, wrapu. rewrite <- (Z_mod_plus_full _ 1), Z.mod_small; lia.
Qed.

(** The sum of any sequence of [add] calls, as long as it does not wrap. *)
Lemma add_chunks chunks : forall c,
  0 <= _sum c -> _sum c + psum (_parity c) (concat chunks) < 2 ^ 32 ->
  _sum (fold_left (fun c d => add d c) chunks c) =
    _sum c + psum (_parity c) (concat chunks).
Proof.
  induction chunks as [|d chunks IH]; intros c Hc Hlt; simpl in *; [lia|].
  rewrite psum_app in *.
  pose proof (psum_range (_parity c) d) as [Hd _].
  pose proof (psum_range (flip d (_parity c)) (concat chunks)) as [Hr _].
  assert (Hs : _sum (add d c) = _sum c + psum (_parity c) d).
  { rewrite add_spec. simpl. destruct d; [simpl; lia|]. by rewrite wrapu_small by lia. }
  assert (Hp : _parity (add d c) = flip d (_parity c)) by (by rewrite add_spec).
  rewrite IH; rewrite Hs, ?Hp; lia.
Qed.

Lemma psum_word v : 0 <= v < 2 ^ 16 -> word_sum (word_bytes v) = v.
Proof.
  intros. unfold word_sum, word_bytes. simpl. rewrite !b2z_z2b.
  pose proof (Z.div_mod v 256 ltac:(lia)) as Hd. unfold wrapu. change (2 ^ 8) with 256.
  pose proof (Z.div_pos v 256 ltac:(lia) ltac:(lia)).
  pose proof (Z.div_lt_upper_bound v 256 256 ltac:(lia) ltac:(lia)).
  rewrite (Z.mod_small (v / 256)) by lia. lia.
Qed.

(** A word at an even offset contributes its value. *)
Lemma word_sum_hole pre v post : Nat.Even (length pre) -> 0 <= v < 2 ^ 16 ->
  word_sum (pre ++ word_bytes v ++ post) = word_sum (pre ++ word_bytes 0 ++ post) + v.
Proof.
  intros Hev Hv. unfold word_sum. rewrite !psum_app.
  assert (flip pre false = false) as ->.
  { unfold flip. rewrite <- Nat.even_spec in Hev. by rewrite <- Nat.negb_even, Hev. }
  pose proof (psum_word v Hv) as Hw. pose proof (psum_word 0 ltac:(lia)) as H0.
  unfold word_sum in *. rewrite Hw, H0. unfold flip. simpl. lia.
Qed.

Lemma checksum_of data : word_sum data < 2 ^ 32 ->
  value (add data (new 0)) = Ret (rfc1071 (word_sum data)).
Proof.
  intros H. pose proof (psum_range false data) as [Hr _].
  pose proof (add_chunks [data] (new 0)) as Ha. simpl in Ha. rewrite app_nil_r in Ha.
  unfold word_sum in *. rewrite value_eq; rewrite Ha; [f_equal; lia| | |lia..]; lia.
Qed.

Lemma word_sum_ff k rest :
  word_sum (replicate (2 * k) Byte.xff ++ rest) = 0xffff * Z.of_nat k + word_sum rest.
Proof.
  induction k as [|k IH]; [done|].
  replace (2 * S k)%nat with (S (S (2 * k))) by lia.
  change (word_sum (replicate (S (S (2 * k))) Byte.xff ++ rest)) with
    (256 * 255 + (255 + word_sum (replicate (2 * k) Byte.xff ++ rest))).
  rewrite IH. lia.
Qed.

(** What the class computes when the sum wraps. *)
Lemma checksum_wrapped data : data <> [] ->
  value (add data (new 0)) = Ret (rfc1071 (u32 (word_sum data))).
Proof.
  intros Hne. assert (Hs : _sum (add data (new 0)) = u32 (word_sum data)).
  { rewrite add_spec. by destruct data. }
  rewrite value_eq; rewrite Hs; [done | by apply wrapu_range].
Qed.

(** ** Properties *)

(** C15. Functional correctness and termination of the checksum: fed any
    sequence of chunks, cut anywhere (an odd cut is carried by the parity
    bit), the class returns the RFC 1071 checksum of their concatenation, if
    the sum fits its 32-bit accumulator. *)
Theorem checksum_is_rfc1071 initial_sum chunks :
  0 <= initial_sum -> initial_sum + word_sum (concat chunks) < 2 ^ 32 ->
  value (fold_left (fun c d => add d c) chunks (new initial_sum)) =
    Ret (rfc1071 (initial_sum + word_sum (concat chunks))).
Proof.
  intros Hi Hlt. pose proof (psum_range false (concat chunks)) as [Hr _].
  pose proof (add_chunks chunks (new initial_sum) Hi Hlt) as Ha. simpl in Ha.
  unfold word_sum in *. rewrite value_eq; rewrite Ha; [done|lia].
Qed.

Lemma checksum_is_rfc1071_witness :
  value (fold_left (fun c d => add d c) [lit "a"; lit "bcd"; []; lit "e"] (new 6)) =
    Ret (rfc1071 (6 + word_sum (lit "abcde"))).
Proof.
  exact (checksum_is_rfc1071 6 [lit "a"; lit "bcd"; []; lit "e"] ltac:(lia) ltac:(by vm_compute)).
Defined.

(** C21. The contract of the class comment: a packet whose checksum field (an
    aligned word) was computed with the field set to zero checks to zero. *)
Theorem checksum_of_checksummed_is_zero pre post :
  Nat.Even (length pre) -> word_sum (pre ++ word_bytes 0 ++ post) + 0xffff < 2 ^ 32 ->
  exists v, value (add (pre ++ word_bytes 0 ++ post) (new 0)) = Ret v /\
    value (add (pre ++ word_bytes v ++ post) (new 0)) = Ret 0.
Proof.
  intros Hev Hlt. set (s := word_sum (pre ++ word_bytes 0 ++ post)) in *.
  pose proof (psum_range false (pre ++ word_bytes 0 ++ post)) as [Hs _].
  fold (word_sum (pre ++ word_bytes 0 ++ post)) in Hs. fold s in Hs.
  pose proof (fold16_range s Hs) as Hf.
  exists (rfc1071 s). rewrite checksum_of by (fold s; lia). split; [done|].
  unfold rfc1071.
  assert (Hsum : word_sum (pre ++ word_bytes (0xffff - fold16 s) ++ post) =
    s + (0xffff - fold16 s)) by (apply word_sum_hole; [done|lia]).
  rewrite checksum_of by (rewrite Hsum; lia). rewrite Hsum. unfold rfc1071. f_equal.
  assert (fold16 (s + (0xffff - fold16 s)) = 0xffff); [|lia].
  assert (Hle : fold16 s <= s).
  { unfold fold16. zcases. pose proof (Z.mod_le (s - 1) 0xffff ltac:(lia) ltac:(lia)). lia. }
  pose proof (fold16_eqm s) as Hq.
  unfold fold16 at 1. zcases.
  assert ((s + (0xffff - fold16 s) - 1) `mod` 0xffff = 0xfffe); [|lia].
  replace (s + (0xffff - fold16 s) - 1) with (s - fold16 s + 0xfffe) by lia.
  rewrite Z.add_mod, Zminus_mod, Hq, Z.sub_diag by lia. done.
Qed.

Lemma checksum_of_checksummed_is_zero_witness :
  exists v, value (add (lit "ab" ++ word_bytes 0 ++ lit "xyz") (new 0)) = Ret v /\
    value (add (lit "ab" ++ word_bytes v ++ lit "xyz") (new 0)) = Ret 0.
Proof.
  exact (checksum_of_checksummed_is_zero (lit "ab") (lit "xyz") ltac:(by exists 1%nat)
    ltac:(by vm_compute)).
Defined.

(** C35. The accumulator: every payload of up to 131074 bytes is summed
    without wrapping, whatever its content; the bound is sharp, one more
    byte can make the 32-bit sum lose a carry and the checksum wrong. *)
Theorem checksum_payload_bound :
  (forall data, zlen data <= MAX_SAFE ->
     value (add data (new 0)) = Ret (rfc1071 (word_sum data))) /\
  (exists data, zlen data = MAX_SAFE + 1 /\
     value (add data (new 0)) <> Ret (rfc1071 (word_sum data))).
Proof.
  unfold MAX_SAFE. split.
  - intros data H. apply checksum_of. unfold word_sum. zlens.
    pose proof (psum_range false data) as [_ Hr].
    pose proof (Z.div_mod (zlen data) 2 ltac:(lia)).
    pose proof (Z.mod_pos_bound (zlen data) 2 ltac:(lia)). nia.
  - set (k := Z.to_nat 65537).
    assert (Hk : Z.of_nat k = 65537) by (apply Z2Nat.id; lia). clearbody k.
    exists (replicate (2 * k) Byte.xff ++ [Byte.xff]). split.
    + znorm. unfold zlen. rewrite length_replicate. lia.
    + rewrite checksum_wrapped by (by destruct (2 * k)%nat).
      rewrite word_sum_ff, Hk. vm_compute. discriminate.
Qed.

(** Error detection: changing one aligned word of a packet leaves the
    checksum unchanged only if it exchanges 0x0000 and 0xffff. *)
Theorem checksum_detects_word_change pre post v v' :
  Nat.Even (length pre) -> 0 <= v < 2 ^ 16 -> 0 <= v' < 2 ^ 16 -> v <> v' ->
  word_sum (pre ++ word_bytes 0 ++ post) + 0xffff < 2 ^ 32 ->
  value (add (pre ++ word_bytes v ++ post) (new 0)) =
    value (add (pre ++ word_bytes v' ++ post) (new 0)) ->
  (v = 0 /\ v' = 0xffff) \/ (v = 0xffff /\ v' = 0).
Proof.
  intros Hev Hv Hv' Hne Hlt.
  pose proof (word_sum_hole pre v post Hev Hv) as H1.
  pose proof (word_sum_hole pre v' post Hev Hv') as H2.
  set (s := word_sum (pre ++ word_bytes 0 ++ post)) in *.
  rewrite !checksum_of by lia. rewrite H1, H2. unfold rfc1071. intros [= Heq].
  assert (Hf : fold16 (s + v) = fold16 (s + v')) by lia.
  apply (f_equal (fun x => x `mod` 0xffff)) in Hf. rewrite !fold16_eqm in Hf.
  assert (Hd : (v - v') `mod` 0xffff = 0).
  { replace (v - v') with (s + v - (s + v')) by lia. by rewrite Zminus_mod, Hf, Z.sub_diag. }
  apply Z.mod_divide in Hd as [k Hk]; [|lia].
  assert (k = 1 \/ k = -1) as [->| ->] by nia; lia.
Qed.

Lemma checksum_detects_word_change_witness :
  (0 = 0 /\ 0xffff = 0xffff) \/ (0 = 0xffff /\ 0xffff = 0).
Proof.
  apply (checksum_detects_word_change (lit "ab") (lit "c") 0 0xffff); try lia;
    [by exists 1%nat | by vm_compute | by vm_compute].
Defined.
