(* ===== verification/Hexdump.v ===== *)
(** The hex dump of [libsponge/util/util.cc]: [hexdump] as it drives the
    formatting state of [std::cout], and the layout of what it prints. *)

From S2P Require Import Prelude CString.

Local Open Scope Z_scope.

(** ** Streams *)

(** The fields of the format flags of [std::ios_base] that say how integers
    and strings are printed. *)
Inductive base_field : Type := Dec | Oct | Hex.
Inductive adjust_field : Type := Left | Right | Internal.

Record fmtflags : Type := mkFlags {
  basefield : base_field;
  adjustfield : adjust_field;
  showbase : bool;
  showpos : bool;
  uppercase : bool
}.

(** What the function uses of [std::ostream]: the characters written, the
    flags that [flags()] saves, the fill character, which it does not save,
    and the width of the next field. *)
Record ostream : Type := mkStream { text : bytes; fmt : fmtflags; fillc : byte; width : Z }.

Definition set_fmt (f : fmtflags -> fmtflags) (o : ostream) : ostream :=
  mkStream (text o) (f (fmt o)) (fillc o) (width o).
Definition set_fill (v : byte) (o : ostream) : ostream := mkStream (text o) (fmt o) v (width o).
Definition set_width (v : Z) (o : ostream) : ostream := mkStream (text o) (fmt o) (fillc o) v.

(** [std::hex] *)
Definition set_hex (f : fmtflags) : fmtflags :=
  mkFlags Hex (adjustfield f) (showbase f) (showpos f) (uppercase f).

(** The digits of [n >= 0] in base [b], the letters from [ten] on. *)
Definition digit (ten d : Z) : byte := z2b (if d <? 10 then 48 + d else ten + (d - 10)).

Fixpoint digits (fuel : nat) (b ten n : Z) (acc : bytes) : bytes :=
  match fuel with
  | O => acc
  | S fuel' =>
      let acc := digit ten (n `mod` b) :: acc in
      if n / b =? 0 then acc else digits fuel' b ten (n / b) acc
  end.

(** An [int] that is not negative has at most 8 digits in base 16 and 11 in
    base 8. *)
Definition hex_string (up : bool) (n : Z) : bytes := digits 8 16 (if up then 65 else 97) n [].

(** What an [int] that is not negative is printed as: a prefix, before which
    or after which [Internal] padding goes, and digits.  Zero has no base. *)
Definition int_parts (f : fmtflags) (n : Z) : bytes * bytes :=
  match basefield f with
  | Hex => (if showbase f && negb (n =? 0) then (if uppercase f then lit "0X" else lit "0x") else [],
            hex_string (uppercase f) n)
  | Oct => ([], (if showbase f && negb (n =? 0) then lit "0" else []) ++ digits 11 8 97 n [])
  | Dec => (if showpos f then lit "+" else [], to_string n)
  end.

(** Characters to fill up to [n]. *)
Definition padding (n : Z) (c : byte) (s : bytes) : bytes := replicate (Z.to_nat (n - zlen s)) c.

Definition pad (f : fmtflags) (n : Z) (c : byte) (prefix s : bytes) : bytes :=
  let p := padding n c (prefix ++ s) in
  match adjustfield f with
  | Left => prefix ++ s ++ p
  | Right => p ++ prefix ++ s
  | Internal => prefix ++ p ++ s
  end.

(** [os << s] for a string and [os << n] for an [int]: padded to the width,
    which is reset.  A string has no prefix. *)
Definition put_padded (prefix s : bytes) : M ostream unit :=
  modify (fun o => mkStream (text o ++ pad (fmt o) (width o) (fillc o) prefix s) (fmt o) (fillc o) 0).

Definition put (s : bytes) : M ostream unit := put_padded [] s.

Definition put_int (n : Z) : M ostream unit :=
  o ← get; let '(prefix, s) := int_parts (fmt o) n in put_padded prefix s.

Definition setw (n : Z) : M ostream unit := modify (set_width n).

(** A [std::stringstream] made from a string, without [ios::ate]: output
    starts at its beginning and overwrites it. *)
Definition stringstream : Type := bytes * nat.

Definition ss_new (s : bytes) : stringstream := (s, 0%nat).
Definition ss_put (c : byte) (ss : stringstream) : stringstream :=
  let '(s, pos) := ss in (take pos s ++ [c] ++ drop (S pos) s, S pos).
Definition ss_str (ss : stringstream) : bytes := fst ss.

(** ** The function *)

Definition spaces (n : Z) : bytes := replicate (Z.to_nat n) (z2b 32).

Definition isprint (c : byte) : bool := (32 <=? b2z c) && (b2z c <=? 126).

Definition newline : bytes := [z2b 10].

(** The start of a row, after the end of the one before it. *)
Definition start_row (indent_string : bytes) (printed : Z) (pchars : stringstream) :
    M ostream stringstream :=
  pchars ← (if negb (printed =? 0) then
              put (spaces 4) ;;; put (ss_str pchars) ;;; put newline ;;;
              mret (ss_new (spaces 1))
            else mret pchars);
  put indent_string ;;; setw 8 ;;; put_int printed ;;; put (lit ":    ") ;;;
  mret pchars.

(** The loop over the bytes; incrementing [printed] past [INT_MAX] is
    undefined behaviour. *)
Fixpoint hexdump_loop (data indent_string : bytes) (printed : Z) (pchars : stringstream) :
    M ostream (Z * stringstream) :=
  match data with
  | [] => mret (printed, pchars)
  | c :: data' =>
      pchars ← (if Z.land printed 15 =? 0 then start_row indent_string printed pchars
                else when (Z.land printed 1 =? 0) (put (spaces 1)) ;;; mret pchars);
      setw 2 ;;; put_int (b2z c) ;;;
      if printed =? INT_MAX then undefined
      else hexdump_loop data' indent_string (printed + 1)
             (ss_put (if isprint c then c else z2b 46) pchars)
  end.

(** What follows the loop, up to [endl]. *)
Definition end_row (r : Z * stringstream) : M ostream unit :=
  let '(printed, pchars) := r in
  let print_rem := (16 - Z.land printed 15) `mod` 16 in
  put (spaces (2 * print_rem + print_rem / 2 + 4)) ;;; put (ss_str pchars) ;;;
  put newline ;;; put newline.

Definition hexdump (data : bytes) (indent : Z) : M ostream unit :=
  flags ← gets fmt;
  let indent_string := spaces indent in
  modify (set_fmt set_hex) ;;; modify (set_fill (z2b 48)) ;;;
  (hexdump_loop data indent_string 0 (ss_new (spaces 1)) ≫= end_row) ;;;
  modify (set_fmt (fun _ => flags)).

(** The overload for [char] data: the same bytes. *)
Definition hexdump_chars (data : bytes) (indent : Z) : M ostream unit := hexdump data indent.

(** ** The layout *)

Section Layout.
Variable f : fmtflags.

(** [n] in hexadecimal, in a field of at least [w] characters filled with
    zeros, as the flags other than the base have it. *)
Definition hex_field (w n : Z) : bytes :=
  let '(prefix, s) := int_parts (set_hex f) n in pad f w (z2b 48) prefix s.

(** The bytes of a row from its [j]-th on, in groups of two. *)
Fixpoint columns (j : nat) (bs : bytes) : bytes :=
  match bs with
  | [] => []
  | c :: bs' =>
      (if Nat.even j && negb (j =? 0)%nat then spaces 1 else []) ++
      hex_field 2 (b2z c) ++ columns (S j) bs'
  end.

Definition shown (bs : bytes) : bytes := map (fun c => if isprint c then c else z2b 46) bs.

Definition row (indent_string : bytes) (offset : Z) (bs : bytes) : bytes :=
  indent_string ++ hex_field 8 offset ++ lit ":    " ++ columns 0 bs.

(** Full rows from [offset] on, and the last one. *)
Fixpoint layout (indent_string : bytes) (offset : Z) (rows : list bytes) (last : bytes) : bytes :=
  match rows with
  | [] =>
      let rem := 16 - zlen last in
      row indent_string offset last ++ spaces (2 * rem + rem / 2 + 4) ++ shown last ++
      newline ++ newline
  | bs :: rows' =>
      row indent_string offset bs ++ spaces 4 ++ shown bs ++ newline ++
      layout indent_string (offset + 16) rows' last
  end.

(** No row at all for no bytes. *)
Definition dump (indent_string : bytes) (rows : list bytes) (last : bytes) : bytes :=
  match last with
  | [] => spaces 4 ++ spaces 1 ++ newline ++ newline
  | _ => layout indent_string 0 rows last
  end.

(** The stream while the function prints. *)
Definition printing (t : bytes) : ostream := mkStream t (set_hex f) (z2b 48) 0.

End Layout.

(** The end of the row before, at the start of the [k]-th. *)
Definition row_end (k : Z) (pchars : stringstream) : bytes :=
  if k =? 0 then [] else spaces 4 ++ ss_str pchars ++ newline.

(** ** One row *)

Section Rows.
Variable f : fmtflags.
Implicit Types (t cs bs : bytes).

#[local] Abbreviation printing := (printing f).
#[local] Abbreviation hex_field := (hex_field f).
#[local] Abbreviation columns := (columns f).
#[local] Abbreviation row := (row f).
#[local] Abbreviation layout := (layout f).

Lemma pad_0 g c s : pad g 0 c [] s = s.
Proof.
  unfold pad, padding. zlens. replace (Z.to_nat (0 - zlen ([] ++ s))) with 0%nat by lia.
  destruct (adjustfield g); simpl; by rewrite ?app_nil_r.
Qed.

Lemma put_eq t s : put s (printing t) = (Ret tt, printing (t ++ s)).
Proof. unfold put, put_padded, modify. simpl. by rewrite pad_0. Qed.

Lemma put_field_then {A} w n t (k : M ostream A) :
  (setw w ;;; put_int n ;;; k) (printing t) = k (printing (t ++ hex_field w n)).
Proof. done. Qed.

Lemma put_then {A} s t (k : M ostream A) :
  (put s ;;; k) (printing t) = k (printing (t ++ s)).
Proof. by erewrite bind_Ret by apply put_eq. Qed.

#[local] Opaque put setw put_int.

Lemma ss_put_snoc c cs : ss_put c (cs, length cs) = (cs ++ [c], length (cs ++ [c])).
Proof.
  unfold ss_put. rewrite take_ge, drop_ge by lia. rewrite app_nil_r, length_app. simpl.
  f_equal. lia.
Qed.

Lemma land_15 n : Z.land n 15 = n `mod` 16.
Proof. by apply (Z.land_ones n 4). Qed.

Lemma land_1 n : Z.land n 1 = n `mod` 2.
Proof. by apply (Z.land_ones n 1). Qed.

Lemma parity j : (Z.of_nat j `mod` 2 =? 0) = Nat.even j.
Proof.
  destruct (Nat.Even_or_Odd j) as [[m ->]|[m ->]].
  - rewrite Nat.even_even. apply Z.eqb_eq. rewrite Nat2Z.inj_mul, Z.mul_comm. apply Z_mod_mult.
  - rewrite Nat.even_odd. apply Z.eqb_neq.
    replace (Z.of_nat (2 * m + 1)) with (1 + Z.of_nat m * 2) by lia. by rewrite Z_mod_plus_full.
Qed.

(** The bytes of a row after its first. *)
Lemma row_tail bs : forall rest ind k j cs t, 0 <= k -> (1 <= j)%nat ->
  (j + length bs <= 16)%nat -> 16 * k + Z.of_nat (j + length bs) <= INT_MAX ->
  length cs = j ->
  hexdump_loop (bs ++ rest) ind (16 * k + Z.of_nat j) (cs, j) (printing t) =
  hexdump_loop rest ind (16 * k + Z.of_nat (j + length bs))
    (cs ++ shown bs, (j + length bs)%nat) (printing (t ++ columns j bs)).
Proof.
  induction bs as [|c bs IH]; intros rest ind k j cs t Hk Hj Hle Hmax Hcs.
  { simpl. by rewrite Nat.add_0_r, !app_nil_r. }
  simpl length in *. cbn [app hexdump_loop].
  assert (Hmod : (16 * k + Z.of_nat j) `mod` 16 = Z.of_nat j).
  { rewrite Z.add_comm, Z.mul_comm, Z_mod_plus_full, Z.mod_small; lia. }
  rewrite land_15, Hmod, land_1. rewrite (proj2 (Z.eqb_neq (Z.of_nat j) 0)) by lia.
  assert (Hpre : ((16 * k + Z.of_nat j) `mod` 2 =? 0) = Nat.even j && negb (j =? 0)%nat).
  { rewrite (proj2 (Nat.eqb_neq j 0)), andb_true_r by lia.
    replace (16 * k + Z.of_nat j) with (Z.of_nat j + 8 * k * 2) by lia.
    rewrite Z_mod_plus_full. apply parity. }
  rewrite Hpre. rewrite (proj2 (Z.eqb_neq (16 * k + Z.of_nat j) INT_MAX)) by lia.
  replace (16 * k + Z.of_nat j + 1) with (16 * k + Z.of_nat (S j)) by lia.
  replace (j + S (length bs))%nat with (S j + length bs)%nat by lia.
  assert (Hstep : forall u,
    (setw 2 ;;; put_int (b2z c) ;;;
     hexdump_loop (bs ++ rest) ind (16 * k + Z.of_nat (S j))
       (ss_put (if isprint c then c else z2b 46) (cs, j))) (printing u) =
    hexdump_loop rest ind (16 * k + Z.of_nat (S j + length bs))
      (cs ++ shown (c :: bs), (S j + length bs)%nat)
      (printing (u ++ hex_field 2 (b2z c) ++ columns (S j) bs))).
  { intros u. rewrite put_field_then, <- Hcs, ss_put_snoc.
    replace (length (cs ++ [_])) with (S j) by (rewrite length_app; simpl; lia). rewrite Hcs.
    rewrite IH by (rewrite ?length_app; simpl; lia).
    by rewrite <- !app_assoc. }
  cbn [columns]. unfold when. destruct (Nat.even j && negb (j =? 0)%nat).
  - rewrite bind_assoc, put_then. erewrite bind_Ret by done. rewrite Hstep.
    by rewrite <- !app_assoc.
  - erewrite bind_Ret by done. by rewrite Hstep.
Qed.

Lemma start_row_eq ind k pchars t : 0 <= k -> (k = 0 -> pchars = ss_new (spaces 1)) ->
  start_row ind (16 * k) pchars (printing t) =
    (Ret (ss_new (spaces 1)),
     printing (t ++ row_end k pchars ++ ind ++ hex_field 8 (16 * k) ++ lit ":    ")).
Proof.
  intros Hk H0. unfold start_row, row_end.
  assert (Hhead : forall u, (put ind ;;; setw 8 ;;; put_int (16 * k) ;;; put (lit ":    ") ;;;
      mret (ss_new (spaces 1))) (printing u) =
    (Ret (ss_new (spaces 1)), printing (u ++ ind ++ hex_field 8 (16 * k) ++ lit ":    "))).
  { intros u. rewrite put_then, put_field_then, put_then. by rewrite <- !app_assoc. }
  destruct (Z.eqb_spec k 0) as [->|Hne].
  - rewrite (H0 eq_refl). erewrite bind_Ret by done. apply Hhead.
  - rewrite (proj2 (Z.eqb_neq (16 * k) 0)) by lia. cbn [negb].
    rewrite (bind_Ret _ _ (printing t)
      (printing (t ++ spaces 4 ++ ss_str pchars ++ newline)) (ss_new (spaces 1)));
      [rewrite Hhead; by rewrite <- !app_assoc|].
    rewrite !put_then. by rewrite <- !app_assoc.
Qed.

(** A whole row. *)
Lemma row_eq c bs rest ind k pchars t : 0 <= k -> (k = 0 -> pchars = ss_new (spaces 1)) ->
  (S (length bs) <= 16)%nat -> 16 * k + Z.of_nat (S (length bs)) <= INT_MAX ->
  hexdump_loop ((c :: bs) ++ rest) ind (16 * k) pchars (printing t) =
  hexdump_loop rest ind (16 * k + Z.of_nat (S (length bs)))
    (shown (c :: bs), S (length bs))
    (printing (t ++ row_end k pchars ++ row ind (16 * k) (c :: bs))).
Proof.
  intros Hk H0 Hle Hmax. cbn [app hexdump_loop].
  assert (Hmod : (16 * k) `mod` 16 = 0) by (rewrite Z.mul_comm; apply Z_mod_mult).
  rewrite land_15, Hmod. change (0 =? 0) with true. cbv iota.
  erewrite bind_Ret by (by apply start_row_eq). rewrite put_field_then.
  rewrite (proj2 (Z.eqb_neq (16 * k) INT_MAX)) by lia.
  change (ss_put _ (ss_new (spaces 1))) with ([if isprint c then c else z2b 46], 1%nat).
  replace (16 * k + 1) with (16 * k + Z.of_nat 1) by lia.
  rewrite row_tail by (simpl; lia). f_equal. unfold row. cbn [columns].
  by rewrite <- !app_assoc.
Qed.

Lemma end_row_eq n pchars t : 0 <= n -> end_row (n, pchars) (printing t) =
  let rem := (16 - n `mod` 16) `mod` 16 in
  (Ret tt, printing (t ++ spaces (2 * rem + rem / 2 + 4) ++ ss_str pchars ++ newline ++ newline)).
Proof.
  intros. unfold end_row. rewrite land_15, !put_then, put_eq. by rewrite <- !app_assoc.
Qed.

(** All the rows. *)
Lemma rows_eq ind rows : forall last k pchars t,
  Forall (fun bs => length bs = 16%nat) rows -> (1 <= length last <= 16)%nat ->
  0 <= k -> (k = 0 -> pchars = ss_new (spaces 1)) ->
  16 * k + zlen (concat rows ++ last) <= INT_MAX ->
  (hexdump_loop (concat rows ++ last) ind (16 * k) pchars ≫= end_row) (printing t) =
    (Ret tt, printing (t ++ row_end k pchars ++ layout ind (16 * k) rows last)).
Proof.
  induction rows as [|bs rows IH]; intros last k pchars t Hrows Hlast Hk H0 Hmax.
  - destruct last as [|c last]; simpl in Hlast; [lia|]. unfold zlen in Hmax. simpl in Hmax.
    pose proof (row_eq c last [] ind k pchars t Hk H0 ltac:(lia) ltac:(lia)) as Hr.
    rewrite app_nil_r in Hr. cbn [concat app layout].
    erewrite bind_Ret by exact Hr. rewrite end_row_eq by lia. cbv zeta.
    assert (Hrem : (16 - (16 * k + Z.of_nat (S (length last))) `mod` 16) `mod` 16 =
      16 - zlen (c :: last)).
    { unfold zlen. simpl length. set (m := Z.of_nat (S (length last))) in *.
      replace (16 * k + m) with (m + k * 16) by lia. rewrite Z_mod_plus_full.
      destruct (decide (m = 16)) as [->|Hm]; [done|].
      rewrite (Z.mod_small m) by lia. apply Z.mod_small. lia. }
    rewrite Hrem. by rewrite <- !app_assoc.
  - apply Forall_cons in Hrows as [Hbs Hrows]. destruct bs as [|c bs]; [done|].
    injection Hbs as Hbs. cbn [concat layout] in *. rewrite <- app_assoc in *.
    rewrite zlen_app in Hmax. unfold zlen at 1 in Hmax. simpl length in Hmax.
    pose proof (zlen_nonneg (concat rows ++ last)).
    pose proof (row_eq c bs (concat rows ++ last) ind k pchars t Hk H0 ltac:(lia) ltac:(lia)) as Hr.
    unfold mbind at 1, M_bind at 1. rewrite Hr.
    replace (16 * k + Z.of_nat (S (length bs))) with (16 * (k + 1)) by lia.
    specialize (IH last (k + 1) (shown (c :: bs), S (length bs))
      (t ++ row_end k pchars ++ row ind (16 * k) (c :: bs)) Hrows Hlast ltac:(lia) ltac:(lia)
      ltac:(lia)).
    unfold mbind, M_bind in IH. rewrite IH. unfold row_end at 2.
    rewrite (proj2 (Z.eqb_neq (k + 1) 0)) by lia.
    replace (16 * (k + 1)) with (16 * k + 16) by lia. by rewrite <- !app_assoc.
Qed.

End Rows.

#[local] Transparent put setw put_int.

(** ** Properties *)

(** C31. The whole output, on a stream with any flags and fill character and
    no width set: up to 2^31-1 bytes are printed, after what was there, as
    rows of 16 in the documented layout (offset, groups of two bytes in
    hexadecimal, the printable characters), and no bytes as an empty row
    without an offset.  Numbers are aligned, and have a base and capital
    letters, as the flags say, which the function does not reset: they are
    fields of zero-padded small hexadecimal digits on a stream that
    aligns right and has neither [showbase] nor [uppercase].  The flags are
    restored; the fill character is left at '0'.  The characters follow the
    columns without the leading space the source means to give them, because
    each row's first character overwrites it. *)
Theorem hexdump_layout t f fill data indent rows last :
  data = concat rows ++ last -> Forall (fun bs => length bs = 16%nat) rows ->
  (length last <= 16)%nat -> (last = [] -> rows = []) -> zlen data <= INT_MAX ->
  hexdump data indent (mkStream t f fill 0) =
    (Ret tt, mkStream (t ++ dump f (spaces indent) rows last) f (z2b 48) 0) /\
  (adjustfield f = Right -> showbase f = false -> uppercase f = false ->
   forall w n, hex_field f w n = padding w (z2b 48) (hex_string false n) ++ hex_string false n).
Proof.
  intros -> Hrows Hlast Hempty Hmax. split.
  - unfold hexdump. do 3 (erewrite bind_Ret by reflexivity).
    destruct last as [|c last].
    + rewrite (Hempty eq_refl). cbn [concat app hexdump_loop dump].
      erewrite bind_Ret by (apply (end_row_eq f 0 (ss_new (spaces 1)) t); lia). done.
    + pose proof (rows_eq f (spaces indent) rows (c :: last) 0 (ss_new (spaces 1)) t Hrows
        ltac:(simpl in *; lia) ltac:(lia) ltac:(done) ltac:(lia)) as Hr.
      change (16 * 0) with 0 in Hr. by erewrite bind_Ret by exact Hr.
  - intros Ha Hb Hu w n. unfold hex_field, int_parts, pad. simpl. by rewrite Ha, Hb, Hu.
Qed.

(** [std::cout] as it starts. *)
Definition plain_flags : fmtflags := mkFlags Dec Right false false false.

Lemma hexdump_layout_witness :
  let o := mkStream (lit "> ") plain_flags (z2b 32) 0 in
  hexdump (lit "GET /index.html HTTP") 2 o =
    (Ret tt, mkStream (lit ">   00000000:    4745 5420 2f69 6e64 6578 2e68 746d 6c20    GET /index.html " ++
       newline ++ lit "  00000010:    4854 5450                                  HTTP" ++
       newline ++ newline) plain_flags (z2b 48) 0).
Proof.
  intros o. destruct (hexdump_layout (lit "> ") plain_flags (z2b 32) (lit "GET /index.html HTTP") 2
    [lit "GET /index.html "] (lit "HTTP")) as [E _];
    [done | by repeat constructor | by apply Nat.leb_le | done | by vm_compute |].
  exact E.
Defined.

(** A byte 5 on a stream that aligns left: the zero comes after it. *)
Example left_aligned_bytes :
  text (exec (hexdump [z2b 5] 0) (mkStream [] (mkFlags Dec Left false false false) (z2b 32) 0)) =
  lit "00000000:    50" ++ spaces 41 ++ lit "." ++ newline ++ newline.
Proof. vm_compute. reflexivity. Qed.
