(* ===== verification/Process.v ===== *)
(** What a process of the library runs on: the operating system as an
    interface, [errno], the error-checking wrapper [SystemCall] of
    [libsponge/util/util.cc], and the [std::shared_ptr] objects. *)

From S2P Require Import Prelude CString Buffer.

Local Open Scope Z_scope.

(** ** The operating system *)

(** A system call returns [ret], stores [out] in the caller's buffers and,
    when [ret] is negative, sets [errno] to [err]. *)
Record sysret (A : Type) : Type := mkRet { ret : Z; err : Z; out : A }.
Arguments mkRet {A}.
Arguments ret {A}.
Arguments err {A}.
Arguments out {A}.

(** An entry of the array [poll(2)] takes; the kernel fills [revents]. *)
Record pollfd : Type := mkPollfd { pfd : Z; events : Z; revents : Z }.

(** The calls the library makes.  [K] is the state of everything outside the
    process. *)
Class Kernel (K : Type) : Type := {
  sys_close : Z -> K -> sysret unit * K;
  sys_read : Z -> Z -> K -> sysret bytes * K;
  sys_writev : Z -> list BufferViewList.iovec -> K -> sysret unit * K;
  sys_getfl : Z -> K -> sysret unit * K;
  sys_setfl : Z -> Z -> K -> sysret unit * K;
  sys_poll : list pollfd -> Z -> K -> sysret (list Z) * K
}.

(** What [read] gives when it is asked for [n] bytes. *)
Definition read_result (n : Z) (r : sysret bytes) : Prop :=
  (ret r = -1 /\ 0 < err r) \/ (0 <= ret r <= n /\ zlen (out r) = ret r).

(** What their manual pages promise.  [sink fd k] is what has been written to
    [fd] so far. *)
Class KernelLaws (K : Type) `{Kernel K} : Type := {
  sink : Z -> K -> bytes;
  read_law : forall fd n k, 0 <= n ->
    let '(r, _) := sys_read fd n k in read_result n r;
  writev_law : forall fd vs k,
    let '(r, k') := sys_writev fd vs k in
    let data := BufferViewList.iovecs_contents vs in
    (ret r = -1 /\ 0 < err r /\ sink fd k' = sink fd k) \/
    (0 <= ret r <= zlen data /\ ret r <= INT_MAX /\
     sink fd k' = sink fd k ++ ztake (ret r) data);
  close_law : forall fd k, let '(r, _) := sys_close fd k in ret r = 0 \/ (ret r = -1 /\ 0 < err r)
}.

(** ** Shared objects *)

(** The objects [make_shared] has allocated, with the number of [shared_ptr]s
    to each. *)
Section SharedStore.
Context {A : Type}.

Definition use_count (l : positive) (st : gmap positive (A * nat)) : nat :=
  match st !! l with Some (_, n) => n | None => 0 end.

Definition deref (l : positive) (st : gmap positive (A * nat)) : option A := fst <$> st !! l.

Definition update_obj (f : A -> A) (l : positive) (st : gmap positive (A * nat)) :
    gmap positive (A * nat) :=
  alter (fun '(a, n) => (f a, n)) l st.

Definition set_count (f : nat -> nat) (l : positive) (st : gmap positive (A * nat)) :
    gmap positive (A * nat) :=
  alter (fun '(a, n) => (a, f n)) l st.

(** The references to [l] among the handles of the program. *)
Definition refs (l : positive) (hs : list (option positive)) : nat :=
  length (filter (fun h => h = Some l) hs).

(** The counts are right: every object is referenced by as many handles as it
    counts, at least one, and no handle dangles. *)
Definition owned (st : gmap positive (A * nat)) (hs : list (option positive)) : Prop :=
  forall l, match st !! l with
            | Some (_, n) => n = refs l hs /\ (0 < n)%nat
            | None => refs l hs = 0%nat
            end.

End SharedStore.

(** ** The process *)

(** [FileDescriptor::FDWrapper] *)
Record FDWrapper : Type := mkWrapper {
  _fd : Z;
  _eof : bool;
  _closed : bool;
  _read_count : Z;
  _write_count : Z
}.

(** [errno], the outside world, the shared [FDWrapper]s, and the exceptions
    reported on [std::cerr]. *)
Record Proc (K : Type) : Type := mkProc {
  errno : Z;
  kernel : K;
  wrappers : gmap positive (FDWrapper * nat);
  cerr : list exn
}.
Arguments mkProc {K}.
Arguments errno {K}.
Arguments kernel {K}.
Arguments wrappers {K}.
Arguments cerr {K}.

Section Process.
Context {K : Type}.

Definition set_wrappers (f : gmap positive (FDWrapper * nat) -> gmap positive (FDWrapper * nat))
    (p : Proc K) : Proc K :=
  mkProc (errno p) (kernel p) (f (wrappers p)) (cerr p).

Definition log_cerr (e : exn) (p : Proc K) : Proc K :=
  mkProc (errno p) (kernel p) (wrappers p) (cerr p ++ [e]).

(** A system call and its effect on [errno]. *)
Definition syscall {A} (call : K -> sysret A * K) : M (Proc K) (sysret A) := fun p =>
  let '(r, k) := call (kernel p) in
  (Ret r, mkProc (if ret r <? 0 then err r else errno p) k (wrappers p) (cerr p)).

(** [SystemCall(attempt, return_value, errno_mask)]; its parameter and result
    are [int]s, and [errno_mask] is 0 unless given. *)
Definition SystemCall (attempt : bytes) (return_value errno_mask : Z) : M (Proc K) Z :=
  p ← get;
  if (return_value >=? 0) || (errno p =? errno_mask) then mret return_value
  else throw (unix_error attempt (errno p)).

(** The overload for a [std::string], which passes [attempt.c_str()]. *)
Definition SystemCall_string (attempt : bytes) (return_value errno_mask : Z) : M (Proc K) Z :=
  SystemCall (c_str attempt) return_value errno_mask.

End Process.

(** ** The text of an exception *)

(** [system_category().name()] *)
Definition system_category : bytes := lit "system".

(** The member the constructor of [tagged_error] makes: the attempt, and what
    [std::system_error] says, which is the category's [message] for the
    code. *)
Definition _attempt_and_error (message : bytes -> Z -> bytes) (category attempt : bytes)
    (error_code : Z) : bytes :=
  attempt ++ lit ": " ++ message category error_code.

(** [unix_error(attempt, error)]: a [tagged_error] of the system category. *)
Definition unix_error_text (message : bytes -> Z -> bytes) (attempt : bytes) (error : Z) : bytes :=
  _attempt_and_error message system_category attempt error.

(** [what()], read as a C string. *)
Definition what (message : bytes -> Z -> bytes) (e : exn) : bytes :=
  c_str
    match e with
    | tagged_error category attempt error_code =>
        _attempt_and_error message category attempt error_code
    | unix_error attempt error => unix_error_text message attempt error
    | runtime_error text | ByteStreamExpectationViolation text => text
    | out_of_range text | length_error text | invalid_argument text => lit text
    | bad_array_new_length => lit "std::bad_array_new_length"
    end.

(** ** A concrete system, for concrete runs *)

(** Files with pending input and past output; every transfer is cut at
    [chunk] bytes, [poll] answers what it is told to. *)
Module Loopback.

Record t : Type := mk {
  input : gmap Z bytes;
  output : gmap Z bytes;
  chunk : Z;
  flags : Z;
  poll_ret : Z;
  poll_err : Z;
  poll_revents : list Z;
  closes : list Z
}.

Definition content (fd : Z) (m : gmap Z bytes) : bytes := default [] (m !! fd).

Definition limit (k : t) : Z := Z.max 0 (Z.min (chunk k) INT_MAX).

Definition close (fd : Z) (k : t) : sysret unit * t :=
  (mkRet 0 0 tt, mk (input k) (output k) (chunk k) (flags k) (poll_ret k) (poll_err k)
                   (poll_revents k) (closes k ++ [fd])).

Definition read (fd n : Z) (k : t) : sysret bytes * t :=
  let data := ztake (Z.min n (limit k)) (content fd (input k)) in
  (mkRet (zlen data) 0 data,
   mk (<[fd := zdrop (zlen data) (content fd (input k))]> (input k)) (output k) (chunk k)
     (flags k) (poll_ret k) (poll_err k) (poll_revents k) (closes k)).

Definition writev (fd : Z) (vs : list BufferViewList.iovec) (k : t) : sysret unit * t :=
  let data := ztake (limit k) (BufferViewList.iovecs_contents vs) in
  (mkRet (zlen data) 0 tt,
   mk (input k) (<[fd := content fd (output k) ++ data]> (output k)) (chunk k)
     (flags k) (poll_ret k) (poll_err k) (poll_revents k) (closes k)).

Definition getfl (fd : Z) (k : t) : sysret unit * t := (mkRet (flags k) 0 tt, k).

Definition setfl (fd f : Z) (k : t) : sysret unit * t :=
  (mkRet 0 0 tt, mk (input k) (output k) (chunk k) f (poll_ret k) (poll_err k)
                   (poll_revents k) (closes k)).

Definition poll (fds : list pollfd) (timeout : Z) (k : t) : sysret (list Z) * t :=
  (mkRet (poll_ret k) (poll_err k) (poll_revents k), k).

#[global] Instance Loopback_Kernel : Kernel t := {|
  sys_close := close;
  sys_read := read;
  sys_writev := writev;
  sys_getfl := getfl;
  sys_setfl := setfl;
  sys_poll := poll
|}.

(** Nothing to read, nothing written, transfers of [chunk] bytes. *)
Definition quiet (chunk : Z) : t := mk ∅ ∅ chunk 0 0 0 [] [].

End Loopback.

(** ** Lemmas on shared objects *)

Section SharedStoreFacts.
Context {A : Type}.
Implicit Types st : gmap positive (A * nat).

Lemma refs_cons l h hs : refs l (h :: hs) = ((if decide (h = Some l) then 1 else 0) + refs l hs)%nat.
Proof. unfold refs. rewrite filter_cons. by case_decide. Qed.

Lemma refs_app l hs1 hs2 : refs l (hs1 ++ hs2) = (refs l hs1 + refs l hs2)%nat.
Proof. unfold refs. by rewrite filter_app, length_app. Qed.

Lemma refs_snoc l hs h :
  refs l (hs ++ [h]) = (refs l hs + (if decide (h = Some l) then 1 else 0))%nat.
Proof. rewrite refs_app, (refs_cons l h []), Nat.add_0_r. done. Qed.

(** Replacing one handle by another. *)
Lemma refs_insert l hs i h h' : hs !! i = Some h ->
  (refs l (<[i:=h']> hs) + (if decide (h = Some l) then 1 else 0) =
   refs l hs + (if decide (h' = Some l) then 1 else 0))%nat.
Proof.
  revert i. induction hs as [|x hs IH]; intros i Hi; [done|].
  destruct i as [|i]; simpl in *.
  - simplify_eq. rewrite !refs_cons. lia.
  - rewrite !refs_cons. specialize (IH i Hi). lia.
Qed.

Lemma owned_live st hs i l : owned st hs -> hs !! i = Some (Some l) ->
  exists a n, st !! l = Some (a, n) /\ n = refs l hs /\ (0 < n)%nat.
Proof.
  intros Ho Hi. specialize (Ho l). destruct (st !! l) as [[a n]|]; [by eauto|].
  pose proof (refs_insert l hs i (Some l) None Hi) as H.
  rewrite decide_True, decide_False in H by done. lia.
Qed.

Lemma owned_update f l st hs : owned st hs -> owned (update_obj f l st) hs.
Proof.
  intros Ho l'. specialize (Ho l'). unfold update_obj. rewrite lookup_alter.
  case_decide; [subst|done]. destruct (st !! l') as [[a n]|]; done.
Qed.

(** The order of the handles does not matter. *)
#[export] Instance refs_proper l : Proper ((≡ₚ) ==> (=)) (refs l).
Proof. intros hs hs' E. unfold refs. by rewrite E. Qed.

#[export] Instance owned_proper st : Proper ((≡ₚ) ==> iff) (owned st).
Proof. 
  intros hs hs' E. unfold owned. apply forall_proper. intros l.
  destruct (st !! l) as [[]|]; by rewrite E.
Qed.

(** A new object with its first handle. *)
Lemma owned_alloc (a : A) l st hs : owned st hs -> st !! l = None ->
  owned (<[l:=(a, 1%nat)]> st) (hs ++ [Some l]).
Proof.
  intros Ho Hl l'. specialize (Ho l'). rewrite refs_snoc, lookup_insert.
  case_decide as E.
  - subst. rewrite Hl in Ho. rewrite decide_True by done. lia.
  - rewrite decide_False by congruence. destruct (st !! l') as [[]|]; lia.
Qed.

(** A copy of a live handle. *)
Lemma owned_incr l st hs i : owned st hs -> hs !! i = Some (Some l) ->
  owned (set_count S l st) (hs ++ [Some l]).
Proof.
  intros Ho Hi l'. destruct (owned_live st hs i l Ho Hi) as (a & n & E & Hn & _).
  specialize (Ho l'). unfold set_count. rewrite refs_snoc, lookup_alter. case_decide as Heq.
  - subst l'. rewrite E in *. simpl. rewrite decide_True by done. lia.
  - rewrite decide_False by congruence. destruct (st !! l') as [[]|]; lia.
Qed.

(** Dropping a handle that is not the last, and the last. *)
Lemma owned_decr l st hs i a n : owned st hs -> hs !! i = Some (Some l) ->
  st !! l = Some (a, S (S n)) -> owned (set_count pred l st) (<[i:=None]> hs).
Proof.
  intros Ho Hi E l'. pose proof (refs_insert l' hs i (Some l) None Hi) as Hr.
  specialize (Ho l'). unfold set_count. rewrite lookup_alter.
  rewrite (decide_False (P := None = Some l')) in Hr by done. destruct (decide (l = l')) as [<-|Hne].
  - rewrite E in *. simpl. rewrite decide_True in Hr by done. lia.
  - rewrite decide_False in Hr by congruence. destruct (st !! l') as [[]|]; lia.
Qed.

Lemma owned_free l st hs i a : owned st hs -> hs !! i = Some (Some l) ->
  st !! l = Some (a, 1%nat) -> owned (delete l st) (<[i:=None]> hs).
Proof.
  intros Ho Hi E l'. pose proof (refs_insert l' hs i (Some l) None Hi) as Hr.
  specialize (Ho l'). rewrite lookup_delete.
  rewrite (decide_False (P := None = Some l')) in Hr by done. destruct (decide (l = l')) as [<-|Hne].
  - rewrite E in *. rewrite decide_True in Hr by done. lia.
  - rewrite decide_False in Hr by congruence. destruct (st !! l') as [[]|]; lia.
Qed.

End SharedStoreFacts.

(** ** Lemmas on system calls *)

Section ProcessFacts.
Context {K : Type}.
Implicit Types p : Proc K.

Lemma SystemCall_ok attempt v mask p : 0 <= v -> SystemCall attempt v mask p = (Ret v, p).
Proof.
  intros. unfold SystemCall. msimpl. destruct (Z.geb_spec v 0); [done|lia].
Qed.

Lemma SystemCall_masked attempt v p : SystemCall attempt v (errno p) p = (Ret v, p).
Proof. unfold SystemCall. msimpl. by rewrite Z.eqb_refl, orb_true_r. Qed.

Lemma SystemCall_err attempt v mask p : v < 0 -> errno p <> mask ->
  SystemCall attempt v mask p = (Throw (unix_error attempt (errno p)), p).
Proof.
  intros Hv He. unfold SystemCall. msimpl. destruct (Z.geb_spec v 0); [lia|].
  by rewrite (proj2 (Z.eqb_neq _ _) He).
Qed.

(** It never changes the state. *)
Lemma SystemCall_state attempt v mask p : exec (SystemCall attempt v mask) p = p.
Proof. unfold SystemCall. msimpl. by case_match. Qed.

End ProcessFacts.

(** ** The concrete system keeps its promises *)

#[export] Program Instance Loopback_Laws : KernelLaws Loopback.t := {|
  sink := fun fd k => Loopback.content fd (Loopback.output k)
|}.
Next Obligation.
  intros fd n k Hn. right. unfold Loopback.limit, INT_MAX. simpl. rewrite zlen_ztake by lia.
  zlia.
Qed.
Next Obligation.
  intros fd vs k. right. unfold Loopback.limit, INT_MAX. simpl. rewrite zlen_ztake by lia.
  zlens. split; [lia|]. split; [lia|]. unfold Loopback.content at 1.
  rewrite lookup_insert_eq. simpl. f_equal.
  set (data := BufferViewList.iovecs_contents vs) in *. unfold ztake, zlen in *.
  destruct (decide (Z.max 0 (Z.min (Loopback.chunk k) (2 ^ 31 - 1)) <= Z.of_nat (length data))).
  - f_equal. lia.
  - rewrite !take_ge by lia. done.
Qed.
Next Obligation. intros fd k. by left. Qed.
