(* ===== verification/Storage.v ===== *)
(** The storage behind the strings of [libsponge/util/buffer.{hh,cc}]: the
    same classes as in [Buffer.v], with every [shared_ptr<string>] a counted
    reference into a heap, every copy and destruction written out, and views
    that are bare pointers. *)

From S2P Require Import Prelude Buffer Process.

Local Open Scope Z_scope.

(** ** The heap *)

(** The strings [make_shared] has allocated, each with its number of
    references.  A location is never used again, so a pointer that outlives
    its string is told from one to a later string. *)
Record heap : Type := mkHeap {
  objects : gmap positive (bytes * nat);
  next : positive
}.

Definition set_objects (f : gmap positive (bytes * nat) -> gmap positive (bytes * nat))
    (h : heap) : heap := mkHeap (f (objects h)) (next h).

Definition empty_heap : heap := mkHeap ∅ 1%positive.

(** ** [Buffer] *)

Module SharedBuffer.

Record Buffer : Type := mkBuffer {
  _storage : option positive;
  _starting_offset : Z
}.

Definition empty : Buffer := mkBuffer None 0.

(** [_storage(std::make_shared<std::string>(std::move(str)))] *)
Definition of_string (s : bytes) : M heap Buffer :=
  h ← get;
  modify (fun h => mkHeap (<[next h := (s, 1%nat)]> (objects h)) (Pos.succ (next h))) ;;;
  mret (mkBuffer (Some (next h)) 0).

(** The implicit copy constructor: one more reference. *)
Definition copy_construct (b : Buffer) : M heap Buffer :=
  match _storage b with
  | None => mret b
  | Some l =>
      h ← get;
      match deref l (objects h) with
      | None => undefined
      | Some _ => modify (set_objects (set_count S l)) ;;; mret b
      end
  end.

(** A [shared_ptr] goes away, and the string with the last of them. *)
Definition release (p : option positive) : M heap unit :=
  match p with
  | None => mret tt
  | Some l =>
      h ← get;
      match use_count l (objects h) with
      | O => undefined
      | S O => modify (set_objects (delete l))
      | S (S _) => modify (set_objects (set_count pred l))
      end
  end.

(** The implicit destructor. *)
Definition destroy (b : Buffer) : M heap unit := release (_storage b).

(** [*_storage] *)
Definition storage_string (b : Buffer) : M heap (option bytes) :=
  match _storage b with
  | None => mret None
  | Some l =>
      h ← get;
      match deref l (objects h) with
      | None => undefined
      | Some s => mret (Some s)
      end
  end.

(** A [string_view]: where it points, and for how many bytes. *)
Record view : Type := mkView { base : option positive; off : Z; len : Z }.

Definition str (b : Buffer) : M heap view :=
  s ← storage_string b;
  match s with
  | None => mret (mkView None 0 0)
  | Some s => mret (mkView (_storage b) (_starting_offset b) (u64 (zlen s - _starting_offset b)))
  end.

(** The bytes a view shows; looking through a null or dangling pointer is
    undefined, an empty view looks at nothing. *)
Definition view_bytes (v : view) : M heap bytes :=
  if len v =? 0 then mret []
  else
    match base v with
    | None => undefined
    | Some l =>
        h ← get;
        match deref l (objects h) with
        | None => undefined
        | Some s => mret (ztake (len v) (zdrop (off v) s))
        end
    end.

Definition size (b : Buffer) : M heap Z := v ← str b; mret (len v).

Definition copy (b : Buffer) : M heap bytes := v ← str b; view_bytes v.

Definition at_ (n : Z) (b : Buffer) : M heap Z :=
  v ← str b;
  if n >=? len v then throw (out_of_range "basic_string_view::at")
  else
    s ← view_bytes v;
    match znth s n with Some c => mret (b2z c) | None => undefined end.

(** The buffer is a member of a larger object, so it is passed and returned. *)
Definition remove_prefix (n : Z) (b : Buffer) : M heap Buffer :=
  v ← str b;
  if n >? len v then throw (out_of_range "Buffer::remove_prefix")
  else
    let b := mkBuffer (_storage b) (u64 (_starting_offset b + n)) in
    s ← storage_string b;
    match s with
    | Some s =>
        if _starting_offset b =? zlen s
        then release (_storage b) ;;; mret (mkBuffer None (_starting_offset b))
        else mret b
    | None => mret b
    end.

End SharedBuffer.

Abbreviation SBuffer := SharedBuffer.Buffer.

(** ** [BufferList] *)

Module SharedBufferList.

Definition t : Type := list SBuffer.

Definition empty : t := [].

(** [BufferList(Buffer buffer) : _buffers{buffer}]: a copy for the parameter,
    one for the element of the initializer list and one in the queue; the
    first two are destroyed again. *)
Definition of_buffer (b : SBuffer) : M heap t :=
  buffer ← SharedBuffer.copy_construct b;
  element ← SharedBuffer.copy_construct buffer;
  front ← SharedBuffer.copy_construct element;
  SharedBuffer.destroy element ;;;
  SharedBuffer.destroy buffer ;;;
  mret [front].

(** [for (const auto &buf : other._buffers) _buffers.push_back(buf)] *)
Fixpoint append (other l : t) : M heap t :=
  match other with
  | [] => mret l
  | buf :: rest => b ← SharedBuffer.copy_construct buf; append rest (l ++ [b])
  end.

(** [~deque] *)
Fixpoint destroy (l : t) : M heap unit :=
  match l with
  | [] => mret tt
  | b :: rest => SharedBuffer.destroy b ;;; destroy rest
  end.

(** [BufferList(std::string &&str)]: [append(buf)] makes a temporary list of
    [buf]. *)
Definition of_string (s : bytes) : M heap t :=
  buf ← SharedBuffer.of_string s;
  other ← of_buffer buf;
  l ← append other empty;
  destroy other ;;;
  SharedBuffer.destroy buf ;;;
  mret l.

(** [operator Buffer()] *)
Definition to_Buffer (l : t) : M heap SBuffer :=
  match l with
  | [] => mret SharedBuffer.empty
  | [b] => SharedBuffer.copy_construct b
  | _ => throw (runtime_error (lit "BufferList: please use concatenate() to combine a multi-Buffer BufferList into one Buffer"))
  end.

Fixpoint concatenate_loop (l : t) (ret : bytes) : M heap bytes :=
  match l with
  | [] => mret ret
  | buf :: rest => s ← SharedBuffer.copy buf; concatenate_loop rest (ret ++ s)
  end.

Definition concatenate (l : t) : M heap bytes := concatenate_loop l [].

Fixpoint size_loop (l : t) (ret : Z) : M heap Z :=
  match l with
  | [] => mret ret
  | buf :: rest => n ← SharedBuffer.size buf; size_loop rest (u64 (ret + n))
  end.

Definition size (l : t) : M heap Z := size_loop l 0.

Definition on_heap {T A} (m : M heap A) : M (heap * T) A := zoom fst (fun h s => (h, snd s)) m.

Definition set_list (l : t) : M (heap * t) unit := modify (fun s => (fst s, l)).

(** The [while (n > 0)] loop, [l] being the queue it has come to. *)
Fixpoint remove_prefix_loop (n : Z) (l : t) : M (heap * t) unit :=
  if n >? 0 then
    match l with
    | [] => throw (out_of_range "BufferList::remove_prefix")
    | b :: rest =>
        front_size ← on_heap (SharedBuffer.size b);
        if n <? front_size then
          b' ← on_heap (SharedBuffer.remove_prefix n b);
          set_list (b' :: rest)
        else
          on_heap (SharedBuffer.destroy b) ;;;
          set_list rest ;;;
          remove_prefix_loop (u64 (n - front_size)) rest
    end
  else mret tt.

Definition remove_prefix (n : Z) : M (heap * t) unit :=
  s ← get; remove_prefix_loop n (snd s).

End SharedBufferList.

(** ** [BufferViewList] *)

Module RawViewList.

Definition t : Type := list SharedBuffer.view.

(** What [as_iovecs] gives a system call: a pointer and a length. *)
Record iovec : Type := mkIovec { iov_base : option positive * Z; iov_len : Z }.

(** [BufferViewList(const BufferList &buffers)] *)
Fixpoint of_BufferList_loop (l : SharedBufferList.t) (views : t) : M heap t :=
  match l with
  | [] => mret views
  | x :: rest => v ← SharedBuffer.str x; of_BufferList_loop rest (views ++ [v])
  end.

Definition of_BufferList (l : SharedBufferList.t) : M heap t := of_BufferList_loop l [].

(** [string_view::remove_prefix] *)
Definition view_remove_prefix (n : Z) (v : SharedBuffer.view) : SharedBuffer.view :=
  SharedBuffer.mkView (SharedBuffer.base v) (SharedBuffer.off v + n) (SharedBuffer.len v - n).

Fixpoint remove_prefix_loop (n : Z) (l : t) : outcome unit * t :=
  if n >? 0 then
    match l with
    | [] => (Throw (out_of_range "BufferListView::remove_prefix"), [])
    | v :: rest =>
        if n <? SharedBuffer.len v then (Ret tt, view_remove_prefix n v :: rest)
        else remove_prefix_loop (u64 (n - SharedBuffer.len v)) rest
    end
  else (Ret tt, l).

Definition remove_prefix (n : Z) : M t unit := remove_prefix_loop n.

Definition size (l : t) : Z := fold_left (fun ret v => u64 (ret + SharedBuffer.len v)) l 0.

Definition as_iovecs (l : t) : list iovec :=
  fold_left (fun ret x => ret ++
    [mkIovec (SharedBuffer.base x, SharedBuffer.off x) (SharedBuffer.len x)]) l [].

(** What is found where the views point when they are looked through. *)
Fixpoint load (l : t) : M heap BufferViewList.t :=
  match l with
  | [] => mret []
  | v :: rest => s ← SharedBuffer.view_bytes v; ss ← load rest; mret (s :: ss)
  end.

(** What a system call finds where the iovecs point. *)
Fixpoint load_iovecs (l : list iovec) : M heap (list BufferViewList.iovec) :=
  match l with
  | [] => mret []
  | v :: rest =>
      s ← SharedBuffer.view_bytes
            (SharedBuffer.mkView (fst (iov_base v)) (snd (iov_base v)) (iov_len v));
      ss ← load_iovecs rest;
      mret (BufferViewList.mkIovec s (iov_len v) :: ss)
  end.

End RawViewList.

(** ** Programs over buffers *)

(** A variable of the program holds a [Buffer] or a [BufferList], until its
    scope ends. *)
Inductive var (B : Type) : Type :=
  | VBuffer (b : B)
  | VList (l : list B)
  | Dead.
Arguments VBuffer {B} b.
Arguments VList {B} l.
Arguments Dead {B}.

(** Variable [i] is the [i]-th declared.  [Append i j] is
    [list_i.append(list_j)]. *)
Inductive op : Type :=
  | NewBuffer (s : bytes)
  | DefaultBuffer
  | CopyBuffer (i : nat)
  | At (i : nat) (n : Z)
  | RemovePrefix (i : nat) (n : Z)
  | NewList
  | ListOfString (s : bytes)
  | ListOfBuffer (i : nat)
  | Append (i j : nat)
  | ListRemovePrefix (i : nat) (n : Z)
  | ToBuffer (i : nat)
  | Size (i : nat)
  | Contents (i : nat)
  | EndOfScope (i : nat).

(** What a call shows its caller. *)
Inductive obs : Type :=
  | Nothing
  | Number (n : Z)
  | Text (s : bytes).

Section Programs.
Context {S B : Type}.

Definition on_store {A} (m : M S A) : M (S * list (var B)) A := zoom fst (fun h s => (h, snd s)) m.

Definition buffer_var (i : nat) : M (S * list (var B)) B :=
  s ← get; match snd s !! i with Some (VBuffer b) => mret b | _ => undefined end.

Definition list_var (i : nat) : M (S * list (var B)) (list B) :=
  s ← get; match snd s !! i with Some (VList l) => mret l | _ => undefined end.

Definition declare (v : var B) : M (S * list (var B)) obs :=
  modify (fun s => (fst s, snd s ++ [v])) ;;; mret Nothing.

Definition assign (i : nat) (v : var B) : M (S * list (var B)) obs :=
  modify (fun s => (fst s, <[i := v]> (snd s))) ;;; mret Nothing.

(** A program that catches what its calls throw and goes on, with what its
    calls did, until one has undefined behaviour. *)
Fixpoint run (step : op -> M (S * list (var B)) obs) (ops : list op) (s : S * list (var B)) :
    list (outcome obs) * (S * list (var B)) :=
  match ops with
  | [] => ([], s)
  | o :: ops' =>
      let '(r, s) := step o s in
      match r with
      | Ret _ | Throw _ => let '(rs, s) := run step ops' s in (r :: rs, s)
      | Undef | NoFuel => ([r], s)
      end
  end.

End Programs.

(** The program on shared storage. *)
Definition State : Type := heap * list (var SBuffer).

Definition on_list {S B : Type} (i : nat) (m : M (S * list B) unit) : M (S * list (var B)) obs :=
  l ← list_var i;
  zoom (fun s => (fst s, l)) (fun hl s => (fst hl, <[i := VList (snd hl)]> (snd s))) m ;;;
  mret Nothing.

Definition step (o : op) : M State obs :=
  match o with
  | NewBuffer s => b ← on_store (SharedBuffer.of_string s); declare (VBuffer b)
  | DefaultBuffer => declare (VBuffer SharedBuffer.empty)
  | CopyBuffer i =>
      b ← buffer_var i; b' ← on_store (SharedBuffer.copy_construct b); declare (VBuffer b')
  | At i n => b ← buffer_var i; c ← on_store (SharedBuffer.at_ n b); mret (Number c)
  | RemovePrefix i n =>
      b ← buffer_var i; b' ← on_store (SharedBuffer.remove_prefix n b); assign i (VBuffer b')
  | NewList => declare (VList SharedBufferList.empty)
  | ListOfString s => l ← on_store (SharedBufferList.of_string s); declare (VList l)
  | ListOfBuffer i =>
      b ← buffer_var i; l ← on_store (SharedBufferList.of_buffer b); declare (VList l)
  | Append i j =>
      l ← list_var i; other ← list_var j;
      if (i =? j)%nat && (0 <? zlen other) then undefined
      else l' ← on_store (SharedBufferList.append other l); assign i (VList l')
  | ListRemovePrefix i n => on_list i (SharedBufferList.remove_prefix n)
  | ToBuffer i =>
      l ← list_var i; b ← on_store (SharedBufferList.to_Buffer l); declare (VBuffer b)
  | Size i =>
      s ← get;
      match snd s !! i with
      | Some (VBuffer b) => n ← on_store (SharedBuffer.size b); mret (Number n)
      | Some (VList l) => n ← on_store (SharedBufferList.size l); mret (Number n)
      | _ => undefined
      end
  | Contents i =>
      s ← get;
      match snd s !! i with
      | Some (VBuffer b) => t ← on_store (SharedBuffer.copy b); mret (Text t)
      | Some (VList l) => t ← on_store (SharedBufferList.concatenate l); mret (Text t)
      | _ => undefined
      end
  | EndOfScope i =>
      s ← get;
      match snd s !! i with
      | Some (VBuffer b) => on_store (SharedBuffer.destroy b) ;;; assign i Dead
      | Some (VList l) => on_store (SharedBufferList.destroy l) ;;; assign i Dead
      | _ => undefined
      end
  end.

(** The same program on the strings of [Buffer.v], which are values: a copy
    is the same string, and nothing needs destroying. *)
Definition value_step (o : op) : M (unit * list (var Buffer)) obs :=
  match o with
  | NewBuffer s => declare (VBuffer (Buffer.of_string s))
  | DefaultBuffer => declare (VBuffer Buffer.empty)
  | CopyBuffer i => b ← buffer_var i; declare (VBuffer b)
  | At i n => b ← buffer_var i; c ← lift (Buffer.at_ n b); mret (Number c)
  | RemovePrefix i n =>
      b ← buffer_var i;
      let '(r, b') := Buffer.remove_prefix n b in
      lift r ;;; assign i (VBuffer b')
  | NewList => declare (VList BufferList.empty)
  | ListOfString s => declare (VList (BufferList.of_string s))
  | ListOfBuffer i => b ← buffer_var i; declare (VList (BufferList.of_buffer b))
  | Append i j =>
      l ← list_var i; other ← list_var j;
      l' ← lift (if (i =? j)%nat then BufferList.append_to_itself l
                 else Ret (BufferList.append other l));
      assign i (VList l')
  | ListRemovePrefix i n =>
      on_list i (zoom snd (fun l s => (fst s, l)) (BufferList.remove_prefix n))
  | ToBuffer i => l ← list_var i; b ← lift (BufferList.to_Buffer l); declare (VBuffer b)
  | Size i =>
      s ← get;
      match snd s !! i with
      | Some (VBuffer b) => mret (Number (Buffer.size b))
      | Some (VList l) => mret (Number (BufferList.size l))
      | _ => undefined
      end
  | Contents i =>
      s ← get;
      match snd s !! i with
      | Some (VBuffer b) => mret (Text (Buffer.copy b))
      | Some (VList l) => mret (Text (BufferList.concatenate l))
      | _ => undefined
      end
  | EndOfScope i =>
      s ← get;
      match snd s !! i with
      | Some (VBuffer _) | Some (VList _) => assign i Dead
      | _ => undefined
      end
  end.

(** A string fits a [size_t], and so does a count. *)
Definition valid_op (o : op) : Prop :=
  match o with
  | NewBuffer s | ListOfString s => zlen s <= SIZE_MAX
  | At _ n | RemovePrefix _ n | ListRemovePrefix _ n => 0 <= n <= SIZE_MAX
  | _ => True
  end.

(** The references the variables hold. *)
Definition buffer_refs (l : list SBuffer) : list (option positive) :=
  map SharedBuffer._storage l.

Definition var_refs (v : var SBuffer) : list (option positive) :=
  match v with
  | VBuffer b => [SharedBuffer._storage b]
  | VList l => buffer_refs l
  | Dead => []
  end.

Definition handles (vs : list (var SBuffer)) : list (option positive) := concat (map var_refs vs).

(** The value a [Buffer] has in a heap. *)
Definition value_of (h : heap) (b : SBuffer) : Buffer :=
  Buffer.mkBuffer
    (l ← SharedBuffer._storage b; deref l (objects h))
    (SharedBuffer._starting_offset b).

Definition map_var {A B} (f : A -> B) (v : var A) : var B :=
  match v with VBuffer b => VBuffer (f b) | VList l => VList (map f l) | Dead => Dead end.

Definition values_of (s : State) : list (var Buffer) := map (map_var (value_of (fst s))) (snd s).

(** The counts are those of the references [hs], and locations not yet
    allocated are free. *)
Definition good (h : heap) (hs : list (option positive)) : Prop :=
  owned (objects h) hs /\ forall l, (next h <= l)%positive -> objects h !! l = None.

(** A reference the state counts, or null. *)
Definition known (b : SBuffer) (hs : list (option positive)) : Prop :=
  SharedBuffer._storage b ∈ None :: hs.

(** What can have become of [h]: a string is as it was or gone, and new ones
    are elsewhere. *)
Definition later (h h' : heap) : Prop :=
  (next h <= next h')%positive /\
  forall l, (l < next h)%positive ->
    deref l (objects h') = deref l (objects h) \/ deref l (objects h') = None.

Definition var_wf (v : var Buffer) : Prop :=
  match v with VBuffer b => Buffer.wf b | VList l => BufferList.wf l | Dead => True end.

(** The invariant of a program's state. *)
Definition good_state (s : State) : Prop :=
  good (fst s) (handles (snd s)) /\ Forall var_wf (values_of s).

(** Nothing allocated, nothing declared. *)
Definition start : State := (empty_heap, []).

(** The views look at bytes of strings some variable still refers to. *)
Definition views_alive (vs : RawViewList.t) (s : State) : bool :=
  forallb (fun v => (SharedBuffer.len v =? 0) ||
                    bool_decide (SharedBuffer.base v ∈ handles (snd s))) vs.

(** ** The heap evolves *)

#[export] Instance later_preorder : PreOrder later.
Proof.
  split.
  - intros h. split; [lia | by left].
  - intros h1 h2 h3 [Hn1 H1] [Hn2 H2]. split; [lia|]. intros l Hl.
    destruct (H2 l ltac:(lia)) as [E|]; [|by right]. rewrite E. by apply H1.
Qed.

#[export] Instance good_proper h : Proper ((≡ₚ) ==> iff) (good h).
Proof. intros hs hs' E. unfold good. by rewrite E. Qed.

Lemma good_live h hs l : good h hs -> Some l ∈ hs ->
  (l < next h)%positive /\ exists s, deref l (objects h) = Some s.
Proof.
  intros [Ho Hn] Hin. apply list_elem_of_lookup in Hin as [i Hi].
  destruct (owned_live _ _ i l Ho Hi) as (s & n & E & _). split.
  - destruct (decide (next h <= l)%positive) as [Hle|]; [|lia].
    by rewrite Hn in E.
  - exists s. unfold deref. by rewrite E.
Qed.

(** What is referred to throughout stays what it was. *)
Lemma later_deref h h' hs hs' l : later h h' -> good h hs -> good h' hs' ->
  Some l ∈ hs -> Some l ∈ hs' -> deref l (objects h') = deref l (objects h).
Proof.
  intros [_ Hl] Hg Hg' Hin Hin'. destruct (good_live h hs l Hg Hin) as [Hlt _].
  destruct (good_live h' hs' l Hg' Hin') as [_ [s E]].
  destruct (Hl l Hlt) as [|Hn]; [done | congruence].
Qed.

Lemma value_of_later h h' hs hs' b : later h h' -> good h hs -> good h' hs' ->
  SharedBuffer._storage b ∈ hs -> SharedBuffer._storage b ∈ hs' ->
  value_of h' b = value_of h b.
Proof.
  intros Hl Hg Hg' Hin Hin'. unfold value_of. f_equal.
  destruct (SharedBuffer._storage b) as [l|]; [|done]. simpl. by eapply later_deref.
Qed.

Lemma values_later h h' hs hs' l : later h h' -> good h hs -> good h' hs' ->
  buffer_refs l ⊆ hs -> buffer_refs l ⊆ hs' ->
  map (value_of h') l = map (value_of h) l.
Proof.
  intros Hl Hg Hg' Hin Hin'. apply map_ext_in. intros b Hb%list_elem_of_In.
  assert (SharedBuffer._storage b ∈ buffer_refs l) by by apply list_elem_of_fmap_2.
  eapply value_of_later; eauto.
Qed.

(** A heap operation that succeeds, taking the references [hs] to [hs']. *)
Definition takes {A} (m : M heap A) (h : heap) (hs' : list (option positive))
    (Q : A -> heap -> Prop) : Prop :=
  exists a h', m h = (Ret a, h') /\ good h' hs' /\ later h h' /\ Q a h'.

Lemma takes_bind {A B} (m : M heap A) (f : A -> M heap B) h hs1 hs2 Q1 Q2 :
  takes m h hs1 Q1 ->
  (forall a h1, good h1 hs1 -> later h h1 -> Q1 a h1 -> takes (f a) h1 hs2 Q2) ->
  takes (m ≫= f) h hs2 Q2.
Proof.
  intros (a & h1 & E & Hg & Hl & HQ) Hf.
  destruct (Hf a h1 Hg Hl HQ) as (b & h2 & E2 & Hg2 & Hl2 & HQ2).
  exists b, h2. rewrite (bind_Ret m f h h1 a E). split_and!; try done. by etrans.
Qed.

Lemma takes_ret {A} (a : A) h hs (Q : A -> heap -> Prop) :
  good h hs -> Q a h -> takes (mret a) h hs Q.
Proof. intros. exists a, h. split_and!; done. Qed.

Lemma takes_perm {A} (m : M heap A) h hs1 hs2 Q :
  hs1 ≡ₚ hs2 -> takes m h hs1 Q -> takes m h hs2 Q.
Proof. intros E (a & h' & ? & Hg & ? & ?). exists a, h'. by rewrite <- E. Qed.

Lemma takes_weaken {A} (m : M heap A) h hs (Q Q' : A -> heap -> Prop) :
  takes m h hs Q -> (forall a h', good h' hs -> later h h' -> Q a h' -> Q' a h') ->
  takes m h hs Q'.
Proof. intros (a & h' & ? & ? & ? & ?) HQ. exists a, h'. auto. Qed.

Lemma good_cons_None h hs : good h (None :: hs) <-> good h hs.
Proof.
  unfold good, owned. apply and_iff_compat_r. apply forall_proper. intros l.
  by rewrite refs_cons.
Qed.

Lemma deref_set_count f l l' (st : gmap positive (bytes * nat)) :
  deref l' (set_count f l st) = deref l' st.
Proof.
  unfold deref, set_count. rewrite lookup_alter. case_decide; [|done]. subst.
  by destruct (st !! l') as [[]|].
Qed.

Lemma later_set_count f l h : later h (set_objects (set_count f l) h).
Proof. split; [done|]. intros l' _. left. apply deref_set_count. Qed.

Lemma set_count_fresh f l h l' :
  objects h !! l' = None -> objects (set_objects (set_count f l) h) !! l' = None.
Proof.
  simpl. unfold set_count. rewrite lookup_alter. case_decide; [subst|done]. by intros ->.
Qed.

(** ** One buffer *)

Lemma copy_construct_takes b h hs : good h hs -> known b hs ->
  takes (SharedBuffer.copy_construct b) h (SharedBuffer._storage b :: hs) (fun b' _ => b' = b).
Proof.
  unfold known. intros Hg Hin. unfold SharedBuffer.copy_construct.
  destruct (SharedBuffer._storage b) as [l|] eqn:E.
  - apply elem_of_cons in Hin as [|Hin]; [done|].
    destruct (good_live h hs l Hg Hin) as [_ [s Hs]]. destruct Hg as [Ho Hn].
    exists b, (set_objects (set_count S l) h). msimpl. rewrite Hs. split_and!; try done.
    + split; [|intros l' Hl'; apply set_count_fresh; by apply Hn].
      apply list_elem_of_lookup in Hin as [i Hi]. simpl.
      rewrite Permutation_cons_append. by apply owned_incr with i.
    + apply later_set_count.
  - apply takes_ret; [by apply good_cons_None | done].
Qed.

Lemma release_takes p h hs : good h (p :: hs) ->
  takes (SharedBuffer.release p) h hs (fun _ _ => True).
Proof.
  intros Hg. destruct p as [l|]; [|apply takes_ret; [by apply good_cons_None|done]].
  unfold SharedBuffer.release. destruct Hg as [Ho Hn].
  destruct (owned_live _ _ 0 l Ho eq_refl) as (s & n & E & Hr & Hp).
  unfold takes, use_count. msimpl. rewrite E. destruct n as [|[|n]]; [lia| |].
  - exists tt. eexists. split; [done|]. split_and!; try done.
    + split.
      * intros l'. pose proof (owned_free l _ _ 0 s Ho eq_refl E l') as Hl. simpl in *.
        by rewrite refs_cons, decide_False in Hl by done.
      * intros l' Hl'. simpl. rewrite lookup_delete. case_decide; [done | by apply Hn].
    + split; [done|]. intros l' _. simpl. unfold deref. rewrite lookup_delete.
      case_decide; [by right | by left].
  - exists tt. eexists. split; [done|]. split_and!; try done; [|apply later_set_count].
    split; [|intros l' Hl'; apply set_count_fresh; by apply Hn].
    intros l'. pose proof (owned_decr l _ _ 0 s n Ho eq_refl E l') as Hl. simpl in *.
    by rewrite refs_cons, decide_False in Hl by done.
Qed.

Lemma of_string_takes s h hs : good h hs ->
  exists b h', SharedBuffer.of_string s h = (Ret b, h') /\ later h h' /\
    good h' (SharedBuffer._storage b :: hs) /\ value_of h' b = Buffer.of_string s.
Proof.
  intros [Ho Hn]. unfold SharedBuffer.of_string. msimpl. do 2 eexists. split; [done|]. simpl.
  split_and!.
  - split; [simpl; lia|]. intros l Hl. left. unfold deref. simpl.
    by rewrite lookup_insert_ne by lia.
  - split.
    + simpl. rewrite Permutation_cons_append. apply owned_alloc; [done | by apply Hn].
    + simpl. intros l Hl. rewrite lookup_insert_ne by lia. apply Hn. lia.
  - unfold value_of, deref. simpl. by rewrite lookup_insert_eq.
Qed.

(** View [v] shows the string [s] in heap [h]. *)
Definition shows (h : heap) (v : SharedBuffer.view) (s : bytes) : Prop :=
  SharedBuffer.len v = zlen s /\ 0 <= SharedBuffer.off v /\
  (s = [] \/ exists l t, SharedBuffer.base v = Some l /\ deref l (objects h) = Some t /\
     s = ztake (SharedBuffer.len v) (zdrop (SharedBuffer.off v) t)).

Lemma shows_bytes h v s : shows h v s -> SharedBuffer.view_bytes v h = (Ret s, h).
Proof.
  intros (Hlen & _ & Hs). unfold SharedBuffer.view_bytes.
  destruct (Z.eqb_spec (SharedBuffer.len v) 0) as [Hz|Hz].
  - rewrite Hlen in Hz. apply zlen_0 in Hz as ->. done.
  - destruct Hs as [->|(l & t & Hb & Hd & ->)]; [done|]. rewrite Hb. msimpl. by rewrite Hd.
Qed.

Lemma known_cons b p hs : known b hs -> known b (p :: hs).
Proof. unfold known. rewrite !elem_of_cons. tauto. Qed.

Lemma known_self b hs : known b (SharedBuffer._storage b :: hs).
Proof. unfold known. rewrite !elem_of_cons. tauto. Qed.

Lemma known_app_r b hs hs' : known b hs' -> known b (hs ++ hs').
Proof. unfold known. rewrite !elem_of_cons, elem_of_app. tauto. Qed.

Lemma known_deref h hs b l : good h hs -> known b hs -> SharedBuffer._storage b = Some l ->
  exists s, deref l (objects h) = Some s /\
    value_of h b = Buffer.mkBuffer (Some s) (SharedBuffer._starting_offset b).
Proof.
  unfold known. intros Hg Hin E. rewrite E in Hin. apply elem_of_cons in Hin as [|Hin]; [done|].
  destruct (good_live h hs l Hg Hin) as [_ [s Hs]]. exists s. split; [done|].
  unfold value_of. rewrite E. simpl. by rewrite Hs.
Qed.

Lemma value_of_null h b : SharedBuffer._storage b = None ->
  value_of h b = Buffer.mkBuffer None (SharedBuffer._starting_offset b).
Proof. intros E. unfold value_of. by rewrite E. Qed.

Lemma str_shows h hs b : good h hs -> known b hs -> Buffer.wf (value_of h b) ->
  exists v, SharedBuffer.str b h = (Ret v, h) /\ shows h v (Buffer.str (value_of h b)) /\
    (SharedBuffer.len v = 0 \/ SharedBuffer.base v = SharedBuffer._storage b).
Proof.
  intros Hg Hk Hwf. unfold SharedBuffer.str, SharedBuffer.storage_string.
  destruct (SharedBuffer._storage b) as [l|] eqn:E.
  - destruct (known_deref h hs b l Hg Hk E) as (s & Hs & Hv).
    pose proof (Buffer_str_eq _ s Hwf) as Hstr. rewrite Hv in *. specialize (Hstr eq_refl).
    unfold Buffer.wf, SIZE_MAX in Hwf. simpl in *. rewrite Hstr.
    msimpl. rewrite Hs. eexists. split; [done|]. split; [|by right]. simpl.
    rewrite wrapu_small by lia. unfold shows. simpl. split_and!; [znorm; zlia|lia|].
    right. exists l, s. split_and!; try done. rewrite ztake_all; [done | znorm; zlia].
  - rewrite (value_of_null h b E) in *. eexists. split; [done|]. split; [|by left].
    unfold shows. simpl. split_and!; try done. by left.
Qed.

Lemma size_value h hs b : good h hs -> known b hs -> Buffer.wf (value_of h b) ->
  SharedBuffer.size b h = (Ret (Buffer.size (value_of h b)), h).
Proof.
  intros Hg Hk Hwf. destruct (str_shows h hs b Hg Hk Hwf) as (v & E & (Hlen & _) & _).
  unfold SharedBuffer.size. rewrite (bind_Ret _ _ h h v E). by rewrite Hlen.
Qed.

Lemma copy_value h hs b : good h hs -> known b hs -> Buffer.wf (value_of h b) ->
  SharedBuffer.copy b h = (Ret (Buffer.copy (value_of h b)), h).
Proof.
  intros Hg Hk Hwf. destruct (str_shows h hs b Hg Hk Hwf) as (v & E & Hs & _).
  unfold SharedBuffer.copy. rewrite (bind_Ret _ _ h h v E). by apply shows_bytes.
Qed.

Lemma at_value h hs b n : good h hs -> known b hs -> Buffer.wf (value_of h b) -> 0 <= n ->
  SharedBuffer.at_ n b h = (Buffer.at_ n (value_of h b), h).
Proof.
  intros Hg Hk Hwf Hn. destruct (str_shows h hs b Hg Hk Hwf) as (v & E & Hs & _).
  unfold SharedBuffer.at_, Buffer.at_. rewrite (bind_Ret _ _ h h v E).
  pose proof Hs as [Hlen _]. rewrite Hlen. destruct (Z.geb_spec n (zlen (Buffer.str (value_of h b)))).
  - unfold znth. zcases. rewrite lookup_ge_None_2; [done|]. unfold zlen in *. lia.
  - rewrite (bind_Ret _ _ h h _ (shows_bytes h v _ Hs)).
    destruct (znth_Some n (Buffer.str (value_of h b)) ltac:(lia)) as [c Hc]. by rewrite Hc.
Qed.

Lemma storage_string_value h hs b : good h hs -> known b hs ->
  SharedBuffer.storage_string b h = (Ret (Buffer._storage (value_of h b)), h).
Proof.
  intros Hg Hk. unfold SharedBuffer.storage_string.
  destruct (SharedBuffer._storage b) as [l|] eqn:E; [|by rewrite (value_of_null h b E)].
  destruct (known_deref h hs b l Hg Hk E) as (s & Hs & ->). msimpl. by rewrite Hs.
Qed.

(** Removing a prefix gives up the reference exactly when the value does. *)
Lemma remove_prefix_value n b h hs : good h (SharedBuffer._storage b :: hs) ->
  Buffer.wf (value_of h b) ->
  let '(r, vb) := Buffer.remove_prefix n (value_of h b) in
  match r with
  | Ret _ => takes (SharedBuffer.remove_prefix n b) h
      match Buffer._storage vb with None => hs | Some _ => SharedBuffer._storage b :: hs end
      (fun b' h' => value_of h' b' = vb /\
         SharedBuffer._storage b' =
           match Buffer._storage vb with None => None | Some _ => SharedBuffer._storage b end)
  | Throw e => SharedBuffer.remove_prefix n b h = (Throw e, h)
  | _ => False
  end.
Proof.
  intros Hg Hwf. set (hs0 := _ :: hs) in Hg.
  assert (Hk : known b hs0) by apply known_self.
  destruct (str_shows h hs0 b Hg Hk Hwf) as (v & E & (Hlen & _) & _).
  unfold Buffer.remove_prefix. msimpl. set (off := u64 (SharedBuffer._starting_offset b + n)).
  assert (Hrun : SharedBuffer.remove_prefix n b h =
    (if n >? zlen (Buffer.str (value_of h b)) then throw (out_of_range "Buffer::remove_prefix")
     else match Buffer._storage (value_of h b) with
          | Some s => if off =? zlen s
                      then SharedBuffer.release (SharedBuffer._storage b) ;;;
                           mret (SharedBuffer.mkBuffer None off)
                      else mret (SharedBuffer.mkBuffer (SharedBuffer._storage b) off)
          | None => mret (SharedBuffer.mkBuffer (SharedBuffer._storage b) off)
          end) h).
  { unfold SharedBuffer.remove_prefix. rewrite (bind_Ret _ _ h h v E), Hlen.
    destruct (n >? _); [done|].
    by rewrite (bind_Ret _ _ h h _ (storage_string_value h hs0 _ Hg Hk)). }
  destruct (n >? _); [done|]. unfold takes. rewrite Hrun. clear Hrun.
  destruct (SharedBuffer._storage b) as [l|] eqn:El.
  - destruct (known_deref h hs0 b l Hg Hk El) as (s & Hs & Hv). rewrite Hv in *. cbn. fold off.
    destruct (off =? zlen s).
    + destruct (release_takes (Some l) h hs Hg) as ([] & h' & Er & Hg' & Hl & _).
      rewrite (bind_Ret _ _ h h' tt Er). do 2 eexists. split; [done|]. split_and!; done.
    + exists (SharedBuffer.mkBuffer (Some l) off), h. split; [done|].
      unfold value_of. simpl. rewrite Hs. split_and!; done.
  - rewrite (value_of_null h b El). cbn. fold off. exists (SharedBuffer.mkBuffer None off), h.
    split; [done|]. split_and!; try done.
Qed.

(** ** Lists of buffers *)

Lemma known_refs l hs : Forall (fun b => known b (buffer_refs l ++ hs)) l.
Proof.
  apply Forall_forall. intros b Hb. unfold known. rewrite elem_of_cons, elem_of_app.
  right. left. by apply list_elem_of_fmap_2.
Qed.

Hint Resolve known_cons known_self known_app_r : sponge.

Lemma append_takes other : forall l h hs, good h hs -> Forall (fun b => known b hs) other ->
  takes (SharedBufferList.append other l) h (buffer_refs other ++ hs)
    (fun l' _ => l' = l ++ other).
Proof.
  induction other as [|b other IH]; intros l h hs Hg Hk; simpl.
  - apply takes_ret; [done | by rewrite app_nil_r].
  - apply Forall_cons in Hk as [Hb Hk].
    eapply takes_bind; [by apply copy_construct_takes|].
    intros b' h1 Hg1 _ ->. eapply takes_perm; [symmetry; apply Permutation_middle|].
    eapply takes_weaken; [apply IH|]; [done| |].
    + eapply Forall_impl; [exact Hk|]. intros x. apply known_cons.
    + intros l' h' _ _ ->. by rewrite <- app_assoc.
Qed.

Lemma destroy_takes l : forall h hs, good h (buffer_refs l ++ hs) ->
  takes (SharedBufferList.destroy l) h hs (fun _ _ => True).
Proof.
  induction l as [|b l IH]; intros h hs Hg; simpl in *; [by apply takes_ret|].
  eapply takes_bind; [by apply release_takes|]. intros _ h1 Hg1 _ _. by apply IH.
Qed.

Lemma of_buffer_takes b h hs : good h hs -> known b hs ->
  takes (SharedBufferList.of_buffer b) h (SharedBuffer._storage b :: hs)
    (fun l _ => l = [b]).
Proof.
  intros Hg Hk. unfold SharedBufferList.of_buffer.
  eapply takes_bind; [by apply copy_construct_takes|]. intros ? h1 Hg1 _ ->.
  eapply takes_bind; [apply copy_construct_takes; eauto with sponge; apply known_self|].
  intros ? h2 Hg2 _ ->.
  eapply takes_bind; [apply copy_construct_takes; eauto with sponge; apply known_self|].
  intros ? h3 Hg3 _ ->.
  eapply takes_bind; [by apply release_takes|]. intros _ h4 Hg4 _ _.
  eapply takes_bind; [by apply release_takes|]. intros _ h5 Hg5 _ _.
  by apply takes_ret.
Qed.

Lemma value_of_single h b s : value_of h b = Buffer.of_string s ->
  map (value_of h) [b] = BufferList.of_string s.
Proof. intros E. simpl. by rewrite E. Qed.

Lemma list_of_string_takes s h hs : good h hs ->
  exists b h', SharedBufferList.of_string s h = (Ret [b], h') /\ later h h' /\
    good h' (SharedBuffer._storage b :: hs) /\ value_of h' b = Buffer.of_string s.
Proof.
  intros Hg. unfold SharedBufferList.of_string.
  destruct (of_string_takes s h hs Hg) as (b & h1 & E1 & Hl1 & Hg1 & Hv).
  rewrite (bind_Ret _ _ h h1 b E1).
  assert (Ht : takes
    (other ← SharedBufferList.of_buffer b;
     l ← SharedBufferList.append other SharedBufferList.empty;
     SharedBufferList.destroy other ;;; SharedBuffer.destroy b ;;; mret l) h1
    (SharedBuffer._storage b :: hs) (fun l _ => l = [b])).
  { eapply takes_bind; [apply of_buffer_takes; eauto with sponge; apply known_self|].
    intros ? h2 Hg2 _ ->.
    eapply takes_bind; [apply append_takes; [done|repeat constructor; apply known_self]|].
    intros ? h3 Hg3 _ ->.
    eapply takes_bind; [by apply destroy_takes|]. intros _ h4 Hg4 _ _.
    eapply takes_bind; [by apply release_takes|]. intros _ h5 Hg5 _ _.
    by apply takes_ret. }
  destruct Ht as (l & h' & E & Hg' & Hl & ->). exists b, h'. split; [done|].
  split; [by etrans|]. split; [done|]. rewrite <- Hv.
  eapply value_of_later; eauto; apply list_elem_of_here.
Qed.

Lemma size_list_value h hs l : good h hs -> Forall (fun b => known b hs) l ->
  BufferList.wf (map (value_of h) l) ->
  SharedBufferList.size l h = (Ret (BufferList.size (map (value_of h) l)), h).
Proof.
  intros Hg Hk Hwf. unfold SharedBufferList.size, BufferList.size. generalize 0.
  induction l as [|b l IH]; intros acc; simpl; [done|].
  apply Forall_cons in Hk as [Hb Hk]. apply Forall_cons in Hwf as [Hwb Hwf].
  rewrite (bind_Ret _ _ h h _ (size_value h hs b Hg Hb Hwb)). by apply IH.
Qed.

Lemma concatenate_value h hs l : good h hs -> Forall (fun b => known b hs) l ->
  BufferList.wf (map (value_of h) l) ->
  SharedBufferList.concatenate l h = (Ret (BufferList.concatenate (map (value_of h) l)), h).
Proof.
  intros Hg Hk Hwf. unfold SharedBufferList.concatenate, BufferList.concatenate.
  generalize (@nil byte).
  induction l as [|b l IH]; intros acc; simpl; [done|].
  apply Forall_cons in Hk as [Hb Hk]. apply Forall_cons in Hwf as [Hwb Hwf].
  rewrite (bind_Ret _ _ h h _ (copy_value h hs b Hg Hb Hwb)). by apply IH.
Qed.

Lemma on_heap_eq {T A} (m : M heap A) h (t : T) :
  SharedBufferList.on_heap m (h, t) = let '(r, h') := m h in (r, (h', t)).
Proof. done. Qed.

Lemma refs_incl l hs : buffer_refs l ⊆ buffer_refs l ++ hs.
Proof. intros x Hx. rewrite elem_of_app. by left. Qed.

Lemma refs_incl_cons l p hs : buffer_refs l ⊆ p :: buffer_refs l ++ hs.
Proof. intros x Hx. rewrite elem_of_cons, elem_of_app. auto. Qed.

(** The loop drops what the loop on values drops, and the references of the
    buffers it pops. *)
Lemma remove_prefix_loop_value l : forall n h hs,
  good h (buffer_refs l ++ hs) -> BufferList.wf (map (value_of h) l) ->
  let '(r, vl) := BufferList.remove_prefix_loop n (map (value_of h) l) in
  exists h' l', SharedBufferList.remove_prefix_loop n l (h, l) = (r, (h', l')) /\
    good h' (buffer_refs l' ++ hs) /\ later h h' /\ map (value_of h') l' = vl.
Proof.
  induction l as [|b l IH]; intros n h hs Hg Hwf; simpl;
    (destruct (n >? 0); [|by do 2 eexists]); [by do 2 eexists|].
  apply Forall_cons in Hwf as [Hwb Hwf].
  assert (Hs : SharedBufferList.on_heap (SharedBuffer.size b) (h, b :: l) =
    (Ret (zlen (Buffer.str (value_of h b))), (h, b :: l))).
  { rewrite on_heap_eq. by rewrite (size_value h _ b Hg (known_self b _) Hwb). }
  rewrite (bind_Ret _ _ _ _ _ Hs). destruct (n <? _).
  - pose proof (remove_prefix_value n b h _ Hg Hwb) as Hr.
    destruct (Buffer.remove_prefix n (value_of h b)) as [r vb] eqn:Eb.
    destruct r as [u|e| |]; try done.
    + destruct Hr as (b' & h1 & E & Hg1 & Hl1 & Hv & Hst).
      assert (Eh : SharedBufferList.on_heap (SharedBuffer.remove_prefix n b) (h, b :: l) =
        (Ret b', (h1, b :: l))) by (rewrite on_heap_eq; by rewrite E).
      rewrite (bind_Ret _ _ _ _ _ Eh). destruct u. exists h1, (b' :: l).
      split; [done|].
      assert (Hg1' : good h1 (buffer_refs (b' :: l) ++ hs)).
      { simpl. rewrite Hst. destruct (Buffer._storage vb); [done|]. by apply good_cons_None. }
      split; [done|]. split; [done|]. simpl. rewrite Hv. f_equal.
      eapply values_later; [done | exact Hg | exact Hg1' | |]; apply refs_incl_cons.
    + assert (Eh : SharedBufferList.on_heap (SharedBuffer.remove_prefix n b) (h, b :: l) =
        (Throw e, (h, b :: l))) by (rewrite on_heap_eq; by rewrite Hr).
      rewrite (bind_Throw _ _ _ _ _ Eh). exists h, (b :: l). split_and!; try done.
      simpl. f_equal. unfold Buffer.remove_prefix in Eb. msimpl.
      destruct (n >? _); by simplify_eq.
  - destruct (release_takes (SharedBuffer._storage b) h _ Hg) as (u & h1 & E & Hg1 & Hl1 & _).
    assert (Eh : SharedBufferList.on_heap (SharedBuffer.destroy b) (h, b :: l) =
      (Ret u, (h1, b :: l))) by (rewrite on_heap_eq; unfold SharedBuffer.destroy; by rewrite E).
    rewrite (bind_Ret _ _ _ _ _ Eh).
    rewrite (bind_Ret _ _ (h1, b :: l) (h1, l) tt) by done.
    assert (Hv : map (value_of h1) l = map (value_of h) l)
      by (eapply values_later; [done | exact Hg | exact Hg1 | apply refs_incl_cons
            | apply refs_incl]).
    specialize (IH (u64 (n - zlen (Buffer.str (value_of h b)))) h1 hs Hg1).
    rewrite Hv in IH. specialize (IH Hwf).
    destruct (BufferList.remove_prefix_loop _ _) as [r vl].
    destruct IH as (h' & l' & E' & Hg' & Hl' & Hm). exists h', l'.
    split_and!; try done. by etrans.
Qed.

(** ** Programs *)

Lemma handles_lookup vs i v : vs !! i = Some v -> handles vs ≡ₚ var_refs v ++ handles (delete i vs).
Proof.
  intros E. unfold handles. by rewrite (delete_Permutation vs i v E) at 1.
Qed.

Lemma handles_insert vs i v v0 : vs !! i = Some v0 ->
  handles (<[i := v]> vs) ≡ₚ var_refs v ++ handles (delete i vs).
Proof.
  intros E. assert (Hi : (i < length vs)%nat) by by eapply lookup_lt_Some.
  rewrite (handles_lookup _ i v) by by apply list_lookup_insert_eq.
  rewrite !delete_take_drop, take_insert_ge, drop_insert_lt by lia. done.
Qed.

Lemma handles_snoc vs v : handles (vs ++ [v]) ≡ₚ var_refs v ++ handles vs.
Proof.
  unfold handles. rewrite map_app, concat_app. simpl. rewrite app_nil_r.
  apply Permutation_app_comm.
Qed.

Lemma var_refs_in vs i v : vs !! i = Some v -> var_refs v ⊆ handles vs.
Proof.
  intros E x Hx. rewrite (handles_lookup vs i v E), elem_of_app. by left.
Qed.

Lemma var_value_later h h' hs hs' v : later h h' -> good h hs -> good h' hs' ->
  var_refs v ⊆ hs -> var_refs v ⊆ hs' ->
  map_var (value_of h') v = map_var (value_of h) v.
Proof.
  intros Hl Hg Hg' Hin Hin'. destruct v as [b|l|]; simpl in *; f_equal.
  - eapply value_of_later; eauto; [apply Hin | apply Hin']; apply list_elem_of_here.
  - by eapply values_later.
Qed.

(** A call on shared storage does what the call on values does, and leaves a
    good state. *)
Definition agrees (s : State) (c : outcome obs * State)
    (a : outcome obs * (unit * list (var Buffer))) : Prop :=
  fst c = fst a /\ snd a = (tt, values_of (snd c)) /\ good_state (snd c) /\
  later (fst s) (fst (snd c)).

Lemma agrees_same s r : good_state s -> agrees s (r, s) (r, (tt, values_of s)).
Proof. intros Hs. by split_and!. Qed.

Lemma agrees_declare h vs h' v va : good_state (h, vs) -> later h h' ->
  good h' (var_refs v ++ handles vs) -> va = map_var (value_of h') v -> var_wf va ->
  agrees (h, vs) (declare v (h', vs)) (declare va (tt, values_of (h, vs))).
Proof.
  intros [Hg Hwf] Hl Hg' -> Hv. simpl in *.
  assert (E : values_of (h', vs ++ [v]) = values_of (h, vs) ++ [map_var (value_of h') v]).
  { unfold values_of. simpl. rewrite map_app. f_equal. apply map_ext_in.
    intros x Hx%list_elem_of_In. apply list_elem_of_lookup in Hx as [i Hi].
    eapply var_value_later; eauto; [by eapply var_refs_in|].
    etrans; [by eapply var_refs_in|]. intros y ?. rewrite elem_of_app. by right. }
  split_and!; try done; simpl; [by rewrite E|]. split; simpl.
  - by rewrite handles_snoc.
  - rewrite E. apply Forall_app. split; [done|]. by apply Forall_singleton.
Qed.

Lemma agrees_assign h vs h' i v v0 va r : good_state (h, vs) -> vs !! i = Some v0 ->
  later h h' -> good h' (var_refs v ++ handles (delete i vs)) ->
  va = map_var (value_of h') v -> var_wf va ->
  agrees (h, vs) (r, (h', <[i := v]> vs)) (r, (tt, <[i := va]> (values_of (h, vs)))).
Proof.
  intros [Hg Hwf] Ei Hl Hg' -> Hv. simpl in *.
  assert (Hg'' : good h' (handles (<[i := v]> vs))) by by rewrite (handles_insert vs i v v0).
  assert (E : values_of (h', <[i := v]> vs) = <[i := map_var (value_of h') v]> (values_of (h, vs))).
  { unfold values_of. simpl. apply list_eq. intros j.
    pose proof (lookup_lt_Some _ _ _ Ei) as Hlt.
    change (map ?f ?l) with (f <$> l). rewrite list_lookup_fmap.
    destruct (decide (i = j)) as [<-|Hne].
    - rewrite !list_lookup_insert_eq; [done | by rewrite length_fmap | done].
    - rewrite !list_lookup_insert_ne, list_lookup_fmap by done.
      destruct (vs !! j) as [x|] eqn:Ej; [|done]. simpl. f_equal.
      eapply var_value_later; [exact Hl | exact Hg | exact Hg'' | by eapply var_refs_in|].
      apply (var_refs_in _ j). by rewrite list_lookup_insert_ne. }
  split_and!; try done; simpl; [by rewrite E|]. split; [done|].
  rewrite E. by apply Forall_insert.
Qed.

Lemma values_lookup h vs i :
  values_of (h, vs) !! i = map_var (value_of h) <$> vs !! i.
Proof. unfold values_of. apply list_lookup_fmap. Qed.

Lemma good_var h vs i v : good_state (h, vs) -> vs !! i = Some v ->
  good h (var_refs v ++ handles (delete i vs)) /\ var_wf (map_var (value_of h) v).
Proof.
  intros [Hg Hwf] Ei. simpl in *. split; [by rewrite <- handles_lookup|].
  rewrite Forall_forall in Hwf. apply Hwf. apply list_elem_of_lookup. exists i.
  by rewrite values_lookup, Ei.
Qed.

Lemma on_store_Ret {S B A C} (m : M S A) (k : A -> M (S * list (var B)) C) h vs a h' :
  m h = (Ret a, h') -> (on_store m ≫= k) (h, vs) = k a (h', vs).
Proof. intros E. apply bind_Ret. unfold on_store, zoom. simpl. by rewrite E. Qed.

Lemma on_store_Throw {S B A C} (m : M S A) (k : A -> M (S * list (var B)) C) h vs e h' :
  m h = (Throw e, h') -> (on_store m ≫= k) (h, vs) = (Throw e, (h', vs)).
Proof. intros E. apply bind_Throw. unfold on_store, zoom. simpl. by rewrite E. Qed.

Lemma buffer_var_bind {S B C} i (k : B -> M (S * list (var B)) C) h vs :
  (buffer_var i ≫= k) (h, vs) =
    match vs !! i with Some (VBuffer b) => k b (h, vs) | _ => (Undef, (h, vs)) end.
Proof. unfold buffer_var. msimpl. by destruct (vs !! i) as [[]|]. Qed.

Lemma list_var_bind {S B C} i (k : list B -> M (S * list (var B)) C) h vs :
  (list_var i ≫= k) (h, vs) =
    match vs !! i with Some (VList l) => k l (h, vs) | _ => (Undef, (h, vs)) end.
Proof. unfold list_var. msimpl. by destruct (vs !! i) as [[]|]. Qed.

#[local] Arguments list_var : simpl never.

Section Steps.
Variables (h : heap) (vs : list (var SBuffer)).
Hypothesis Hs : good_state (h, vs).
Let Hg : good h (handles vs) := proj1 Hs.

Ltac both_vars i :=
  rewrite values_lookup; destruct (vs !! i) as [[?b|?l|]|] eqn:?Ei; simpl;
  try by apply agrees_same.

Lemma known_var i b : vs !! i = Some (VBuffer b) -> known b (handles vs).
Proof.
  intros E. unfold known. rewrite elem_of_cons. right.
  apply (var_refs_in vs i _ E). apply list_elem_of_here.
Qed.

Lemma known_list i l : vs !! i = Some (VList l) -> Forall (fun b => known b (handles vs)) l.
Proof.
  intros E. apply Forall_forall. intros b Hb. unfold known. rewrite elem_of_cons. right.
  apply (var_refs_in vs i _ E). by apply list_elem_of_fmap_2.
Qed.

Lemma copied_wf h' i b : later h h' -> good h' (SharedBuffer._storage b :: handles vs) ->
  vs !! i = Some (VBuffer b) ->
  value_of h' b = value_of h b /\ Buffer.wf (value_of h b).
Proof.
  intros Hl Hg' Ei. split.
  - apply good_cons_None in Hg'.
    eapply (value_of_later h h' (None :: handles vs) (None :: _ :: handles vs));
      try done.
    + by apply known_var in Ei.
    + apply elem_of_cons. right. apply list_elem_of_here.
  - by destruct (good_var h vs i _ Hs Ei).
Qed.

Lemma CopyBuffer_agrees i :
  agrees (h, vs) (step (CopyBuffer i) (h, vs)) (value_step (CopyBuffer i) (tt, values_of (h, vs))).
Proof.
  unfold step, value_step. rewrite !buffer_var_bind. both_vars i.
  destruct (copy_construct_takes b h _ Hg (known_var i b Ei)) as (b' & h' & E & Hg' & Hl & ->).
  rewrite (on_store_Ret _ _ h vs b h' E).
  destruct (copied_wf h' i b Hl Hg' Ei) as [Hv Hwf].
  apply agrees_declare; try done. simpl. by rewrite Hv.
Qed.

Lemma ListOfBuffer_agrees i :
  agrees (h, vs) (step (ListOfBuffer i) (h, vs))
    (value_step (ListOfBuffer i) (tt, values_of (h, vs))).
Proof.
  unfold step, value_step. rewrite !buffer_var_bind. both_vars i.
  destruct (of_buffer_takes b h _ Hg (known_var i b Ei)) as (l & h' & E & Hg' & Hl & ->).
  rewrite (on_store_Ret _ _ h vs _ h' E).
  destruct (copied_wf h' i b Hl Hg' Ei) as [Hv Hwf].
  apply agrees_declare; try done; [simpl; by rewrite Hv|]. by apply Forall_singleton.
Qed.

Lemma New_agrees s : zlen s <= SIZE_MAX ->
  agrees (h, vs) (step (NewBuffer s) (h, vs)) (value_step (NewBuffer s) (tt, values_of (h, vs))) /\
  agrees (h, vs) (step (ListOfString s) (h, vs))
    (value_step (ListOfString s) (tt, values_of (h, vs))).
Proof.
  intros Hlen. unfold step, value_step. split.
  - destruct (of_string_takes s h _ Hg) as (b & h' & E & Hl & Hg' & Hv).
    rewrite (on_store_Ret _ _ h vs b h' E). apply agrees_declare; try done; simpl.
    + by rewrite Hv.
    + by apply Buffer_wf_of_string.
  - destruct (list_of_string_takes s h _ Hg) as (b & h' & E & Hl & Hg' & Hv).
    rewrite (on_store_Ret _ _ h vs [b] h' E). apply agrees_declare; try done; simpl.
    + by rewrite Hv.
    + apply Forall_singleton. by apply Buffer_wf_of_string.
Qed.

Lemma Default_agrees :
  agrees (h, vs) (step DefaultBuffer (h, vs)) (value_step DefaultBuffer (tt, values_of (h, vs))) /\
  agrees (h, vs) (step NewList (h, vs)) (value_step NewList (tt, values_of (h, vs))).
Proof.
  unfold step, value_step. split; apply agrees_declare; try done. by apply Forall_nil_2.
Qed.

Lemma At_agrees i n : 0 <= n ->
  agrees (h, vs) (step (At i n) (h, vs)) (value_step (At i n) (tt, values_of (h, vs))).
Proof.
  intros Hn. unfold step, value_step. rewrite !buffer_var_bind. both_vars i.
  destruct (good_var h vs i _ Hs Ei) as [_ Hwf].
  pose proof (at_value h _ b n Hg (known_var i b Ei) Hwf Hn) as E.
  unfold on_store, lift, zoom. msimpl. rewrite E.
  destruct (Buffer.at_ n (value_of h b)); by apply agrees_same.
Qed.

Lemma Size_agrees i :
  agrees (h, vs) (step (Size i) (h, vs)) (value_step (Size i) (tt, values_of (h, vs))) /\
  agrees (h, vs) (step (Contents i) (h, vs)) (value_step (Contents i) (tt, values_of (h, vs))).
Proof.
  assert (Hget : forall S C (k : S -> M S C) s, (get ≫= k) s = k s s) by done.
  unfold step, value_step. rewrite !Hget. simpl. rewrite !values_lookup.
  destruct (vs !! i) as [[b|l|]|] eqn:Ei; simpl; try (split; by apply agrees_same);
    destruct (good_var h vs i _ Hs Ei) as [_ Hwf].
  - pose proof (known_var i b Ei) as Hk.
    rewrite (on_store_Ret _ _ h vs _ h (size_value h _ b Hg Hk Hwf)).
    rewrite (on_store_Ret _ _ h vs _ h (copy_value h _ b Hg Hk Hwf)).
    split; by apply agrees_same.
  - pose proof (known_list i l Ei) as Hk.
    rewrite (on_store_Ret _ _ h vs _ h (size_list_value h _ l Hg Hk Hwf)).
    rewrite (on_store_Ret _ _ h vs _ h (concatenate_value h _ l Hg Hk Hwf)).
    split; by apply agrees_same.
Qed.

Lemma EndOfScope_agrees i :
  agrees (h, vs) (step (EndOfScope i) (h, vs)) (value_step (EndOfScope i) (tt, values_of (h, vs))).
Proof.
  assert (Hget : forall S C (k : S -> M S C) s, (get ≫= k) s = k s s) by done.
  unfold step, value_step. rewrite !Hget. simpl. both_vars i;
    destruct (good_var h vs i _ Hs Ei) as [Hgi _]; simpl in Hgi.
  - destruct (release_takes _ h _ Hgi) as (u & h' & E & Hg' & Hl & _).
    unfold SharedBuffer.destroy. rewrite (on_store_Ret _ _ h vs _ h' E).
    by eapply agrees_assign.
  - destruct (destroy_takes l h _ Hgi) as (u & h' & E & Hg' & Hl & _).
    rewrite (on_store_Ret _ _ h vs _ h' E). by eapply agrees_assign.
Qed.

Lemma RemovePrefix_agrees i n : 0 <= n ->
  agrees (h, vs) (step (RemovePrefix i n) (h, vs))
    (value_step (RemovePrefix i n) (tt, values_of (h, vs))).
Proof.
  intros Hn. unfold step, value_step. rewrite !buffer_var_bind. both_vars i.
  destruct (good_var h vs i _ Hs Ei) as [Hgi Hwf].
  pose proof (remove_prefix_value n b h _ Hgi Hwf) as Hr.
  assert (Hvb : Buffer.wf (exec (Buffer.remove_prefix n) (value_of h b))).
  { destruct (decide (n <= zlen (Buffer.str (value_of h b)))).
    - destruct (Buffer_remove_prefix_ok n _ Hwf ltac:(lia)) as (b' & E & ? & _).
      unfold exec. by rewrite E.
    - unfold exec. rewrite Buffer_remove_prefix_err by lia. done. }
  unfold exec in Hvb. destruct (Buffer.remove_prefix n (value_of h b)) as [r vb].
  destruct r as [u|e| |]; try done.
  - destruct Hr as (b' & h' & E & Hg' & Hl & Hv & Hst).
    rewrite (on_store_Ret _ _ h vs _ h' E). destruct u.
    eapply agrees_assign; try done; simpl; [|by rewrite Hv].
    rewrite Hst. by destruct (Buffer._storage vb).
  - rewrite (on_store_Throw _ _ h vs _ h Hr). by apply agrees_same.
Qed.

Lemma ListRemovePrefix_agrees i n : 0 <= n <= SIZE_MAX ->
  agrees (h, vs) (step (ListRemovePrefix i n) (h, vs))
    (value_step (ListRemovePrefix i n) (tt, values_of (h, vs))).
Proof.
  intros Hn. unfold step, value_step, on_list. rewrite !list_var_bind. both_vars i.
  destruct (good_var h vs i _ Hs Ei) as [Hgi Hwf].
  pose proof (remove_prefix_loop_value l n h _ Hgi Hwf) as Hr.
  pose proof (BufferList_remove_prefix_spec n _ Hwf Hn) as Hw.
  unfold BufferList.remove_prefix, SharedBufferList.remove_prefix, zoom in *. msimpl.
  destruct (BufferList.remove_prefix_loop n (map (value_of h) l)) as [r vl].
  destruct Hr as (h' & l' & E & Hg' & Hl & Hv). rewrite E. simpl.
  assert (Hwl : var_wf (VList vl)).
  { simpl. case_bool_decide; [by destruct Hw as (? & [= _ ->] & ? & _)|].
    destruct Hw as [? [= _ ->]]. apply Forall_nil_2. }
  assert (Ha : forall r, agrees (h, vs) (r, (h', <[i := VList l']> vs))
      (r, (tt, <[i := VList vl]> (values_of (h, vs))))).
  { intros r'. eapply agrees_assign; try done. simpl. by rewrite Hv. }
  destruct r; apply Ha.
Qed.

Lemma Append_agrees i j :
  agrees (h, vs) (step (Append i j) (h, vs)) (value_step (Append i j) (tt, values_of (h, vs))).
Proof.
  unfold step, value_step, SharedBufferList.t, BufferList.t. rewrite !list_var_bind. both_vars i.
  rewrite !list_var_bind. both_vars j. rename l0 into other, Ei0 into Ej.
  destruct (good_var h vs i _ Hs Ei) as [Hgi Hwf]. simpl in Hgi, Hwf.
  destruct (good_var h vs j _ Hs Ej) as [_ Hwfj]. simpl in Hwfj.
  pose proof (append_takes other l h _ Hg (known_list j other Ej)) as (l' & h' & E & Hg' & Hl & ->).
  assert (Hgood : good h' (buffer_refs (l ++ other) ++ handles (delete i vs))).
  { rewrite (handles_lookup vs i _ Ei) in Hg'. simpl in Hg'. revert Hg'.
    unfold buffer_refs. rewrite map_app. apply good_proper.
    rewrite !app_assoc. apply Permutation_app_tail, Permutation_app_comm. }
  assert (Hv : forall k m, vs !! k = Some (VList m) ->
    buffer_refs m ⊆ buffer_refs other ++ handles vs /\ map (value_of h') m = map (value_of h) m).
  { intros k m Ek. assert (Hin : buffer_refs m ⊆ buffer_refs other ++ handles vs).
    { etrans; [apply (var_refs_in vs k _ Ek)|]. intros y ?. rewrite elem_of_app. by right. }
    split; [done|]. apply (values_later h h' (handles vs) (buffer_refs other ++ handles vs));
      try done. apply (var_refs_in vs k _ Ek). }
  destruct (Nat.eqb_spec i j) as [<-|Hne]; cbn [andb].
  - rewrite Ei in Ej. simplify_eq. destruct other as [|b other]; [|by apply agrees_same].
    change (0 <? zlen []) with false. cbn match. rewrite (on_store_Ret _ _ h vs _ h' E). by eapply agrees_assign.
  - rewrite (on_store_Ret _ _ h vs _ h' E). msimpl. eapply agrees_assign; try done.
    + rewrite append_eq. simpl. rewrite map_app.
      by rewrite (proj2 (Hv i l Ei)), (proj2 (Hv j other Ej)).
    + by apply BufferList_wf_append.
Qed.

Lemma ToBuffer_agrees i :
  agrees (h, vs) (step (ToBuffer i) (h, vs)) (value_step (ToBuffer i) (tt, values_of (h, vs))).
Proof.
  unfold step, value_step, SharedBufferList.t, BufferList.t. rewrite !list_var_bind. both_vars i.
  destruct (good_var h vs i _ Hs Ei) as [_ Hwf]. simpl in Hwf.
  destruct l as [|b [|b' l]]; simpl.
  - rewrite (on_store_Ret _ _ h vs SharedBuffer.empty h) by done.
    by apply agrees_declare.
  - pose proof (known_list i _ Ei) as Hk. apply Forall_cons in Hk as [Hk _].
    destruct (copy_construct_takes b h _ Hg Hk) as (? & h' & E & Hg' & Hl & ->).
    rewrite (on_store_Ret _ _ h vs b h' E).
    assert (Hv : map (value_of h') [b] = map (value_of h) [b]).
    { apply (values_later h h' (handles vs) (SharedBuffer._storage b :: handles vs)); try done;
        [apply (var_refs_in vs i _ Ei)|].
      etrans; [apply (var_refs_in vs i _ Ei)|]. intros y ?. apply elem_of_cons. by right. }
    injection Hv as Hv1. apply agrees_declare; try done; simpl.
    + unfold value_of. by rewrite Hv1.
    + exact (Forall_inv Hwf).
  - by rewrite (on_store_Throw _ _ h vs _ h) by done.
Qed.

Lemma step_agrees o : valid_op o ->
  agrees (h, vs) (step o (h, vs)) (value_step o (tt, values_of (h, vs))).
Proof.
  intros Hv. destruct o.
  - exact (proj1 (New_agrees _ Hv)).
  - exact (proj1 Default_agrees).
  - apply CopyBuffer_agrees.
  - apply At_agrees. by destruct Hv.
  - apply RemovePrefix_agrees. by destruct Hv.
  - exact (proj2 Default_agrees).
  - exact (proj2 (New_agrees _ Hv)).
  - apply ListOfBuffer_agrees.
  - apply Append_agrees.
  - by apply ListRemovePrefix_agrees.
  - apply ToBuffer_agrees.
  - apply Size_agrees.
  - apply Size_agrees.
  - apply EndOfScope_agrees.
Qed.

End Steps.

Lemma good_start : good_state start.
Proof.
  split; [split|].
  - intros l. simpl. by rewrite lookup_empty.
  - done.
  - apply Forall_nil_2.
Qed.

Lemma run_agrees ops : forall s, good_state s -> Forall valid_op ops ->
  let '(rs, s') := run step ops s in
  run value_step ops (tt, values_of s) = (rs, (tt, values_of s')) /\
  good_state s' /\ later (fst s) (fst s').
Proof.
  induction ops as [|o ops IH]; intros [h vs] Hs Hv; simpl; [done|].
  apply Forall_cons in Hv as [Ho Hv].
  pose proof (step_agrees h vs Hs o Ho) as (Hr & Ha & Hs' & Hl).
  destruct (step o (h, vs)) as [r s'], (value_step o _) as [r' a']. simpl in *. subst r' a'.
  specialize (IH s' Hs' Hv).
  destruct r; try done; destruct (run step ops s') as [rs s'']; destruct IH as (-> & ? & ?);
    split_and!; try done; by etrans.
Qed.

(** ** Views *)

Lemma zdrop_ztake {A} n m (l : list A) : 0 <= n <= m ->
  zdrop n (ztake m l) = ztake (m - n) (zdrop n l).
Proof.
  intros. unfold zdrop, ztake. rewrite skipn_firstn_comm. f_equal. lia.
Qed.

Lemma shows_remove n h v s : shows h v s -> 0 <= n < zlen s ->
  shows h (RawViewList.view_remove_prefix n v) (zdrop n s).
Proof.
  intros (Hlen & Hoff & Hsh) Hn. unfold shows, RawViewList.view_remove_prefix. simpl.
  split_and!; [rewrite zlen_zdrop; lia | lia |].
  destruct Hsh as [->|(l & t & Hb & Hd & Ht)]; [znorm; lia|]. right. exists l, t.
  split_and!; try done. rewrite Ht at 1. by rewrite zdrop_ztake, zdrop_zdrop by lia.
Qed.

Lemma raw_remove_prefix_loop h vs ss : Forall2 (shows h) vs ss -> forall n,
  fst (RawViewList.remove_prefix_loop n vs) = fst (BufferViewList.remove_prefix_loop n ss) /\
  Forall2 (shows h) (snd (RawViewList.remove_prefix_loop n vs))
    (snd (BufferViewList.remove_prefix_loop n ss)).
Proof.
  induction 1 as [|v s vs ss Hsh Hvs IH]; intros n; simpl;
    destruct (Z.gtb_spec n 0); simpl; try (split; [done|]; by constructor).
  pose proof Hsh as [-> _]. destruct (Z.ltb_spec n (zlen s)); [|apply IH].
  simpl. split; [done|]. constructor; [|done]. apply shows_remove; [done|lia].
Qed.

Lemma raw_size h vs ss : Forall2 (shows h) vs ss ->
  RawViewList.size vs = BufferViewList.size ss.
Proof.
  intros Hvs. unfold RawViewList.size, BufferViewList.size. generalize 0.
  induction Hvs as [|v s vs ss [Hlen _] _ IH]; intros acc; simpl; [done|]. by rewrite Hlen.
Qed.

Lemma raw_as_iovecs vs : RawViewList.as_iovecs vs =
  map (fun x => RawViewList.mkIovec (SharedBuffer.base x, SharedBuffer.off x)
                  (SharedBuffer.len x)) vs.
Proof.
  unfold RawViewList.as_iovecs. rewrite (fold_app (fun x => [RawViewList.mkIovec _ _])). simpl.
  induction vs as [|v vs IH]; simpl; [done|]. by rewrite IH.
Qed.

Lemma load_shows h vs ss : Forall2 (shows h) vs ss ->
  RawViewList.load vs h = (Ret ss, h) /\
  RawViewList.load_iovecs (RawViewList.as_iovecs vs) h =
    (Ret (BufferViewList.as_iovecs ss), h).
Proof.
  intros Hvs. rewrite raw_as_iovecs, as_iovecs_eq. induction Hvs as [|v s vs ss Hsh _ [IH1 IH2]]; [done|].
  simpl. destruct v as [b o n]; simpl in *.
  rewrite !(bind_Ret _ _ h h s (shows_bytes h _ s Hsh)).
  rewrite !(bind_Ret _ _ h h _ IH1), !(bind_Ret _ _ h h _ IH2).
  destruct Hsh as [Hlen _]. simpl in Hlen. by rewrite Hlen.
Qed.

(** The views of a list show the strings of its buffers, through references
    the list holds. *)
Lemma views_show h hs l : good h hs -> Forall (fun b => known b hs) l ->
  BufferList.wf (map (value_of h) l) ->
  exists vs, RawViewList.of_BufferList l h = (Ret vs, h) /\
    Forall2 (shows h) vs (BufferViewList.of_BufferList (map (value_of h) l)) /\
    Forall (fun v => SharedBuffer.len v = 0 \/ SharedBuffer.base v ∈ None :: hs) vs.
Proof.
  intros Hg Hk Hwf. rewrite of_BufferList_eq. unfold RawViewList.of_BufferList.
  assert (Hloop : forall acc, exists vs,
    RawViewList.of_BufferList_loop l acc h = (Ret (acc ++ vs), h) /\
    Forall2 (shows h) vs (map Buffer.str (map (value_of h) l)) /\
    Forall (fun v => SharedBuffer.len v = 0 \/ SharedBuffer.base v ∈ None :: hs) vs).
  { induction l as [|b l IH]; intros acc; simpl.
    - exists []. rewrite app_nil_r. split_and!; by try constructor.
    - apply Forall_cons in Hk as [Hb Hk]. apply Forall_cons in Hwf as [Hwb Hwf].
      destruct (str_shows h hs b Hg Hb Hwb) as (v & E & Hsh & Hbase).
      rewrite (bind_Ret _ _ h h v E). destruct (IH Hk Hwf (acc ++ [v])) as (vs & E' & H1 & H2).
      exists (v :: vs). rewrite E', <- app_assoc. split_and!; try done; constructor; try done.
      destruct Hbase as [|Hbase]; [by left | right; by rewrite Hbase]. }
  apply (Hloop []).
Qed.

(** A reference that is counted is some handle's. *)
Lemma refs_in l hs : (0 < refs l hs)%nat -> Some l ∈ hs.
Proof.
  unfold refs. intros Hpos. destruct (filter _ hs) as [|x xs] eqn:Ef; [simpl in Hpos; lia|].
  assert (Hx : x ∈ filter (fun p => p = Some l) hs) by (rewrite Ef; apply list_elem_of_here).
  by apply list_elem_of_filter in Hx as [-> ?].
Qed.

(** What a view is worth later: the same string while a reference to its
    storage remains, nothing once the last is gone. *)
Lemma view_later h hs h' hs' v s : later h h' -> good h hs -> good h' hs' -> shows h v s ->
  (SharedBuffer.len v = 0 \/ SharedBuffer.base v ∈ None :: hs) ->
  fst (SharedBuffer.view_bytes v h') =
    (if (SharedBuffer.len v =? 0) || bool_decide (SharedBuffer.base v ∈ hs') then Ret s else Undef) /\
  snd (SharedBuffer.view_bytes v h') = h'.
Proof.
  intros [Hn Hl] Hg Hg' (Hlen & _ & Hsh) Hb. unfold SharedBuffer.view_bytes.
  destruct (Z.eqb_spec (SharedBuffer.len v) 0) as [Hz|Hz]; simpl.
  { rewrite Hlen in Hz. by apply zlen_0 in Hz as ->. }
  destruct Hb as [|Hb]; [done|].
  destruct Hsh as [->|(l & t & Hbase & Hd & Ht)]; [done|]. rewrite Hbase in *.
  apply elem_of_cons in Hb as [|Hb]; [done|].
  destruct (good_live h hs l Hg Hb) as [Hlt _]. msimpl.
  case_bool_decide as Hin.
  - destruct (good_live h' hs' l Hg' Hin) as [_ [t' Ht']].
    destruct (Hl l Hlt) as [E|E]; [|congruence]. rewrite Ht' in *. rewrite Hd in E.
    injection E as ->. by rewrite Ht.
  - destruct (deref l (objects h')) as [t'|] eqn:E; [|done]. exfalso. apply Hin.
    destruct Hg' as [Ho _]. specialize (Ho l). unfold deref in E.
    destruct (objects h' !! l) as [[a n]|]; [|done]. apply refs_in. lia.
Qed.

Lemma load_later h hs h' hs' vs ss : later h h' -> good h hs -> good h' hs' ->
  Forall2 (shows h) vs ss ->
  Forall (fun v => SharedBuffer.len v = 0 \/ SharedBuffer.base v ∈ None :: hs) vs ->
  result (RawViewList.load vs) h' =
    (if forallb (fun v => (SharedBuffer.len v =? 0) ||
          bool_decide (SharedBuffer.base v ∈ hs')) vs then Ret ss else Undef).
Proof.
  intros Hl Hg Hg' Hvs. unfold result. induction Hvs as [|v s vs ss Hsh _ IH]; intros Hb; [done|].
  apply Forall_cons in Hb as [Hbv Hb]. specialize (IH Hb). simpl.
  destruct (view_later h hs h' hs' v s Hl Hg Hg' Hsh Hbv) as [E1 E2]. msimpl.
  destruct (SharedBuffer.view_bytes v h') as [r h1]. simpl in *. subst h1.
  destruct ((SharedBuffer.len v =? 0) || bool_decide (SharedBuffer.base v ∈ hs')); subst r; [|done].
  simpl. destruct (RawViewList.load vs h') as [r h1]. simpl in *. subst r.
  by destruct (forallb _ vs).
Qed.

(** ** Properties *)

(** C10. Shared storage implements values: any program over [Buffer] and
    [BufferList] variables (construction, copies, lists of copies, appending,
    removing prefixes, reading, leaving scope, in any order, with what its
    calls throw caught) shows its caller exactly what it would show if every
    [Buffer] carried a string of its own, and ends with those strings in its
    variables; the reference counts are right throughout, so a string is
    freed when, and only when, it is gone from the last copy. *)
Theorem shared_storage_refines_values ops : Forall valid_op ops ->
  let '(rs, s) := run step ops start in
  run value_step ops (tt, []) = (rs, (tt, values_of s)) /\
  owned (objects (fst s)) (handles (snd s)) /\
  (forall l, is_Some (objects (fst s) !! l) <-> Some l ∈ handles (snd s)).
Proof.
  intros Hv. pose proof (run_agrees ops start good_start Hv) as Hr.
  destruct (run step ops start) as [rs s]. destruct Hr as (E & [Hg _] & _).
  split; [done|]. split; [by destruct Hg|]. intros l. split.
  - intros [[a n] Hl]. destruct Hg as [Ho _]. apply refs_in. specialize (Ho l).
    rewrite Hl in Ho. lia.
  - intros Hin. destruct (good_live _ _ l Hg Hin) as [_ [t Ht]]. unfold deref in Ht.
    by destruct (objects (fst s) !! l).
Qed.

(** Two buffers share a string; the first is consumed and forgets it, the
    second goes on with its suffix. *)
Lemma shared_storage_refines_values_witness :
  let ops := [NewBuffer (lit "hello"); CopyBuffer 0; ListOfBuffer 1; RemovePrefix 0 5;
              ListRemovePrefix 2 3; Contents 0; Contents 1; Contents 2; EndOfScope 1] in
  let '(rs, s) := run step ops start in
  run value_step ops (tt, []) = (rs, (tt, values_of s)) /\
  owned (objects (fst s)) (handles (snd s)) /\
  (forall l, is_Some (objects (fst s) !! l) <-> Some l ∈ handles (snd s)).
Proof.
  intros ops. refine (shared_storage_refines_values ops _).
  repeat (apply Forall_cons_2; [by vm_compute|]). apply Forall_nil_2.
Defined.

(** C17. The lifetime of views: views of a [BufferList] that a program takes
    and looks through later, after any other calls, show exactly what the
    list held when they were taken, as long as for each that is not empty
    some variable still refers to its string; once that is no longer so,
    looking through them is undefined.  They never show other bytes. *)
Theorem views_valid_while_shared ops1 ops2 i l : Forall valid_op ops1 -> Forall valid_op ops2 ->
  let s1 := snd (run step ops1 start) in
  snd s1 !! i = Some (VList l) ->
  exists vs, RawViewList.of_BufferList l (fst s1) = (Ret vs, fst s1) /\
    let s2 := snd (run step ops2 s1) in
    result (RawViewList.load vs) (fst s2) =
      if views_alive vs s2
      then Ret (BufferViewList.of_BufferList (map (value_of (fst s1)) l)) else Undef.
Proof.
  intros Hv1 Hv2 s1 Ei. pose proof (run_agrees ops1 start good_start Hv1) as Hr1. subst s1.
  destruct (run step ops1 start) as [rs [h vs]]. destruct Hr1 as (_ & Hs & _). simpl in *.
  destruct (good_var h vs i _ Hs Ei) as [_ Hwf]. simpl in Hwf.
  pose proof (known_list vs i l Ei) as Hk. pose proof Hs as [Hg _]. simpl in Hg.
  destruct (views_show h _ l Hg Hk Hwf) as (views & E & Hsh & Hb).
  exists views. split; [done|].
  pose proof (run_agrees ops2 (h, vs) Hs Hv2) as Hr2.
  destruct (run step ops2 (h, vs)) as [rs2 s2]. destruct Hr2 as (_ & [Hg2 _] & Hl). simpl in *.
  by apply (load_later h (handles vs)).
Qed.

(** The views outlive the list they were taken of, but not its storage. *)
Lemma views_valid_while_shared_witness :
  let s1 := snd (run step [NewBuffer (lit "cat"); ListOfBuffer 0] start) in
  exists vs, RawViewList.of_BufferList
      [SharedBuffer.mkBuffer (Some 1%positive) 0] (fst s1) = (Ret vs, fst s1) /\
    let s2 := snd (run step [EndOfScope 1; RemovePrefix 0 2] s1) in
    result (RawViewList.load vs) (fst s2) =
      if views_alive vs s2 then Ret [lit "cat"] else Undef.
Proof.
  refine (views_valid_while_shared [NewBuffer (lit "cat"); ListOfBuffer 0]
    [EndOfScope 1; RemovePrefix 0 2] 1 [SharedBuffer.mkBuffer (Some 1%positive) 0] _ _ eq_refl).
  - repeat (apply Forall_cons_2; [by vm_compute|]). apply Forall_nil_2.
  - repeat (apply Forall_cons_2; [by vm_compute|]). apply Forall_nil_2.
Defined.

(** C25. [BufferViewList] as it is, a queue of pointers and lengths: while
    the views show the strings [ss], its size, the result of removing a
    prefix, with the views left, and the bytes a system call finds through
    its iovecs are those of the list of strings [ss]. *)
Theorem raw_views_refine_views h vs ss n : Forall2 (shows h) vs ss ->
  RawViewList.size vs = BufferViewList.size ss /\
  RawViewList.load_iovecs (RawViewList.as_iovecs vs) h = (Ret (BufferViewList.as_iovecs ss), h) /\
  let '(r, vs') := RawViewList.remove_prefix n vs in
  let '(r', ss') := BufferViewList.remove_prefix n ss in
  r = r' /\ Forall2 (shows h) vs' ss' /\ RawViewList.load vs' h = (Ret ss', h).
Proof.
  intros Hvs. split; [by eapply raw_size|]. split; [by apply load_shows|].
  destruct (raw_remove_prefix_loop h vs ss Hvs n) as [Hr Hs].
  unfold RawViewList.remove_prefix, BufferViewList.remove_prefix.
  destruct (RawViewList.remove_prefix_loop n vs) as [r vs'].
  destruct (BufferViewList.remove_prefix_loop n ss) as [r' ss'].
  split; [done|]. split; [done|]. by apply load_shows.
Qed.

Lemma raw_views_refine_views_witness :
  let h := fst (snd (run step [NewBuffer (lit "cat")] start)) in
  let vs := [SharedBuffer.mkView (Some 1%positive) 1 2] in
  RawViewList.size vs = 2 /\
  RawViewList.load_iovecs (RawViewList.as_iovecs vs) h =
    (Ret [BufferViewList.mkIovec (lit "at") 2], h) /\
  Ret tt = Ret tt /\ Forall2 (shows h) [SharedBuffer.mkView (Some 1%positive) 2 1] [lit "t"] /\
  RawViewList.load [SharedBuffer.mkView (Some 1%positive) 2 1] h = (Ret [lit "t"], h).
Proof.
  refine (raw_views_refine_views (fst (snd (run step [NewBuffer (lit "cat")] start)))
    [SharedBuffer.mkView (Some 1%positive) 1 2] [lit "at"] 1 _).
  constructor; [|constructor]. split; [done|]. split; [done|]. right.
  by exists 1%positive, (lit "cat").
Defined.
