(* ===== verification/FileDescriptor.v ===== *)
(** Reference-counted file descriptors: [FileDescriptor] and its [FDWrapper]
    of [libsponge/util/file_descriptor.{hh,cc}]. *)

From S2P Require Import Prelude CString Buffer Process.

Local Open Scope Z_scope.

(** The flag of [fcntl(2)], with its value in the Linux ABI. *)
Definition O_NONBLOCK : Z := 2048.

(** [constexpr size_t BUFFER_SIZE] of [read]. *)
Definition BUFFER_SIZE : Z := 1024 * 1024.

(** A [FileDescriptor] object is its [shared_ptr]; a moved-from one is null. *)
Definition FileDescriptor : Type := option positive.

Definition set_eof (v : bool) (w : FDWrapper) : FDWrapper :=
  mkWrapper (_fd w) v (_closed w) (_read_count w) (_write_count w).
Definition set_closed (v : bool) (w : FDWrapper) : FDWrapper :=
  mkWrapper (_fd w) (_eof w) v (_read_count w) (_write_count w).
Definition incr_read (w : FDWrapper) : FDWrapper :=
  mkWrapper (_fd w) (_eof w) (_closed w) (u32 (_read_count w + 1)) (_write_count w).
Definition incr_write (w : FDWrapper) : FDWrapper :=
  mkWrapper (_fd w) (_eof w) (_closed w) (_read_count w) (u32 (_write_count w + 1)).

Section FileDescriptor.
Context {K : Type} `{Kernel K}.

(** [*_internal_fd]: dereferencing a null or dangling pointer is undefined. *)
Definition obj (h : FileDescriptor) : M (Proc K) (positive * FDWrapper) :=
  match h with
  | None => undefined
  | Some l =>
      p ← get;
      match deref l (wrappers p) with
      | Some w => mret (l, w)
      | None => undefined
      end
  end.

Definition fd_num (h : FileDescriptor) : M (Proc K) Z := lw ← obj h; mret (_fd (snd lw)).
Definition eof (h : FileDescriptor) : M (Proc K) bool := lw ← obj h; mret (_eof (snd lw)).
Definition closed (h : FileDescriptor) : M (Proc K) bool := lw ← obj h; mret (_closed (snd lw)).
Definition read_count (h : FileDescriptor) : M (Proc K) Z :=
  lw ← obj h; mret (_read_count (snd lw)).
Definition write_count (h : FileDescriptor) : M (Proc K) Z :=
  lw ← obj h; mret (_write_count (snd lw)).

Definition modify_obj (f : FDWrapper -> FDWrapper) (h : FileDescriptor) : M (Proc K) unit :=
  lw ← obj h; modify (set_wrappers (update_obj f (fst lw))).

Definition register_read (h : FileDescriptor) : M (Proc K) unit := modify_obj incr_read h.
Definition register_write (h : FileDescriptor) : M (Proc K) unit := modify_obj incr_write h.

(** [FDWrapper::FDWrapper], which may throw *)
Definition FDWrapper_new (fd : Z) : outcome FDWrapper :=
  if fd <? 0 then Throw (runtime_error (lit "invalid fd number:" ++ to_string fd))
  else Ret (mkWrapper fd false false 0 0).

(** [FileDescriptor(const int fd)]: [make_shared<FDWrapper>(fd)] *)
Definition FileDescriptor_new (fd : Z) : M (Proc K) FileDescriptor :=
  w ← lift (FDWrapper_new fd);
  p ← get;
  let l := fresh (dom (wrappers p)) in
  modify (set_wrappers (insert l (w, 1%nat))) ;;;
  mret (Some l).

(** [FDWrapper::close], also [FileDescriptor::close] *)
Definition close (h : FileDescriptor) : M (Proc K) unit :=
  lw ← obj h;
  r ← syscall (sys_close (_fd (snd lw)));
  _ ← SystemCall (lit "close") (ret r) 0;
  modify_obj (fun w => set_eof true (set_closed true w)) h.

(** [FDWrapper::~FDWrapper] *)
Definition FDWrapper_delete (h : FileDescriptor) : M (Proc K) unit :=
  try_catch
    (lw ← obj h; if _closed (snd lw) then mret tt else close h)
    (fun e => modify (log_cerr e)).

(** [duplicate], through the private constructor: one more [shared_ptr]. *)
Definition duplicate (h : FileDescriptor) : M (Proc K) FileDescriptor :=
  match h with
  | None => mret None
  | Some l =>
      _ ← obj h;
      modify (set_wrappers (set_count S l)) ;;;
      mret (Some l)
  end.

(** [~FileDescriptor() = default]: the last [shared_ptr] destroys the object. *)
Definition destroy (h : FileDescriptor) : M (Proc K) unit :=
  match h with
  | None => mret tt
  | Some l =>
      p ← get;
      match use_count l (wrappers p) with
      | O => undefined
      | S O => FDWrapper_delete h ;;; modify (set_wrappers (delete l))
      | S (S _) => modify (set_wrappers (set_count pred l))
      end
  end.

(** [read(str, limit)]; the caller's string is part of the state, because an
    exception leaves it resized. *)
Definition read_into (h : FileDescriptor) (limit : Z) : M (Proc K * bytes) unit :=
  let on_proc {A} (m : M (Proc K) A) : M (Proc K * bytes) A :=
    zoom fst (fun p s => (p, snd s)) m in
  let size_to_read := Z.min BUFFER_SIZE limit in
  modify (fun s => (fst s, str_resize size_to_read (snd s))) ;;;
  fd ← on_proc (fd_num h);
  r ← on_proc (syscall (sys_read fd size_to_read));
  modify (fun s => (fst s, fill (out r) (snd s))) ;;;
  bytes_read ← on_proc (SystemCall (lit "read") (s32 (ret r)) 0);
  on_proc (when ((limit >? 0) && (bytes_read =? 0)) (modify_obj (set_eof true) h)) ;;;
  if bytes_read >? s64 size_to_read
  then throw (runtime_error (lit "read() read more than requested"))
  else if bytes_read <? 0 then throw (length_error "basic_string::_M_replace_aux")
  else
    modify (fun s => (fst s, str_resize bytes_read (snd s))) ;;;
    on_proc (register_read h).

(** [read(limit)] *)
Definition read (h : FileDescriptor) (limit : Z) : M (Proc K) bytes := fun p =>
  let '(r, (p', ret)) := read_into h limit (p, []) in
  (_ ← r; Ret ret, p').

(** The [do ... while] loop of [write], on the call's own copy of the views. *)
Fixpoint write_loop (fuel : nat) (h : FileDescriptor) (buffer : BufferViewList.t)
    (write_all : bool) (total_bytes_written : Z) : M (Proc K) Z :=
  match fuel with
  | O => out_of_fuel
  | S fuel' =>
      let iovecs := BufferViewList.as_iovecs buffer in
      fd ← fd_num h;
      r ← syscall (sys_writev fd iovecs);
      bytes_written ← SystemCall (lit "writev") (s32 (ret r)) 0;
      if (bytes_written =? 0) && negb (BufferViewList.size buffer =? 0)
      then throw (runtime_error (lit "write returned 0 given non-empty input buffer"))
      else if bytes_written >? s64 (BufferViewList.size buffer)
      then throw (runtime_error (lit "write wrote more than length of input buffer"))
      else
        register_write h ;;;
        let '(rm, buffer) := BufferViewList.remove_prefix (u64 bytes_written) buffer in
        lift rm ;;;
        let total_bytes_written := u64 (total_bytes_written + bytes_written) in
        if write_all && nonzero (BufferViewList.size buffer)
        then write_loop fuel' h buffer write_all total_bytes_written
        else mret total_bytes_written
  end.

(** One round more than there are bytes. *)
Definition write (h : FileDescriptor) (buffer : BufferViewList.t) (write_all : bool) :
    M (Proc K) Z :=
  write_loop (S (Z.to_nat (zlen (BufferViewList.contents buffer)))) h buffer write_all 0.

(** The overloads of [write] for a C string and a [std::string]. *)
Definition write_c_string (h : FileDescriptor) (str : bytes) (write_all : bool) : M (Proc K) Z :=
  write h (BufferViewList.of_c_string str) write_all.
Definition write_string (h : FileDescriptor) (str : bytes) (write_all : bool) : M (Proc K) Z :=
  write h (BufferViewList.of_std_string str) write_all.

Definition set_blocking (h : FileDescriptor) (blocking_state : bool) : M (Proc K) unit :=
  fd ← fd_num h;
  r ← syscall (sys_getfl fd);
  flags ← SystemCall (lit "fcntl") (ret r) 0;
  let flags := if blocking_state then Z.lxor flags (Z.land flags O_NONBLOCK)
               else Z.lor flags O_NONBLOCK in
  fd ← fd_num h;
  r ← syscall (sys_setfl fd flags);
  _ ← SystemCall (lit "fcntl") (ret r) 0;
  mret tt.

(** ** A program's handles *)

(** What a program does with its [FileDescriptor] variables: variable [i] is
    the [i]-th created. *)
Inductive op : Type :=
  | Open (fd : Z)
  | Duplicate (i : nat)
  | MoveOut (i : nat)
  | MoveAssign (i j : nat)
  | Destroy (i : nat)
  | Close (i : nat)
  | Read (i : nat) (limit : Z)
  | WriteAll (i : nat) (data : bytes).

Definition State : Type := Proc K * list FileDescriptor.

Definition on_proc {A} (m : M (Proc K) A) : M State A :=
  zoom fst (fun p s => (p, snd s)) m.

Definition var (i : nat) : M State FileDescriptor :=
  s ← get; match snd s !! i with Some h => mret h | None => undefined end.

Definition new_var (h : FileDescriptor) : M State unit :=
  modify (fun s => (fst s, snd s ++ [h])).

Definition clear_var (i : nat) : M State unit :=
  modify (fun s => (fst s, <[i := None]> (snd s))).

(** [var_i = std::move(var_j)]: the [shared_ptr] of [var_j] goes to [var_i]
    and the one [var_i] had goes away; nothing happens to a variable that is
    moved to itself. *)
Definition move_assign (i j : nat) : M State unit :=
  h ← var i;
  h' ← var j;
  if (i =? j)%nat then mret tt
  else
    clear_var j ;;;
    modify (fun s => (fst s, <[i := h']> (snd s))) ;;;
    on_proc (destroy h).

Definition step (o : op) : M State unit :=
  match o with
  | Open fd => h ← on_proc (FileDescriptor_new fd); new_var h
  | Duplicate i => h ← var i; h' ← on_proc (duplicate h); new_var h'
  | MoveOut i => h ← var i; clear_var i ;;; new_var h
  | MoveAssign i j => move_assign i j
  | Destroy i => h ← var i; on_proc (destroy h) ;;; clear_var i
  | Close i => h ← var i; on_proc (close h)
  | Read i limit => h ← var i; _ ← on_proc (read h limit); mret tt
  | WriteAll i data => h ← var i; _ ← on_proc (write_string h data true); mret tt
  end.

(** The handle refers to an object for descriptor [fd]. *)
Definition live (h : FileDescriptor) (fd : Z) (p : Proc K) : Prop :=
  exists l w, h = Some l /\ deref l (wrappers p) = Some w /\ _fd w = fd.

(** The call uses a variable that does not exist, or dereferences one that
    was moved from or destroyed. *)
Definition uses_null (o : op) (hs : list FileDescriptor) : bool :=
  match o with
  | Open _ => false
  | Duplicate i | MoveOut i | Destroy i => bool_decide (hs !! i = None)
  | MoveAssign i j => bool_decide (hs !! i = None \/ hs !! j = None)
  | Close i | Read i _ | WriteAll i _ =>
      bool_decide (hs !! i = None \/ hs !! i = Some None)
  end.

(** A program that only uses variables that hold an object, and that catches
    what its calls throw and goes on. *)
Fixpoint run (ops : list op) : M State unit :=
  match ops with
  | [] => mret tt
  | o :: ops' =>
      s ← get;
      (if uses_null o (snd s) then mret tt
       else try_catch (step o) (fun _ => mret tt)) ;;;
      run ops'
  end.

Definition valid_op (o : op) : Prop :=
  match o with WriteAll _ data => zlen data < 2 ^ 63 | _ => True end.

(** The counts of the objects are right for the variables. *)
Definition owned_state (s : State) : Prop := owned (wrappers (fst s)) (snd s).

(** The counts of the shared objects are [c]. *)
Definition counts (c : gmap positive nat) (p : Proc K) : Prop := snd <$> wrappers p = c.

(** The state after a system call. *)
Definition after {A} (r : sysret A) (k : K) (p : Proc K) : Proc K :=
  mkProc (if ret r <? 0 then err r else errno p) k (wrappers p) (cerr p).

(** How a failing [write] can fail. *)
Definition write_error (e : exn) : Prop :=
  (exists n, 0 < n /\ e = unix_error (lit "writev") n) \/
  e = runtime_error (lit "write returned 0 given non-empty input buffer").

(** What a successful [read] makes of its object. *)
Definition read_effect (limit n : Z) (w : FDWrapper) : FDWrapper :=
  incr_read (if (limit >? 0) && (n =? 0) then set_eof true w else w).

End FileDescriptor.

(** One descriptor on the concrete system, for concrete runs. *)
Definition demo_proc (chunk : Z) : Proc Loopback.t :=
  mkProc 0 (Loopback.quiet chunk) {[ 1%positive := (mkWrapper 3 false false 0 0, 1%nat) ]} [].

(** ** One object *)

Section ObjectFacts.
Context {K : Type} `{Kernel K}.
Implicit Types p : Proc K.

Lemma obj_eq l w p : deref l (wrappers p) = Some w -> obj (Some l) p = (Ret (l, w), p).
Proof. intros E. unfold obj. msimpl. by rewrite E. Qed.

Lemma syscall_eq {A} (call : K -> sysret A * K) p r k :
  call (kernel p) = (r, k) -> syscall call p = (Ret r, after r k p).
Proof. intros E. unfold syscall. by rewrite E. Qed.

Lemma modify_obj_eq f l w p : deref l (wrappers p) = Some w ->
  modify_obj f (Some l) p = (Ret tt, set_wrappers (update_obj f l) p).
Proof. intros E. unfold modify_obj. by erewrite bind_Ret by by apply obj_eq. Qed.

Lemma fd_num_eq l w p : deref l (wrappers p) = Some w -> fd_num (Some l) p = (Ret (_fd w), p).
Proof. intros E. unfold fd_num. by erewrite bind_Ret by by apply obj_eq. Qed.

Lemma deref_update f l l' (st : gmap positive (FDWrapper * nat)) :
  deref l' (update_obj f l st) =
    if decide (l = l') then f <$> deref l' st else deref l' st.
Proof.
  unfold deref, update_obj. rewrite lookup_alter. case_decide; [|done]. subst.
  by destruct (st !! l') as [[]|].
Qed.

Lemma counts_live c l p : counts c p -> is_Some (c !! l) ->
  exists w, deref l (wrappers p) = Some w.
Proof.
  unfold counts, deref. intros <- [n Hn]. rewrite lookup_fmap in Hn.
  destruct (wrappers p !! l) as [[w m]|]; [by exists w | done].
Qed.

Lemma counts_update c f l p : counts c p -> counts c (set_wrappers (update_obj f l) p).
Proof.
  unfold counts. intros <-. simpl. apply map_eq. intros l'.
  rewrite !lookup_fmap. unfold update_obj. rewrite lookup_alter. case_decide; [|done].
  subst. by destruct (wrappers p !! l') as [[]|].
Qed.

Lemma safe_obj c l : is_Some (c !! l) -> safe (@counts K c) (obj (Some l)).
Proof.
  intros Hl p Hp. destruct (counts_live c l p Hp Hl) as [w E]. unfold exec, result.
  by rewrite (obj_eq l w p E).
Qed.

Lemma safe_modify_obj c f l : is_Some (c !! l) -> safe (@counts K c) (modify_obj f (Some l)).
Proof.
  intros Hl. apply safe_bind; [by apply safe_obj|]. intros a. apply safe_modify.
  intros p. apply counts_update.
Qed.

Lemma safe_syscall {A} c (call : K -> sysret A * K) : safe (@counts K c) (syscall call).
Proof. intros p Hp. unfold syscall. msimpl. by destruct (call (kernel p)). Qed.

Lemma safe_SystemCall {J} attempt v mask : safe J (@SystemCall K attempt v mask).
Proof. intros p Hp. unfold SystemCall. msimpl. by case_match. Qed.

Hint Resolve safe_obj safe_modify_obj safe_syscall safe_SystemCall : sponge.

Lemma safe_close c l : is_Some (c !! l) -> safe (@counts K c) (close (Some l)).
Proof. intros. unfold close. auto 10 with sponge. Qed.

Lemma safe_delete c l : is_Some (c !! l) -> safe (@counts K c) (FDWrapper_delete (Some l)).
Proof.
  intros Hl. apply safe_try; [|intros e; by apply safe_modify].
  apply safe_bind; [by apply safe_obj|]. intros [l' w].
  apply safe_if; [apply safe_ret | by apply safe_close].
Qed.

Lemma safe_read c l limit : is_Some (c !! l) -> safe (@counts K c) (read (Some l) limit).
Proof.
  intros Hl.
  assert (Hr : safe (fun s => counts c (fst s)) (read_into (Some l) limit)).
  { assert (Hz : forall A (m : M (Proc K) A), safe (counts c) m ->
      safe (fun s : Proc K * bytes => counts c (fst s))
        (zoom fst (fun p s => (p, snd s)) m)).
    { intros A m Hm. by apply (safe_zoom fst _ _ (@counts K c)). }
    unfold read_into. unfold fd_num, register_read.
    repeat first [ apply Hz | by apply safe_obj | by apply safe_modify_obj
      | apply safe_syscall | apply safe_SystemCall | apply safe_ret | apply safe_throw
      | apply safe_when | apply safe_if | apply safe_modify; by intros []
      | apply safe_bind; [|intros ?] ]. }
  intros p Hp. destruct (Hr (p, []) Hp) as [H1 H2]. unfold read, exec, result in *.
  destruct (read_into (Some l) limit (p, [])) as [o [p' str]]. split; [done|].
  by destruct o.
Qed.

(** The destructor catches what closing throws. *)
Lemma delete_never_throws l p : match result (FDWrapper_delete (Some l)) p with
  | Throw _ => False | _ => True end.
Proof.
  unfold result, FDWrapper_delete, try_catch.
  destruct ((lw ← obj (Some l); if _closed (snd lw) then mret tt else close (Some l)) p)
    as [[] p']; done.
Qed.

(** [SystemCall] returns the value it is given or throws. *)
Lemma safe_bind_SystemCall {B J} attempt v mask (f : Z -> M (Proc K) B) :
  safe J (f v) -> safe J (SystemCall attempt v mask ≫= f).
Proof.
  intros Hf p Hp. specialize (Hf p Hp). unfold SystemCall. msimpl.
  by destruct ((v >=? 0) || (errno p =? mask)).
Qed.

Lemma size_eq buffer : zlen (BufferViewList.contents buffer) < 2 ^ 63 ->
  BufferViewList.size buffer = zlen (BufferViewList.contents buffer) /\
  s64 (BufferViewList.size buffer) = zlen (BufferViewList.contents buffer).
Proof.
  intros. zlens. rewrite BufferViewList_size_eq, !wrapu_small by lia.
  split; [done | apply s64_small; lia].
Qed.

(** What the end of a round does to the views, for a count that passed the
    two tests. *)
Lemma round_remove_prefix buffer n :
  zlen (BufferViewList.contents buffer) < 2 ^ 63 ->
  0 <= n <= zlen (BufferViewList.contents buffer) ->
  exists buffer', BufferViewList.remove_prefix (u64 n) buffer = (Ret tt, buffer') /\
    BufferViewList.contents buffer' = zdrop n (BufferViewList.contents buffer).
Proof.
  intros Hlen Hn. rewrite wrapu_small by lia.
  pose proof (view_remove_prefix_spec buffer n ltac:(unfold SIZE_MAX; lia)) as Hv.
  by rewrite bool_decide_eq_true_2 in Hv by lia.
Qed.

(** Any condition on the process that keeps the descriptor's object alive and
    that a [writev] on it and counting a write preserve is an invariant of
    [write], which returns or throws. *)
Section WriteInvariant.
Variables (J : Proc K -> Prop) (l : positive) (fd : Z).
Hypothesis J_obj : forall p, J p -> exists w, deref l (wrappers p) = Some w /\ _fd w = fd.
Hypothesis J_writev : forall p vs r k, J p -> sys_writev fd vs (kernel p) = (r, k) ->
  J (after r k p).
Hypothesis J_count : forall p, J p -> J (set_wrappers (update_obj incr_write l) p).

Lemma safe_writev {B} vs (f : sysret unit -> M (Proc K) B) : (forall r, safe J (f r)) ->
  safe J (fd ← fd_num (Some l); r ← syscall (sys_writev fd vs); f r).
Proof.
  intros Hf p Hp. destruct (J_obj p Hp) as (w & Hw & Hfd). unfold exec, result.
  rewrite (bind_Ret _ _ p p _ (fd_num_eq l w p Hw)), Hfd.
  destruct (sys_writev fd vs (kernel p)) as [r k] eqn:E.
  rewrite (bind_Ret _ _ p _ _ (syscall_eq _ p r k E)). apply Hf. by eapply J_writev.
Qed.

Lemma safe_register_write : safe J (register_write (Some l)).
Proof.
  intros p Hp. destruct (J_obj p Hp) as (w & Hw & _). unfold exec, result, register_write.
  rewrite (modify_obj_eq _ l w p Hw). split; [by apply J_count | done].
Qed.

Lemma safe_write_loop write_all fuel : forall buffer total,
  zlen (BufferViewList.contents buffer) < Z.of_nat fuel ->
  zlen (BufferViewList.contents buffer) < 2 ^ 63 ->
  safe J (write_loop fuel (Some l) buffer write_all total).
Proof.
  induction fuel as [|fuel IH]; intros buffer total Hf Hlen; zlens; [lia|].
  cbn [write_loop]. apply safe_writev. intros r.
  apply safe_bind_SystemCall. pose proof (s32_range (ret r)) as Hr.
  set (n := s32 (ret r)) in *. destruct (size_eq buffer Hlen) as [Hs1 Hs2].
  rewrite Hs2, Hs1.
  destruct ((n =? 0) && negb (zlen (BufferViewList.contents buffer) =? 0)) eqn:Hzero;
    [apply safe_throw|].
  destruct (Z.gtb_spec n (zlen (BufferViewList.contents buffer))); [apply safe_throw|].
  apply safe_bind; [apply safe_register_write | intros _].
  destruct (decide (0 <= n)) as [Hpos|Hneg].
  - destruct (round_remove_prefix buffer n Hlen ltac:(lia)) as (buffer' & E & Hc').
    rewrite E. apply safe_bind; [by apply safe_lift | intros _].
    destruct (size_eq buffer') as [Hs1' _]; [rewrite Hc', zlen_zdrop; lia|].
    rewrite Hs1', Hc', zlen_zdrop by lia. unfold nonzero.
    destruct write_all; [|apply safe_ret].
    destruct (Z.eqb_spec (Z.max 0 (zlen (BufferViewList.contents buffer) - n)) 0) as [|Hne];
      [apply safe_ret|].
    rewrite andb_false_iff, negb_false_iff, Z.eqb_eq, Z.eqb_neq in Hzero.
    apply IH; rewrite Hc', zlen_zdrop; lia.
  - pose proof (view_remove_prefix_spec buffer (u64 n)
      ltac:(pose proof (wrapu_range 64 n); unfold SIZE_MAX; lia)) as E.
    assert (u64 n = 2 ^ 64 + n) as Hu.
    { unfold wrapu. rewrite <- (Z_mod_plus_full _ 1), Z.mod_small; lia. }
    rewrite bool_decide_eq_false_2 in E by lia. rewrite E.
    by intros p Hp.
Qed.

End WriteInvariant.

Lemma safe_write c l buffer write_all : is_Some (c !! l) ->
  zlen (BufferViewList.contents buffer) < 2 ^ 63 ->
  safe (@counts K c) (write (Some l) buffer write_all).
Proof.
  intros Hl Hlen p Hp. destruct (counts_live c l p Hp Hl) as [w Hw].
  assert (Hs : safe (fun q => counts c q /\ _fd <$> deref l (wrappers q) = Some (_fd w))
    (write (Some l) buffer write_all)).
  { apply (safe_write_loop _ l (_fd w)); [| | |zlia|done].
    - intros q [_ Hq]. destruct (deref l (wrappers q)) as [w'|]; [|done].
      exists w'. split; [done|]. by injection Hq.
    - done.
    - intros q [Hq Hfd]. split; [by apply counts_update|]. simpl.
      rewrite deref_update, decide_True by done. by destruct (deref l (wrappers q)). }
  destruct (Hs p) as [[H1 _] H2]; [by rewrite Hw | done].
Qed.

End ObjectFacts.

(** ** Destroying a handle *)

(** What happens when a handle to object [l] goes away. *)
Lemma destroy_eq {K : Type} `{Kernel K} l w n (p : Proc K) :
  wrappers p !! l = Some (w, S n) ->
  exists p', destroy (Some l) p = (Ret tt, p') /\
    match n with
    | S _ => p' = set_wrappers (set_count pred l) p
    | O =>
        wrappers p' !! l = None /\
        (forall l', l' <> l -> wrappers p' !! l' = wrappers p !! l') /\
        kernel p' = (if _closed w then kernel p else snd (sys_close (_fd w) (kernel p)))
    end.
Proof.
  intros E. assert (Hd : deref l (wrappers p) = Some w) by (unfold deref; by rewrite E).
  unfold destroy, use_count. unfold get at 1. unfold mbind at 1, M_bind at 1. rewrite E.
  destruct n as [|n]; [|by eexists].
  unfold FDWrapper_delete. unfold try_catch, mbind at 1, M_bind at 1.
  erewrite bind_Ret by (by apply obj_eq). cbn [snd].
  destruct (_closed w); [eexists; split; [done|]; simpl; split_and!; try done;
    [by apply lookup_delete_eq | intros; by apply lookup_delete_ne]|].
  unfold close. erewrite bind_Ret by (by apply obj_eq). cbn [fst snd].
  unfold syscall. unfold mbind at 1, M_bind at 1.
  destruct (sys_close (_fd w) (kernel p)) as [r k]. set (p1 := mkProc _ _ _ _).
  unfold SystemCall. unfold get, mbind, M_bind.
  destruct ((ret r >=? 0) || (errno p1 =? 0)).
  - unfold mret, M_ret. rewrite (modify_obj_eq _ l w) by done.
    eexists. split; [done|]. simpl. split_and!; [apply lookup_delete_eq| |done].
    intros l' Hne. rewrite lookup_delete_ne by done. unfold update_obj.
    by rewrite lookup_alter_ne.
  - eexists. split; [done|]. simpl. split_and!; [apply lookup_delete_eq| |done].
    intros l' Hne. by rewrite lookup_delete_ne.
Qed.

(** Destroying one of the handles leaves the others right, and the objects
    they refer to as they were. *)
Lemma destroy_owned {K : Type} `{Kernel K} l (p : Proc K) hs :
  owned (wrappers p) (Some l :: hs) ->
  exists p', destroy (Some l) p = (Ret tt, p') /\ owned (wrappers p') hs /\
    forall l', Some l' ∈ hs -> deref l' (wrappers p') = deref l' (wrappers p).
Proof.
  intros Ho. destruct (owned_live _ _ 0 l Ho eq_refl) as (w & n & E & Hn & Hpos).
  rewrite refs_cons, decide_True in Hn by done.
  destruct n as [|n]; [lia|]. destruct (destroy_eq l w n p E) as (p' & Hd & Hp').
  exists p'. split; [done|]. destruct n as [|n].
  - destruct Hp' as (Hdel & Hsame & _). split.
    + intros l'. specialize (Ho l'). rewrite refs_cons in Ho.
      destruct (decide (l' = l)) as [->|Hne]; [rewrite Hdel; lia|].
      rewrite Hsame by done. rewrite decide_False in Ho by congruence.
      by destruct (wrappers p !! l') as [[]|].
    + intros l' Hin. unfold deref. rewrite Hsame; [done|]. intros ->.
      apply list_elem_of_lookup in Hin as [i Hi].
      pose proof (refs_insert l hs i (Some l) None Hi) as Hr.
      rewrite decide_True, decide_False in Hr by done. lia.
  - subst p'. simpl. split.
    + intros l'. pose proof (owned_decr l _ _ 0 w n Ho eq_refl E l') as Hl. simpl in Hl.
      by rewrite refs_cons, decide_False in Hl by done.
    + intros l' _. unfold deref, set_count. rewrite lookup_alter.
      case_decide; [subst; by rewrite E | done].
Qed.

(** ** A program's handles *)

Section HandleFacts.
Context {K : Type} `{Kernel K}.
Implicit Types (p : Proc K) (hs : list (option positive)).

Lemma owned_counts hs (st st' : gmap positive (FDWrapper * nat)) :
  snd <$> st' = snd <$> st -> owned st hs -> owned st' hs.
Proof.
  intros E Ho l. specialize (Ho l). apply (f_equal (fun m => m !! l)) in E.
  rewrite !lookup_fmap in E.
  destruct (st !! l) as [[]|], (st' !! l) as [[]|]; simplify_eq/=; done.
Qed.

Lemma owned_snoc_None (st : gmap positive (FDWrapper * nat)) hs :
  owned st hs -> owned st (hs ++ [None]).
Proof.
  intros Ho l. specialize (Ho l). rewrite refs_snoc, decide_False by done.
  by rewrite Nat.add_0_r.
Qed.

Lemma owned_move (st : gmap positive (FDWrapper * nat)) hs i (h : option positive) :
  owned st hs -> hs !! i = Some h -> owned st (<[i:=None]> hs ++ [h]).
Proof.
  intros Ho Hi l. specialize (Ho l). pose proof (refs_insert l hs i h None Hi) as Hr.
  rewrite refs_snoc. destruct (st !! l) as [[]|]; repeat case_decide; try done; lia.
Qed.

(** A handle taken out of its variable. *)
Lemma owned_take (st : gmap positive (FDWrapper * nat)) hs i (h : option positive) :
  owned st hs -> hs !! i = Some h -> owned st (h :: <[i:=None]> hs).
Proof.
  intros Ho Hi. unfold FileDescriptor. rewrite Permutation_cons_append. by apply owned_move.
Qed.

(** [x = std::move(y)], for two variables: what [x] held is left to destroy. *)
Lemma owned_assign (st : gmap positive (FDWrapper * nat)) hs i j (h h' : option positive) :
  owned st hs -> hs !! i = Some h -> hs !! j = Some h' -> i <> j ->
  owned st (h :: <[i:=h']> (<[j:=None]> hs)).
Proof.
  intros Ho Hi Hj Hne l. specialize (Ho l).
  pose proof (refs_insert l hs j h' None Hj) as Hrj.
  pose proof (refs_insert l (<[j:=None]> hs) i h h'
    ltac:(by rewrite list_lookup_insert_ne)) as Hri.
  rewrite refs_cons. rewrite (decide_False (P := None = Some l)) in Hrj by done.
  destruct (st !! l) as [[]|]; lia.
Qed.

Lemma destroy_handle h p hs : owned (wrappers p) (h :: hs) ->
  exists p', destroy h p = (Ret tt, p') /\ owned (wrappers p') hs.
Proof.
  intros Ho. destruct h as [l|].
  - destruct (destroy_owned l p hs Ho) as (p' & ? & ? & _). by exists p'.
  - exists p. split; [done|]. intros l. specialize (Ho l). by rewrite refs_cons in Ho.
Qed.

Lemma owned_live_counts p hs i l : owned (wrappers p) hs -> hs !! i = Some (Some l) ->
  is_Some ((snd <$> wrappers p) !! l).
Proof.
  intros Ho Hi. destruct (owned_live _ hs i l Ho Hi) as (a & n & E & _).
  by rewrite lookup_fmap, E.
Qed.

(** A call on the process that keeps the counts keeps the ownership. *)
Lemma on_proc_owned {A} (m : M (Proc K) A) p hs :
  safe (counts (snd <$> wrappers p)) m -> owned (wrappers p) hs ->
  let '(r, s') := on_proc m (p, hs) in
  owned_state s' /\ returns r /\ snd s' = hs /\ counts (snd <$> wrappers p) (fst s').
Proof.
  intros Hm Ho. destruct (Hm p) as [H1 H2]; [done|]. unfold on_proc. msimpl.
  destruct (m p) as [o p']. split_and!; try done. by eapply owned_counts.
Qed.

Lemma var_eq i h p hs : hs !! i = Some h -> var i (p, hs) = (Ret h, (p, hs)).
Proof. intros E. unfold var. msimpl. unfold FileDescriptor in *. by rewrite E. Qed.

Lemma step_owned o p hs : valid_op o -> uses_null o hs = false -> owned (wrappers p) hs ->
  let '(r, s') := step o (p, hs) in owned_state s' /\ returns r.
Proof.
  intros Hv Hu Ho. destruct o as [fd|i|i|i j|i|i|i limit|i data]; simpl in Hu |- *;
    try (apply bool_decide_eq_false in Hu);
    try (destruct (hs !! i) as [h|] eqn:Hi; [|tauto]; erewrite bind_Ret by (by apply var_eq)).
  - unfold FileDescriptor_new, FDWrapper_new. destruct (fd <? 0); [done|].
    split; [|done]. apply owned_alloc; [done|]. apply not_elem_of_dom, is_fresh.
  - destruct h as [l|]; [|split; [by apply owned_snoc_None | done]].
    destruct (owned_live _ hs i l Ho Hi) as (w & n & E & _).
    unfold duplicate, on_proc, new_var, obj, deref. msimpl. rewrite E. simpl.
    split; [by eapply owned_incr | done].
  - split; [by apply owned_move | done].
  - destruct (hs !! i) as [h|] eqn:Hi; [|tauto]. destruct (hs !! j) as [h'|] eqn:Hj; [|tauto].
    unfold move_assign. rewrite (bind_Ret _ _ _ _ _ (var_eq i h p hs Hi)).
    rewrite (bind_Ret _ _ _ _ _ (var_eq j h' p hs Hj)).
    destruct (Nat.eqb_spec i j) as [|Hne]; [done|].
    destruct (destroy_handle h p _ (owned_assign _ hs i j h h' Ho Hi Hj Hne)) as (p' & E & Ho').
    unfold clear_var, on_proc, zoom. msimpl. rewrite E. done.
  - destruct (destroy_handle h p _ (owned_take _ hs i h Ho Hi)) as (p' & E & Ho').
    unfold clear_var, on_proc, zoom. msimpl. rewrite E. done.
  - destruct h as [l|]; [|tauto].
    pose proof (on_proc_owned (close (Some l)) p hs
      (safe_close _ l (owned_live_counts p hs i l Ho Hi)) Ho) as Hs.
    destruct (on_proc _ _) as [r s']. tauto.
  - destruct h as [l|]; [|tauto].
    pose proof (on_proc_owned (read (Some l) limit) p hs
      (safe_read _ l limit (owned_live_counts p hs i l Ho Hi)) Ho) as Hs.
    msimpl. destruct (on_proc _ _) as [[] s']; simpl; tauto.
  - destruct h as [l|]; [|tauto].
    pose proof (on_proc_owned (write_string (Some l) data true) p hs) as Hs.
    specialize (Hs ltac:(apply safe_write; [by eapply owned_live_counts|
      unfold BufferViewList.contents; simpl; by rewrite app_nil_r]) Ho).
    msimpl. destruct (on_proc _ _) as [[] s']; simpl; tauto.
Qed.

Lemma run_owned ops : forall p hs, Forall valid_op ops -> owned (wrappers p) hs ->
  exists s', run ops (p, hs) = (Ret tt, s') /\ owned_state s'.
Proof.
  induction ops as [|o ops IH]; intros p hs Hv Ho; [by exists (p, hs)|].
  apply Forall_cons in Hv as [Hvo Hv]. cbn [run]. unfold get at 1. unfold mbind at 1, M_bind at 1.
  cbn [snd]. destruct (uses_null o hs) eqn:Hu; [by apply IH|].
  pose proof (step_owned o p hs Hvo Hu Ho) as Hs.
  destruct (step o (p, hs)) as [r [p1 hs1]] eqn:E. destruct Hs as [Ho1 Hr].
  destruct (IH p1 hs1 Hv Ho1) as (s' & E' & Hs'). exists s'. split; [|done].
  unfold mbind, M_bind, try_catch. rewrite E. by destruct r as [[]|e| |].
Qed.

End HandleFacts.

(** ** One call, by what the system replies *)

Section OneCall.
Context {K : Type} `{Kernel K}.
Implicit Types p : Proc K.

(** A failed call throws, with the [errno] the system set. *)
Lemma SystemCall_failed {A} attempt (r : sysret A) k p : ret r = -1 -> 0 < err r ->
  SystemCall attempt (ret r) 0 (after r k p) =
    (Throw (unix_error attempt (err r)), after r k p).
Proof.
  intros Hr He. rewrite Hr, SystemCall_err; [|lia|].
  - unfold after. by rewrite Hr.
  - unfold after. rewrite Hr. simpl. lia.
Qed.

Lemma update_obj_compose f g l (st : gmap positive (FDWrapper * nat)) :
  update_obj f l (update_obj g l st) = update_obj (fun w => f (g w)) l st.
Proof.
  apply map_eq. intros l'. unfold update_obj.
  destruct (decide (l = l')) as [<-|Hne].
  - rewrite !lookup_alter_eq. by destruct (st !! l) as [[]|].
  - by rewrite !lookup_alter_ne.
Qed.

Lemma read_at l w limit p r k : deref l (wrappers p) = Some w -> 0 <= limit ->
  sys_read (_fd w) (Z.min BUFFER_SIZE limit) (kernel p) = (r, k) ->
  read_result (Z.min BUFFER_SIZE limit) r ->
  read (Some l) limit p =
    if ret r <? 0 then (Throw (unix_error (lit "read") (err r)), after r k p)
    else (Ret (out r),
          set_wrappers (update_obj (read_effect limit (ret r)) l) (after r k p)).
Proof.
  intros Hl Hlim Hsys Hlaw.
  unfold read, read_into. set (size := Z.min BUFFER_SIZE limit) in *.
  assert (Hsize : 0 <= size <= 2 ^ 20) by (subst size; unfold BUFFER_SIZE; lia).
  unfold zoom, modify. unfold mbind, M_bind. cbn [fst snd].
  rewrite (fd_num_eq l w p Hl). cbn [fst snd].
  rewrite (syscall_eq _ p r k Hsys). cbn [fst snd].
  destruct Hlaw as [[Hr He]|[Hr Hout]].
  { rewrite Hr. change (s32 (-1)) with (-1). rewrite <- Hr.
    rewrite (SystemCall_failed _ r k p Hr He), Hr. done. }
  rewrite s32_small, SystemCall_ok by lia. cbn [fst snd].
  rewrite s64_small by lia.
  replace (ret r <? 0) with false by (symmetry; apply Z.ltb_ge; lia).
  replace (ret r >? size) with false by (symmetry; rewrite Z.gtb_ltb; apply Z.ltb_ge; lia).
  unfold read_effect, when.
  destruct ((limit >? 0) && (ret r =? 0)).
  - rewrite (modify_obj_eq _ l w) by done. cbn [fst snd].
    unfold register_read. rewrite (modify_obj_eq _ l (set_eof true w)).
    + cbn [fst snd]. rewrite <- Hout, fill_own; [|rewrite zlen_str_resize; lia].
      unfold set_wrappers. simpl. by rewrite update_obj_compose.
    + simpl. rewrite deref_update, decide_True by done. unfold after. simpl. by rewrite Hl.
  - cbn [mret M_ret fst snd]. unfold register_read. rewrite (modify_obj_eq _ l w) by done.
    cbn [fst snd]. rewrite <- Hout, fill_own; [done|rewrite zlen_str_resize; lia].
Qed.

(** A string the system takes whole is written with one call. *)
Lemma write_whole l w buffer write_all p r k : deref l (wrappers p) = Some w ->
  sys_writev (_fd w) (BufferViewList.as_iovecs buffer) (kernel p) = (r, k) ->
  ret r = zlen (BufferViewList.contents buffer) -> 0 < ret r <= INT_MAX ->
  write (Some l) buffer write_all p =
    (Ret (ret r), set_wrappers (update_obj incr_write l) (after r k p)).
Proof.
  unfold INT_MAX. intros Hl Hsys Hr Hpos. unfold write. cbn [write_loop].
  erewrite bind_Ret by (by apply fd_num_eq). erewrite bind_Ret by (by apply syscall_eq).
  rewrite s32_small by lia. erewrite bind_Ret by (apply SystemCall_ok; lia).
  destruct (size_eq buffer ltac:(lia)) as [Hs1 Hs2]. rewrite Hs2, Hs1, <- Hr.
  rewrite (proj2 (Z.eqb_neq (ret r) 0)), Z.gtb_ltb, Z.ltb_irrefl by lia. cbn [andb].
  rewrite (bind_Ret _ _ _ _ _ (modify_obj_eq incr_write l w (after r k p) Hl)).
  destruct (round_remove_prefix buffer (ret r) ltac:(lia) ltac:(lia)) as (buffer' & E & Hc').
  rewrite E. erewrite bind_Ret by done.
  destruct (size_eq buffer') as [-> _]; [rewrite Hc', zlen_zdrop; lia|].
  rewrite Hc', zlen_zdrop, <- Hr, Z.sub_diag by lia. rewrite andb_false_r.
  by rewrite Z.add_0_l, wrapu_small by lia.
Qed.

End OneCall.

(** ** Calls on a system that keeps its promises *)

Section LawfulFacts.
Context {K : Type} `{KernelLaws K}.
Implicit Types p : Proc K.

Lemma write_loop_sink l fd write_all fuel : forall buffer total p w,
  let data := BufferViewList.contents buffer in
  deref l (wrappers p) = Some w -> _fd w = fd ->
  zlen data < Z.of_nat fuel -> zlen data < 2 ^ 63 -> 0 <= total ->
  total + zlen data <= SIZE_MAX ->
  exists m, 0 <= m <= zlen data /\
    let '(r, p') := write_loop fuel (Some l) buffer write_all total p in
    sink fd (kernel p') = sink fd (kernel p) ++ ztake m data /\
    match r with
    | Ret t => t = total + m /\ (write_all = true -> m = zlen data)
    | Throw e => write_error e
    | _ => False
    end.
Proof.
  induction fuel as [|fuel IH]; intros buffer total p w data Hl Hfd Hf Hlen Ht Htot; [zlia|].
  zlens. cbn [write_loop]. erewrite bind_Ret by (by apply fd_num_eq). rewrite Hfd.
  pose proof (writev_law fd (BufferViewList.as_iovecs buffer) (kernel p)) as Hlaw.
  destruct (sys_writev fd (BufferViewList.as_iovecs buffer) (kernel p)) as [r k] eqn:Hsys.
  erewrite bind_Ret by (by apply syscall_eq). rewrite iovecs_contents_eq in Hlaw.
  fold data in Hlaw. destruct Hlaw as [(Hr & He & Hsink)|(Hr & Hmax & Hsink)].
  { exists 0. split; [lia|]. rewrite (s32_small (ret r)) by lia.
    erewrite bind_Throw by (by apply SystemCall_failed). simpl. rewrite Hsink.
    split; [by rewrite app_nil_r | left; eauto]. }
  unfold INT_MAX in Hmax. rewrite (s32_small (ret r)) by lia.
  erewrite bind_Ret by (apply SystemCall_ok; lia).
  destruct (size_eq buffer Hlen) as [Hs1 Hs2]. rewrite Hs2, Hs1. fold data.
  destruct ((ret r =? 0) && negb (zlen data =? 0)) eqn:Hzero.
  { apply andb_true_iff in Hzero as [Hz _]. apply Z.eqb_eq in Hz. exists 0.
    split; [lia|]. simpl. rewrite Hsink, Hz. split; [done | by right]. }
  destruct (Z.gtb_spec (ret r) (zlen data)); [lia|].
  erewrite bind_Ret by (by eapply modify_obj_eq).
  destruct (round_remove_prefix buffer (ret r) Hlen ltac:(done)) as (buffer' & E & Hc').
  fold data in Hc'. rewrite E. erewrite bind_Ret by done.
  destruct (size_eq buffer') as [Hs1' _]; [rewrite Hc', zlen_zdrop; lia|].
  rewrite Hs1', Hc', zlen_zdrop by lia. rewrite (wrapu_small 64 (total + _)) by (unfold SIZE_MAX in *; lia).
  set (p1 := set_wrappers _ _). assert (Hk : kernel p1 = k) by done.
  destruct (write_all && nonzero (Z.max 0 (zlen data - ret r))) eqn:Hgo; unfold nonzero in Hgo.
  - apply andb_true_iff in Hgo as [-> Hgo]. rewrite negb_true_iff, Z.eqb_neq in Hgo.
    rewrite andb_false_iff, negb_false_iff, Z.eqb_eq, Z.eqb_neq in Hzero.
    assert (Hl1 : deref l (wrappers p1) = Some (incr_write w)).
    { subst p1. simpl. rewrite deref_update, decide_True by done. unfold after. simpl.
      by rewrite Hl. }
    destruct (IH buffer' (total + ret r) p1 (incr_write w) Hl1 Hfd) as (m & Hm & Hrun);
      [try (rewrite Hc', zlen_zdrop); lia..|].
    rewrite Hc', zlen_zdrop in Hm by lia. exists (ret r + m). split; [lia|].
    destruct (write_loop _ _ _ _ _ _) as [r' p']. destruct Hrun as [Hs' Hr'].
    rewrite Hc', zlen_zdrop in * by lia. split.
    + rewrite Hs', Hk, Hsink, <- app_assoc, ?Hc', <- ztake_add by lia. done.
    + destruct r'; try done. destruct Hr' as [-> Hr']. split; [lia|]. intros _.
      rewrite Hr' by done. lia.
  - exists (ret r). split; [lia|]. msimpl. rewrite Hsink. split; [done|]. split; [done|].
    intros ->. simpl in Hgo. rewrite negb_false_iff, Z.eqb_eq in Hgo. lia.
Qed.

Lemma read_outcome l w limit p : deref l (wrappers p) = Some w -> 0 <= limit ->
  let '(r, k) := sys_read (_fd w) (Z.min BUFFER_SIZE limit) (kernel p) in
  read (Some l) limit p =
    if ret r <? 0 then (Throw (unix_error (lit "read") (err r)), after r k p)
    else (Ret (out r),
          set_wrappers (update_obj (read_effect limit (ret r)) l) (after r k p)).
Proof.
  intros Hl Hlim. pose proof (read_law (_fd w) (Z.min BUFFER_SIZE limit) (kernel p)
    ltac:(unfold BUFFER_SIZE; lia)) as Hlaw.
  destruct (sys_read _ _ _) as [r k] eqn:Hsys. by apply (read_at l w).
Qed.

End LawfulFacts.

(** ** Properties *)

(** C4. [write] hands the kernel exactly a prefix of the string it is given:
    on a system whose [writev] writes a prefix of its iovecs, a call on a
    live descriptor returns or throws (enough rounds are allowed for every
    sequence of short writes), what it has appended to the descriptor is a
    prefix of the string, a returned total is the length of that prefix, and
    with [write_all] a return means all of it was written. *)
Theorem write_appends_prefix {K : Type} `{KernelLaws K} l w (p : Proc K) buffer write_all :
  let data := BufferViewList.contents buffer in
  deref l (wrappers p) = Some w -> zlen data < 2 ^ 63 ->
  exists m, 0 <= m <= zlen data /\
    let '(r, p') := write (Some l) buffer write_all p in
    sink (_fd w) (kernel p') = sink (_fd w) (kernel p) ++ ztake m data /\
    match r with
    | Ret total => total = m /\ (write_all = true -> m = zlen data)
    | Throw e => write_error e
    | _ => False
    end.
Proof.
  intros data Hl Hlen. subst data. zlens. unfold write.
  destruct (write_loop_sink l (_fd w) write_all
    (S (Z.to_nat (zlen (BufferViewList.contents buffer)))) buffer 0 p w Hl eq_refl)
    as (m & Hm & Hrun); [lia | done | done | unfold SIZE_MAX; lia |].
  exists m. split; [done|]. by destruct (write_loop _ _ _ _ _ _).
Qed.

Lemma write_appends_prefix_witness :
  exists m, 0 <= m <= 5 /\
    let '(r, p') := write (Some 1%positive) [lit "abc"; lit "de"] true (demo_proc 2) in
    sink 3 (kernel p') = ztake m (lit "abcde") /\
    match r with
    | Ret total => total = m /\ (true = true -> m = 5)
    | Throw e => write_error e
    | _ => False
    end.
Proof.
  exact (write_appends_prefix 1%positive (mkWrapper 3 false false 0 0) (demo_proc 2)
    [lit "abc"; lit "de"] true eq_refl ltac:(by vm_compute)).
Defined.

(** C3. Termination and memory safety of every program over descriptors: on
    any system whatever (it may return any value from any call), a program
    that creates, duplicates, moves, closes, destroys, reads and writes its
    [FileDescriptor] variables in any order, and uses only those that hold an
    object, runs to its end; nothing dangles, and the objects alive are
    exactly those some variable refers to, each counted as often as it is
    referred to. *)
Theorem handles_never_dangle {K : Type} `{Kernel K} ops (p : Proc K) (hs : list (option positive)) :
  Forall valid_op ops -> owned (wrappers p) hs ->
  exists p' hs', run ops (p, hs) = (Ret tt, (p', hs')) /\ owned (wrappers p') hs'.
Proof.
  intros Hv Ho. destruct (run_owned ops p hs Hv Ho) as ([p' hs'] & E & Ho').
  by exists p', hs'.
Qed.

Lemma handles_never_dangle_witness :
  exists p' hs', run [Open 3; Open 4; MoveAssign 0 1; Duplicate 0; MoveOut 0; Destroy 0;
      WriteAll 2 (lit "hi"); Destroy 2; Close 3; Destroy 3; Open (-1)]
      (mkProc 0 (Loopback.quiet 1) ∅ [], []) = (Ret tt, (p', hs')) /\ owned (wrappers p') hs'.
Proof.
  refine (handles_never_dangle _ (mkProc 0 (Loopback.quiet 1) ∅ []) [] _ _).
  - repeat (apply Forall_cons_2; [by vm_compute|]). apply Forall_nil_2.
  - intros l. simpl. rewrite lookup_empty. reflexivity.
Defined.

(** Destruction: it never throws; only the last handle to an object
    destroys it, then closes the descriptor with one system call exactly if
    it was not closed before, whether or not that call succeeds, and touches
    no other object. *)
Theorem last_handle_closes {K : Type} `{Kernel K} l w n (p : Proc K) :
  wrappers p !! l = Some (w, S n) ->
  exists p', destroy (Some l) p = (Ret tt, p') /\
    match n with
    | S _ => p' = set_wrappers (set_count pred l) p
    | O =>
        wrappers p' !! l = None /\
        (forall l', l' <> l -> wrappers p' !! l' = wrappers p !! l') /\
        kernel p' = (if _closed w then kernel p else snd (sys_close (_fd w) (kernel p)))
    end.
Proof. apply destroy_eq. Qed.

Lemma last_handle_closes_witness :
  exists p', destroy (Some 1%positive) (demo_proc 2) = (Ret tt, p') /\
    wrappers p' !! 1%positive = None /\
    (forall l', l' <> 1%positive -> wrappers p' !! l' = wrappers (demo_proc 2) !! l') /\
    kernel p' = snd (sys_close 3 (Loopback.quiet 2)).
Proof.
  exact (last_handle_closes 1%positive (mkWrapper 3 false false 0 0) 0 (demo_proc 2) eq_refl).
Defined.

(** C34. [read] on every branch: it asks for at most 1 MiB; on failure it
    throws what the system reported and counts nothing; otherwise it returns
    the bytes the system delivered, counts one read, and marks the shared
    object at end of file exactly when bytes were asked for and none came. *)
Theorem read_behaviour {K : Type} `{KernelLaws K} l w limit (p : Proc K) :
  deref l (wrappers p) = Some w -> 0 <= limit ->
  let '(r, k) := sys_read (_fd w) (Z.min BUFFER_SIZE limit) (kernel p) in
  read (Some l) limit p =
    if ret r <? 0 then (Throw (unix_error (lit "read") (err r)), after r k p)
    else (Ret (out r),
          set_wrappers (update_obj (read_effect limit (ret r)) l) (after r k p)).
Proof. apply read_outcome. Qed.

(** Nothing to read: end of file. *)
Lemma read_behaviour_witness :
  exists p', read (Some 1%positive) 9 (demo_proc 2) = (Ret [], p') /\
    deref 1%positive (wrappers p') = Some (mkWrapper 3 true false 1 0).
Proof.
  eexists. split.
  - exact (read_behaviour 1%positive (mkWrapper 3 false false 0 0) 9 (demo_proc 2) eq_refl
      ltac:(lia)).
  - reflexivity.
Defined.

(** [set_blocking] on a live descriptor: it writes back the flags the
    system reported with the non-blocking bit cleared or set as asked, and
    every other bit unchanged. *)
Theorem set_blocking_flags {K : Type} `{Kernel K} l w b (p : Proc K) :
  deref l (wrappers p) = Some w ->
  let '(r, k) := sys_getfl (_fd w) (kernel p) in
  0 <= ret r ->
  exists flags, kernel (exec (set_blocking (Some l) b) p) = snd (sys_setfl (_fd w) flags k) /\
    forall i, 0 <= i -> Z.testbit flags i =
      if i =? 11 then negb b else Z.testbit (ret r) i.
Proof.
  intros Hl. destruct (sys_getfl (_fd w) (kernel p)) as [r k] eqn:Hg. intros Hr.
  exists (if b then Z.lxor (ret r) (Z.land (ret r) O_NONBLOCK) else Z.lor (ret r) O_NONBLOCK).
  unfold set_blocking, exec. erewrite bind_Ret by (by apply fd_num_eq).
  erewrite bind_Ret by (by apply syscall_eq). erewrite bind_Ret by (by apply SystemCall_ok).
  erewrite bind_Ret by (by apply fd_num_eq). split.
  - set (flags := if b then _ else _).
    destruct (sys_setfl (_fd w) flags (kernel (after r k p))) as [r' k'] eqn:Hs.
    erewrite bind_Ret by (by apply syscall_eq). simpl in Hs. rewrite Hs. simpl.
    unfold SystemCall. unfold get, mbind, M_bind. by destruct (_ || _).
  - intros i Hi. change O_NONBLOCK with (2 ^ 11).
    destruct b; rewrite ?Z.lxor_spec, ?Z.lor_spec, ?Z.land_spec, Z.pow2_bits_eqb by lia;
      rewrite Z.eqb_sym; destruct (i =? 11); destruct (Z.testbit (ret r) i); done.
Qed.

Lemma set_blocking_flags_witness :
  exists flags, kernel (exec (set_blocking (Some 1%positive) false) (demo_proc 2)) =
      snd (sys_setfl 3 flags (Loopback.quiet 2)) /\
    forall i, 0 <= i -> Z.testbit flags i = if i =? 11 then true else Z.testbit 0 i.
Proof.
  exact (set_blocking_flags 1%positive (mkWrapper 3 false false 0 0) false (demo_proc 2)
    eq_refl ltac:(simpl; lia)).
Defined.
