(* ===== verification/EventLoop.v ===== *)
(** The event loop of [libsponge/util/eventloop.{hh,cc}]: rules over shared
    file descriptors, and [wait_next_event], which polls them and runs their
    callbacks. *)

From S2P Require Import Prelude Buffer Process FileDescriptor.

Local Open Scope Z_scope.

(** Values of [poll(2)] and [errno(3)] in the Linux ABI. *)
Definition POLLIN : Z := 1.
Definition POLLOUT : Z := 4.
Definition POLLERR : Z := 8.
Definition POLLHUP : Z := 16.
Definition POLLNVAL : Z := 32.
Definition EINTR : Z := 4.

(** [enum class Direction : short] *)
Inductive Direction : Type := In | Out.

#[export] Instance Direction_eq_dec : EqDecision Direction.
Proof. solve_decision. Defined.

(** [static_cast<short>(direction)] *)
Definition direction_events (d : Direction) : Z :=
  match d with In => POLLIN | Out => POLLOUT end.

(** [enum class Result] *)
Inductive Result : Type := Success | Timeout | Exit.

Section EventLoop.
Context {K : Type} `{Kernel K}.

(** A rule holds its own [FileDescriptor].  Its three [std::function]s are
    arbitrary code over the process; they may also call [add_rule] on the
    loop, and the rules a call adds come first in its result, because they
    stay added if it throws. *)
#[warnings="-register-all"]
Inductive Rule : Type := mkRule {
  fd : FileDescriptor;
  direction : Direction;
  callback : Proc K -> list Rule * (outcome unit * Proc K);
  interest : Proc K -> list Rule * (outcome bool * Proc K);
  cancel : Proc K -> list Rule * (outcome unit * Proc K)
}.

(** The loop ([_rules]) and the process it runs in. *)
Definition Loop : Type := list Rule * Proc K.

Definition rules (s : Loop) : list Rule := fst s.

Definition in_proc {A} (m : M (Proc K) A) : M Loop A :=
  zoom snd (fun p s => (fst s, p)) m.

(** Calling a [std::function] of a rule. *)
Definition call {A} (f : Proc K -> list Rule * (outcome A * Proc K)) : M Loop A := fun s =>
  let '(added, (o, p)) := f (snd s) in (o, (fst s ++ added, p)).

Definition service_count (r : Rule) : M (Proc K) Z :=
  match direction r with In => read_count (fd r) | Out => write_count (fd r) end.

(** [add_rule]; the default [interest] and [cancel] are [always] and [nop]. *)
Definition add_rule (h : FileDescriptor) (d : Direction)
    (cb : Proc K -> list Rule * (outcome unit * Proc K))
    (intr : Proc K -> list Rule * (outcome bool * Proc K))
    (cncl : Proc K -> list Rule * (outcome unit * Proc K)) : M Loop unit :=
  h' ← in_proc (duplicate h);
  modify (fun s => (fst s ++ [mkRule h' d cb intr cncl], snd s)).

Definition always (p : Proc K) : list Rule * (outcome bool * Proc K) := ([], (Ret true, p)).
Definition nop (p : Proc K) : list Rule * (outcome unit * Proc K) := ([], (Ret tt, p)).

(** [it = _rules.erase(it)], where [it] is the [i]-th rule: the list closes
    up and the rule's descriptor handle is destroyed. *)
Definition erase (i : nat) : M Loop unit :=
  s ← get;
  match rules s !! i with
  | None => undefined
  | Some r => modify (fun s => (delete i (fst s), snd s)) ;;; in_proc (destroy (fd r))
  end.

(** [direction == Direction::In && fd.eof()] *)
Definition at_eof (r : Rule) : M (Proc K) bool :=
  match direction r with In => eof (fd r) | Out => mret false end.

(** The first loop, from the [i]-th rule on: rules can be added while it
    runs, so the number of its rounds is bounded by [fuel]. *)
Fixpoint setup (fuel : nat) (i : nat) (pollfds : list pollfd) (something_to_poll : bool) :
    M Loop (list pollfd * bool) :=
  match fuel with
  | O => out_of_fuel
  | S fuel' =>
      s ← get;
      match rules s !! i with
      | None => mret (pollfds, something_to_poll)
      | Some r =>
          e ← in_proc (at_eof r);
          if (e : bool) then
            call (cancel r) ;;; erase i ;;; setup fuel' i pollfds something_to_poll
          else
            c ← in_proc (closed (fd r));
            if (c : bool) then
              call (cancel r) ;;; erase i ;;; setup fuel' i pollfds something_to_poll
            else
              b ← call (interest r);
              n ← in_proc (fd_num (fd r));
              if (b : bool)
              then setup fuel' (S i)
                     (pollfds ++ [mkPollfd n (direction_events (direction r)) 0]) true
              else setup fuel' (S i) (pollfds ++ [mkPollfd n 0 0]) something_to_poll
      end
  end.

(** What [poll] leaves in the array: the kernel's [revents], entry by entry. *)
Fixpoint fill_revents (pollfds : list pollfd) (rs : list Z) : list pollfd :=
  match pollfds, rs with
  | p :: ps, r :: rs' => mkPollfd (pfd p) (events p) r :: fill_revents ps rs'
  | _, _ => pollfds
  end.

(** The [try] block: [Some r] is an early return. *)
Definition poll_once (pollfds : list pollfd) (timeout_ms : Z) :
    M (Proc K) (list pollfd * option Result) :=
  r ← syscall (sys_poll pollfds timeout_ms);
  early ← try_catch
    (v ← SystemCall (lit "poll") (ret r) 0;
     mret (if v =? 0 then Some Timeout else None))
    (fun e => match e with
              | unix_error _ code => mret (if code =? EINTR then Some Exit else None)
              | _ => throw e
              end);
  mret (fill_revents pollfds (out r), early).

Definition poll_error (pf : pollfd) : bool :=
  nonzero (Z.land (revents pf) (Z.lor POLLERR POLLNVAL)).
Definition poll_ready (pf : pollfd) : bool := nonzero (Z.land (revents pf) (events pf)).
Definition poll_hup (pf : pollfd) : bool := nonzero (Z.land (revents pf) POLLHUP).

(** "the _only_ condition was a hangup" *)
Definition only_hup (pf : pollfd) : bool :=
  poll_hup pf && nonzero (events pf) && negb (poll_ready pf).

Definition poll_failure : exn :=
  runtime_error (lit "EventLoop: error on polled file descriptor").
Definition busy_wait : exn :=
  runtime_error (lit "EventLoop: busy wait detected: callback did not read/write fd and is still interested").

(** The body of [if (poll_ready)]. *)
Definition service (r : Rule) : M Loop unit :=
  count_before ← in_proc (service_count r);
  call (callback r) ;;;
  count_after ← in_proc (service_count r);
  if count_before =? count_after then
    b ← call (interest r);
    if (b : bool) then throw busy_wait else mret tt
  else mret tt.

(** The second loop, from the [i]-th rule on; [pollfds] is the array from
    [idx] on, and indexing past its end is undefined. *)
Fixpoint dispatch (i : nat) (pollfds : list pollfd) : M Loop unit := fun s =>
  match rules s !! i with
  | None => (Ret tt, s)
  | Some r =>
      match pollfds with
      | [] => (Undef, s)
      | pf :: rest =>
          (if poll_error pf then throw poll_failure
           else if only_hup pf then
             call (cancel r) ;;; erase i ;;; dispatch i rest
           else
             when (poll_ready pf) (service r) ;;; dispatch (S i) rest) s
      end
  end.

Definition wait_next_event (fuel : nat) (timeout_ms : Z) : M Loop Result :=
  ps ← setup fuel 0 [] false;
  let '(pollfds, something_to_poll) := ps in
  if negb something_to_poll then mret Exit
  else
    pe ← in_proc (poll_once pollfds timeout_ms);
    let '(pollfds, early) := pe in
    match early with
    | Some r => mret r
    | None => dispatch 0 pollfds ;;; mret Success
    end.

(** ** The specification: one pass over the rules, one over the pairs *)

(** The rules, each with its answer, in place of two lists kept in step by
    indices while rules are erased from one of them. *)

(** A rule that has gone: its cancellation callback, then its handle. *)
Definition spec_drop (r : Rule) : M (Proc K) unit :=
  (fun p => snd (cancel r p)) ;;; destroy (fd r).

Fixpoint spec_setup (rs : list Rule) : M (Proc K) (list (Rule * pollfd)) :=
  match rs with
  | [] => mret []
  | r :: rs' =>
      e ← at_eof r;
      gone ← (if (e : bool) then mret true else closed (fd r) : M (Proc K) bool);
      if (gone : bool) then spec_drop r ;;; spec_setup rs'
      else
        b ← (fun p => snd (interest r p));
        n ← fd_num (fd r);
        rest ← spec_setup rs';
        mret ((r, mkPollfd n (if (b : bool) then direction_events (direction r) else 0) 0) :: rest)
  end.

Definition spec_service (r : Rule) : M (Proc K) unit :=
  count_before ← service_count r;
  (fun p => snd (callback r p)) ;;;
  count_after ← service_count r;
  if count_before =? count_after then
    b ← (fun p => snd (interest r p));
    if (b : bool) then throw busy_wait else mret tt
  else mret tt.

(** The rules that survive. *)
Fixpoint spec_dispatch (rps : list (Rule * pollfd)) : M (Proc K) (list Rule) :=
  match rps with
  | [] => mret []
  | (r, pf) :: rest =>
      if poll_error pf then throw poll_failure
      else if only_hup pf then spec_drop r ;;; spec_dispatch rest
      else
        when (poll_ready pf) (spec_service r) ;;;
        rs ← spec_dispatch rest;
        mret (r :: rs)
  end.

Definition wanted (rp : Rule * pollfd) : bool := nonzero (events (snd rp)).

Definition spec_wait (rs : list Rule) (timeout_ms : Z) : M (Proc K) (Result * list Rule) :=
  rps ← spec_setup rs;
  if negb (existsb wanted rps) then mret (Exit, map fst rps)
  else
    pe ← poll_once (map snd rps) timeout_ms;
    let '(pollfds, early) := pe in
    match early with
    | Some r => mret (r, map fst rps)
    | None => rs' ← spec_dispatch (zip (map fst rps) pollfds); mret (Success, rs')
    end.

(** ** Conditions on the callbacks *)

(** No code of the rule adds rules to the loop. *)
Definition adds_nothing (r : Rule) : Prop :=
  forall p, fst (callback r p) = [] /\ fst (interest r p) = [] /\ fst (cancel r p) = [].

(** The code returns or throws, and neither creates nor destroys handles, on
    every process where the handles [hs] of the program are alive. *)
Definition tame {A} (hs : list FileDescriptor)
    (f : Proc K -> list Rule * (outcome A * Proc K)) : Prop :=
  forall p, (forall l, Some l ∈ hs -> is_Some (wrappers p !! l)) ->
    let '(_, (o, p')) := f p in
    returns o /\ snd <$> wrappers p' = snd <$> wrappers p.

Definition tame_rule (hs : list FileDescriptor) (r : Rule) : Prop :=
  tame hs (callback r) /\ tame hs (interest r) /\ tame hs (cancel r).

(** The handles of the loop and of the program are right. *)
Definition owned_loop (hs : list (option positive)) (s : Loop) : Prop :=
  owned (wrappers (snd s)) (map fd (rules s) ++ hs) /\ Forall (fun r => is_Some (fd r)) (rules s).

(** In the loop with rules [rs]. *)
Definition loop_at (hs : list (option positive)) (rs : list Rule) (s : Loop) : Prop :=
  rules s = rs /\ owned_loop hs s.

(** A call on the loop that ends well: it returns or throws, handles and
    counts agree, and the rules are some of [rs]. *)
Definition ends_well {A} (hs : list (option positive)) (rs : list Rule)
    (c : outcome A * Loop) : Prop :=
  returns (fst c) /\ owned_loop hs (snd c) /\ rules (snd c) `sublist_of` rs.

(** The code always answers, without adding rules or touching any descriptor
    object. *)
Definition answers {A} (f : Proc K -> list Rule * (outcome A * Proc K)) : Prop :=
  forall p, exists a p', f p = ([], (Ret a, p')) /\ wrappers p' = wrappers p.

(** The rule's descriptor is closed, or is to be read and at end of file. *)
Definition finished (p : Proc K) (r : Rule) : bool :=
  match fd r with
  | Some l =>
      match deref l (wrappers p) with
      | Some w => match direction r with In => _eof w | Out => false end || _closed w
      | None => false
      end
  | None => false
  end.

(** The entry of the array that belongs to a rule. *)
Definition polls (p : Proc K) (r : Rule) (pf : pollfd) : Prop :=
  live (fd r) (pfd pf) p /\ (events pf = 0 \/ events pf = direction_events (direction r)) /\
  revents pf = 0.

(** The objects the handles [hs] refer to are the same. *)
Definition same_objects (hs : list (option positive)) (p p' : Proc K) : Prop :=
  forall l, Some l ∈ hs -> deref l (wrappers p') = deref l (wrappers p).

Definition quiet_rule (r : Rule) : Prop := answers (interest r) /\ answers (cancel r).

(** What the first loop runs of the rule adds no rules. *)
Definition asks_only (r : Rule) : Prop :=
  forall p, fst (interest r p) = [] /\ fst (cancel r p) = [].

(** What a rule's direction counts on its object. *)
Definition count_of (r : Rule) (p : Proc K) : option Z :=
  l ← fd r; w ← deref l (wrappers p);
  Some match direction r with In => _read_count w | Out => _write_count w end.

(** The runs of the second loop that return, as a relation: from the rules
    and their entries and a process to the rules that stay and the process
    after. *)
Inductive passes : list (Rule * pollfd) -> Proc K -> list Rule -> Proc K -> Prop :=
  | pass_end p : passes [] p [] p
  | pass_hup r pf rps p p1 p2 rs p' :
      poll_error pf = false -> only_hup pf = true ->
      cancel r p = ([], (Ret tt, p1)) -> destroy (fd r) p1 = (Ret tt, p2) ->
      passes rps p2 rs p' -> passes ((r, pf) :: rps) p rs p'
  | pass_skip r pf rps p rs p' :
      poll_error pf = false -> only_hup pf = false -> poll_ready pf = false ->
      passes rps p rs p' -> passes ((r, pf) :: rps) p (r :: rs) p'
  | pass_progress r pf rps p c p1 c1 rs p' :
      poll_error pf = false -> poll_ready pf = true ->
      count_of r p = Some c -> callback r p = ([], (Ret tt, p1)) ->
      count_of r p1 = Some c1 -> c1 <> c ->
      passes rps p1 rs p' -> passes ((r, pf) :: rps) p (r :: rs) p'
  | pass_lost_interest r pf rps p c p1 p2 rs p' :
      poll_error pf = false -> poll_ready pf = true ->
      count_of r p = Some c -> callback r p = ([], (Ret tt, p1)) ->
      count_of r p1 = Some c -> interest r p1 = ([], (Ret false, p2)) ->
      passes rps p2 rs p' -> passes ((r, pf) :: rps) p (r :: rs) p'.

(** [m], run on the loop [s], does to the process what its specification
    does; [back] tells what value and what rules stand for the value of the
    specification. *)
Definition simulates {A B} (rs : list Rule) (back : B -> A * list Rule) (m : M Loop A)
    (s : Loop) (spec : outcome B * Proc K) : Prop :=
  let '(o, (rs', p')) := m s in
  p' = snd spec /\ rs' `sublist_of` rs /\
  match fst spec with
  | Ret b => (o, rs') = (Ret (fst (back b)), snd (back b))
  | Throw e => o = Throw e
  | Undef => o = Undef
  | NoFuel => o = NoFuel
  end.

(** What the first loop makes of the pairs the specification computes. *)
Definition setup_back (done : list Rule) (pollfds : list pollfd) (something : bool)
    (rps : list (Rule * pollfd)) : (list pollfd * bool) * list Rule :=
  ((pollfds ++ map snd rps, something || existsb wanted rps), done ++ map fst rps).

End EventLoop.

(** ** Rules for concrete runs *)

(** A rule whose callback reads its own descriptor. *)
Definition reading_rule {K : Type} `{Kernel K} (l : positive) : Rule (K:=K) :=
  mkRule (Some l) In (fun p => ([], (_ ← read (Some l) 10; mret tt) p)) always nop.

Definition idle_rule {K : Type} `{Kernel K} (l : positive) : Rule (K:=K) :=
  mkRule (Some l) Out nop (fun p => ([], (Ret false, p))) nop.

(** Two rules on two descriptors, both also held by the program; [poll]
    returns [ret] and reports [revents]; the first is at end of file or not. *)
Definition demo_loop (eof : bool) (ret err : Z) (revents : list Z) : Proc Loopback.t :=
  mkProc 0 (Loopback.mk {[ 3 := lit "abc" ]} ∅ 2 0 ret err revents [])
    (<[ 1%positive := (mkWrapper 3 eof false 0 0, 2%nat) ]>
     (<[ 2%positive := (mkWrapper 4 false false 0 0, 2%nat) ]> ∅)) [].

(** ** The refinement *)

Section Refinement.
Context {K : Type} `{Kernel K}.
Implicit Types (r : Rule (K:=K)) (rs : list (Rule (K:=K))) (p : Proc K).

Lemma sim_ret {A B} rs (back : B -> A * list Rule) a b l p : l `sublist_of` rs ->
  back b = (a, l) -> simulates rs back (mret a) (l, p) (Ret b, p).
Proof. intros Hl E. unfold simulates. msimpl. by rewrite E. Qed.

Lemma sim_throw {A B} rs (back : B -> A * list Rule) e l p : l `sublist_of` rs ->
  simulates rs back (throw e) (l, p) (Throw e, p).
Proof. by unfold simulates; msimpl. Qed.

Lemma sim_get {A B} rs (back : B -> A * list Rule) (k : Loop -> M Loop A) s n :
  simulates rs back (k s) s n -> simulates rs back (get ≫= k) s n.
Proof. done. Qed.

Lemma sim_in_proc {A B C} rs (back : C -> A * list Rule) (m : M (Proc K) B)
    (k : B -> M Loop A) (f : B -> M (Proc K) C) l p : l `sublist_of` rs ->
  (forall b p', m p = (Ret b, p') -> simulates rs back (k b) (l, p') (f b p')) ->
  simulates rs back (in_proc m ≫= k) (l, p) ((m ≫= f) p).
Proof.
  intros Hl Hk. unfold simulates, in_proc. msimpl.
  destruct (m p) as [[] p']; try done. by apply Hk.
Qed.

Lemma sim_call {A B C} rs (back : C -> A * list Rule)
    (g : Proc K -> list Rule * (outcome B * Proc K))
    (k : B -> M Loop A) (f : B -> M (Proc K) C) l p : l `sublist_of` rs ->
  (forall p, fst (g p) = []) ->
  (forall b p', simulates rs back (k b) (l, p') (f b p')) ->
  simulates rs back (call g ≫= k) (l, p) (((fun p => snd (g p)) ≫= f) p).
Proof.
  intros Hl Hg Hk. unfold simulates, call. msimpl. specialize (Hg p).
  destruct (g p) as [added [[] p']]; simpl in *; subst; rewrite ?app_nil_r; try done.
  apply Hk.
Qed.

(** The value of the specification may be changed after the fact. *)
Lemma sim_map {A B C} rs (back : C -> A * list Rule) (g : B -> C) (m : M Loop A) s
    (n : M (Proc K) B) p :
  simulates rs (fun b => back (g b)) m s (n p) ->
  simulates rs back m s ((b ← n; mret (g b)) p).
Proof.
  unfold simulates. msimpl. destruct (m s) as [o [rs' p']], (n p) as [[] p'']; done.
Qed.

(** Erasing a rule is destroying its handle. *)
Lemma sim_erase {A C} rs (back : C -> A * list Rule) (done rest : list Rule) r p
    (k : M Loop A) (f : M (Proc K) C) : done ++ rest `sublist_of` rs ->
  (forall p', simulates rs back k (done ++ rest, p') (f p')) ->
  simulates rs back (erase (length done) ;;; k) (done ++ r :: rest, p)
    ((destroy (fd r) ;;; f) p).
Proof.
  intros Hs Hk. pose proof (sim_in_proc rs back (destroy (fd r)) (fun _ => k) (fun _ => f)
    (done ++ rest) p Hs ltac:(done)) as Hd.
  unfold simulates, erase in *. munfold. cbn [fst snd rules] in *.
  rewrite list_lookup_middle by done. cbn [fst snd].
  by rewrite delete_middle.
Qed.

Lemma sim_sublist {A B} rs rs' (back : B -> A * list Rule) (m : M Loop A) s n :
  rs' `sublist_of` rs -> simulates rs' back m s n -> simulates rs back m s n.
Proof.
  intros Hs. unfold simulates. destruct (m s) as [o [l p]]. intros (?&?&?).
  split_and!; [done | by etrans | done].
Qed.

Lemma wanted_entry r n (b : bool) :
  wanted (r, mkPollfd n (if b then direction_events (direction r) else 0) 0) = b.
Proof. unfold wanted. simpl. by destruct b, (direction r). Qed.

Lemma setup_end fuel (done : list Rule) pollfds b p :
  setup (S fuel) (length done) pollfds b (done, p) = (Ret (pollfds, b), (done, p)).
Proof. cbn [setup]. msimpl. by rewrite lookup_ge_None_2. Qed.

Lemma adds_nothing_asks r : adds_nothing r -> asks_only r.
Proof. intros Hr p. split; apply Hr. Qed.

Lemma quiet_asks r : quiet_rule r -> asks_only r.
Proof.
  intros [Hi Hc] p. destruct (Hi p) as (b & q & -> & _), (Hc p) as (u & q' & -> & _). done.
Qed.

(** A finished rule: both the loop and the specification drop it. *)
Lemma sim_drop {A C} rs (back : C -> A * list Rule) (done rest : list Rule) r p
    (k : M Loop A) (f : M (Proc K) C) : asks_only r -> done ++ r :: rest `sublist_of` rs ->
  (forall p', simulates rs back k (done ++ rest, p') (f p')) ->
  simulates rs back (call (cancel r) ;;; erase (length done) ;;; k) (done ++ r :: rest, p)
    ((spec_drop r ;;; f) p).
Proof.
  intros Hr Hs Hk. assert (Hs' : done ++ rest `sublist_of` rs).
  { etrans; [|done]. apply sublist_app; [done | by apply sublist_cons]. }
  pose proof (sim_call rs back (cancel r) (fun _ => erase (length done) ;;; k)
    (fun _ => destroy (fd r) ;;; f) (done ++ r :: rest) p Hs) as Hc.
  unfold simulates, spec_drop in *. munfold.
  destruct (snd (cancel r p)) as [[] p'] eqn:E; apply Hc; try (intros; by apply Hr);
    intros ? q; by apply sim_erase.
Qed.

Lemma setup_sim fuel : forall (done rs : list Rule) pollfds something p,
  Forall asks_only rs -> (length rs < fuel)%nat ->
  simulates (done ++ rs) (setup_back done pollfds something)
    (setup fuel (length done) pollfds something) (done ++ rs, p) (spec_setup rs p).
Proof.
  induction fuel as [|fuel IH]; intros done rs pollfds something p Hrs Hf; [lia|].
  destruct rs as [|r rs].
  { rewrite app_nil_r. unfold simulates. rewrite setup_end. simpl. unfold setup_back.
    by rewrite app_nil_r, orb_false_r, app_nil_r. }
  apply Forall_cons in Hrs as [Hr Hrs]. cbn [setup spec_setup length] in *.
  apply sim_get. cbn [rules fst]. rewrite list_lookup_middle by done.
  assert (Hs : done ++ rs `sublist_of` done ++ r :: rs).
  { apply sublist_app; [done | by apply sublist_cons]. }
  assert (Hdrop : forall p, simulates (done ++ r :: rs) (setup_back done pollfds something)
      (call (cancel r) ;;; erase (length done) ;;; setup fuel (length done) pollfds something)
      (done ++ r :: rs, p) ((spec_drop r ;;; spec_setup rs) p)).
  { intros q. apply sim_drop; [done..|]. intros q'. eapply sim_sublist; [done|].
    apply IH; [done | lia]. }
  apply sim_in_proc; [done|]. intros [] q _; [apply Hdrop|].
  apply sim_in_proc; [done|]. intros [] q1 _; [apply Hdrop|].
  apply sim_call; [done | intros; apply Hr |]. intros b q2.
  apply sim_in_proc; [done|]. intros n q3 _. apply sim_map.
  assert (Hn : forall pf b', wanted (r, pf) || something = b' -> simulates (done ++ r :: rs)
    (fun rest => setup_back done pollfds something ((r, pf) :: rest))
    (setup fuel (S (length done)) (pollfds ++ [pf]) b') (done ++ r :: rs, q3)
    (spec_setup rs q3)).
  { intros pf b' <-. specialize (IH (done ++ [r]) rs (pollfds ++ [pf])
      (wanted (r, pf) || something) q3 Hrs ltac:(lia)).
    rewrite length_app, Nat.add_1_r, <- app_assoc in IH. unfold simulates in *.
    destruct (setup _ _ _ _ _) as [o [l p']]. cbn [app] in IH.
    destruct IH as (-> & Hl & Hv). split_and!; [done..|].
    destruct (spec_setup rs q3) as [[rps| | |] ?]; try done. simpl in *. rewrite Hv.
    by rewrite <- !app_assoc, (orb_comm (wanted _)), orb_assoc. }
  destruct b; apply Hn; by destruct something, (direction r).
Qed.

Lemma sim_bind {A B C D} rs (back : D -> C * list Rule) (a : B -> A) (l : B -> list Rule)
    (m : M Loop A) (k : A -> M Loop C) s (n : M (Proc K) B) (f : B -> M (Proc K) D) p :
  simulates rs (fun b => (a b, l b)) m s (n p) ->
  (forall b p', l b `sublist_of` rs -> simulates rs back (k (a b)) (l b, p') (f b p')) ->
  simulates rs back (m ≫= k) s ((n ≫= f) p).
Proof.
  intros Hm Hk. unfold simulates in Hm. unfold simulates. msimpl.
  destruct (n p) as [o' p'], (m s) as [o [rs' p'']]. simpl in Hm.
  destruct Hm as (-> & Hs & Ho). destruct o'; simplify_eq/=; try done. by apply Hk.
Qed.

Lemma service_sim rs l r p : adds_nothing r -> l `sublist_of` rs ->
  simulates rs (fun _ => (tt, l)) (service r) (l, p) (spec_service r p).
Proof.
  intros Hr Hl. unfold service, spec_service.
  apply sim_in_proc; [done|]. intros c q _. apply sim_call; [done | apply Hr |]. intros _ q1.
  apply sim_in_proc; [done|]. intros c' q2 _. destruct (c =? c'); [|by apply sim_ret].
  apply sim_call; [done | apply Hr |]. intros [] q3; [by apply sim_throw | by apply sim_ret].
Qed.

(** One round of the second loop. *)
Lemma dispatch_cons (done rs : list Rule) r pf pfs p :
  dispatch (length done) (pf :: pfs) (done ++ r :: rs, p) =
    (if poll_error pf then throw poll_failure
     else if only_hup pf then call (cancel r) ;;; erase (length done) ;;; dispatch (length done) pfs
     else when (poll_ready pf) (service r) ;;; dispatch (S (length done)) pfs)
      (done ++ r :: rs, p).
Proof. cbn [dispatch rules fst]. by rewrite list_lookup_middle. Qed.

Lemma dispatch_sim : forall (rs : list Rule) pollfds (done : list Rule) p,
  Forall adds_nothing rs -> length pollfds = length rs ->
  simulates (done ++ rs) (fun rs' => (tt, done ++ rs')) (dispatch (length done) pollfds)
    (done ++ rs, p) (spec_dispatch (zip rs pollfds) p).
Proof.
  induction rs as [|r rs IH]; intros [|pf pfs] done p Hrs Hlen; try discriminate Hlen.
  { unfold simulates. cbn [dispatch]. rewrite app_nil_r, lookup_ge_None_2 by done. simpl.
    by rewrite app_nil_r. }
  apply Forall_cons in Hrs as [Hr Hrs]. injection Hlen as Hlen.
  assert (Hs : done ++ rs `sublist_of` done ++ r :: rs).
  { apply sublist_app; [done | by apply sublist_cons]. }
  enough (simulates (done ++ r :: rs) (fun rs' => (tt, done ++ rs'))
      (if poll_error pf then throw poll_failure
       else if only_hup pf then
         call (cancel r) ;;; erase (length done) ;;; dispatch (length done) pfs
       else when (poll_ready pf) (service r) ;;; dispatch (S (length done)) pfs)
      (done ++ r :: rs, p) (spec_dispatch ((r, pf) :: zip rs pfs) p)) as Hone
    by (unfold simulates in *; by rewrite dispatch_cons).
  cbn [spec_dispatch].
  destruct (poll_error pf); [by apply sim_throw|].
  destruct (only_hup pf).
  - apply sim_drop; [by apply adds_nothing_asks | done |]. intros q. eapply sim_sublist; [done|]. apply IH; [done | lia].
  - apply (sim_bind _ _ (fun _ => tt) (fun _ => done ++ r :: rs)).
    { destruct (poll_ready pf); [by apply service_sim | by apply sim_ret]. }
    intros _ q _. apply sim_map. specialize (IH pfs (done ++ [r]) q Hrs ltac:(lia)).
    rewrite length_app, Nat.add_1_r, <- app_assoc in IH. unfold simulates in *.
    destruct (dispatch _ _ _) as [o [l p']]. destruct IH as (-> & Hl & Hv).
    split_and!; [done..|]. destruct (spec_dispatch (zip rs pfs) q) as [[rs'| | |] ?]; try done.
    simpl in *. rewrite Hv. by rewrite <- app_assoc.
Qed.

Lemma length_fill_revents pfs (zs : list Z) : length (fill_revents pfs zs) = length pfs.
Proof. revert zs. induction pfs as [|pf pfs IH]; intros [|x zs]; simpl; auto. Qed.

(** What [poll_once] returns has an entry for each it was given. *)
Lemma poll_once_length pfs t p pfs' early p' :
  poll_once pfs t p = (Ret (pfs', early), p') -> length pfs' = length pfs.
Proof.
  intros E. unfold poll_once in E. apply bind_Ret_inv in E as (r & s1 & _ & E).
  apply bind_Ret_inv in E as (x & s2 & _ & E). msimpl. simplify_eq.
  apply length_fill_revents.
Qed.

Lemma wait_sim fuel (rs : list Rule) t p : Forall adds_nothing rs -> (length rs < fuel)%nat ->
  simulates rs id (wait_next_event fuel t) (rs, p) (spec_wait rs t p).
Proof.
  intros Hrs Hf. assert (Hask : Forall asks_only rs) by (eapply Forall_impl; [exact Hrs | apply adds_nothing_asks]).
  pose proof (setup_sim fuel [] rs [] false p Hask Hf) as Hset.
  unfold wait_next_event, spec_wait.
  apply (sim_bind _ _ (fun rps => (map snd rps, existsb wanted rps)) (map fst)); [done|].
  intros rps p1 Hsub. destruct (existsb wanted rps); [|by apply sim_ret].
  apply sim_in_proc; [done|]. intros [pfs early] p2 Hpoll.
  apply poll_once_length in Hpoll. rewrite length_map in Hpoll.
  destruct early as [res|]; [by apply sim_ret|].
  apply (sim_bind _ _ (fun _ => tt) id).
  - eapply sim_sublist; [done|]. apply (dispatch_sim (map fst rps) pfs []).
    + eapply Forall_sublist; done.
    + by rewrite length_map.
  - intros rs' p3 Hs. by apply sim_ret.
Qed.

End Refinement.

(** ** Memory safety *)

Section Safety.
Context {K : Type} `{Kernel K}.
Implicit Types (r : Rule (K:=K)) (rs : list (Rule (K:=K))) (p : Proc K).
Implicit Types hs : list (option positive).

Lemma loop_at_counts hs rs p p' : snd <$> wrappers p' = snd <$> wrappers p ->
  loop_at hs rs (rs, p) -> loop_at hs rs (rs, p').
Proof.
  intros E (_ & Ho & Hl). split; [done|]. split; [by eapply owned_counts | done].
Qed.

Lemma safe_call {A} hs rs (f : Proc K -> list Rule * (outcome A * Proc K)) :
  tame hs f -> (forall p, fst (f p) = []) -> safe (loop_at hs rs) (call f).
Proof.
  intros Ht Hf [l p] Hs. assert (l = rs) as -> by apply Hs.
  unfold exec, result, call. specialize (Hf p). specialize (Ht p).
  simpl. destruct (f p) as [added [o p']]. simpl in *. subst. rewrite app_nil_r.
  destruct Ht as [Hret Hcounts].
  { intros l Hl. apply list_elem_of_lookup in Hl as [i Hi].
    destruct Hs as (_ & Ho & _). simpl in Ho.
    destruct (owned_live _ _ (length rs + i) l Ho) as (a & n & E & _).
    - rewrite lookup_app_r; rewrite length_map; [|lia]. by rewrite Nat.add_sub'.
    - by rewrite E. }
  split; [by eapply loop_at_counts | done].
Qed.

(** A call on the process that needs a rule's descriptor alive. *)
Lemma safe_in_proc {A} hs rs r (m : M (Proc K) A) : r ∈ rs ->
  (forall l c, fd r = Some l -> is_Some (c !! l) -> safe (counts c) m) ->
  safe (loop_at hs rs) (in_proc m).
Proof.
  intros Hr Hm [l p] Hs. assert (l = rs) as -> by apply Hs.
  pose proof Hs as (_ & Ho & Hl). simpl in *. rewrite Forall_forall in Hl.
  destruct (Hl r Hr) as [l Hfd]. apply list_elem_of_lookup in Hr as [i Hi].
  destruct (Hm l (snd <$> wrappers p) Hfd) with (s := p) as [H1 H2]; [|done|].
  - apply (owned_live_counts p _ i l Ho). rewrite lookup_app_l.
    + rewrite <- Hfd. by rewrite list_lookup_fmap, Hi.
    + apply lookup_lt_Some in Hi. by rewrite length_map.
  - unfold exec, result, in_proc in *. msimpl. destruct (m p) as [o p'].
    split; [|done]. by apply (loop_at_counts hs rs p).
Qed.

Lemma safe_field {A} hs rs r (f : FDWrapper -> A) : r ∈ rs ->
  safe (loop_at hs rs) (in_proc (lw ← obj (fd r); mret (f (snd lw)))).
Proof.
  intros Hr. apply (safe_in_proc hs rs r); [done|]. intros l c -> Hl.
  apply safe_bind; [by apply safe_obj | intros; apply safe_ret].
Qed.

Lemma safe_service_count hs rs r : r ∈ rs -> safe (loop_at hs rs) (in_proc (service_count r)).
Proof. intros. unfold service_count. destruct (direction r); by apply safe_field. Qed.

Lemma safe_at_eof hs rs r : r ∈ rs -> safe (loop_at hs rs) (in_proc (at_eof r)).
Proof.
  intros. unfold at_eof. destruct (direction r); [by apply safe_field|].
  apply (safe_in_proc hs rs r); [done|]. intros. apply safe_ret.
Qed.

Lemma safe_service hs rs r : r ∈ rs -> tame_rule hs r -> adds_nothing r ->
  safe (loop_at hs rs) (service r).
Proof.
  intros Hr (Hcb & Hin & _) Ha. unfold service.
  apply safe_bind; [by apply safe_service_count|]. intros c.
  apply safe_bind; [apply safe_call; [done | apply Ha]|]. intros _.
  apply safe_bind; [by apply safe_service_count|]. intros c'.
  apply safe_if; [|apply safe_ret].
  apply safe_bind; [apply safe_call; [done | apply Ha]|]. intros b.
  apply safe_if; [apply safe_throw | apply safe_ret].
Qed.

Lemma safe_poll_once pfs t c : safe (@counts K c) (poll_once pfs t).
Proof.
  unfold poll_once. apply safe_bind; [apply safe_syscall|]. intros r.
  apply safe_bind; [|intros; apply safe_ret]. apply safe_try.
  - apply safe_bind; [apply safe_SystemCall | intros; apply safe_ret].
  - intros []; try apply safe_throw. apply safe_ret.
Qed.

(** A safe step of a call that ends well. *)
Lemma ends_well_bind {A B} hs rs0 rs (m : M Loop A) (k : A -> M Loop B) s :
  safe (loop_at hs rs) m -> loop_at hs rs s -> rs `sublist_of` rs0 ->
  (forall a s', m s = (Ret a, s') -> loop_at hs rs s' -> ends_well hs rs0 (k a s')) ->
  ends_well hs rs0 ((m ≫= k) s).
Proof.
  intros Hm Hs Hsub Hk. destruct (Hm s Hs) as [[Hr Ho] Hret]. unfold exec, result in *.
  unfold mbind, M_bind. destruct (m s) as [[a|e| |] s'] eqn:E; try done; simpl in *.
  - by apply Hk.
  - split_and!; [done | done |]. simpl. by rewrite Hr.
Qed.

Lemma ends_well_sublist {A} hs rs rs' (c : outcome A * Loop) : rs `sublist_of` rs' ->
  ends_well hs rs c -> ends_well hs rs' c.
Proof. intros Hs (?&?&?). split_and!; [done | done | by etrans]. Qed.

(** Erasing a rule destroys its handle. *)
Lemma erase_eq hs (done rest : list Rule) r s : loop_at hs (done ++ r :: rest) s ->
  exists s', erase (length done) s = (Ret tt, s') /\ loop_at hs (done ++ rest) s'.
Proof.
  destruct s as [l p]. intros (Hl & Ho & Hf). simpl in Hl. subst l. simpl in Ho, Hf.
  assert (Hr : is_Some (fd r)). { rewrite Forall_app, Forall_cons in Hf. tauto. }
  destruct Hr as [l Hfd].
  assert (Hperm : map fd (done ++ r :: rest) ++ hs ≡ₚ Some l :: map fd (done ++ rest) ++ hs).
  { rewrite !map_app. simpl. rewrite Hfd. by rewrite <- !app_assoc, Permutation_middle. }
  rewrite Hperm in Ho. destruct (destroy_owned l p _ Ho) as (p' & Hd & Ho' & _).
  exists (done ++ rest, p'). split.
  - unfold erase. munfold. cbn [rules fst snd]. rewrite list_lookup_middle by done.
    cbn [fst snd]. rewrite delete_middle. unfold in_proc. munfold. cbn [snd].
    by rewrite Hfd, Hd.
  - split; [done|]. split; [done|]. simpl. rewrite Forall_app, Forall_cons in Hf.
    rewrite Forall_app. tauto.
Qed.

Lemma ends_well_drop {A} hs rs0 (done rest : list Rule) r (k : M Loop A) s :
  loop_at hs (done ++ r :: rest) s -> tame_rule hs r -> adds_nothing r ->
  done ++ r :: rest `sublist_of` rs0 ->
  (forall s', loop_at hs (done ++ rest) s' -> ends_well hs rs0 (k s')) ->
  ends_well hs rs0 ((call (cancel r) ;;; erase (length done) ;;; k) s).
Proof.
  intros Hs (_ & _ & Ht) Ha Hsub Hk.
  apply (ends_well_bind _ _ (done ++ r :: rest)); [|done|done|].
  { apply safe_call; [done | apply Ha]. }
  intros _ s1 _ Hs1. destruct (erase_eq _ _ _ _ _ Hs1) as (s2 & E & Hs2).
  erewrite bind_Ret by done. by apply Hk.
Qed.

Lemma setup_ends_well hs rs0 fuel : forall (done rs : list Rule) pollfds b s,
  loop_at hs (done ++ rs) s -> Forall (tame_rule hs) rs -> Forall adds_nothing rs ->
  (length rs < fuel)%nat -> done ++ rs `sublist_of` rs0 ->
  ends_well hs rs0 (setup fuel (length done) pollfds b s).
Proof.
  induction fuel as [|fuel IH]; intros done rs pollfds b s Hs Ht Ha Hf Hsub; [lia|].
  pose proof Hs as (Hl & Ho). cbn [setup]. unfold get at 1. unfold mbind at 1, M_bind at 1.
  rewrite Hl. destruct rs as [|r rs].
  { rewrite app_nil_r in *. rewrite lookup_ge_None_2 by done.
    split_and!; [done..|]. simpl. by rewrite Hl. }
  rewrite list_lookup_middle by done. simpl in Hf.
  apply Forall_cons in Ht as [Htr Ht], Ha as [Har Ha].
  assert (Hin : r ∈ done ++ r :: rs) by set_solver.
  assert (Hrest : done ++ rs `sublist_of` rs0).
  { etrans; [|done]. apply sublist_app; [done | by apply sublist_cons]. }
  assert (Hdrop : forall s', loop_at hs (done ++ r :: rs) s' -> ends_well hs rs0
    ((call (cancel r) ;;; erase (length done) ;;; setup fuel (length done) pollfds b) s')).
  { intros s' Hs'. eapply ends_well_drop; [done..|]. intros s'' Hs''.
    apply (IH done rs); [done..| lia |done]. }
  apply (ends_well_bind _ _ (done ++ r :: rs)); [by apply safe_at_eof|done|done|].
  intros [] s1 _ Hs1; [by apply Hdrop|].
  apply (ends_well_bind _ _ (done ++ r :: rs)); [by apply safe_field|done|done|].
  intros [] s2 _ Hs2; [by apply Hdrop|].
  apply (ends_well_bind _ _ (done ++ r :: rs));
    [apply safe_call; [apply Htr | apply Har] | done | done |].
  intros b' s3 _ Hs3.
  apply (ends_well_bind _ _ (done ++ r :: rs)); [by apply safe_field|done|done|].
  intros n s4 _ Hs4.
  assert (Hnext : forall pfs b'', ends_well hs rs0 (setup fuel (S (length done)) pfs b'' s4)).
  { intros pfs b''. replace (S (length done)) with (length (done ++ [r]))
      by (rewrite length_app; simpl; lia).
    apply (IH _ rs); rewrite <- ?app_assoc; [done..| lia | done]. }
  destruct b'; apply Hnext.
Qed.

Lemma dispatch_ends_well hs rs0 pollfds : forall (done rs : list Rule) s,
  loop_at hs (done ++ rs) s -> Forall (tame_rule hs) rs -> Forall adds_nothing rs ->
  length pollfds = length rs -> done ++ rs `sublist_of` rs0 ->
  ends_well hs rs0 (dispatch (length done) pollfds s).
Proof.
  induction pollfds as [|pf pfs IH]; intros done [|r rs] [l p] Hs Ht Ha Hlen Hsub;
    try discriminate Hlen; pose proof Hs as (Hl & Ho); simpl in Hl; subst l.
  { rewrite app_nil_r in *. cbn [dispatch rules fst]. rewrite lookup_ge_None_2 by done.
    by split_and!. }
  injection Hlen as Hlen. apply Forall_cons in Ht as [Htr Ht], Ha as [Har Ha].
  assert (Hin : r ∈ done ++ r :: rs) by set_solver.
  rewrite dispatch_cons. destruct (poll_error pf); [by split_and!|].
  destruct (only_hup pf).
  - eapply ends_well_drop; [done..|]. intros s'' Hs''. apply (IH done rs); [done..|].
    etrans; [|done]. apply sublist_app; [done | by apply sublist_cons].
  - apply (ends_well_bind _ _ (done ++ r :: rs)); [|done|done|].
    { apply safe_when. by apply safe_service. }
    intros _ s1 _ Hs1. replace (S (length done)) with (length (done ++ [r]))
      by (rewrite length_app; simpl; lia).
    apply (IH _ rs); rewrite <- ?app_assoc; done.
Qed.

(** The array has one entry for each rule, whatever the callbacks add. *)
Lemma setup_aligned fuel : forall i pfs b (s : Loop (K:=K)) pfs' b' s',
  setup fuel i pfs b s = (Ret (pfs', b'), s') ->
  length pfs = i -> (i <= length (rules s))%nat -> length pfs' = length (rules s').
Proof.
  induction fuel as [|fuel IH]; intros i pfs b s pfs' b' s' E Hi Hle; [done|].
  cbn [setup] in E. unfold get in E. unfold mbind at 1, M_bind at 1 in E.
  destruct (rules s !! i) as [r|] eqn:Hr.
  2: { apply lookup_ge_None in Hr. injection E as <- <- <-. lia. }
  apply lookup_lt_Some in Hr.
  assert (Hproc : forall A (m : M (Proc K) A) (a : A) t t',
    in_proc m t = (Ret a, t') -> rules t' = rules t).
  { intros A m a [l p] t' Em. unfold in_proc, zoom in Em. simpl in Em.
    destruct (m p). by simplify_eq. }
  assert (Hcall : forall A (f : Proc K -> list Rule * (outcome A * Proc K)) (a : A) t t',
    call f t = (Ret a, t') -> (length (rules t) <= length (rules t'))%nat).
  { intros A f a [l p] t' Ef. unfold call in Ef. simpl in Ef. destruct (f p) as [? []].
    simplify_eq/=. rewrite length_app. lia. }
  assert (Hdrop : forall t, (length (rules s) <= length (rules t))%nat ->
    (call (cancel r) ;;; erase i ;;; setup fuel i pfs b) t = (Ret (pfs', b'), s') ->
    length pfs' = length (rules s')).
  { intros t Ht Ed. apply bind_Ret_inv in Ed as ([] & t1 & E1 & Ed).
    apply Hcall in E1. apply bind_Ret_inv in Ed as ([] & t2 & E2 & Ed).
    apply (IH _ _ _ _ _ _ _ Ed); [done|]. unfold erase in E2.
    apply bind_Ret_inv in E2 as (? & ? & [= <- <-] & E2).
    destruct (rules t1 !! i) eqn:Ei; [|done]. apply lookup_lt_Some in Ei.
    apply bind_Ret_inv in E2 as (? & t3 & [= _ <-] & E2). apply Hproc in E2.
    rewrite E2. simpl. rewrite length_delete; [|by apply lookup_lt_is_Some].
    unfold rules in *. lia. }
  apply bind_Ret_inv in E as (e & s1 & E1 & E). apply Hproc in E1.
  destruct e; [apply (Hdrop s1); [by rewrite E1 | done]|].
  apply bind_Ret_inv in E as (c & s2 & E2 & E). apply Hproc in E2.
  destruct c; [apply (Hdrop s2); [by rewrite E2, E1 | done]|].
  apply bind_Ret_inv in E as (w & s3 & E3 & E). apply Hcall in E3.
  apply bind_Ret_inv in E as (n & s4 & E4 & E). apply Hproc in E4.
  rewrite E2, E1 in E3.
  destruct w; eapply (IH _ _ _ _ _ _ _ E); rewrite ?length_app, ?E4; simpl; lia.
Qed.

End Safety.

(** ** What the first loop keeps *)

Section FirstLoop.
Context {K : Type} `{Kernel K}.
Implicit Types (r : Rule (K:=K)) (rs : list (Rule (K:=K))) (p : Proc K).
Implicit Types hs : list (option positive).

Lemma finished_same hs p p' r : fd r ∈ hs -> same_objects hs p p' ->
  finished p' r = finished p r.
Proof. unfold finished. intros Hr E. destruct (fd r) as [l|]; [|done]. by rewrite E. Qed.

Lemma polls_same hs p p' r pf : fd r ∈ hs -> same_objects hs p p' ->
  polls p r pf -> polls p' r pf.
Proof.
  intros Hr E ((l & w & Hl & Hw & Hf) & ?). split; [|done]. exists l, w. split_and!; try done.
  rewrite E; [done | by rewrite <- Hl].
Qed.

Lemma filter_same hs p p' rs : map fd rs ⊆ hs -> same_objects hs p p' ->
  filter (fun r => finished p' r = false) rs = filter (fun r => finished p r = false) rs.
Proof.
  intros Hs E. induction rs as [|r rs IH]; [done|]. rewrite !filter_cons.
  rewrite (finished_same hs p p' r) by (done || set_solver). rewrite IH by set_solver. done.
Qed.

(** The tests on a live rule read the object, and nothing else happens. *)
Lemma finished_eq r l w p : fd r = Some l -> deref l (wrappers p) = Some w ->
  exists e, at_eof r p = (Ret e, p) /\ closed (fd r) p = (Ret (_closed w), p) /\
    fd_num (fd r) p = (Ret (_fd w), p) /\ finished p r = e || _closed w.
Proof.
  intros Hl Hw. unfold at_eof, finished, closed, eof. rewrite Hl, Hw.
  rewrite (fd_num_eq l w p Hw).
  exists (match direction r with In => _eof w | Out => false end).
  destruct (direction r); split_and!; try done;
    by erewrite bind_Ret by (by apply obj_eq).
Qed.

(** Dropping a rule whose cancellation answers. *)
Lemma spec_drop_eq r l p hs : fd r = Some l -> owned (wrappers p) (Some l :: hs) ->
  answers (cancel r) -> exists p', spec_drop r p = (Ret tt, p') /\
    owned (wrappers p') hs /\ same_objects hs p p'.
Proof.
  intros Hl Ho Hc. destruct (Hc p) as ([] & p1 & E1 & Ew). rewrite <- Ew in Ho.
  destruct (destroy_owned l p1 hs Ho) as (p2 & E2 & Ho2 & Hsame). exists p2.
  split; [|split; [done | intros l' Hl'; by rewrite Hsame, Ew]].
  unfold spec_drop. erewrite bind_Ret by (by rewrite E1). by rewrite Hl.
Qed.

Lemma spec_setup_keeps rs : forall p hs,
  owned (wrappers p) (map fd rs ++ hs) -> Forall (fun r => is_Some (fd r)) rs ->
  Forall quiet_rule rs -> exists rps p', spec_setup rs p = (Ret rps, p') /\
  map fst rps = filter (fun r => finished p r = false) rs /\
  Forall (fun rp => polls p' (fst rp) (snd rp)) rps /\ same_objects hs p p' /\
  owned (wrappers p') (map fd (map fst rps) ++ hs).
Proof.
  induction rs as [|r rs IH]; intros p hs Ho Hl Hq.
  { by exists [], p. }
  apply Forall_cons in Hl as [[l Hfd] Hl], Hq as [[Hi Hc] Hq].
  cbn [map app] in Ho. rewrite Hfd in Ho. cbn [spec_setup].
  destruct (owned_live _ _ 0 l Ho eq_refl) as (w & n & Hw & _).
  assert (Hd : deref l (wrappers p) = Some w) by (unfold deref; by rewrite Hw).
  destruct (finished_eq r l w p Hfd Hd) as (e & Ee & Ec & _ & Hfin).
  erewrite bind_Ret by exact Ee.
  assert (Hgone : ((if e then mret true else closed (fd r)) : M (Proc K) bool) p =
    (Ret (finished p r), p)).
  { rewrite Hfin. by destruct e. }
  erewrite bind_Ret by exact Hgone. rewrite filter_cons.
  destruct (finished p r).
  - destruct (spec_drop_eq r l p _ Hfd Ho Hc) as (p1 & E1 & Ho1 & Hs1).
    destruct (IH p1 hs Ho1 Hl Hq) as (rps & p' & E & Hm & Hp & Hs & Ho').
    exists rps, p'. split; [by rewrite (bind_Ret _ _ _ _ _ E1)|]. split_and!; [|done| |done].
    + rewrite Hm. apply (filter_same (map fd rs ++ hs)); [set_solver | done].
    + intros l' Hl'. rewrite Hs, Hs1 by set_solver. done.
  - destruct (Hi p) as (b & p1 & E1 & Ew).
    assert (Hd1 : deref l (wrappers p1) = Some w) by (by rewrite Ew).
    destruct (finished_eq r l w p1 Hfd Hd1) as (_ & _ & _ & En & _).
    destruct (IH p1 (Some l :: hs)) as (rps & p' & E & Hm & Hp & Hs & Ho'); [|done..|].
    { rewrite Ew. by rewrite <- Permutation_middle. }
    assert (Hs' : same_objects (Some l :: hs) p p') by (intros l' Hl'; by rewrite Hs, Ew).
    eexists (_ :: rps), p'. split.
    { erewrite bind_Ret by (by rewrite E1). rewrite (bind_Ret _ _ _ _ _ En).
      by rewrite (bind_Ret _ _ _ _ _ E). }
    split_and!; [| |intros l' Hl'; apply Hs'; set_solver|].
    + simpl. rewrite Hm. f_equal. apply (filter_same (map fd rs)); [done|].
      intros l' _. by rewrite Ew.
    + apply Forall_cons_2; [|done]. split_and!; [| by destruct b; auto | done].
      exists l, w. split_and!; [done | | done]. rewrite Hs' by set_solver. done.
    + simpl. rewrite Hfd. by rewrite Permutation_middle.
Qed.

End FirstLoop.

(** ** What the second loop does *)

Section SecondLoop.
Context {K : Type} `{Kernel K}.
Implicit Types (r : Rule (K:=K)) (rs : list (Rule (K:=K))) (p : Proc K).

(** A ready entry is not one with only a hangup. *)
Lemma ready_not_hup pf : poll_ready pf = true -> only_hup pf = false.
Proof. intros E. unfold only_hup. by rewrite E, andb_false_r. Qed.

Lemma service_count_eq r p c p' :
  service_count r p = (Ret c, p') <-> count_of r p = Some c /\ p' = p.
Proof.
  unfold service_count, read_count, write_count, count_of, obj.
  destruct (direction r), (fd r) as [l|]; msimpl; try destruct (deref l (wrappers p));
    (split; [intros E; by simplify_eq/= | by intros [E ->]; simplify_eq/=]).
Qed.

Lemma pure_call {A} (f : Proc K -> list (Rule (K:=K)) * (outcome A * Proc K)) p o :
  fst (f p) = [] -> snd (f p) = o -> f p = ([], o).
Proof. by destruct (f p); simpl; intros -> ->. Qed.

Lemma spec_service_inv r p p' : adds_nothing r -> spec_service r p = (Ret tt, p') ->
  exists c p1 c1, count_of r p = Some c /\ callback r p = ([], (Ret tt, p1)) /\
    count_of r p1 = Some c1 /\
    ((c1 <> c /\ p' = p1) \/ (c1 = c /\ interest r p1 = ([], (Ret false, p')))).
Proof.
  intros Ha E. unfold spec_service in E.
  apply bind_Ret_inv in E as (c & q & E1 & E). apply service_count_eq in E1 as [E1 ->].
  apply bind_Ret_inv in E as ([] & p1 & E2 & E).
  apply bind_Ret_inv in E as (c1 & q & E3 & E). apply service_count_eq in E3 as [E3 ->].
  exists c, p1, c1. split_and!; [done | apply pure_call; [apply Ha | done] | done |].
  destruct (Z.eqb_spec c c1) as [->|Hne]; [right | left; by injection E].
  apply bind_Ret_inv in E as ([] & p2 & E4 & E); [done|]. injection E as <-.
  split; [done|]. apply pure_call; [apply Ha | done].
Qed.

Lemma spec_service_intro r p c p1 c1 p' :
  count_of r p = Some c -> callback r p = ([], (Ret tt, p1)) -> count_of r p1 = Some c1 ->
  (c1 <> c /\ p' = p1) \/ (c1 = c /\ interest r p1 = ([], (Ret false, p'))) ->
  spec_service r p = (Ret tt, p').
Proof.
  intros E1 E2 E3 Hor. unfold spec_service.
  erewrite bind_Ret by (by apply service_count_eq).
  erewrite bind_Ret by (by rewrite E2).
  erewrite bind_Ret by (by apply service_count_eq).
  destruct Hor as [[Hne ->]|[-> Hi]].
  - by rewrite (proj2 (Z.eqb_neq c c1)) by done.
  - rewrite Z.eqb_refl. by erewrite bind_Ret by (by rewrite Hi).
Qed.

Lemma spec_dispatch_passes rps : forall p rs p', Forall (fun rp => adds_nothing (fst rp)) rps ->
  spec_dispatch rps p = (Ret rs, p') <-> passes rps p rs p'.
Proof.
  induction rps as [|[r pf] rps IH]; intros p rs p' Ha.
  { split; [intros [= <- <-]; constructor | by inversion 1]. }
  apply Forall_cons in Ha as [Hr Ha]. simpl in Hr. cbn [spec_dispatch]. split.
  - destruct (poll_error pf) eqn:Hpe; [done|]. destruct (only_hup pf) eqn:Hh; intros E.
    + apply bind_Ret_inv in E as ([] & p2 & E1 & E). unfold spec_drop in E1.
      apply bind_Ret_inv in E1 as ([] & p1 & Ec & E1).
      eapply (pass_hup _ _ _ _ p1 p2); [done..| |done|by apply IH].
      apply pure_call; [apply Hr | done].
    + apply bind_Ret_inv in E as ([] & p2 & E1 & E).
      apply bind_Ret_inv in E as (rs' & p3 & E2 & E). injection E as <- <-. apply IH in E2; [|done].
      unfold when in E1. destruct (poll_ready pf) eqn:Hp.
      * destruct (spec_service_inv r p p2 Hr E1) as (c & p1 & c1 & G1 & G2 & G3 & [[? ->]|[-> ?]]);
          [by eapply pass_progress | by eapply pass_lost_interest].
      * injection E1 as ->. by apply pass_skip.
  - inversion 1; subst; match goal with E : poll_error pf = false |- _ => rewrite E end.
    + match goal with E : only_hup pf = true |- _ => rewrite E end. unfold spec_drop.
      erewrite bind_Ret; [by apply IH|]. erewrite bind_Ret; [done|].
      by match goal with E : cancel r p = _ |- _ => rewrite E end.
    + match goal with E : only_hup pf = false |- _ => rewrite E end.
      match goal with E : poll_ready pf = false |- _ => rewrite E end.
      erewrite bind_Ret by done. by erewrite bind_Ret by (by apply IH).
    + match goal with E : poll_ready pf = true |- _ => rewrite (ready_not_hup pf E), E end.
      erewrite bind_Ret by (eapply spec_service_intro; [done..|by left]).
      by erewrite bind_Ret by (by apply IH).
    + match goal with E : poll_ready pf = true |- _ => rewrite (ready_not_hup pf E), E end.
      erewrite bind_Ret by (eapply spec_service_intro; [done..|by right]).
      by erewrite bind_Ret by (by apply IH).
Qed.

(** The polling step. *)
Lemma poll_once_run pfs t p (z : sysret (list Z)) k : sys_poll pfs t (kernel p) = (z, k) ->
  poll_once pfs t p =
    (Ret (fill_revents pfs (out z),
          if ret z =? 0 then Some Timeout
          else if (ret z <? 0) && (err z =? EINTR) then Some Exit else None), after z k p).
Proof.
  intros E. unfold poll_once.
  erewrite bind_Ret by (by apply syscall_eq). unfold SystemCall. munfold. simpl.
  destruct (Z.geb_spec (ret z) 0), (Z.ltb_spec (ret z) 0); try lia; simpl.
  { by destruct (ret z =? 0). }
  destruct (Z.eqb_spec (err z) 0) as [->|Hne]; simpl.
  { by rewrite (proj2 (Z.eqb_neq (ret z) 0)) by lia. }
  rewrite (proj2 (Z.eqb_neq (ret z) 0)) by lia. by destruct (err z =? EINTR).
Qed.

(** The same, seen from the loop. *)
Lemma poll_once_eq {A} pfs t (s : Loop (K:=K))
    (z : sysret (list Z)) k (f : list pollfd * option Result -> M Loop A) :
  sys_poll pfs t (kernel (snd s)) = (z, k) ->
  (in_proc (poll_once pfs t) ≫= f) s =
    f (fill_revents pfs (out z),
       if ret z =? 0 then Some Timeout
       else if (ret z <? 0) && (err z =? EINTR) then Some Exit else None)
      (fst s, after z k (snd s)).
Proof. intros E. apply bind_Ret. unfold in_proc, zoom. by rewrite (poll_once_run _ _ _ _ _ E). Qed.

(** An array without results. *)
Lemma dispatch_idle pfs : forall i (s : Loop (K:=K)), (i + length pfs)%nat = length (rules s) ->
  dispatch i (fill_revents pfs (map (fun _ => 0) pfs)) s = (Ret tt, s).
Proof.
  induction pfs as [|pf pfs IH]; intros i s Hlen; simpl in Hlen; cbn [fill_revents map dispatch].
  - rewrite lookup_ge_None_2; [done | lia].
  - destruct (lookup_lt_is_Some_2 (rules s) i) as [r Hr]; [lia|]. rewrite Hr. simpl.
    unfold poll_error, only_hup, poll_hup, poll_ready. simpl. apply IH. lia.
Qed.

(** What a call on the loop that returns does to the list of rules. *)
Lemma call_rules {A} (f : Proc K -> list (Rule (K:=K)) * (outcome A * Proc K)) a s s' :
  call f s = (Ret a, s') -> exists added, rules s' = rules s ++ added.
Proof.
  unfold call, rules. destruct (f (snd s)) as [added [o p]]. intros [= -> <-]. by exists added.
Qed.

Lemma in_proc_rules {A} (m : M (Proc K) A) a (s s' : Loop (K:=K)) :
  in_proc m s = (Ret a, s') -> rules s' = rules s.
Proof. unfold in_proc, zoom. destruct (m (snd s)). by intros [= -> <-]. Qed.

Lemma erase_rules i (s s' : Loop (K:=K)) :
  erase i s = (Ret tt, s') -> (i < length (rules s))%nat /\ rules s' = delete i (rules s).
Proof.
  unfold erase. intros E. apply bind_Ret_inv in E as (? & ? & [= <- <-] & E).
  destruct (rules s !! i) eqn:Ei; [|done]. apply lookup_lt_Some in Ei.
  apply bind_Ret_inv in E as (? & s1 & [= _ <-] & E). apply in_proc_rules in E. by rewrite E.
Qed.

Lemma service_rules r s s' : service r s = (Ret tt, s') -> exists added, rules s' = rules s ++ added.
Proof.
  unfold service. intros E.
  apply bind_Ret_inv in E as (c & s1 & E1 & E). apply in_proc_rules in E1.
  apply bind_Ret_inv in E as ([] & s2 & E2 & E). apply call_rules in E2 as [a2 E2].
  apply bind_Ret_inv in E as (c' & s3 & E3 & E). apply in_proc_rules in E3.
  rewrite E1 in E2. destruct (c =? c').
  - apply bind_Ret_inv in E as ([] & s4 & E4 & E); [done|]. apply call_rules in E4 as [a4 E4].
    injection E as <-. exists (a2 ++ a4). by rewrite E4, E3, E2, app_assoc.
  - injection E as <-. exists a2. congruence.
Qed.

(** A pass over an array with at most one entry per rule returns only if
    there is exactly one, and then only drops rules: an added rule would be
    one without an entry. *)
Lemma dispatch_rules pfs : forall i (s s' : Loop (K:=K)),
  (i + length pfs <= length (rules s))%nat -> dispatch i pfs s = (Ret tt, s') ->
  length (rules s) = (i + length pfs)%nat /\ rules s' `sublist_of` rules s.
Proof.
  induction pfs as [|pf pfs IH]; intros i s s' Hlen E; cbn [dispatch length] in *.
  { destruct (rules s !! i) eqn:Hr; [done|]. apply lookup_ge_None in Hr. injection E as <-.
    split; [lia | done]. }
  destruct (rules s !! i) as [r|] eqn:Hr; [|apply lookup_ge_None in Hr; lia].
  assert (Hgrow : forall (s1 : Loop (K:=K)) added, rules s1 = rules s ++ added ->
    length (rules s1) = length (rules s) -> rules s1 = rules s).
  { intros s1 added E1 Hl. rewrite E1, length_app in Hl. rewrite E1.
    by rewrite (nil_length_inv added), app_nil_r by lia. }
  destruct (poll_error pf); [done|]. destruct (only_hup pf).
  - apply bind_Ret_inv in E as ([] & s1 & E1 & E). apply call_rules in E1 as [added E1].
    apply bind_Ret_inv in E as ([] & s2 & E2 & E). apply erase_rules in E2 as [Hi E2].
    assert (Hl : length (rules s1) = S (length (rules s2))).
    { rewrite E2, length_delete; [lia | by apply lookup_lt_is_Some]. }
    pose proof (f_equal length E1) as Hl1. rewrite length_app in Hl1.
    apply IH in E as [Hl2 Hs]; [|lia]. assert (rules s1 = rules s) as E3 by (eapply Hgrow; [done | lia]).
    split; [lia|]. etrans; [done|]. rewrite E2, E3. apply sublist_delete.
  - apply bind_Ret_inv in E as ([] & s1 & E1 & E).
    assert (exists added, rules s1 = rules s ++ added) as [added E2].
    { unfold when in E1. destruct (poll_ready pf); [by eapply service_rules|].
      injection E1 as <-. exists []. by rewrite app_nil_r. }
    pose proof (f_equal length E2) as Hl. rewrite length_app in Hl.
    apply IH in E as [Hl2 Hs]; [|lia]. rewrite <- (Hgrow s1 added E2) by lia. split; [lia | done].
Qed.

Lemma call_inv {A} (f : Proc K -> list (Rule (K:=K)) * (outcome A * Proc K)) a l p s' :
  call f (l, p) = (Ret a, s') -> exists added p', f p = (added, (Ret a, p')) /\ s' = (l ++ added, p').
Proof. unfold call. simpl. destruct (f p) as [added [o p']]. intros [= -> <-]. eauto. Qed.

Lemma in_proc_inv {A} (m : M (Proc K) A) a (l : list (Rule (K:=K))) p s' :
  in_proc m (l, p) = (Ret a, s') -> exists p', m p = (Ret a, p') /\ s' = (l, p').
Proof. unfold in_proc, zoom. simpl. destruct (m p) as [o p']. intros [= -> <-]. eauto. Qed.

Lemma erase_inv (done rest : list (Rule (K:=K))) r p s' :
  erase (length done) (done ++ r :: rest, p) = (Ret tt, s') ->
  exists p', destroy (fd r) p = (Ret tt, p') /\ s' = (done ++ rest, p').
Proof.
  unfold erase. intros E. apply bind_Ret_inv in E as (? & ? & [= <- <-] & E).
  unfold rules in E. cbn [fst] in E. rewrite list_lookup_middle in E by done.
  apply bind_Ret_inv in E as (? & s1 & [= _ <-] & E).
  apply in_proc_inv in E as (p' & E & ->). exists p'. split; [done|].
  cbn [fst snd]. by rewrite delete_middle.
Qed.

(** A served rule, and what its code added. *)
Lemma service_inv r l p s' : service r (l, p) = (Ret tt, s') ->
  exists c a1 p1 c1, count_of r p = Some c /\ callback r p = (a1, (Ret tt, p1)) /\
    count_of r p1 = Some c1 /\
    ((c1 <> c /\ s' = (l ++ a1, p1)) \/
     (c1 = c /\ exists a2 p2, interest r p1 = (a2, (Ret false, p2)) /\ s' = (l ++ a1 ++ a2, p2))).
Proof.
  unfold service. intros E.
  apply bind_Ret_inv in E as (c & s1 & E1 & E). apply in_proc_inv in E1 as (p0 & E1 & ->).
  apply service_count_eq in E1 as [E1 ->].
  apply bind_Ret_inv in E as ([] & s2 & E2 & E). apply call_inv in E2 as (a1 & p1 & E2 & ->).
  apply bind_Ret_inv in E as (c1 & s3 & E3 & E). apply in_proc_inv in E3 as (p0 & E3 & ->).
  apply service_count_eq in E3 as [E3 ->]. exists c, a1, p1, c1. split_and!; try done.
  destruct (Z.eqb_spec c c1) as [->|Hne]; [right | left; by injection E].
  apply bind_Ret_inv in E as ([] & s4 & E4 & E); [done|].
  apply call_inv in E4 as (a2 & p2 & E4 & ->). injection E as <-. split; [done|].
  exists a2, p2. by rewrite <- app_assoc.
Qed.

(** Rules added after the array was made have no entries in it. *)
Lemma dispatch_no_more pfs (done rest added : list (Rule (K:=K))) p s' :
  length pfs = length rest ->
  dispatch (length done) pfs (done ++ rest ++ added, p) = (Ret tt, s') -> added = [].
Proof.
  intros Hl E. apply dispatch_rules in E as [Hlen _]; unfold rules in *; simpl in *;
    rewrite !length_app in *; [apply nil_length_inv; lia | lia].
Qed.

(** Whatever the rules' code does, a pass that returns is one of [passes],
    where nothing adds rules. *)
Lemma dispatch_Ret_passes pfs : forall (done rs : list (Rule (K:=K))) p rs' p',
  length pfs = length rs -> dispatch (length done) pfs (done ++ rs, p) = (Ret tt, (rs', p')) ->
  exists kept, rs' = done ++ kept /\ passes (zip rs pfs) p kept p'.
Proof.
  induction pfs as [|pf pfs IH]; intros done rs p rs' p' Hl E;
    destruct rs as [|r rs]; try discriminate Hl; cbn [dispatch rules fst] in E.
  { rewrite app_nil_r, lookup_ge_None_2 in E by done. injection E as <- <-.
    exists []. rewrite app_nil_r. split; [done | constructor]. }
  injection Hl as Hl. unfold rules in E. cbn [fst] in E. rewrite list_lookup_middle in E by done.
  cbn [zip zip_with]. destruct (poll_error pf) eqn:He; [done|]. destruct (only_hup pf) eqn:Hh.
  - apply bind_Ret_inv in E as ([] & s1 & E1 & E). apply call_inv in E1 as (a1 & p1 & E1 & ->).
    apply bind_Ret_inv in E as ([] & s2 & E2 & E). rewrite <- app_assoc in E2. simpl in E2.
    apply erase_inv in E2 as (p2 & E2 & ->).
    pose proof (dispatch_no_more _ _ _ _ _ _ Hl E) as ->. rewrite app_nil_r in E.
    destruct (IH done rs p2 rs' p' Hl E) as (kept & -> & Hk). exists kept.
    split; [done|]. by eapply pass_hup.
  - apply bind_Ret_inv in E as ([] & s1 & E1 & E).
    assert (Hnext : forall added q, dispatch (S (length done)) pfs (done ++ r :: rs ++ added, q) =
      (Ret tt, (rs', p')) -> added = [] /\ exists kept, rs' = done ++ r :: kept /\ passes (zip rs pfs) q kept p').
    { intros added q Eq.
      replace (S (length done)) with (length (done ++ [r])) in Eq by (rewrite length_app; simpl; lia).
      replace (done ++ r :: rs ++ added) with ((done ++ [r]) ++ rs ++ added) in Eq
        by (by rewrite <- app_assoc).
      pose proof (dispatch_no_more _ _ _ _ _ _ Hl Eq) as ->. rewrite app_nil_r in Eq.
      destruct (IH _ _ _ _ _ Hl Eq) as (kept & -> & Hk). split; [done|]. exists kept.
      by rewrite <- app_assoc. }
    unfold when in E1. destruct (poll_ready pf) eqn:Hp.
    + apply service_inv in E1 as (c & a1 & p1 & c1 & G1 & G2 & G3 & [[Hc ->]|[-> (a2 & p2 & G4 & ->)]]);
        rewrite <- app_assoc in E; simpl in E; apply Hnext in E as [Ha (kept & -> & Hk)];
        exists (r :: kept); (split; [done|]).
      * subst a1. by eapply pass_progress.
      * apply app_nil in Ha as [-> ->]. by eapply pass_lost_interest.
    + injection E1 as <-. rewrite <- (app_nil_r rs) in E at 1.
      apply Hnext in E as [_ (kept & -> & Hk)]. exists (r :: kept). split; [done|]. by apply pass_skip.
Qed.

Lemma poll_once_early pfs t p pfs' res p' :
  poll_once pfs t p = (Ret (pfs', Some res), p') -> res <> Success.
Proof.
  unfold poll_once. intros E. apply bind_Ret_inv in E as (z & p1 & _ & E).
  apply bind_Ret_inv in E as (early & p2 & E & Er). injection Er as _ -> _.
  unfold try_catch in E. intros ->.
  destruct ((v ← SystemCall (lit "poll") (ret z) 0; mret (if v =? 0 then Some Timeout else None)) p1)
    as [[a|e| |] p3] eqn:Ev; try done.
  - injection E as -> _. apply bind_Ret_inv in Ev as (v & p4 & _ & Ev).
    by destruct (v =? 0).
  - destruct e; try done. by destruct (_ =? _).
Qed.

Lemma dispatch_passes rs pfs p rs' p' :
  Forall adds_nothing rs -> length pfs = length rs ->
  dispatch 0 pfs (rs, p) = (Ret tt, (rs', p')) <-> passes (zip rs pfs) p rs' p'.
Proof.
  intros Ha Hl. assert (Hz : Forall (fun rp => adds_nothing (fst rp)) (zip rs pfs)).
  { apply Forall_forall. intros [r pf] Hin. apply elem_of_zip_l in Hin.
    by apply (proj1 (Forall_forall _ _) Ha). }
  rewrite <- spec_dispatch_passes by done.
  pose proof (dispatch_sim rs pfs [] p Ha Hl) as Hs. unfold simulates in Hs.
  cbn [length app] in Hs. destruct (dispatch 0 pfs (rs, p)) as [o [l q]].
  destruct Hs as (-> & _ & Hv). destruct (spec_dispatch (zip rs pfs) p) as [[b| | |] p2];
    simpl in *; simplify_eq; split; intros E; by simplify_eq.
Qed.

(** By induction on the pass. *)
Lemma passes_keep rps p rs p' : passes rps p rs p' ->
  rs = map fst (filter (fun rp => only_hup (snd rp) = false) rps) /\
  Forall (fun rp => poll_error (snd rp) = false) rps.
Proof.
  induction 1 as [|r pf rps p p1 p2 rs p' He Hh _ _ _ [-> IH]
    |r pf rps p rs p' He Hh _ _ [-> IH]
    |r pf rps p c p1 c1 rs p' He Hr _ _ _ _ _ [-> IH]
    |r pf rps p c p1 p2 rs p' He Hr _ _ _ _ _ [-> IH]]; [done|..];
    rewrite filter_cons; simpl; try apply ready_not_hup in Hr;
    (split; [|by apply Forall_cons_2]).
  - by rewrite decide_False by (rewrite Hh; done).
  - by rewrite decide_True.
  - by rewrite decide_True.
  - by rewrite decide_True.
Qed.

End SecondLoop.

(** ** Properties *)

(** C1. [wait_next_event], which walks the list of rules twice by position
    while it erases rules from it and keeps a second array in step, does what
    the specification [spec_wait] does, which pairs each rule with its answer
    once: the same callbacks run in the same order on the same processes, with
    the same result or exception, and the rules left after a return are those
    the specification keeps.  It holds for rules whose code adds no rules to
    the loop; one round per rule and one more is enough. *)
Theorem wait_next_event_refines {K : Type} `{Kernel K} fuel (rs : list Rule) timeout_ms
    (p : Proc K) :
  Forall adds_nothing rs -> (length rs < fuel)%nat ->
  simulates rs id (wait_next_event fuel timeout_ms) (rs, p) (spec_wait rs timeout_ms p).
Proof. apply wait_sim. Qed.

Lemma wait_next_event_refines_witness :
  simulates [reading_rule 1; idle_rule 2] id (wait_next_event 3 100)
    ([reading_rule 1; idle_rule 2], demo_loop false 1 0 [1; 0])
    (spec_wait [reading_rule 1; idle_rule 2] 100 (demo_loop false 1 0 [1; 0])).
Proof.
  apply wait_next_event_refines; [|simpl; lia].
  repeat (apply Forall_cons_2; [by intros p|]). apply Forall_nil_2.
Defined.

(** C2. Memory safety and termination of [wait_next_event]: when the counts
    of the descriptors agree with the handles the rules and the program hold,
    and the rules' code returns or throws without creating or destroying
    handles, the call returns or throws, on any system; no handle dangles in
    between, the counts agree again afterwards, and no rule is left that was
    not there before. *)
Theorem wait_next_event_safe {K : Type} `{Kernel K} hs fuel (rs : list Rule) timeout_ms
    (p : Proc K) :
  owned_loop hs (rs, p) -> Forall (tame_rule hs) rs -> Forall adds_nothing rs ->
  (length rs < fuel)%nat ->
  ends_well hs rs (wait_next_event fuel timeout_ms (rs, p)).
Proof.
  intros Ho Ht Ha Hf.
  pose proof (setup_ends_well hs rs fuel [] rs [] false (rs, p) (conj eq_refl Ho) Ht Ha Hf
    (reflexivity _)) as Hset.
  unfold wait_next_event. unfold mbind at 1, M_bind at 1. cbn [length] in Hset.
  destruct (setup fuel 0 [] false (rs, p)) as [o s1] eqn:E.
  destruct Hset as (Hret & Ho1 & Hsub). simpl in Hret, Ho1, Hsub.
  destruct o as [[pfs b]| e | |]; try done.
  apply setup_aligned in E; [|done | simpl; lia].
  destruct b; [|done]. assert (Hat : loop_at hs (rules s1) s1) by done.
  apply (ends_well_bind _ _ (rules s1)); [|done|done|].
  { intros [l q] Hq. assert (l = rules s1) as -> by apply Hq.
    destruct (safe_poll_once pfs timeout_ms (snd <$> wrappers q) q eq_refl) as [H1 H2].
    unfold exec, result, in_proc in *. msimpl. destruct (poll_once _ _ q) as [o q'].
    split; [|done]. by apply (loop_at_counts hs _ q). }
  intros [pfs' early] [l2 p2] E2 Hat2. unfold in_proc, zoom in E2.
  destruct (poll_once pfs timeout_ms (snd s1)) as [o q] eqn:Hp. simplify_eq/=.
  apply poll_once_length in Hp. destruct early as [res|]; [split; [done | split; [apply Hat2 | done]]|].
  pose proof (dispatch_ends_well hs rs pfs' [] (rules s1) (fst s1, p2) Hat2
    (Forall_sublist _ _ _ Hsub Ht) (Forall_sublist _ _ _ Hsub Ha) ltac:(lia) Hsub) as Hd.
  cbn [length] in Hd. unfold mbind, M_bind. destruct (dispatch _ _ _) as [[] s3]; done.
Qed.

Lemma tame_read {K : Type} `{Kernel K} hs l limit : Some l ∈ hs ->
  tame hs (fun p : Proc K => ([], (_ ← read (Some l) limit; mret tt) p)).
Proof.
  intros Hl p Hp. specialize (Hp l Hl).
  set (m := (_ ← read (Some l) limit; mret tt) : M (Proc K) unit).
  change (let '(_, (o, p')) := ([] : list (Rule (K:=K)), m p) in
    returns o /\ snd <$> wrappers p' = snd <$> wrappers p).
  assert (Hs : safe (counts (snd <$> wrappers p)) m).
  { apply safe_bind; [|intros; apply safe_ret]. apply safe_read. rewrite lookup_fmap.
    by apply fmap_is_Some. }
  destruct (Hs p eq_refl) as [H1 H2]. unfold exec, result in *.
  by destruct (m p).
Qed.

Lemma demo_owned eof ret err revents :
  owned_loop [Some 1; Some 2]%positive
    ([reading_rule 1; idle_rule 2], demo_loop eof ret err revents).
Proof.
  split; [|repeat (apply Forall_cons_2; [by eexists|]); apply Forall_nil_2].
  intros l. simpl. destruct (decide (l = 1%positive)) as [->|H1]; [by vm_compute; lia|].
  destruct (decide (l = 2%positive)) as [->|H2]; [by vm_compute; lia|].
  rewrite !lookup_insert_ne by done. rewrite lookup_empty. unfold refs.
  by rewrite !filter_cons, !decide_False by congruence.
Qed.

Lemma wait_next_event_safe_witness :
  ends_well [Some 1; Some 2]%positive [reading_rule 1; idle_rule 2]
    (wait_next_event 3 100 ([reading_rule 1; idle_rule 2], demo_loop false 1 0 [1; 0])).
Proof.
  apply wait_next_event_safe; [| | | simpl; lia].
  - apply demo_owned.
  - repeat (apply Forall_cons_2; [|]); [| | apply Forall_nil_2].
    + split; [apply tame_read; set_solver | by split; intros p Hp].
    + split; [|split]; by intros p Hp.
  - repeat (apply Forall_cons_2; [by intros p|]). apply Forall_nil_2.
Defined.

(** C19. The first loop of [wait_next_event], for rules whose [interest] and
    [cancel] always answer, without adding rules or touching descriptor
    objects: it comes to its end; a rule is dropped exactly when its descriptor
    is closed, or is to be read and at end of file, whatever [interest] would
    say of it; the array given to [poll] has one entry for each rule that
    stays, in order, with the number of the rule's descriptor, no stale
    results, and either no events or those of the rule's direction; there is
    something to poll exactly when some entry asks for events; and the handles
    of the rules dropped, no others, have been given up. *)
Theorem first_loop_drops_finished {K : Type} `{Kernel K} hs fuel (rs : list Rule) (p : Proc K) :
  owned_loop hs (rs, p) -> Forall quiet_rule rs -> (length rs < fuel)%nat ->
  exists pollfds something rs' p',
    setup fuel 0 [] false (rs, p) = (Ret (pollfds, something), (rs', p')) /\
    rs' = filter (fun r => finished p r = false) rs /\
    Forall2 (polls p') rs' pollfds /\
    something = existsb (fun pf => nonzero (events pf)) pollfds /\
    owned_loop hs (rs', p').
Proof.
  intros [Ho Hl] Hq Hf.
  assert (Hask : Forall asks_only rs) by (eapply Forall_impl; [exact Hq | apply quiet_asks]).
  pose proof (setup_sim fuel [] rs [] false p Hask Hf) as Hs.
  destruct (spec_setup_keeps rs p hs Ho Hl Hq) as (rps & q & E & Hm & Hp & _ & Ho').
  unfold simulates in Hs. cbn [app length] in Hs. rewrite E in Hs.
  destruct (setup fuel 0 [] false (rs, p)) as [o [rs' p']].
  destruct Hs as (-> & Hsub & Hv). simpl in Hv. injection Hv as -> ->.
  do 4 eexists. split; [reflexivity|]. split; [done|]. split; [|split; [|split]].
  - clear E Hm Ho' Hsub. induction Hp; by constructor.
  - clear E Hm Hp Ho' Hsub. induction rps as [|rp rps IH]; [done|]. simpl. by rewrite IH.
  - exact Ho'.
  - rewrite Forall_forall in Hl |- *. intros r Hr. apply Hl. by eapply sublist_subseteq.
Qed.

Lemma first_loop_drops_finished_witness :
  exists pollfds something rs' p', setup 3 0 [] false ([reading_rule 1; idle_rule 2], demo_loop true 0 0 []) =
      (Ret (pollfds, something), (rs', p')) /\
    rs' = [idle_rule 2] /\ Forall2 (polls p') rs' pollfds.
Proof.
  destruct (first_loop_drops_finished [Some 1; Some 2]%positive 3
    [reading_rule 1; idle_rule 2] (demo_loop true 0 0 []) (demo_owned _ _ _ _))
    as (pollfds & something & rs' & p' & E & Hr & Hp & _);
    [|simpl; lia|by exists pollfds, something, rs', p'].
  repeat (apply Forall_cons_2; [split; intros q; by do 2 eexists|]); apply Forall_nil_2.
Defined.

(** C28. What [poll] answers decides the call, once the first loop has found
    something to poll.  Nothing ready is [Timeout], a signal is [Exit], and
    everything else goes on to the second loop: also an error other than
    [EINTR], which is swallowed.  When such a failing [poll] leaves the array
    as it was, no callback runs and the result is [Success]. *)
Theorem poll_answers {K : Type} `{Kernel K} fuel timeout_ms (s : Loop (K:=K)) pollfds s1 :
  setup fuel 0 [] false s = (Ret (pollfds, true), s1) ->
  let '(r, k) := sys_poll pollfds timeout_ms (kernel (snd s1)) in
  let s2 := (fst s1, after r k (snd s1)) in
  wait_next_event fuel timeout_ms s =
    (if ret r =? 0 then mret Timeout
     else if (ret r <? 0) && (err r =? EINTR) then mret Exit
     else dispatch 0 (fill_revents pollfds (out r)) ;;; mret Success) s2 /\
  (ret r < 0 -> err r <> EINTR -> length pollfds = length (rules s1) ->
   out r = map (fun _ => 0) pollfds -> wait_next_event fuel timeout_ms s = (Ret Success, s2)).
Proof.
  intros E. destruct (sys_poll _ _ _) as [r k] eqn:Hp. set (s2 := (_, _)).
  assert (Hw : wait_next_event fuel timeout_ms s =
    (if ret r =? 0 then mret Timeout
     else if (ret r <? 0) && (err r =? EINTR) then mret Exit
     else dispatch 0 (fill_revents pollfds (out r)) ;;; mret Success) s2).
  { unfold wait_next_event. erewrite bind_Ret by exact E. cbn [negb].
    rewrite (poll_once_eq pollfds timeout_ms s1 r k _ Hp).
    destruct (ret r =? 0); [done|]. by destruct (_ && _). }
  split; [exact Hw|]. intros Hneg Hne Hlen Hout. rewrite Hw.
  rewrite (proj2 (Z.eqb_neq (ret r) 0)), (proj2 (Z.eqb_neq (err r) EINTR)), andb_false_r by lia.
  erewrite bind_Ret; [done|]. rewrite Hout. by apply dispatch_idle.
Qed.

Lemma poll_answers_witness :
  exists s2, wait_next_event 3 100 ([reading_rule 1; idle_rule 2], demo_loop false (-1) 5 [0; 0]) =
    (Ret Success, ([reading_rule 1; idle_rule 2], s2)) /\
    wrappers s2 = wrappers (demo_loop false (-1) 5 [0; 0]).
Proof.
  eexists. split.
  - refine (proj2 (poll_answers 3 100
      ([reading_rule 1; idle_rule 2], demo_loop false (-1) 5 [0; 0]) [mkPollfd 3 POLLIN 0; mkPollfd 4 0 0]
      ([reading_rule 1; idle_rule 2], demo_loop false (-1) 5 [0; 0]) eq_refl) _ _ _ _); done.
  - reflexivity.
Defined.

(** C27. [Success] comes only of a second loop whose code adds no rule,
    whatever the rules' code is: the first loop found something to poll, [poll]
    was answered, and from there the call went along the passes of the relation
    [passes], in which every callback, interest and cancellation that runs
    adds nothing; the rules left are some of those there were after the first
    loop (with those that its own calls added), in order.  So once the second
    loop has reached a ready rule whose callback adds rules, the call does not
    return: the list is longer than the array, and unless something throws the
    loop reads the array past its end. *)
Theorem success_adds_no_rule {K : Type} `{Kernel K} fuel timeout_ms (s s' : Loop (K:=K)) :
  (wait_next_event fuel timeout_ms s = (Ret Success, s') ->
   exists pollfds s1 pollfds' p1, setup fuel 0 [] false s = (Ret (pollfds, true), s1) /\
     poll_once pollfds timeout_ms (snd s1) = (Ret (pollfds', None), p1) /\
     length pollfds' = length (rules s1) /\
     passes (zip (rules s1) pollfds') p1 (rules s') (snd s') /\ rules s' `sublist_of` rules s1) /\
  (forall (done rest added : list Rule) r pf pollfds p p1, length pollfds = length rest ->
   poll_ready pf = true -> callback r p = (added, (Ret tt, p1)) -> added <> [] ->
   dispatch (length done) (pf :: pollfds) (done ++ r :: rest, p) <> (Ret tt, s')).
Proof.
  split.
  - intros E. unfold wait_next_event in E.
    apply bind_Ret_inv in E as ([pfs b] & s1 & E1 & E). destruct b; [|done].
    exists pfs, s1. pose proof (setup_aligned _ _ _ _ _ _ _ _ E1 ltac:(done) ltac:(simpl; lia)) as Hal.
    apply bind_Ret_inv in E as ([pfs' early] & s2 & E2 & E). destruct s1 as [l1 q1].
    apply in_proc_inv in E2 as (p1 & E2 & ->).
    pose proof (poll_once_length _ _ _ _ _ _ E2) as Hl. exists pfs', p1.
    destruct early as [res|].
    { apply poll_once_early in E2. by injection E as ->. }
    apply bind_Ret_inv in E as ([] & [l3 p3] & E3 & E). injection E as <-.
    unfold rules in *. simpl in *. split; [done|]. split; [done|]. split; [lia|].
    pose proof (dispatch_rules pfs' 0 (l1, p1) (l3, p3) ltac:(unfold rules; simpl; lia) E3) as [_ Hs].
    split; [|exact Hs].
    destruct (dispatch_Ret_passes pfs' [] l1 p1 l3 p3 ltac:(lia) E3) as (kept & -> & Hk). exact Hk.
  - intros done rest added r pf pfs p p1 Hl Hr Hcb Hadd E. destruct s' as [rs' p'].
    destruct (dispatch_Ret_passes (pf :: pfs) done (r :: rest) p rs' p' ltac:(simpl; lia) E)
      as (kept & _ & Hk). cbn [zip zip_with] in Hk.
    pose proof (ready_not_hup pf Hr) as Hh. inversion Hk; subst; congruence.
Qed.

Lemma success_adds_no_rule_witness :
  exists s', wait_next_event 3 100 ([reading_rule 1; idle_rule 2], demo_loop false 1 0 [1; 0]) =
      (Ret Success, s') /\
    exists pollfds s1 pollfds' p1, setup 3 0 [] false
        ([reading_rule 1; idle_rule 2], demo_loop false 1 0 [1; 0]) = (Ret (pollfds, true), s1) /\
      poll_once pollfds 100 (snd s1) = (Ret (pollfds', None), p1) /\
      length pollfds' = length (rules s1) /\
      passes (zip (rules s1) pollfds') p1 (rules s') (snd s') /\ rules s' `sublist_of` rules s1.
Proof.
  assert (E : fst (wait_next_event 3 100
    ([reading_rule 1; idle_rule 2], demo_loop false 1 0 [1; 0])) = Ret Success)
    by (vm_compute; reflexivity).
  destruct (wait_next_event _ _ _) as [o s'] eqn:W. simpl in E. subst o. exists s'.
  split; [done|]. exact (proj1 (success_adds_no_rule 3 100 _ s') W).
Defined.

(** A rule added by [interest], in the first loop, is polled with the others. *)
Example rules_added_in_the_first_loop :
  fst (wait_next_event 4 100
    ([mkRule (Some 1%positive) In (callback (reading_rule 1)) (fun p => ([idle_rule 2], (Ret true, p))) nop],
     demo_loop false 1 0 [1; 0])) = Ret Success.
Proof. vm_compute. reflexivity. Qed.

(** A rule that adds another one whenever it is called. *)
Example adding_a_rule_goes_out_of_range :
  fst (wait_next_event 3 100
    ([mkRule (Some 1%positive) In
        (fun p => ([idle_rule 2], (_ ← read (Some 1%positive) 10; mret tt) p)) always nop],
     demo_loop false 1 0 [1])) = Undef.
Proof. vm_compute. reflexivity. Qed.

(** C18. The second loop, as a state machine: for rules whose code adds no
    rules, it returns exactly along the passes of the relation [passes].  So
    a rule is cancelled and its handle destroyed if its only condition was a
    hangup, is left alone if it is not ready, and if it is ready its callback
    is called and must change the count of its direction or end its interest:
    the loop returns on no other run (the rest throw, or do what the callbacks
    do), and returns on every one of these. *)
Theorem second_loop_is_passes {K : Type} `{Kernel K} (rs rs' : list Rule) pollfds
    (p p' : Proc K) :
  Forall adds_nothing rs -> length pollfds = length rs ->
  dispatch 0 pollfds (rs, p) = (Ret tt, (rs', p')) <-> passes (zip rs pollfds) p rs' p'.
Proof. apply dispatch_passes. Qed.

Lemma second_loop_is_passes_witness :
  exists p', passes
    [(reading_rule 1, mkPollfd 3 POLLIN POLLIN); (idle_rule 2, mkPollfd 4 POLLOUT POLLHUP)]
    (demo_loop false 2 0 []) [reading_rule 1] p'.
Proof.
  eexists. apply (second_loop_is_passes [reading_rule 1; idle_rule 2] [reading_rule 1]
    [mkPollfd 3 POLLIN POLLIN; mkPollfd 4 POLLOUT POLLHUP]); [|done|reflexivity].
  repeat (apply Forall_cons_2; [by intros p|]). apply Forall_nil_2.
Defined.

(** After a second loop that returns, no polled descriptor was in error,
    and the rules left are exactly those whose entry was not a mere hangup:
    in particular no ready or idle rule is ever lost, and their order is
    kept. *)
Theorem hangups_drop_rules {K : Type} `{Kernel K} (rs rs' : list Rule) pollfds (p p' : Proc K) :
  Forall adds_nothing rs -> length pollfds = length rs ->
  dispatch 0 pollfds (rs, p) = (Ret tt, (rs', p')) ->
  Forall (fun pf => poll_error pf = false) pollfds /\
  rs' = map fst (filter (fun rp => only_hup (snd rp) = false) (zip rs pollfds)).
Proof.
  intros Ha Hl E. apply dispatch_passes in E; [|done..].
  destruct (passes_keep _ _ _ _ E) as [-> He]. split; [|done].
  rewrite <- (snd_zip rs pollfds) by lia. by apply Forall_fmap.
Qed.

Lemma hangups_drop_rules_witness :
  exists rs' p', dispatch 0 [mkPollfd 3 POLLIN POLLIN; mkPollfd 4 POLLOUT POLLHUP]
      ([reading_rule 1; idle_rule 2], demo_loop false 2 0 []) = (Ret tt, (rs', p')) /\
    rs' = [reading_rule 1].
Proof.
  assert (E : fst (dispatch 0 [mkPollfd 3 POLLIN POLLIN; mkPollfd 4 POLLOUT POLLHUP]
      ([reading_rule 1; idle_rule 2], demo_loop false 2 0 [])) = Ret tt)
    by (vm_compute; reflexivity).
  destruct (dispatch _ _ _) as [o [rs' p']] eqn:W. simpl in E. subst o. exists rs', p'.
  split; [done|]. refine (proj2 (hangups_drop_rules _ rs' _ _ p' _ _ W)); [|done].
  repeat (apply Forall_cons_2; [by intros p|]). apply Forall_nil_2.
Defined.

(** A callback that reads its descriptor is never taken for a busy wait,
    even if it reads nothing and its rule stays interested: on a system whose
    [read] does what its manual says, the service of such a rule returns, or
    throws the error of [read]. *)
Theorem reading_is_progress {K : Type} `{KernelLaws K} l w limit r (rs : list Rule) (p : Proc K) :
  fd r = Some l -> direction r = In -> deref l (wrappers p) = Some w ->
  0 <= limit ->
  callback r = (fun p => ([], (_ ← read (Some l) limit; mret tt) p)) ->
  let '(o, (rs', p')) := service r (rs, p) in
  rs' = rs /\ (o = Ret tt \/ exists e, o = Throw (unix_error (lit "read") e)).
Proof.
  intros Hfd Hdir Hw Hlim Hcb. unfold service.
  assert (Hcount : forall q w', deref l (wrappers q) = Some w' ->
    in_proc (service_count r) (rs, q) = (Ret (_read_count w'), (rs, q))).
  { intros q w' Hq. unfold in_proc, zoom. cbn [fst snd].
    rewrite (proj2 (service_count_eq r q (_read_count w') q)); [done|].
    split; [|done]. unfold count_of. rewrite Hfd, Hdir. simpl. by rewrite Hq. }
  erewrite bind_Ret by (by apply Hcount).
  pose proof (read_outcome l w limit p Hw Hlim) as Hr.
  destruct (sys_read (_fd w) (Z.min BUFFER_SIZE limit) (kernel p)) as [z k].
  destruct (ret z <? 0).
  { rewrite (bind_Throw _ _ (rs, p) (rs, after z k p) (unix_error (lit "read") (err z)));
      [split; [done | right; by eexists]|].
    unfold call. rewrite Hcb. cbn [fst snd]. erewrite bind_Throw by exact Hr.
    by rewrite app_nil_r. }
  erewrite bind_Ret.
  2: { unfold call. rewrite Hcb. cbn [fst snd]. erewrite bind_Ret by exact Hr.
    by rewrite app_nil_r. }
  erewrite bind_Ret.
  2: { apply (Hcount _ (read_effect limit (ret z) w)). simpl.
    rewrite deref_update, decide_True by done. unfold after. simpl. by rewrite Hw. }
  assert (Hn : _read_count (read_effect limit (ret z) w) = u32 (_read_count w + 1)).
  { unfold read_effect. by destruct (_ && _). }
  rewrite Hn, (proj2 (Z.eqb_neq _ _)); [by split; [|left]|].
  intros E. symmetry in E. by apply u32_succ_ne in E.
Qed.

Lemma reading_is_progress_witness :
  let '(o, (rs', _)) := service (reading_rule 1)
    ([reading_rule 1], demo_proc 2) in
  rs' = [reading_rule 1] /\ (o = Ret tt \/ exists e, o = Throw (unix_error (lit "read") e)).
Proof.
  exact (reading_is_progress 1%positive (mkWrapper 3 false false 0 0) 10 (reading_rule 1)
    [reading_rule 1] (demo_proc 2) eq_refl eq_refl eq_refl ltac:(lia) eq_refl).
Defined.
