(* ===== verification/Reentry.v ===== *)
(** The event loop of [libsponge/util/eventloop.{hh,cc}] once more, with the
    [std::list] of rules as nodes, the loop variables as iterators to nodes,
    and callbacks as code that may call [add_rule] and [wait_next_event] on
    the loop that runs them. *)

From S2P Require Import Prelude Buffer Process FileDescriptor EventLoop.

Local Open Scope Z_scope.

Section Reentry.
Context {K : Type} `{Kernel K}.

(** What is held in a [std::function]: calls on the process, on the loop's
    [add_rule], and on its [wait_next_event], whose exceptions may be caught. *)
#[warnings="-register-all"]
Inductive code (A : Type) : Type :=
  | Pure (a : A)
  | Act {B : Type} (m : M (Proc K) B) (k : B -> code A)
  | Adds (h : FileDescriptor) (d : Direction) (cb : code unit) (intr : code bool) (cncl : code unit)
      (k : code A)
  | Waits (timeout_ms : Z) (k : Result + exn -> code A).
Arguments Pure {A} a.
Arguments Act {A B} m k.
Arguments Adds {A} h d cb intr cncl k.
Arguments Waits {A} timeout_ms k.

Record node : Type := mkNode {
  node_fd : FileDescriptor;
  node_direction : Direction;
  node_callback : code unit;
  node_interest : code bool;
  node_cancel : code unit
}.

(** The list, node by node, the number of nodes made so far, and the process
    the loop runs in.  A node keeps its number, which is what an iterator to
    it is, and no other gets it. *)
Record NodeLoop : Type := mkLoop {
  nodes : list (positive * node);
  next_node : positive;
  process : Proc K
}.

Definition on_process {A} (m : M (Proc K) A) : M NodeLoop A :=
  zoom process (fun p s => mkLoop (nodes s) (next_node s) p) m.

(** ** Iterators *)

(** [None] is [_rules.end()]. *)
Definition iterator : Type := option positive.

Definition first_node (l : list (positive * node)) : iterator := fst <$> head l.

Fixpoint find_node (i : positive) (l : list (positive * node)) : option node :=
  match l with
  | [] => None
  | (j, n) :: l' => if decide (j = i) then Some n else find_node i l'
  end.

(** The iterator after [i]; [None] if [i] is not in the list. *)
Fixpoint after_node (i : positive) (l : list (positive * node)) : option iterator :=
  match l with
  | [] => None
  | (j, _) :: l' => if decide (j = i) then Some (first_node l') else after_node i l'
  end.

Fixpoint remove_node (i : positive) (l : list (positive * node)) : list (positive * node) :=
  match l with
  | [] => []
  | (j, n) :: l' => if decide (j = i) then l' else (j, n) :: remove_node i l'
  end.

(** [*it], [++it] and [_rules.erase(it)] of a node that is gone are undefined. *)
Definition node_at (i : positive) : M NodeLoop node :=
  s ← get;
  match find_node i (nodes s) with Some n => mret n | None => undefined end.

Definition advance (i : positive) : M NodeLoop iterator :=
  s ← get;
  match after_node i (nodes s) with Some it => mret it | None => undefined end.

Definition erase_node (i : positive) : M NodeLoop iterator :=
  n ← node_at i;
  it ← advance i;
  modify (fun s => mkLoop (remove_node i (nodes s)) (next_node s) (process s)) ;;;
  on_process (destroy (node_fd n)) ;;;
  mret it.

Definition add_node (h : FileDescriptor) (d : Direction) (cb : code unit) (intr : code bool)
    (cncl : code unit) : M NodeLoop unit :=
  h' ← on_process (duplicate h);
  modify (fun s => mkLoop (nodes s ++ [(next_node s, mkNode h' d cb intr cncl)])
                     (Pos.succ (next_node s)) (process s)).

(** ** The loop *)

(** Running a piece of code, in a loop whose [wait_next_event] is [wait]. *)
Fixpoint run_code (wait : Z -> M NodeLoop Result) {A : Type} (c : code A) : M NodeLoop A :=
  match c with
  | Pure a => mret a
  | Act m k => b ← on_process m; run_code wait (k b)
  | Adds h d cb intr cncl k => add_node h d cb intr cncl ;;; run_code wait k
  | Waits t k =>
      r ← try_catch (r ← wait t; mret (inl r)) (fun e => mret (inr e));
      run_code wait (k r)
  end.

Section Body.
Variable wait : Z -> M NodeLoop Result.

(** Calling a function of the node [i]; a [std::function] may not be destroyed
    while it runs, whether what it runs returns or throws. *)
Definition call_at {A} (i : positive) (f : node -> code A) : M NodeLoop A :=
  n ← node_at i;
  a ← try_catch (run_code wait (f n)) (fun e => _ ← node_at i; throw e);
  _ ← node_at i;
  mret a.

Definition node_eof (n : node) : M (Proc K) bool :=
  match node_direction n with In => eof (node_fd n) | Out => mret false end.

Definition node_count (n : node) : M (Proc K) Z :=
  match node_direction n with In => read_count (node_fd n) | Out => write_count (node_fd n) end.

(** The first loop. *)
Fixpoint setup_nodes (rounds : nat) (it : iterator) (pollfds : list pollfd) (something_to_poll : bool) :
    M NodeLoop (list pollfd * bool) :=
  match rounds with
  | O => out_of_fuel
  | S rounds' =>
      match it with
      | None => mret (pollfds, something_to_poll)
      | Some i =>
          this_rule ← node_at i;
          e ← on_process (node_eof this_rule);
          if (e : bool) then
            call_at i node_cancel ;;; it ← erase_node i; setup_nodes rounds' it pollfds something_to_poll
          else
            c ← on_process (closed (node_fd this_rule));
            if (c : bool) then
              call_at i node_cancel ;;; it ← erase_node i; setup_nodes rounds' it pollfds something_to_poll
            else
              b ← call_at i node_interest;
              n ← on_process (fd_num (node_fd this_rule));
              it ← advance i;
              if (b : bool)
              then setup_nodes rounds' it
                     (pollfds ++ [mkPollfd n (direction_events (node_direction this_rule)) 0]) true
              else setup_nodes rounds' it (pollfds ++ [mkPollfd n 0 0]) something_to_poll
      end
  end.

(** The body of [if (poll_ready)]. *)
Definition service_node (i : positive) : M NodeLoop unit :=
  this_rule ← node_at i;
  count_before ← on_process (node_count this_rule);
  call_at i node_callback ;;;
  count_after ← on_process (node_count this_rule);
  if count_before =? count_after then
    b ← call_at i node_interest;
    if (b : bool) then throw busy_wait else mret tt
  else mret tt.

(** The second loop. *)
Fixpoint dispatch_nodes (it : iterator) (pollfds : list pollfd) : M NodeLoop unit :=
  match it with
  | None => mret tt
  | Some i =>
      match pollfds with
      | [] => undefined
      | pf :: rest =>
          if poll_error pf then throw poll_failure
          else if only_hup pf then
            call_at i node_cancel ;;; it ← erase_node i; dispatch_nodes it rest
          else
            when (poll_ready pf) (service_node i) ;;; it ← advance i; dispatch_nodes it rest
      end
  end.

Definition wait_body (rounds : nat) (timeout_ms : Z) : M NodeLoop Result :=
  s ← get;
  ps ← setup_nodes rounds (first_node (nodes s)) [] false;
  let '(pollfds, something_to_poll) := ps in
  if negb something_to_poll then mret Exit
  else
    pe ← on_process (poll_once pollfds timeout_ms);
    let '(pollfds, early) := pe in
    match early with
    | Some r => mret r
    | None => s ← get; dispatch_nodes (first_node (nodes s)) pollfds ;;; mret Success
    end.

End Body.

(** [depth] bounds the calls within calls, [rounds] each first loop. *)
Fixpoint wait_nodes (rounds depth : nat) (timeout_ms : Z) : M NodeLoop Result :=
  match depth with
  | O => out_of_fuel
  | S depth' => wait_body (wait_nodes rounds depth') rounds timeout_ms
  end.

(** ** Code that does not re-enter the loop *)

Fixpoint no_wait {A : Type} (c : code A) : Prop :=
  match c with
  | Pure _ => True
  | Act _ k => forall b, no_wait (k b)
  | Adds _ _ cb intr cncl k => no_wait cb /\ no_wait intr /\ no_wait cncl /\ no_wait k
  | Waits _ _ => False
  end.

(** It is a function as in [EventLoop.Rule]: from a process to the rules it
    adds, its outcome and the process after. *)
Fixpoint plain {A : Type} (c : code A) : Proc K -> list Rule * (outcome A * Proc K) :=
  match c with
  | Pure a => fun p => ([], (Ret a, p))
  | Act m k => fun p =>
      match m p with
      | (Ret b, p') => plain (k b) p'
      | (Throw e, p') => ([], (Throw e, p'))
      | (Undef, p') => ([], (Undef, p'))
      | (NoFuel, p') => ([], (NoFuel, p'))
      end
  | Adds h d cb intr cncl k => fun p =>
      match duplicate h p with
      | (Ret h', p') =>
          let '(added, r) := plain k p' in
          (mkRule h' d (plain cb) (plain intr) (plain cncl) :: added, r)
      | (Throw e, p') => ([], (Throw e, p'))
      | (Undef, p') => ([], (Undef, p'))
      | (NoFuel, p') => ([], (NoFuel, p'))
      end
  | Waits _ _ => fun p => ([], (Undef, p))
  end.

Definition rule_of (n : node) : Rule :=
  mkRule (node_fd n) (node_direction n) (plain (node_callback n)) (plain (node_interest n))
    (plain (node_cancel n)).

(** The loop with positions in place of nodes. *)
Definition positions (s : NodeLoop) : Loop := (map (fun x => rule_of x.2) (nodes s), process s).

Definition no_wait_node (n : node) : Prop :=
  no_wait (node_callback n) /\ no_wait (node_interest n) /\ no_wait (node_cancel n).

(** No two nodes are the same, and new ones will be others. *)
Definition distinct (s : NodeLoop) : Prop :=
  NoDup (map fst (nodes s)) /\ Forall (fun x => (x.1 < next_node s)%positive) (nodes s).

Definition plain_loop (s : NodeLoop) : Prop :=
  distinct s /\ Forall (fun x => no_wait_node x.2) (nodes s).

(** ** Code that re-enters the loop within bounds *)

Section Bounds.
Variables (I : Proc K -> Prop) (mu : Proc K -> nat).

(** Run from [p], the code keeps [I] and adds no rules; [mu] is below [d]
    whenever it waits, and not above [d] at its end. *)
Fixpoint bounded {A : Type} (d : nat) (c : code A) (p : Proc K) : Prop :=
  match c with
  | Pure _ => I p /\ (mu p <= d)%nat
  | Act m k =>
      match m p with
      | (Ret b, p') => bounded d (k b) p'
      | (Throw _, p') => I p' /\ (mu p' <= d)%nat
      | _ => False
      end
  | Adds _ _ _ _ _ _ => False
  | Waits _ k => I p /\ (mu p < d)%nat /\ forall r p', I p' -> (mu p' <= mu p)%nat -> bounded d (k r) p'
  end.

(** The rule's descriptor stays open and readable, and its code is bounded. *)
Definition steady_node (n : node) : Prop := forall p, I p ->
  (exists l w, node_fd n = Some l /\ deref l (wrappers p) = Some w /\ _closed w = false /\
     (node_direction n = In -> _eof w = false)) /\
  bounded (mu p) (node_callback n) p /\ bounded (mu p) (node_interest n) p.

(** [poll] reports no mere hangup. *)
Definition quiet_poll : Prop := forall pollfds t p, Forall (fun pf => revents pf = 0) pollfds -> I p ->
  let '(o, p') := poll_once pollfds t p in
  returns o /\ I p' /\ (mu p' <= mu p)%nat /\
  match o with Ret (pfs, _) => Forall (fun pf => only_hup pf = false) pfs | _ => True end.

(** A call on the loop with nodes [l] that settles: it returns or throws, the
    nodes are the same, [I] holds and [mu] is at most [d]. *)
Definition settles {A} (l : list (positive * node)) (d : nat) (Q : A -> Prop)
    (c : outcome A * NodeLoop) : Prop :=
  returns (fst c) /\ nodes (snd c) = l /\ I (process (snd c)) /\ (mu (process (snd c)) <= d)%nat /\
  match fst c with Ret a => Q a | _ => True end.

End Bounds.

End Reentry.

Arguments code K A : clear implicits.
Arguments Pure {K A} a.
Arguments Act {K A B} m k.
Arguments Adds {K A} h d cb intr cncl k.
Arguments Waits {K A} timeout_ms k.

(** ** Code for concrete runs *)

(** Up to three times, it logs an exception and waits in its turn. *)
Definition diving_code {K : Type} `{Kernel K} : code K unit :=
  Act (n ← gets (fun p : Proc K => length (cerr p));
       if (n <? 3)%nat then modify (log_cerr poll_failure) ;;; mret true else mret false)
    (fun b : bool => if b then Waits 0 (fun _ => Pure tt) else Pure tt).

(** It reads its descriptor, and waits in its turn. *)
Definition reading_code {K : Type} `{Kernel K} : code K unit :=
  Act (read (Some 1%positive) 10) (fun _ => Waits 0 (fun _ => Pure tt)).

(** A rule to read the descriptor of the object 1. *)
Definition node_of {K : Type} `{Kernel K} (cb : code K unit) : node (K:=K) :=
  mkNode (Some 1%positive) In cb (Pure true) (Pure tt).

(** A loop with this rule, in which [poll] says that it is ready to read
    [input]. *)
Definition demo_nodes (cb : code Loopback.t unit) (input : bytes) : NodeLoop :=
  mkLoop [(1%positive, node_of cb)] 2
    (mkProc 0 (Loopback.mk {[ 3 := input ]} ∅ 10 0 1 0 [POLLIN] [])
       {[ 1%positive := (mkWrapper 3 false false 0 0, 1%nat) ]} []).

(** ** Iterators and positions *)

Section Iterators.
Context {K : Type} `{Kernel K}.
Implicit Types l : list (positive * node (K:=K)).

Lemma head_not_below j l k i n : j ∉ map fst l -> l !! k = Some (i, n) -> j <> i.
Proof.
  intros Hj Hk ->. apply Hj, list_elem_of_fmap. exists (i, n).
  split; [done | by eapply list_elem_of_lookup_2].
Qed.

(** Goes down the list to the node at a position. *)
Ltac down_to_node l :=
  let k := fresh "k" in induction l as [|[j n'] l IH]; intros k Hd Hk; [done|]; simpl in *;
  apply NoDup_cons in Hd as [Hj Hd]; destruct k as [|k]; simplify_eq/=;
  [rewrite decide_True by done | rewrite decide_False by (by eapply head_not_below)].

Lemma find_node_at l i n : forall k, NoDup (map fst l) -> l !! k = Some (i, n) ->
  find_node i l = Some n.
Proof. down_to_node l; [done | by eapply IH]. Qed.

Lemma after_node_at l i n : forall k, NoDup (map fst l) -> l !! k = Some (i, n) ->
  after_node i l = Some (fst <$> l !! S k).
Proof. down_to_node l; [by destruct l | by eapply IH]. Qed.

Lemma remove_node_at l i n : forall k, NoDup (map fst l) -> l !! k = Some (i, n) ->
  remove_node i l = delete k l.
Proof. down_to_node l; [done | f_equal; by eapply IH]. Qed.

End Iterators.

(** ** Nodes refine positions *)

Section Refinement.
Context {K : Type} `{Kernel K}.
Implicit Types (s : NodeLoop (K:=K)).

(** From [s], the node loop does [m] as the loop of positions does [m'], and
    where they return [Q] holds. *)
Definition mirrors {A} s (m : M NodeLoop A) (m' : M Loop A) (Q : A -> NodeLoop -> Prop) : Prop :=
  let '(o, s1) := m s in
  m' (positions s) = (o, positions s1) /\ plain_loop s1 /\
  match o with Ret a => Q a s1 | _ => True end.

Lemma mirrors_ret {A} s (a : A) (Q : A -> NodeLoop -> Prop) : plain_loop s -> Q a s -> mirrors s (mret a) (mret a) Q.
Proof. by intros. Qed.

Lemma mirrors_throw {A} s e (Q : A -> NodeLoop -> Prop) : plain_loop s -> mirrors s (throw e) (throw e) Q.
Proof. by intros. Qed.

Lemma mirrors_bind {A B} s m m' Q (k : A -> M NodeLoop B) k' R : mirrors s m m' Q ->
  (forall a s1, plain_loop s1 -> Q a s1 -> mirrors s1 (k a) (k' a) R) ->
  mirrors s (m ≫= k) (m' ≫= k') R.
Proof.
  intros Hm Hk. unfold mirrors in *. unfold mbind, M_bind. destruct (m s) as [o s1].
  destruct Hm as (-> & Hp & Hq). destruct o as [a|e| |]; try done. by apply Hk.
Qed.

Lemma mirrors_post {A} s (m : M NodeLoop A) m' (Q R : A -> NodeLoop -> Prop) : mirrors s m m' Q ->
  (forall a s1, Q a s1 -> R a s1) -> mirrors s m m' R.
Proof.
  unfold mirrors. destruct (m s) as [o s1]. intros (? & ? & Hq) HR. split; [done|]. split; [done|].
  destruct o; auto.
Qed.

Lemma mirrors_process {A} s (m : M (Proc K) A) : plain_loop s ->
  mirrors s (on_process m) (in_proc m) (fun _ s1 => nodes s1 = nodes s).
Proof.
  intros Hp. unfold mirrors, on_process, in_proc, zoom, positions. simpl.
  destruct (m (process s)) as [o p]. simpl. split; [done|]. split; [done|]. by destruct o.
Qed.

Lemma mirrors_at {A} s (m : M NodeLoop A) m' m'' Q : m' (positions s) = m'' (positions s) ->
  mirrors s m m'' Q -> mirrors s m m' Q.
Proof. unfold mirrors. by intros ->. Qed.

(** *** Iterators *)

Lemma node_at_eq s i n j : plain_loop s -> nodes s !! j = Some (i, n) -> node_at i s = (Ret n, s).
Proof.
  intros [[Hd _] _] Hj. unfold node_at. msimpl. by rewrite (find_node_at _ _ _ _ Hd Hj).
Qed.

Lemma advance_eq s i n j : plain_loop s -> nodes s !! j = Some (i, n) ->
  advance i s = (Ret (fst <$> nodes s !! S j), s).
Proof.
  intros [[Hd _] _] Hj. unfold advance. msimpl. by rewrite (after_node_at _ _ _ _ Hd Hj).
Qed.

Lemma mirrors_node_at {A} s i n j (k : node -> M NodeLoop A) m' Q :
  plain_loop s -> nodes s !! j = Some (i, n) -> mirrors s (k n) m' Q ->
  mirrors s (node_at i ≫= k) m' Q.
Proof. intros Hs Hj. unfold mirrors. by rewrite (bind_Ret _ _ _ _ _ (node_at_eq _ _ _ _ Hs Hj)). Qed.

Lemma mirrors_advance {A} s i n j (k : iterator -> M NodeLoop A) m' Q :
  plain_loop s -> nodes s !! j = Some (i, n) -> mirrors s (k (fst <$> nodes s !! S j)) m' Q ->
  mirrors s (advance i ≫= k) m' Q.
Proof. intros Hs Hj. unfold mirrors. by rewrite (bind_Ret _ _ _ _ _ (advance_eq _ _ _ _ Hs Hj)). Qed.

Lemma plain_loop_delete s j p : plain_loop s ->
  plain_loop (mkLoop (delete j (nodes s)) (next_node s) p).
Proof.
  intros [[Hd Hn] Hp]. split; [split|]; simpl.
  - change (NoDup (fst <$> delete j (nodes s))). rewrite list_fmap_delete.
    eapply sublist_NoDup; [exact Hd | apply sublist_delete].
  - by apply Forall_delete.
  - by apply Forall_delete.
Qed.

Lemma mirrors_erase {A} s i n j (k : iterator -> M NodeLoop A) m' Q :
  plain_loop s -> nodes s !! j = Some (i, n) ->
  (forall s1, plain_loop s1 -> mirrors s1 (k (fst <$> nodes s1 !! j)) m' Q) ->
  mirrors s (erase_node i ≫= k) (erase j ;;; m') Q.
Proof.
  intros Hs Hj Hk. pose proof Hs as [[Hd _] _].
  assert (Hr : rules (positions s) !! j = Some (rule_of n))
    by (simpl; by rewrite list_lookup_fmap, Hj).
  pose proof (plain_loop_delete s j) as Hdel.
  unfold mirrors, erase_node, erase, mbind, M_bind in *.
  rewrite (node_at_eq _ _ _ _ Hs Hj), (advance_eq _ _ _ _ Hs Hj). unfold get. rewrite Hr.
  unfold modify, on_process, in_proc, zoom. simpl. rewrite (remove_node_at _ _ _ _ Hd Hj).
  assert (Hmap : forall l : list (positive * node (K:=K)), delete j (map (fun x => rule_of x.2) l) =
    map (fun x => rule_of x.2) (delete j l)) by (intros l; symmetry; apply list_fmap_delete).
  destruct (destroy (node_fd n) (process s)) as [[[]|e| |] p]; simpl; rewrite Hmap; auto.
  specialize (Hk _ (Hdel p Hs)). simpl in Hk. rewrite list_lookup_delete_ge in Hk by done.
  exact Hk.
Qed.

(** *** Code *)

Lemma plain_loop_grow s p n : plain_loop s -> no_wait_node n ->
  plain_loop (mkLoop (nodes s ++ [(next_node s, n)]) (Pos.succ (next_node s)) p).
Proof.
  intros [[Hd Hn] Hp] Hw. split; [split|]; simpl.
  - rewrite map_app. apply NoDup_app. split; [done|]. split; [|apply NoDup_singleton].
    intros i Hi Hi'. apply list_elem_of_singleton in Hi'. apply list_elem_of_fmap in Hi as (x & Hx & Hin).
    rewrite Forall_forall in Hn. specialize (Hn x Hin). simpl in *. subst. lia.
  - apply Forall_app. split; [|by repeat constructor; simpl; lia].
    eapply Forall_impl; [exact Hn|]. simpl. intros x Hx. lia.
  - apply Forall_app. split; [done | by constructor].
Qed.

(** Code that does not wait does what its function does, and adds its rules
    at the end. *)
Lemma mirrors_run {A} wait (c : code K A) : forall s, plain_loop s -> no_wait c ->
  mirrors s (run_code wait c) (call (plain c)) (fun _ s1 => exists l, nodes s1 = nodes s ++ l).
Proof.
  induction c as [A a|A B m k IH|A h d cb IHcb intr IHintr cncl IHcncl k IH|A t k IH];
    intros s Hs Hc; cbn [run_code]; simpl in Hc; [| | |done]; unfold mirrors, call, positions in *; simpl.
  - rewrite app_nil_r. split; [done|]. split; [done|]. exists []. by rewrite app_nil_r.
  - unfold on_process, zoom, mbind, M_bind. destruct (m (process s)) as [[b|e| |] p]; simpl;
      rewrite ?app_nil_r; auto.
    exact (IH b (mkLoop (nodes s) (next_node s) p) Hs (Hc b)).
  - unfold add_node, on_process, zoom, modify, mbind, M_bind.
    destruct (duplicate h (process s)) as [[h'|e| |] p]; simpl; rewrite ?app_nil_r; auto.
    destruct Hc as (Hcb & Hintr & Hcncl & Hc).
    pose proof (plain_loop_grow s p (mkNode h' d cb intr cncl) Hs ltac:(by split_and!)) as Hs'.
    specialize (IH _ Hs' Hc). simpl in IH. destruct (run_code wait k _) as [o s1].
    destruct IH as (E & Hs1 & Hl). rewrite map_app in E. simpl in E.
    destruct (plain k p) as [added [o' p']]. rewrite <- app_assoc in E. split; [exact E|].
    split; [done|]. destruct o; try done. destruct Hl as [l Hl]. simpl in Hl. rewrite <- app_assoc in Hl. eauto.
Qed.

(** However it ends, the nodes there were are where they were. *)
Lemma run_code_grows {A} wait (c : code K A) : forall s, no_wait c ->
  exists l, nodes (exec (run_code wait c) s) = nodes s ++ l.
Proof.
  induction c as [A a|A B m k IH|A h d cb IHcb intr IHintr cncl IHcncl k IH|A t k IH];
    intros s Hc; cbn [run_code]; simpl in Hc; [| | |done].
  - exists []. by rewrite app_nil_r.
  - unfold on_process, zoom, exec, mbind, M_bind. destruct (m (process s)) as [[b|e| |] p];
      [exact (IH b (mkLoop (nodes s) (next_node s) p) (Hc b))|..]; exists []; by rewrite app_nil_r.
  - destruct Hc as (_ & _ & _ & Hc). unfold add_node, on_process, zoom, modify, exec, mbind, M_bind.
    destruct (duplicate h (process s)) as [[h'|e| |] p]; simpl;
      try (exists []; by rewrite app_nil_r).
    match goal with |- context [run_code wait k ?s1] => destruct (IH s1 Hc) as [l Hl] end.
    eexists. unfold exec in Hl. rewrite Hl. simpl. by rewrite <- app_assoc.
Qed.

(** A function of the node at position [j], which stays where it is. *)
Lemma mirrors_call_at {A} wait s i n j (f : node -> code K A) : plain_loop s ->
  nodes s !! j = Some (i, n) -> no_wait (f n) ->
  mirrors s (call_at wait i f) (call (plain (f n))) (fun _ s1 => nodes s1 !! j = Some (i, n)).
Proof.
  intros Hs Hj Hc. unfold call_at. apply (mirrors_node_at s i n j); [done..|].
  pose proof (mirrors_run wait (f n) s Hs Hc) as Hrun.
  destruct (run_code_grows wait (f n) s Hc) as [l Hl].
  unfold mirrors, exec, try_catch, mbind, M_bind in *.
  destruct (run_code wait (f n) s) as [o s1]. destruct Hrun as (E & Hs1 & _). simpl in Hl.
  assert (Hj' : nodes s1 !! j = Some (i, n)).
  { rewrite Hl, lookup_app_l; [done | by eapply lookup_lt_Some]. }
  destruct o as [a|e| |]; try done; by rewrite (node_at_eq s1 i n j Hs1 Hj').
Qed.

(** *** The two loops *)

Lemma no_wait_at s i n j : plain_loop s -> nodes s !! j = Some (i, n) -> no_wait_node n.
Proof. intros [_ Hp] Hj. by eapply (Forall_lookup_1 _ _ _ _ Hp Hj). Qed.

Lemma rules_at s i n j : nodes s !! j = Some (i, n) -> rules (positions s) !! j = Some (rule_of n).
Proof. intros Hj. simpl. by rewrite list_lookup_fmap, Hj. Qed.

Lemma rules_end s j : nodes s !! j = None -> rules (positions s) !! j = None.
Proof. intros Hj. simpl. by rewrite list_lookup_fmap, Hj. Qed.

Lemma mirrors_get {A} s (m : M NodeLoop A) (k : Loop -> M Loop A) Q :
  mirrors s m (k (positions s)) Q -> mirrors s m (get ≫= k) Q.
Proof. done. Qed.

Lemma mirrors_get_node {A} s (k : NodeLoop -> M NodeLoop A) m' Q :
  mirrors s (k s) m' Q -> mirrors s (get ≫= k) m' Q.
Proof. done. Qed.

Lemma mirrors_process_at {A} s i n j (m : M (Proc K) A) : plain_loop s -> nodes s !! j = Some (i, n) ->
  mirrors s (on_process m) (in_proc m) (fun _ s1 => nodes s1 !! j = Some (i, n)).
Proof.
  intros Hs Hj. eapply mirrors_post; [by apply mirrors_process|]. by intros ? s1 ->.
Qed.

(** A finished rule is cancelled and erased. *)
Lemma mirrors_drop {A} wait s i n j (k : iterator -> M NodeLoop A) m' Q : plain_loop s ->
  nodes s !! j = Some (i, n) ->
  (forall s1, plain_loop s1 -> mirrors s1 (k (fst <$> nodes s1 !! j)) m' Q) ->
  mirrors s (call_at wait i node_cancel ;;; erase_node i ≫= k)
    (call (cancel (rule_of n)) ;;; erase j ;;; m') Q.
Proof.
  intros Hs Hj Hk. eapply mirrors_bind; [eapply mirrors_call_at; [done..|by eapply no_wait_at]|].
  intros ? s1 Hs1 Hj1. eapply mirrors_erase; [done | exact Hj1 | done].
Qed.

Lemma mirrors_setup wait rounds : forall s j pollfds b, plain_loop s ->
  mirrors s (setup_nodes wait rounds (fst <$> nodes s !! j) pollfds b) (setup rounds j pollfds b)
    (fun _ _ => True).
Proof.
  induction rounds as [|rounds IH]; intros s j pollfds b Hs; [by split_and!|].
  cbn [setup_nodes setup]. apply mirrors_get. destruct (nodes s !! j) as [[i n]|] eqn:Hj;
    cbn [fmap option_fmap option_map fst].
  2:{ rewrite (rules_end s j Hj). by apply mirrors_ret. }
  rewrite (rules_at s i n j Hj). apply (mirrors_node_at s i n j); [done..|].
  eapply mirrors_bind; [by apply mirrors_process_at|]. intros e s1 Hs1 Hj1. cbv beta in Hj1.
  destruct e; [eapply mirrors_drop; [done..|intros; by apply IH]|].
  eapply mirrors_bind; [by apply mirrors_process_at|]. intros c s2 Hs2 Hj2. cbv beta in Hj2.
  destruct c; [eapply mirrors_drop; [done..|intros; by apply IH]|].
  eapply mirrors_bind; [eapply mirrors_call_at; [done..|by eapply no_wait_at]|].
  intros b' s3 Hs3 Hj3. cbv beta in Hj3.
  eapply mirrors_bind; [by apply mirrors_process_at|]. intros fd s4 Hs4 Hj4. cbv beta in Hj4.
  apply (mirrors_advance s4 i n j); [done..|]. destruct b'; by apply IH.
Qed.

Lemma mirrors_service wait s i n j : plain_loop s -> nodes s !! j = Some (i, n) ->
  mirrors s (service_node wait i) (service (rule_of n)) (fun _ s1 => nodes s1 !! j = Some (i, n)).
Proof.
  intros Hs Hj. unfold service_node, service. apply (mirrors_node_at s i n j); [done..|].
  eapply mirrors_bind; [by apply mirrors_process_at|]. intros c s1 Hs1 Hj1. cbv beta in Hj1.
  eapply mirrors_bind; [eapply mirrors_call_at; [done..|by eapply no_wait_at]|].
  intros ? s2 Hs2 Hj2. cbv beta in Hj2.
  eapply mirrors_bind; [by apply mirrors_process_at|]. intros c' s3 Hs3 Hj3. cbv beta in Hj3.
  destruct (c =? c'); [|by apply mirrors_ret].
  eapply mirrors_bind; [eapply mirrors_call_at; [done..|by eapply no_wait_at]|].
  intros [] s4 Hs4 Hj4; [by apply mirrors_throw | by apply mirrors_ret].
Qed.

Lemma mirrors_dispatch wait pollfds : forall s j, plain_loop s ->
  mirrors s (dispatch_nodes wait (fst <$> nodes s !! j) pollfds) (dispatch j pollfds) (fun _ _ => True).
Proof.
  induction pollfds as [|pf rest IH]; intros s j Hs; cbn [dispatch];
    destruct (nodes s !! j) as [[i n]|] eqn:Hj; cbn [fmap option_fmap option_map fst dispatch_nodes].
  - apply (mirrors_at _ _ _ (undefined : M Loop unit)); [by rewrite (rules_at s i n j Hj) | by split_and!].
  - apply (mirrors_at _ _ _ (mret tt : M Loop unit)); [by rewrite (rules_end s j Hj) | by apply mirrors_ret].
  - eapply mirrors_at; [rewrite (rules_at s i n j Hj); reflexivity|].
    destruct (poll_error pf); [by apply mirrors_throw|]. destruct (only_hup pf).
    + eapply mirrors_drop; [done..|intros; by apply IH].
    + apply (mirrors_bind _ _ _ (fun _ s1 => nodes s1 !! j = Some (i, n))).
      { destruct (poll_ready pf); [by apply mirrors_service | by apply mirrors_ret]. }
      intros _ s1 Hs1 Hj1. apply (mirrors_advance s1 i n j); [done..|]. by apply IH.
  - apply (mirrors_at _ _ _ (mret tt : M Loop unit)); [by rewrite (rules_end s j Hj) | by apply mirrors_ret].
Qed.

Lemma mirrors_wait wait rounds t s : plain_loop s ->
  mirrors s (wait_body wait rounds t) (wait_next_event rounds t) (fun _ _ => True).
Proof.
  assert (Hfirst : forall s, first_node (nodes s) = fst <$> nodes s !! 0%nat)
    by (intros s'; unfold first_node; by destruct (nodes s')).
  intros Hs. unfold wait_body, wait_next_event. apply mirrors_get_node. rewrite Hfirst.
  eapply mirrors_bind; [by apply mirrors_setup|].
  intros [pollfds something] s1 Hs1 _. destruct something; [|by apply mirrors_ret].
  eapply mirrors_bind; [by apply mirrors_process|]. intros [pfs early] s2 Hs2 _.
  destruct early as [r|]; [by apply mirrors_ret|]. apply mirrors_get_node. rewrite Hfirst.
  eapply mirrors_bind; [by apply mirrors_dispatch|]. intros. by apply mirrors_ret.
Qed.

End Refinement.

(** ** Re-entrant waits *)

Section Settling.
Context {K : Type} `{Kernel K}.
Variables (I : Proc K -> Prop) (mu : Proc K -> nat) (l : list (positive * node (K:=K))).
Hypotheses (Hdistinct : NoDup (map fst l)) (Hsteady : Forall (fun x => steady_node I mu x.2) l)
  (Hpoll : quiet_poll I mu).
Implicit Types (s : NodeLoop (K:=K)).

(** The loop, with [mu] at most [d]. *)
Definition here (d : nat) s : Prop := nodes s = l /\ I (process s) /\ (mu (process s) <= d)%nat.

Local Notation "'settled'" := (settles I mu l).

Lemma settled_ret {A} d (Q : A -> Prop) a s : here d s -> Q a -> settled d Q ((mret a : M NodeLoop A) s).
Proof. intros (? & ? & ?) ?. by split_and!. Qed.

Lemma settled_throw {A} d (Q : A -> Prop) e s : here d s -> settled d Q ((throw e : M NodeLoop A) s).
Proof. intros (? & ? & ?). by split_and!. Qed.

Lemma settled_bind {A B} d (Q : A -> Prop) (R : B -> Prop) (m : M NodeLoop A)
    (k : A -> M NodeLoop B) s : settled d Q (m s) ->
  (forall a s1, Q a -> here d s1 -> settled d R (k a s1)) ->
  settled d R ((m ≫= k : M NodeLoop B) s).
Proof.
  intros Hm Hk. unfold mbind, M_bind. destruct (m s) as [[a|e| |] s1]; try done.
  destruct Hm as (_ & Hn & HI & Hmu & HQ). by apply Hk.
Qed.

Lemma settled_weaken {A} d d' (Q : A -> Prop) c : (d <= d')%nat -> settled d Q c -> settled d' Q c.
Proof. intros Hd (? & ? & ? & ? & ?). split_and!; try done. simpl in *. lia. Qed.

Lemma settled_get {A} d (Q : A -> Prop) (k : NodeLoop -> M NodeLoop A) s :
  settled d Q (k s s) -> settled d Q ((get ≫= k : M NodeLoop A) s).
Proof. done. Qed.

(** A call on the process that changes nothing. *)
Lemma on_process_asks {A} (m : M (Proc K) A) a s : m (process s) = (Ret a, process s) ->
  on_process m s = (Ret a, s).
Proof. intros E. unfold on_process, zoom. rewrite E. by destruct s. Qed.

Lemma node_at_here d j i n s : here d s -> l !! j = Some (i, n) -> node_at i s = (Ret n, s).
Proof.
  intros [Hn _] Hj. unfold node_at. msimpl. by rewrite Hn, (find_node_at l i n j).
Qed.

Lemma settled_advance d j i n s : here d s -> l !! j = Some (i, n) ->
  settled d (fun it => it = fst <$> l !! S j) (advance i s).
Proof.
  intros Hs Hj. pose proof Hs as [Hn _]. unfold advance. apply settled_get.
  rewrite Hn, (after_node_at l i n j) by done. by apply settled_ret.
Qed.

(** *** Code *)

Section Calls.
Variable wait : Z -> M (NodeLoop (K:=K)) Result.

(** What is known of the calls within calls. *)
Definition waits_below (d : nat) : Prop := forall t s,
  here (mu (process s)) s -> (mu (process s) < d)%nat ->
  settled (mu (process s)) (fun _ => True) (wait t s).

Lemma settled_run {A} d (c : code K A) : waits_below d -> forall s, nodes s = l ->
  bounded I mu d c (process s) -> settled d (fun _ => True) (run_code wait c s).
Proof.
  intros Hwait. induction c as [A a|A B m k IH|A h dir cb IHcb intr IHintr cncl IHcncl k IH|A t k IH];
    intros s Hn Hc; cbn [run_code]; simpl in Hc; [|..|done|].
  - apply settled_ret; [by destruct Hc|done].
  - unfold on_process, zoom, mbind, M_bind. destruct (m (process s)) as [[b|e| |] p]; try done.
    + by apply (IH b (mkLoop (nodes s) (next_node s) p)).
    + by destruct Hc.
  - destruct Hc as (HI & Hmu & Hk). specialize (Hwait t s ltac:(by split_and!) Hmu).
    unfold try_catch, mbind, M_bind.
    destruct (wait t s) as [[r|e| |] s1]; destruct Hwait as (Hr & Hn1 & HI1 & Hmu1 & _); try done;
      apply (IH _ s1 Hn1); by apply Hk.
Qed.

(** Calling a function of a node. *)
Lemma settled_call_at {A} d j i n (f : node -> code K A) s : waits_below d -> here d s ->
  l !! j = Some (i, n) -> bounded I mu (mu (process s)) (f n) (process s) ->
  settled d (fun _ => True) (call_at wait i f s).
Proof.
  intros Hwait Hs Hj Hc. unfold call_at. rewrite (bind_Ret _ _ _ _ _ (node_at_here d j i n s Hs Hj)).
  pose proof Hs as (Hn & HI & Hmu).
  assert (Hrun : settled d (fun _ => True) (run_code wait (f n) s)).
  { eapply settled_weaken; [exact Hmu|]. apply settled_run; [|done|exact Hc].
    intros t s' Hs' Hlt. apply Hwait; [done | lia]. }
  eapply (settled_bind d (fun _ => True)).
  - unfold try_catch. destruct (run_code wait (f n) s) as [[a|e| |] s1]; try done.
    destruct Hrun as (_ & Hn1 & HI1 & Hmu1 & _).
    rewrite (bind_Ret _ _ _ _ _ (node_at_here d j i n s1 ltac:(by split_and!) Hj)).
    by apply settled_throw.
  - intros a s1 _ Hs1. rewrite (bind_Ret _ _ _ _ _ (node_at_here d j i n s1 Hs1 Hj)).
    by apply settled_ret.
Qed.

(** What a rule's descriptor answers. *)
Lemma steady_at j i n p : l !! j = Some (i, n) -> I p ->
  node_eof n p = (Ret false, p) /\ closed (node_fd n) p = (Ret false, p) /\
  (exists c, fd_num (node_fd n) p = (Ret c, p)) /\ (exists c, node_count n p = (Ret c, p)) /\
  bounded I mu (mu p) (node_callback n) p /\ bounded I mu (mu p) (node_interest n) p.
Proof.
  intros Hj HI. destruct (Forall_lookup_1 _ _ _ _ Hsteady Hj p HI) as ((a & w & Hfd & Hw & Hc & He) & Hcb & Hin).
  assert (Hget : forall A (f : FDWrapper -> A), (lw ← obj (Some a); mret (f lw.2)) p = (Ret (f w), p))
    by (intros A f; by rewrite (bind_Ret _ _ _ _ _ (obj_eq a w p Hw))).
  simpl in *. unfold node_eof, node_count, eof, closed, fd_num, read_count, write_count.
  rewrite Hfd, !Hget, Hc. split_and!; try done; destruct (node_direction n); rewrite ?Hget; eauto.
  by rewrite He.
Qed.

(** *** The two loops *)

Lemma settled_setup d rounds : waits_below d -> forall j pollfds b s, here d s ->
  (length l - j < rounds)%nat -> Forall (fun pf => revents pf = 0) pollfds ->
  settled d (fun ps => length ps.1 = (length pollfds + (length l - j))%nat /\
                       Forall (fun pf => revents pf = 0) ps.1)
    (setup_nodes wait rounds (fst <$> l !! j) pollfds b s).
Proof.
  intros Hwait. induction rounds as [|rounds IH]; intros j pollfds b s Hs Hr Hz; [lia|].
  cbn [setup_nodes].
  destruct (l !! j) as [[i n]|] eqn:Hj; cbn [fmap option_fmap option_map fst].
  2:{ apply settled_ret; [done|]. apply lookup_ge_None in Hj. split; [simpl; lia | done]. }
  rewrite (bind_Ret _ _ _ _ _ (node_at_here d j i n s Hs Hj)).
  pose proof Hs as (_ & HI & _).
  destruct (steady_at j i n (process s) Hj HI) as (He & Hc & [c Hfd] & _ & _ & Hin).
  rewrite (bind_Ret _ _ _ _ _ (on_process_asks _ _ _ He)).
  rewrite (bind_Ret _ _ _ _ _ (on_process_asks _ _ _ Hc)).
  eapply settled_bind; [by eapply settled_call_at|]. intros b' s1 _ Hs1.
  destruct (steady_at j i n (process s1) Hj ltac:(apply Hs1)) as (_ & _ & [c1 Hfd1] & _).
  rewrite (bind_Ret _ _ _ _ _ (on_process_asks _ _ _ Hfd1)).
  eapply settled_bind; [by eapply settled_advance|]. intros it s2 -> Hs2.
  pose proof (lookup_lt_Some _ _ _ Hj) as Hlt.
  assert (Hnext : forall pf b'', revents pf = 0 -> settled d
    (fun ps => length ps.1 = (length pollfds + (length l - j))%nat /\
               Forall (fun pf => revents pf = 0) ps.1)
    (setup_nodes wait rounds (fst <$> l !! S j) (pollfds ++ [pf]) b'' s2)).
  { intros pf b'' Hpf. specialize (IH (S j) (pollfds ++ [pf]) b'' s2 Hs2 ltac:(lia)).
    specialize (IH ltac:(apply Forall_app; split; [done | by constructor])).
    rewrite length_app, Nat.add_1_r in IH. simpl in IH.
    replace (length pollfds + (length l - j))%nat with (S (length pollfds + (length l - S j))) by lia.
    exact IH. }
  destruct b'; by apply Hnext.
Qed.

Lemma settled_service d j i n s : waits_below d -> here d s -> l !! j = Some (i, n) ->
  settled d (fun _ => True) (service_node wait i s).
Proof.
  intros Hwait Hs Hj. unfold service_node. rewrite (bind_Ret _ _ _ _ _ (node_at_here d j i n s Hs Hj)).
  destruct (steady_at j i n (process s) Hj ltac:(apply Hs)) as (_ & _ & _ & [c Hc] & Hcb & _).
  rewrite (bind_Ret _ _ _ _ _ (on_process_asks _ _ _ Hc)).
  eapply settled_bind; [by eapply settled_call_at|]. intros ? s1 _ Hs1.
  destruct (steady_at j i n (process s1) Hj ltac:(apply Hs1)) as (_ & _ & _ & [c1 Hc1] & _ & Hin).
  rewrite (bind_Ret _ _ _ _ _ (on_process_asks _ _ _ Hc1)).
  destruct (c =? c1); [|by apply settled_ret].
  eapply settled_bind; [by eapply settled_call_at|]. intros b s2 _ Hs2.
  destruct b; [by apply settled_throw | by apply settled_ret].
Qed.

Lemma settled_dispatch d pollfds : waits_below d -> Forall (fun pf => only_hup pf = false) pollfds ->
  forall j s, here d s -> length pollfds = (length l - j)%nat ->
  settled d (fun _ => True) (dispatch_nodes wait (fst <$> l !! j) pollfds s).
Proof.
  intros Hwait. induction 1 as [|pf rest Hpf _ IH]; intros j s Hs Hlen;
    destruct (l !! j) as [[i n]|] eqn:Hj; cbn [fmap option_fmap option_map fst dispatch_nodes];
    try (by apply settled_ret).
  - apply lookup_lt_Some in Hj. simpl in Hlen. lia.
  - destruct (poll_error pf); [by apply settled_throw|]. rewrite Hpf.
    apply (settled_bind d (fun _ => True)).
    { destruct (poll_ready pf); [by eapply settled_service | by apply settled_ret]. }
    intros _ s1 _ Hs1. eapply settled_bind; [by eapply settled_advance|]. intros it s2 -> Hs2.
    apply IH; [done|]. simpl in Hlen. lia.
Qed.

Lemma settled_wait d rounds t s : waits_below d -> here d s -> (length l < rounds)%nat ->
  settled d (fun _ => True) (wait_body wait rounds t s).
Proof.
  intros Hwait Hs Hr.
  assert (Hfirst : forall s, here d s -> first_node (nodes s) = fst <$> l !! 0%nat)
    by (intros s' [-> _]; unfold first_node; by destruct l).
  unfold wait_body. apply settled_get. rewrite Hfirst by done.
  eapply settled_bind; [apply settled_setup; [done | done | lia | done]|].
  intros [pollfds something] s1 [Hlen Hz] Hs1. simpl in Hlen, Hz. destruct something; [|by apply settled_ret].
  eapply (settled_bind d (fun pe : list pollfd * option Result =>
    length pe.1 = length pollfds /\ Forall (fun pf => only_hup pf = false) pe.1)).
  - destruct Hs1 as (Hn & HI & Hmu). specialize (Hpoll pollfds t (process s1) Hz HI).
    pose proof (poll_once_length pollfds t (process s1)) as Hl.
    unfold on_process, zoom. destruct (poll_once pollfds t (process s1)) as [o p].
    destruct Hpoll as (Hret & HI' & Hmu' & Ho). split_and!; try done; simpl; [lia|].
    destruct o as [[pfs early]|e| |]; try done. split; [by eapply Hl | done].
  - intros [pfs early] s2 [Hlen2 Hquiet] Hs2. simpl in *. destruct early as [r|]; [by apply settled_ret|].
    apply settled_get. rewrite Hfirst by done.
    eapply settled_bind; [apply settled_dispatch; [done..|lia]|]. intros. by apply settled_ret.
Qed.

End Calls.

Lemma settled_depth rounds depth : (length l < rounds)%nat -> forall t s, here (mu (process s)) s ->
  (mu (process s) < depth)%nat ->
  settled (mu (process s)) (fun _ => True) (wait_nodes rounds depth t s).
Proof.
  intros Hr. induction depth as [|depth IH]; intros t s Hs Hmu; [lia|]. cbn [wait_nodes].
  apply settled_wait; [|done|done]. intros t' s' Hs' Hlt. apply IH; [done | lia].
Qed.

End Settling.

(** A callback that finishes its own descriptor and waits in its turn loses
    its rule there, and the loop that called it is left with a pointer to a
    node that is gone: at the end of input here, nowhere before. *)
Example reentry_at_end :
  result (wait_nodes 5 3 0) (demo_nodes reading_code []) = Undef.
Proof. vm_compute. reflexivity. Qed.

(** ** Properties *)

(** C8. Iterators are positions: for callbacks that do not call
    [wait_next_event], which may do anything else, throw or add rules, the
    loop over the nodes of a [std::list] does, call for call, what
    [EventLoop.wait_next_event] does with positions in the list of rules: the
    same outcome, the same process, the same rules in the same order.  So a
    node is never used after it was erased where the model with positions has
    no undefined behaviour. *)
Theorem nodes_refine_positions {K : Type} `{Kernel K} rounds depth t (s : NodeLoop (K:=K)) :
  plain_loop s ->
  let '(o, s') := wait_nodes rounds (S depth) t s in
  wait_next_event rounds t (positions s) = (o, positions s') /\ plain_loop s'.
Proof.
  intros Hs. pose proof (mirrors_wait (wait_nodes rounds depth) rounds t s Hs) as Hm.
  unfold mirrors in Hm. cbn [wait_nodes]. destruct (wait_body _ _ _ s) as [o s']. tauto.
Qed.

Lemma nodes_refine_positions_witness :
  let s := demo_nodes (Act (read (Some 1%positive) 10) (fun _ => Pure tt))
             (lit "hi") in
  let '(o, s') := wait_nodes 5 1 0 s in
  wait_next_event 5 0 (positions s) = (o, positions s') /\ plain_loop s'.
Proof.
  intros s. apply (nodes_refine_positions 5 0 0 s). split; [split|].
  - apply NoDup_singleton.
  - by repeat constructor.
  - apply Forall_cons_2; [by split_and!; simpl | apply Forall_nil_2].
Defined.

(** C9. Calls within calls: in a loop whose callbacks may call
    [wait_next_event] on it, where no descriptor of a rule is closed or at its
    end, [poll] reports no mere hangup, no code adds rules, and some measure
    [mu] bounds how deep the calls go, [wait_next_event] returns or throws,
    with every iterator good throughout, leaves the rules as they are, and
    keeps what the callbacks keep. *)
Theorem reentrant_waits_return {K : Type} `{Kernel K} (I : Proc K -> Prop) (mu : Proc K -> nat)
    rounds depth t (s : NodeLoop (K:=K)) :
  NoDup (map fst (nodes s)) -> Forall (fun x => steady_node I mu x.2) (nodes s) -> quiet_poll I mu ->
  I (process s) -> (length (nodes s) < rounds)%nat -> (mu (process s) < depth)%nat ->
  let '(o, s') := wait_nodes rounds depth t s in
  returns o /\ nodes s' = nodes s /\ I (process s') /\ (mu (process s') <= mu (process s))%nat.
Proof.
  intros Hd Hn Hp HI Hr Hmu.
  pose proof (settled_depth I mu (nodes s) Hd Hn Hp rounds depth Hr t s ltac:(by split_and!) Hmu) as Hs.
  destruct (wait_nodes rounds depth t s) as [o s']. destruct Hs as (? & ? & ? & ? & _). by split_and!.
Qed.

Lemma reentrant_waits_return_witness :
  let s := demo_nodes diving_code (lit "hi") in
  let '(o, s') := wait_nodes 5 4 0 s in
  returns o /\ nodes s' = nodes s /\
  (wrappers (process s') = wrappers (process s) /\ kernel (process s') = kernel (process s)) /\
  (3 - length (cerr (process s')) <= 3)%nat.
Proof.
  intros s. apply (reentrant_waits_return
    (fun p => wrappers p = wrappers (process s) /\ kernel p = kernel (process s))
    (fun p => (3 - length (cerr p))%nat) 5 4 0 s); [apply NoDup_singleton | | | by split | simpl; lia | simpl; lia].
  - apply Forall_cons_2; [|apply Forall_nil_2]. intros p [Hw Hk]. split.
    { exists 1%positive, (mkWrapper 3 false false 0 0). rewrite Hw. by split_and!. }
    split; [|by split]. cbn [node_of node_callback snd bounded diving_code].
    unfold gets, modify, mbind, M_bind, mret, M_ret.
    destruct (Nat.ltb_spec (length (cerr p)) 3); cbn [bounded]; [|by split].
    split; [by split|]. simpl. rewrite length_app. simpl. split; [lia|].
    intros r p' HI Hmu. split; [done | lia].
  - intros pollfds t p Hz [Hw Hk]. unfold poll_once, syscall. msimpl. rewrite Hk. simpl.
    split_and!; [done | exact Hw | reflexivity | lia |].
    destruct Hz as [|pf rest _ Hz]; [apply Forall_nil_2|]. apply Forall_cons_2; [reflexivity|].
    change (Forall (fun pf => only_hup pf = false) (fill_revents rest [])).
    replace (fill_revents rest []) with rest by (by destruct rest).
    eapply Forall_impl; [exact Hz|]. intros pf' Hpf'. unfold only_hup, poll_hup. by rewrite Hpf'.
Defined.
