(* ===== verification/Relay.v ===== *)
(** The parts together: an event loop with a rule that reads a descriptor and
    writes what it read to another, on a system with a finite input.  This is
    the use [libsponge/util/eventloop.hh] describes, and the theorem is about
    [wait_next_event], [read] and [write] as they call each other. *)

From S2P Require Import Prelude Buffer Process FileDescriptor EventLoop.

Local Open Scope Z_scope.

(** ** The system *)

(** What [poll] says of its only entry. *)
Definition answer (r : sysret (list Z)) : Z := hd 0 (out r).

(** Some condition [poll(2)] reports. *)
Definition reports (ev : Z) : Prop :=
  Z.land ev (Z.lor POLLIN (Z.lor POLLHUP (Z.lor POLLERR POLLNVAL))) <> 0.

(** Finite inputs: [pending fd k] is what remains to be read from [fd], now or
    later.  Reading gives a first part of it, and nothing only at its end;
    writing does not add to it.  [poll] on a descriptor may time out, be
    interrupted or fail; [vain fd k] says how many times it still will.  When
    it returns a positive number it reports something, and it reports a hangup
    without input only when nothing remains to be read. *)
Class FiniteInput (K : Type) `{KernelLaws K} : Type := {
  pending : Z -> K -> bytes;
  vain : Z -> K -> nat;
  finite_read : forall fd n k, 0 < n ->
    let '(r, k') := sys_read fd n k in
    (forall fd', sink fd' k' = sink fd' k) /\ (vain fd k' <= vain fd k)%nat /\
    (0 <= ret r -> pending fd k = out r ++ pending fd k' /\
                   (out r = [] -> pending fd k = []));
  finite_writev : forall fd vs k fd',
    let '(r, k') := sys_writev fd vs k in
    pending fd' k' = pending fd' k /\ (vain fd' k' <= vain fd' k)%nat;
  finite_poll : forall fd t k,
    let '(r, k') := sys_poll [mkPollfd fd POLLIN 0] t k in
    pending fd k' = pending fd k /\ (forall fd', sink fd' k' = sink fd' k) /\
    (if 0 <? ret r then reports (answer r) /\ (vain fd k' <= vain fd k)%nat
     else (vain fd k' < vain fd k)%nat) /\
    (Z.land (answer r) POLLHUP <> 0 -> Z.land (answer r) POLLIN = 0 -> pending fd k = [])
}.

Section Relay.
Context {K : Type} `{FiniteInput K}.

(** [loop.add_rule(in, Direction::In, [&] { out.write(in.read(limit)); })] *)
Definition copy_callback (l m : positive) (limit : Z) : M (Proc K) unit :=
  data ← read (Some l) limit;
  _ ← write_string (Some m) data true;
  mret tt.

Definition copy_rule (l m : positive) (limit : Z) : Rule (K:=K) :=
  mkRule (Some l) In (fun p => ([], copy_callback l m limit p)) always nop.

(** [while (loop.wait_next_event(timeout_ms) != Result::Exit) {}] *)
Fixpoint drive (rounds : nat) (timeout_ms : Z) : M (Loop (K:=K)) unit :=
  match rounds with
  | O => out_of_fuel
  | S rounds' =>
      s ← get;
      r ← wait_next_event (S (length (rules s))) timeout_ms;
      match r with
      | Exit => mret tt
      | Success | Timeout => drive rounds' timeout_ms
      end
  end.

(** The object at [l] is open, for descriptor [fd], at end of file or not,
    and has been read [n] times. *)
Definition source (l : positive) (fd : Z) (eof : bool) (n : Z) (p : Proc K) : Prop :=
  exists w, deref l (wrappers p) = Some w /\ _fd w = fd /\ _closed w = false /\
    _eof w = eof /\ _read_count w = n.

Definition target (m : positive) (fd : Z) (p : Proc K) : Prop :=
  exists w, deref m (wrappers p) = Some w /\ _fd w = fd.

(** How the copying can fail. *)
Definition copy_error (e : exn) : Prop :=
  write_error e \/ e = poll_failure \/ exists n, e = unix_error (lit "read") n.

End Relay.

(** ** Lemmas *)

Section RelayFacts.
Context {K : Type} `{FiniteInput K}.
Implicit Types p : Proc K.
Variables (l m : positive) (a b limit : Z) (c : gmap positive nat).
Hypothesis Hlimit : 0 < limit.

(** What writing keeps. *)
Definition writing (eof : bool) (n : Z) (rest : bytes) (v : nat) p : Prop :=
  counts c p /\ source l a eof n p /\ target m b p /\
  pending a (kernel p) = rest /\ (vain a (kernel p) <= v)%nat.

Lemma writing_after {A} eof n rest v v' p (r : sysret A) k : writing eof n rest v p ->
  pending a k = pending a (kernel p) -> (vain a k <= v')%nat ->
  writing eof n rest v' (after r k p).
Proof. intros (Hc & Hs & Ht & Hp & _) E Hv. split_and!; try done. simpl. by rewrite E. Qed.

Lemma writing_weaken eof n rest v v' p : (v <= v')%nat -> writing eof n rest v p ->
  writing eof n rest v' p.
Proof. intros Hv (? & ? & ? & ? & ?). split_and!; try done. lia. Qed.

Lemma writing_count eof n rest v p : writing eof n rest v p ->
  writing eof n rest v (set_wrappers (update_obj incr_write m) p).
Proof.
  intros (Hc & (w & Hw & ?) & (w' & Hw' & ?) & Hp).
  split; [by apply counts_update|]. split; [|split; [|done]]; simpl.
  - destruct (decide (m = l)) as [->|Hne]; [exists (incr_write w) | exists w];
      simpl; rewrite deref_update; [rewrite decide_True | rewrite decide_False]; try done.
    by rewrite Hw.
  - exists (incr_write w'). simpl. rewrite deref_update, decide_True by done. by rewrite Hw'.
Qed.

(** Writing all of [data], or failing. *)
Lemma write_relays eof n rest v p data : zlen data < 2 ^ 63 -> writing eof n rest v p ->
  let '(r, p') := write_string (Some m) data true p in
  writing eof n rest v p' /\ exists k, 0 <= k <= zlen data /\
    sink b (kernel p') = sink b (kernel p) ++ ztake k data /\
    match r with Ret _ => k = zlen data | Throw e => write_error e | _ => False end.
Proof.
  intros Hlen Hw. zlens. unfold write_string, BufferViewList.of_std_string.
  assert (Hc : BufferViewList.contents (BufferViewList.of_view data) = data) by apply app_nil_r.
  assert (Hsafe : safe (writing eof n rest v) (write (Some m) (BufferViewList.of_view data) true)).
  { apply (safe_write_loop _ m b); rewrite ?Hc; [| | |lia|done].
    - by intros q (_ & _ & Ht & _).
    - intros q vs r k Hq E. pose proof (finite_writev b vs (kernel q) a) as Hf.
      rewrite E in Hf. destruct Hf as [Hp Hv]. eapply writing_after; [done..|].
      destruct Hq as (_ & _ & _ & _ & ?). lia.
    - intros q. apply writing_count. }
  pose proof (Hsafe p Hw) as [Hw' _]. unfold exec in Hw'.
  destruct Hw as (_ & _ & (w & Hm & Hb) & _).
  destruct (write_loop_sink m b true
    (S (Z.to_nat (zlen (BufferViewList.contents (BufferViewList.of_view data)))))
    (BufferViewList.of_view data) 0 p w Hm Hb) as (k & Hk & Hrun);
    rewrite ?Hc in *; try (unfold SIZE_MAX; lia).
  unfold write in *. rewrite Hc in *. destruct (write_loop _ _ _ _ _ _) as [r p'].
  split; [done|]. exists k. destruct Hrun as [Hs Hr]. split; [done|]. split; [done|].
  destruct r; try done. destruct Hr as [_ Hr]. by apply Hr.
Qed.

(** Reading some of the input, or its end, or failing. *)
Lemma read_relays n rest v p : writing false n rest v p ->
  let '(r, p') := read (Some l) limit p in
  sink b (kernel p') = sink b (kernel p) /\
  match r with
  | Ret data => exists rest', rest = data ++ rest' /\ (data = [] -> rest = []) /\
      zlen data <= BUFFER_SIZE /\
      writing (bool_decide (data = [])) (u32 (n + 1)) rest' v p'
  | Throw e => exists k, e = unix_error (lit "read") k
  | _ => False
  end.
Proof.
  intros (Hc & (w & Hw & Hfd & Hcl & Heof & Hn) & (w' & Hw' & Hfd') & Hp & Hv).
  pose proof (read_outcome l w limit p Hw ltac:(lia)) as Hr. rewrite Hfd in Hr.
  pose proof (read_law a (Z.min BUFFER_SIZE limit) (kernel p)
    ltac:(unfold BUFFER_SIZE; lia)) as Hlaw.
  pose proof (finite_read a (Z.min BUFFER_SIZE limit) (kernel p)
    ltac:(unfold BUFFER_SIZE; lia)) as Hfin.
  destruct (sys_read a (Z.min BUFFER_SIZE limit) (kernel p)) as [r k].
  destruct Hfin as (Hsink & Hv' & Hdata). rewrite Hr.
  destruct (Z.ltb_spec (ret r) 0); simpl; [split; [apply Hsink | by eexists]|].
  destruct Hlaw as [[? _]|[Hrange Hout]]; [lia|].
  destruct (Hdata ltac:(lia)) as [Happ Hend]. split; [apply Hsink|].
  exists (pending a k). rewrite <- Hp. split; [done|]. split; [done|].
  split; [lia|]. set (e := read_effect limit (ret r)).
  assert (He : forall v, _fd (e v) = _fd v /\ _closed (e v) = _closed v /\
    _read_count (e v) = u32 (_read_count v + 1) /\
    _eof (e v) = (if ret r =? 0 then true else _eof v)).
  { intros u. subst e. unfold read_effect. destruct (Z.gtb_spec limit 0); [|lia]. simpl.
    by destruct (ret r =? 0). }
  clearbody e.
  split; [by apply counts_update|]. split; [|split; [|split; [done | simpl; lia]]]; simpl.
  - exists (e w). simpl. rewrite deref_update, decide_True by done. rewrite Hw.
    destruct (He w) as (-> & -> & -> & ->). rewrite Hn, Heof. split_and!; try done.
    destruct (Z.eqb_spec (ret r) 0) as [Hz|Hz].
    + rewrite bool_decide_eq_true_2; [done|]. apply zlen_0. lia.
    + rewrite bool_decide_eq_false_2; [done|]. intros E. rewrite E in Hout. znorm. lia.
  - destruct (decide (l = m)) as [<-|Hne].
    + exists (e w). simpl. rewrite deref_update, decide_True by done. rewrite Hw.
      destruct (He w) as (-> & _). split; [done|]. congruence.
    + exists w'. simpl. by rewrite deref_update, decide_False.
Qed.

(** One run of the callback: progress of the input, a prefix of it written,
    and one more read counted unless the read failed. *)
Lemma callback_relays n rest v p : writing false n rest v p ->
  let '(r, p') := copy_callback l m limit p in
  exists k, 0 <= k <= zlen rest /\
    sink b (kernel p') = sink b (kernel p) ++ ztake k rest /\
    match r with
    | Ret _ => writing (bool_decide (k = 0)) (u32 (n + 1)) (zdrop k rest) v p' /\
               (k = 0 -> rest = [])
    | Throw e => copy_error e
    | _ => False
    end.
Proof.
  intros Hw. pose proof (read_relays n rest v p Hw) as Hr. unfold copy_callback.
  destruct (read (Some l) limit p) as [r p1] eqn:Er. destruct Hr as [Hs Hr]. zlens.
  destruct r as [data|e| |]; try done.
  2: { rewrite (bind_Throw _ _ _ _ _ Er). exists 0. rewrite Hs. split; [lia|].
    split; [by rewrite app_nil_r | by right; right]. }
  destruct Hr as (rest' & -> & Hend & Hlen & Hw1). rewrite (bind_Ret _ _ _ _ _ Er). zlens.
  pose proof (write_relays _ _ _ _ p1 data ltac:(unfold BUFFER_SIZE in *; lia) Hw1) as Hwr.
  destruct (write_string _ _ _ p1) as [r p2] eqn:Ew. destruct Hwr as (Hw2 & k & Hk & Hs2 & Hr).
  assert (Hpre : ztake k (data ++ rest') = ztake k data).
  { rewrite ztake_app by lia. unfold ztake at 2.
    replace (Z.to_nat (k - zlen data)) with 0%nat by lia. by rewrite take_0, app_nil_r. }
  destruct r as [t|e| |]; try done.
  - rewrite (bind_Ret _ _ _ _ _ Ew). exists k. znorm. zlens. split; [lia|]. rewrite Hpre, <- Hs.
    split; [done|]. subst k. rewrite zdrop_app_ge, Z.sub_diag, zdrop_0 by lia. split.
    + rewrite (bool_decide_ext (zlen data = 0) (data = [])); [done|].
      split; [apply zlen_0 | by intros ->].
    + intros ->%zlen_0. by apply Hend.
  - rewrite (bind_Throw _ _ _ _ _ Ew). exists k. znorm. zlens. split; [lia|].
    rewrite Hpre, <- Hs. split; [done | by left].
Qed.

(** ** One round of the loop *)

Lemma at_eof_source eof n p : source l a eof n p ->
  at_eof (copy_rule l m limit) p = (Ret eof, p) /\
  closed (Some l) p = (Ret false, p) /\ fd_num (Some l) p = (Ret a, p) /\
  count_of (copy_rule l m limit) p = Some n.
Proof.
  intros (w & Hw & Hfd & Hcl & He & Hn). unfold at_eof, FileDescriptor.eof, closed, count_of. simpl.
  rewrite !(bind_Ret _ _ p p _ (obj_eq l w p Hw)), (fd_num_eq l w p Hw). simpl.
  rewrite Hw. simpl. by rewrite Hcl, He, Hfd, Hn.
Qed.

(** What [poll] reports is an error, readiness or a hangup. *)
Lemma reported ev : reports ev ->
  poll_error (mkPollfd a POLLIN ev) = false -> poll_ready (mkPollfd a POLLIN ev) = false ->
  only_hup (mkPollfd a POLLIN ev) = true.
Proof.
  unfold reports, poll_error, only_hup, poll_ready, poll_hup, nonzero. cbn [revents events].
  rewrite !Z.land_lor_distr_r, !negb_false_iff, !Z.eqb_eq.
  intros Hr [He Hn]%Z.lor_eq_0_iff Hi. rewrite Hi, He, Hn, ?Z.lor_0_l, ?Z.lor_0_r in Hr.
  by rewrite (proj2 (Z.eqb_neq _ _) Hr), Hi.
Qed.

(** Giving up the rule's handle, one of several. *)
Lemma gives_up hs p : owned (wrappers p) (Some l :: hs) -> Some l ∈ hs ->
  exists p', destroy (Some l) p = (Ret tt, p') /\ kernel p' = kernel p /\ owned (wrappers p') hs.
Proof.
  intros Ho Hin. destruct (destroy_owned l p hs Ho) as (p' & Hd & Ho' & _).
  exists p'. split; [done|]. split; [|done].
  destruct (owned_live _ _ 0 l Ho eq_refl) as (w & i & Ew & Hi & _).
  rewrite refs_cons, decide_True in Hi by done.
  assert (0 < refs l hs)%nat.
  { apply list_elem_of_lookup in Hin as [j Hj]. pose proof (refs_insert l hs j _ None Hj) as Hr.
    rewrite decide_True, decide_False in Hr by done. lia. }
  destruct i as [|[|i]]; [lia..|]. destruct (destroy_eq l w (S i) p Ew) as (p'' & Hd' & ->).
  rewrite Hd in Hd'. by injection Hd' as ->.
Qed.

#[local] Abbreviation rule := (copy_rule l m limit).

(** How a round can go, from a source that is not at its end: [poll] was in
    vain; or interrupted; or reported a hangup, and the rule is gone; or the
    callback ran, and [k] bytes were copied. *)
Definition round_ends (hs : list (option positive)) (n : Z) (rest : bytes) (v : nat)
    (x : Result * list Rule) (k : Z) p' : Prop :=
  ((x.1 = Success \/ x.1 = Timeout) /\ x.2 = [rule] /\ k = 0 /\
   exists v', (v' < v)%nat /\ writing false n rest v' p') \/
  (x = (Exit, [rule]) /\ k = 0 /\ errno p' = EINTR /\ writing false n rest v p') \/
  (x = (Success, []) /\ k = 0 /\ rest = [] /\ owned (wrappers p') hs) \/
  (x = (Success, [rule]) /\ writing (bool_decide (k = 0)) (u32 (n + 1)) (zdrop k rest) v p' /\
   (k = 0 -> rest = [])).

(** The callback, in the second loop. *)
Lemma spec_served hs n rest v p ev : writing false n rest v p ->
  poll_error (mkPollfd a POLLIN ev) = false -> poll_ready (mkPollfd a POLLIN ev) = true ->
  let '(r, p') := (rs ← spec_dispatch [(rule, mkPollfd a POLLIN ev)]; mret (Success, rs)) p in
  exists k, 0 <= k <= zlen rest /\ sink b (kernel p') = sink b (kernel p) ++ ztake k rest /\
    match r with
    | Ret x => round_ends hs n rest v x k p'
    | Throw e => copy_error e
    | _ => False
    end.
Proof.
  intros Hw Herr Hready. pose proof (callback_relays n rest v p Hw) as Hcb.
  destruct (copy_callback l m limit p) as [r p2] eqn:Ecb.
  destruct Hcb as (j & Hj & Hs2 & Hr). pose proof Hw as (_ & Hs & _).
  destruct (at_eof_source false n p Hs) as (_ & _ & _ & Hcount).
  cbn [spec_dispatch]. rewrite Herr, (ready_not_hup _ Hready), Hready. cbn [when].
  assert (Hcall : (fun p => snd (callback rule p)) p = (r, p2)) by (simpl; by rewrite Ecb).
  destruct r as [[]|e| |]; try done.
  - destruct Hr as [Hw2 Hend]. pose proof Hw2 as (_ & Hs2' & _).
    destruct (at_eof_source _ _ p2 Hs2') as (_ & _ & _ & Hcount2).
    assert (Hserve : spec_service rule p = (Ret tt, p2)).
    { apply (spec_service_intro _ p n p2 (u32 (n + 1))); try done.
      - simpl. by rewrite Ecb.
      - left. split; [apply u32_succ_ne | done]. }
    rewrite (bind_Ret _ _ p p2 [rule]) by (rewrite (bind_Ret _ _ p p2 tt Hserve); done).
    exists j. split; [done|]. split; [done|]. by right; right; right.
  - assert (Hserve : spec_service rule p = (Throw e, p2)).
    { unfold spec_service. rewrite (bind_Ret _ _ p p n) by by apply service_count_eq.
      by apply bind_Throw. }
    rewrite (bind_Throw _ _ p p2 e) by (by apply bind_Throw). by exists j.
Qed.

(** One round of the specification. *)
Lemma spec_round hs t n rest v p : writing false n rest v p ->
  owned (wrappers p) (Some l :: hs) -> Some l ∈ hs ->
  let '(r, p') := spec_wait [rule] t p in
  exists k, 0 <= k <= zlen rest /\ sink b (kernel p') = sink b (kernel p) ++ ztake k rest /\
    match r with
    | Ret x => round_ends hs n rest v x k p'
    | Throw e => copy_error e
    | _ => False
    end.
Proof.
  intros Hw Ho Hin. pose proof Hw as (_ & Hs & _ & Hp & Hv).
  destruct (at_eof_source false n p Hs) as (He & Hcl & Hfd & _).
  assert (Hset : spec_setup [rule] p = (Ret [(rule, mkPollfd a POLLIN 0)], p)).
  { cbn [spec_setup]. rewrite (bind_Ret _ _ p p _ He). cbn [fd copy_rule].
    rewrite (bind_Ret _ _ p p _ Hcl). cbn [interest copy_rule always].
    rewrite (bind_Ret _ _ p p true) by done. by rewrite (bind_Ret _ _ p p _ Hfd). }
  unfold spec_wait. rewrite (bind_Ret _ _ p p _ Hset). cbn [existsb map fst snd negb].
  change (wanted _) with true. cbn [orb negb].
  pose proof (finite_poll a t (kernel p)) as Hpoll.
  destruct (sys_poll [mkPollfd a POLLIN 0] t (kernel p)) as [z k] eqn:Ez.
  destruct Hpoll as (Hpend & Hsink & Hreport & Hhup).
  rewrite (bind_Ret _ _ _ _ _ (poll_once_run _ t p z k Ez)).
  replace (fill_revents [mkPollfd a POLLIN 0] (out z)) with [mkPollfd a POLLIN (answer z)]
    by (unfold answer; by destruct (out z)).
  set (p1 := after z k p). assert (Hsink1 : sink b (kernel p1) = sink b (kernel p)) by apply Hsink.
  assert (Ho1 : owned (wrappers p1) (Some l :: hs)) by exact Ho.
  assert (Hvain : forall v', (vain a k <= v')%nat -> writing false n rest v' p1)
    by (intros v' Hv'; by eapply writing_after).
  zlens. assert (Hquiet : forall x, round_ends hs n rest v x 0 p1 -> exists j, 0 <= j <= zlen rest /\
    sink b (kernel p1) = sink b (kernel p) ++ ztake j rest /\ round_ends hs n rest v x j p1).
  { intros x Hx. exists 0. split; [lia|]. by rewrite Hsink1, app_nil_r. }
  destruct (Z.eqb_spec (ret z) 0) as [Hz|Hz].
  { apply Hquiet. rewrite (proj2 (Z.ltb_ge 0 (ret z))) in Hreport by lia. left.
    split; [by right|]. split; [done|]. split; [done|]. exists (vain a k). split; [lia | by apply Hvain]. }
  destruct ((ret z <? 0) && (err z =? EINTR)) eqn:Hint.
  { apply Hquiet. apply andb_true_iff in Hint as [Hneg%Z.ltb_lt Hi%Z.eqb_eq].
    rewrite (proj2 (Z.ltb_ge 0 (ret z))) in Hreport by lia. right; left.
    split; [done|]. split; [done|]. split; [|apply Hvain; lia].
    simpl. by rewrite (proj2 (Z.ltb_lt _ _)). }
  cbn [zip_with zip].
  assert (Hw1 : writing false n rest v p1) by (apply Hvain; destruct (0 <? ret z); lia).
  destruct (poll_error (mkPollfd a POLLIN (answer z))) eqn:Herr.
  { cbn [spec_dispatch]. rewrite Herr. exists 0. split; [lia|].
    split; [by rewrite app_nil_r | by right; left]. }
  destruct (poll_ready (mkPollfd a POLLIN (answer z))) eqn:Hready.
  { pose proof (spec_served hs n rest v p1 _ Hw1 Herr Hready) as Hserved. rewrite <- Hsink1. exact Hserved. }
  destruct (only_hup (mkPollfd a POLLIN (answer z))) eqn:Honly.
  - destruct (gives_up hs p1 Ho1 Hin) as (p2 & Hd & Hk2 & Ho2).
    cbn [spec_dispatch]. rewrite Herr, Honly. unfold spec_drop.
    rewrite (bind_Ret _ _ p1 p2 []).
    2: { rewrite (bind_Ret _ _ p1 p2 tt); [done|]. by rewrite (bind_Ret _ _ p1 p1 tt). }
    exists 0. split; [lia|]. rewrite Hk2, Hsink1, app_nil_r. split; [done|]. right; right; left.
    split_and!; try done. rewrite <- Hp. apply Hhup.
    + unfold only_hup, poll_hup, nonzero in Honly. simpl in Honly.
      by destruct (Z.eqb_spec (Z.land (answer z) POLLHUP) 0).
    + unfold poll_ready, nonzero in Hready. simpl in Hready. by apply negb_false_iff, Z.eqb_eq in Hready.
  - cbn [spec_dispatch]. rewrite Herr, Honly, Hready. apply Hquiet. left. split; [by left|].
    split; [done|]. split; [done|]. exists (vain a k).
    destruct (Z.ltb_spec 0 (ret z)); [|split; [lia | by apply Hvain]].
    destruct Hreport as [Hr _]. by rewrite (reported _ Hr Herr Hready) in Honly.
Qed.

Lemma copy_rule_adds_nothing : adds_nothing rule.
Proof. by intros p. Qed.

(** The same of the loop itself. *)
Lemma wait_round hs t n rest v p : writing false n rest v p ->
  owned (wrappers p) (Some l :: hs) -> Some l ∈ hs ->
  let '(o, (rs, p')) := wait_next_event 2 t ([rule], p) in
  exists k, 0 <= k <= zlen rest /\ sink b (kernel p') = sink b (kernel p) ++ ztake k rest /\
    match o with
    | Ret r => round_ends hs n rest v (r, rs) k p'
    | Throw e => copy_error e
    | _ => False
    end.
Proof.
  intros Hw Ho Hin. pose proof (spec_round hs t n rest v p Hw Ho Hin) as Hspec.
  pose proof (wait_sim 2 [rule] t p
    (Forall_cons_2 _ _ _ copy_rule_adds_nothing (Forall_nil_2 _)) ltac:(simpl; lia)) as Hsim.
  unfold simulates in Hsim. destruct (wait_next_event _ _ _) as [o [rs p']].
  destruct (spec_wait _ _ _) as [r p'']. simpl in Hsim. destruct Hsim as (-> & _ & Hres).
  destruct Hspec as (k & Hk & Hs & Hr). exists k. split; [done|]. split; [done|].
  destruct r as [[res rs']|e| |]; try done.
  - simpl in Hres. by injection Hres as -> ->.
  - by subst o.
Qed.

(** A source at its end: the rule goes, and the loop is over. *)
Lemma wait_at_end t n rest v p hs : writing true n rest v p ->
  owned (wrappers p) (Some l :: hs) -> Some l ∈ hs ->
  exists p', wait_next_event 2 t ([rule], p) = (Ret Exit, ([], p')) /\
    kernel p' = kernel p /\ owned (wrappers p') hs.
Proof.
  intros Hw Ho Hin. pose proof Hw as (_ & Hs & _).
  destruct (at_eof_source true n p Hs) as (He & _).
  destruct (gives_up hs p Ho Hin) as (p' & Hd & Hk & Ho'). exists p'. split; [|done].
  pose proof (wait_sim 2 [rule] t p
    (Forall_cons_2 _ _ _ copy_rule_adds_nothing (Forall_nil_2 _)) ltac:(simpl; lia)) as Hsim.
  assert (Hspec : spec_wait [rule] t p = (Ret (Exit, []), p')).
  { unfold spec_wait. rewrite (bind_Ret _ _ p p' []); [done|]. cbn [spec_setup].
    rewrite (bind_Ret _ _ p p _ He). rewrite (bind_Ret _ _ p p true) by done.
    rewrite (bind_Ret _ _ p p' tt); [done|]. unfold spec_drop.
    by rewrite (bind_Ret _ _ p p tt) by done. }
  unfold simulates in Hsim. destruct (wait_next_event _ _ _) as [o [rs q]].
  rewrite Hspec in Hsim. simpl in Hsim. destruct Hsim as (-> & _ & Hres). by injection Hres as -> ->.
Qed.

Lemma writing_owned hs n rest v p p' eof eof' n' rest' v' : writing eof n rest v p ->
  writing eof' n' rest' v' p' -> owned (wrappers p) hs -> owned (wrappers p') hs.
Proof. intros (E & _) (E' & _). apply owned_counts. unfold counts in *. congruence. Qed.

(** A loop without rules is over. *)
Lemma drive_no_rules rounds t p : (0 < rounds)%nat -> drive rounds t ([], p) = (Ret tt, ([], p)).
Proof. intros Hr. by destruct rounds; [lia|]. Qed.

(** How the copying ends. *)
Definition drive_ends (hs : list (option positive)) (rest : bytes) (k : Z) (o : outcome unit)
    (rs : list Rule) p' : Prop :=
  match o with
  | Ret _ => (k = zlen rest /\ rs = [] /\ owned (wrappers p') hs) \/
             (rs = [rule] /\ errno p' = EINTR /\ owned (wrappers p') (Some l :: hs))
  | Throw e => copy_error e
  | _ => False
  end.

(** Every round takes a byte of the input, or its end, or one of the times
    [poll] is in vain, so one more than there are of these is enough. *)
Lemma drive_relays hs t rounds : Some l ∈ hs -> forall eof n rest v p,
  writing eof n rest v p -> owned (wrappers p) (Some l :: hs) ->
  (if eof then rest = [] else True) ->
  (Z.to_nat (zlen rest) + v + (if eof then 0 else 1) < rounds)%nat ->
  let '(o, (rs, p')) := drive rounds t ([rule], p) in
  exists k, 0 <= k <= zlen rest /\
    sink b (kernel p') = sink b (kernel p) ++ ztake k rest /\ drive_ends hs rest k o rs p'.
Proof.
  intros Hin. induction rounds as [|rounds IH]; intros eof n rest v p Hw Ho Hend Hrounds; [lia|].
  cbn [drive].
  rewrite (bind_Ret (S:=Loop (K:=K)) get _ _ _ ([rule], p)) by done.
  change (length (rules ([rule], p))) with 1%nat. destruct eof.
  { subst rest. destruct (wait_at_end t n [] v p hs Hw Ho Hin) as (p' & E & Hk & Ho').
    rewrite (bind_Ret _ _ _ _ _ E). exists 0. rewrite Hk, app_nil_r. split_and!; try done. by left. }
  pose proof (wait_round hs t n rest v p Hw Ho Hin) as Hround.
  destruct (wait_next_event 2 t _) as [o [rs p1]] eqn:E.
  destruct Hround as (k & Hk & Hs & Hr). destruct o as [r|e| |]; try done.
  2: { rewrite (bind_Throw _ _ _ _ _ E). by exists k. }
  rewrite (bind_Ret _ _ _ _ _ E).
  destruct Hr as [(Hres & Hrs & -> & v' & Hv & Hw1)|[([= -> ->] & -> & Hi & Hw1)|
    [([= -> ->] & -> & Hnil & Ho1)|([= -> ->] & Hw1 & Hend1)]]]; simpl in *.
  - subst rs. pose proof (writing_owned _ _ _ _ _ _ _ _ _ _ _ Hw Hw1 Ho) as Ho1.
    specialize (IH _ _ _ _ p1 Hw1 Ho1 I ltac:(simpl; lia)). rewrite app_nil_r in Hs. rewrite <- Hs.
    by destruct Hres as [-> | ->].
  - exists 0. split; [zlia|]. split; [done|]. right.
    split; [done|]. split; [done|]. exact (writing_owned _ _ _ _ _ _ _ _ _ _ _ Hw Hw1 Ho).
  - rewrite drive_no_rules by lia. exists 0. split; [zlia|]. split; [done|]. left. by rewrite Hnil.
  - assert (Hlen : zlen (zdrop k rest) = zlen rest - k) by (rewrite zlen_zdrop; lia).
    specialize (IH _ _ _ _ p1 Hw1 (writing_owned _ _ _ _ _ _ _ _ _ _ _ Hw Hw1 Ho)).
    destruct (drive rounds t _) as [o' [rs' p']].
    destruct IH as (j & Hj & Hs' & Hr').
    + case_bool_decide as Hz; [|done]. by rewrite (Hend1 Hz), Hz.
    + rewrite Hlen. case_bool_decide as Hz; [rewrite (Hend1 Hz) in *; znorm|]; lia.
    + exists (k + j). rewrite Hlen in *. split; [lia|]. split.
      * by rewrite Hs', Hs, <- app_assoc, <- ztake_add by lia.
      * destruct o'; try done. destruct Hr' as [(-> & ? & ?)|?]; [left | by right].
        split_and!; try done. rewrite Hlen. lia.
Qed.

End RelayFacts.

(** ** A concrete system *)

(** [Loopback], where [poll] first answers from a script and then says that
    its descriptors are readable. *)
Module Script.

Inductive event : Type := TimesOut | Fails (error : Z).

Record t : Type := mk { base : Loopback.t; script : list event }.

Definition on_base {A} (call : Loopback.t -> sysret A * Loopback.t) (k : t) : sysret A * t :=
  let '(r, b) := call (base k) in (r, mk b (script k)).

Definition poll (fds : list pollfd) (timeout : Z) (k : t) : sysret (list Z) * t :=
  match script k with
  | TimesOut :: rest => (mkRet 0 0 (map (fun _ => 0) fds), mk (base k) rest)
  | Fails error :: rest => (mkRet (-1) error (map (fun _ => 0) fds), mk (base k) rest)
  | [] => (mkRet (zlen fds) 0 (map (fun _ => POLLIN) fds), k)
  end.

#[global] Instance Script_Kernel : Kernel t := {|
  sys_close := fun fd => on_base (sys_close fd);
  sys_read := fun fd n => on_base (sys_read fd n);
  sys_writev := fun fd vs => on_base (sys_writev fd vs);
  sys_getfl := fun fd => on_base (sys_getfl fd);
  sys_setfl := fun fd flags => on_base (sys_setfl fd flags);
  sys_poll := poll
|}.

End Script.

Import Script.

#[export] Program Instance Script_Laws : KernelLaws t := {|
  sink := fun fd k => sink fd (base k)
|}.
Next Obligation. intros fd n k Hn. exact (read_law fd n (base k) Hn). Qed.
Next Obligation. intros fd vs k. exact (writev_law fd vs (base k)). Qed.
Next Obligation. intros fd k. exact (close_law fd (base k)). Qed.

(** Where transfers are empty, so is the input. *)
#[export] Program Instance Script_FiniteInput : FiniteInput t := {|
  pending := fun fd k => if 1 <=? Loopback.chunk (base k)
                         then Loopback.content fd (Loopback.input (base k)) else [];
  vain := fun fd k => length (script k)
|}.
Next Obligation.
  intros fd n k Hn. simpl. split; [done|]. split; [done|]. intros _.
  assert (Hlk : forall v, Loopback.content fd (<[fd := v]> (Loopback.input (base k))) = v)
    by (intros v; unfold Loopback.content; by rewrite lookup_insert_eq).
  rewrite Hlk. set (data := Loopback.content fd (Loopback.input (base k))).
  set (j := Z.min n (Loopback.limit (base k))). zlens.
  destruct (Z.leb_spec 1 (Loopback.chunk (base k))) as [Hc|Hc].
  - assert (Hj : 1 <= j) by (subst j; unfold Loopback.limit, INT_MAX; lia).
    assert (Hz : zlen (ztake j data) = Z.min j (zlen data)) by (rewrite zlen_ztake; lia).
    rewrite Hz. split.
    + rewrite <- (ztake_zdrop j data) at 1. f_equal.
      destruct (decide (j <= zlen data)); [f_equal; lia|]. by rewrite !zdrop_all by lia.
    + intros E. rewrite E in Hz. znorm. apply zlen_0. lia.
  - assert (Hj : j <= 0) by (subst j; unfold Loopback.limit, INT_MAX; lia).
    rewrite app_nil_r. split; [|done]. unfold ztake. by replace (Z.to_nat j) with 0%nat by lia.
Qed.
Next Obligation. intros fd vs k fd'. by split. Qed.
Next Obligation.
  intros fd t k. simpl. unfold poll, answer, reports, POLLIN, POLLHUP, POLLERR, POLLNVAL.
  destruct (script k) as [|[|e] rest] eqn:E; simpl; rewrite ?E; simpl; split_and!; try done; try lia.
Qed.

(** [input] on descriptor 3, whose object the program and the rule share,
    transfers of two bytes, and [events] before [poll] says that the input is
    readable. *)
Definition relay_proc (input : bytes) (events : list event) : Proc t :=
  mkProc 0 (mk (Loopback.mk {[ 3 := input ]} ∅ 2 0 1 0 [POLLIN] []) events)
    (<[ 1%positive := (mkWrapper 3 false false 0 0, 2%nat) ]>
     (<[ 2%positive := (mkWrapper 4 false false 0 0, 1%nat) ]> ∅)) [].

Lemma relay_owned input events :
  owned (wrappers (relay_proc input events)) [Some 1%positive; Some 1%positive; Some 2%positive].
Proof.
  intros i. simpl. destruct (decide (i = 1%positive)) as [->|H1]; [by vm_compute; lia|].
  destruct (decide (i = 2%positive)) as [->|H2]; [by vm_compute; lia|].
  rewrite !lookup_insert_ne by done. rewrite lookup_empty. unfold refs.
  by rewrite !filter_cons, !decide_False by congruence.
Qed.

(** ** Properties *)

(** C5. Termination of a copying loop, through [wait_next_event], [read] and
    [write] together: on any system whose calls keep their promises, with a
    finite input for which [poll] times out, is interrupted or fails only
    finitely often, a loop with one rule, whose callback writes what it reads,
    called until it returns [Exit], is called at most two times more than
    there are bytes and vain polls, however reads and writes are cut and
    whichever of them fail.  What has been written is then a prefix of the
    input.  It ends in an exception, of [read], [write] or an error that [poll]
    reported; or with the whole input written, no rule left and the loop's
    handle given up; or because a signal interrupted [poll], with the rule
    still there. *)
Theorem copy_loop_terminates {K : Type} `{FiniteInput K} l m wl wm limit t rounds hs (p : Proc K) :
  0 < limit ->
  deref l (wrappers p) = Some wl -> _closed wl = false -> _eof wl = false ->
  deref m (wrappers p) = Some wm ->
  owned (wrappers p) (Some l :: hs) -> Some l ∈ hs ->
  let data := pending (_fd wl) (kernel p) in
  (Z.to_nat (zlen data) + vain (_fd wl) (kernel p) + 1 < rounds)%nat ->
  let '(o, (rs, p')) := drive rounds t ([copy_rule l m limit], p) in
  exists k, 0 <= k <= zlen data /\
    sink (_fd wm) (kernel p') = sink (_fd wm) (kernel p) ++ ztake k data /\
    match o with
    | Ret _ => (k = zlen data /\ rs = [] /\ owned (wrappers p') hs) \/
               (rs = [copy_rule l m limit] /\ errno p' = EINTR /\
                owned (wrappers p') (Some l :: hs))
    | Throw e => copy_error e
    | _ => False
    end.
Proof.
  intros Hlim Hl Hcl He Hm Ho Hin data Hr.
  apply (drive_relays l m (_fd wl) (_fd wm) limit (snd <$> wrappers p) Hlim hs t rounds Hin false
    (_read_count wl) data (vain (_fd wl) (kernel p))); try done.
  split; [done|]. split; [by exists wl|]. split; [by exists wm | done].
Qed.

Lemma copy_loop_terminates_witness :
  let p := relay_proc (lit "abcde") [TimesOut; Fails 12] in
  let '(o, (rs, p')) := drive 9 0 ([copy_rule 1 2 3], p) in
  exists k, 0 <= k <= 5 /\ sink 4 (kernel p') = ztake k (lit "abcde") /\
    match o with
    | Ret _ => (k = 5 /\ rs = [] /\ owned (wrappers p') [Some 1%positive; Some 2%positive]) \/
               (rs = [copy_rule 1 2 3] /\ errno p' = EINTR /\
                owned (wrappers p') [Some 1%positive; Some 1%positive; Some 2%positive])
    | Throw e => copy_error e
    | _ => False
    end.
Proof.
  intros p. pose proof (copy_loop_terminates 1%positive 2%positive (mkWrapper 3 false false 0 0)
    (mkWrapper 4 false false 0 0) 3 0 9 [Some 1%positive; Some 2%positive] p) as Hc.
  specialize (Hc ltac:(lia) eq_refl eq_refl eq_refl eq_refl).
  specialize (Hc (relay_owned _ _) (list_elem_of_here _ _) ltac:(apply Nat.ltb_lt; by vm_compute)).
  destruct (drive 9 0 _) as [o [rs p']]. destruct Hc as (k & Hk & Hs & Hr).
  exists k. split; [exact Hk|]. split; [exact Hs | exact Hr].
Defined.

(** An interrupted [poll] ends the loop before the end of the input. *)
Example copy_interrupted :
  let '(o, (rs, p')) := drive 9 0 ([copy_rule 1 2 3],
      relay_proc (lit "abcde") [TimesOut; Fails EINTR]) in
  o = Ret tt /\ length rs = 1%nat /\ sink 4 (kernel p') = [].
Proof. vm_compute. by split_and!. Qed.
