(* ===== verification/StreamPair.v ===== *)
(** Two descriptors joined as a stream, as the sockets of a connection and the
    pipes of [doctests/socket_example_3.cc] are: what [write] sends through
    one and [read] receives from the other, call after call. *)

From S2P Require Import Prelude Buffer Process FileDescriptor.

Local Open Scope Z_scope.

(** ** The system *)

(** Streams: [taken fd k] is what has been read from [fd] so far.  The bytes
    read at one end of a pair are the first of those written to the other;
    reads and writes may be short and may fail. *)
Class StreamPairs (K : Type) `{KernelLaws K} : Type := {
  taken : Z -> K -> bytes;
  joined : Z -> Z -> K -> Prop;
  joined_prefix : forall a b k, joined a b k -> taken b k `prefix_of` sink a k;
  pair_read : forall fd n k,
    let '(r, k') := sys_read fd n k in
    (forall a b, joined a b k -> joined a b k') /\
    (forall a, sink a k' = sink a k) /\
    (forall a, taken a k' = if decide (a = fd) then taken a k ++ (if ret r <? 0 then [] else out r)
                            else taken a k);
  pair_writev : forall fd vs k,
    let '(r, k') := sys_writev fd vs k in
    (forall a b, joined a b k -> joined a b k') /\
    (forall a, a <> fd -> sink a k' = sink a k) /\
    (forall a, taken a k' = taken a k)
}.

(** ** Transfers *)

(** What a program does with the two ends, [true] and [false]. *)
Inductive transfer : Type :=
  | Send (e : bool) (data : bytes)
  | Receive (e : bool) (limit : Z).

(** What it sees. *)
Inductive event : Type :=
  | Sent
  | Received (data : bytes)
  | Failed (x : exn).

Definition valid_transfer (t : transfer) : Prop :=
  match t with
  | Send _ data => zlen data < 2 ^ 63
  | Receive _ limit => 0 <= limit
  end.

(** What the events at an end received. *)
Fixpoint received (e : bool) (ts : list transfer) (evs : list event) : bytes :=
  match ts, evs with
  | Receive e' _ :: ts, Received data :: evs =>
      (if eqb e' e then data else []) ++ received e ts evs
  | _ :: ts, _ :: evs => received e ts evs
  | _, _ => []
  end.

(** [data] is what the calls at an end sent: all of each string whose [write]
    returned, a first part of one whose [write] threw. *)
Fixpoint transmitted (e : bool) (ts : list transfer) (evs : list event) (data : bytes) : Prop :=
  match ts, evs with
  | Send e' s :: ts, ev :: evs =>
      if eqb e' e
      then exists part rest, data = part ++ rest /\ part `prefix_of` s /\
             (ev = Sent -> part = s) /\ transmitted e ts evs rest
      else transmitted e ts evs data
  | _ :: ts, _ :: evs => transmitted e ts evs data
  | _, _ => data = []
  end.

Section Pair.
Context {K : Type} `{StreamPairs K}.
Implicit Types p : Proc K.
Variables (h : bool -> positive) (fd : bool -> Z).

Definition transfer_step (t : transfer) : M (Proc K) event :=
  try_catch
    match t with
    | Send e data => _ ← write_string (Some (h e)) data true; mret Sent
    | Receive e limit => data ← read (Some (h e)) limit; mret (Received data)
    end
    (fun x => mret (Failed x)).

Fixpoint transfers (ts : list transfer) : M (Proc K) (list event) :=
  match ts with
  | [] => mret []
  | t :: ts' => ev ← transfer_step t; evs ← transfers ts'; mret (ev :: evs)
  end.

(** The handles are those of the two ends of a pair. *)
Definition connected p : Prop := forall e,
  (exists w, deref (h e) (wrappers p) = Some w /\ _fd w = fd e) /\
  joined (fd e) (fd (negb e)) (kernel p).

(** ** One transfer *)

Hypothesis distinct : fd true <> fd false.

Lemma ends_differ e : fd (negb e) <> fd e.
Proof. destruct e; simpl; congruence. Qed.

Lemma connected_update f l p : (forall w, _fd (f w) = _fd w) -> connected p ->
  connected (set_wrappers (update_obj f l) p).
Proof.
  intros Hf Hp e. destruct (Hp e) as [(w & Hw & Hfd) Hj]. split; [|done]. simpl.
  rewrite deref_update, Hw. case_decide; [|by exists w].
  exists (f w). by rewrite Hf.
Qed.

Lemma connected_after {A} p (r : sysret A) k : connected p ->
  (forall a b, joined a b (kernel p) -> joined a b k) -> connected (after r k p).
Proof. intros Hp Hj e. destruct (Hp e) as [Hw Hjo]. split; [done | by apply Hj]. Qed.

(** Sending grows what was sent from one end, and nothing else. *)
Lemma send_effect e data p : zlen data < 2 ^ 63 -> connected p ->
  let '(r, p') := write_string (Some (h e)) data true p in
  connected p' /\ (forall a, taken a (kernel p') = taken a (kernel p)) /\
  sink (fd (negb e)) (kernel p') = sink (fd (negb e)) (kernel p) /\
  exists n, 0 <= n <= zlen data /\
    sink (fd e) (kernel p') = sink (fd e) (kernel p) ++ ztake n data /\
    match r with Ret _ => n = zlen data | Throw _ => True | _ => False end.
Proof.
  intros Hlen Hp. zlens. unfold write_string, BufferViewList.of_std_string.
  set (J := fun q => connected q /\ (forall a, taken a (kernel q) = taken a (kernel p)) /\
    sink (fd (negb e)) (kernel q) = sink (fd (negb e)) (kernel p)).
  assert (Hc : BufferViewList.contents (BufferViewList.of_view data) = data) by apply app_nil_r.
  assert (Hsafe : safe J (write (Some (h e)) (BufferViewList.of_view data) true)).
  { apply (safe_write_loop _ (h e) (fd e)); rewrite ?Hc; [| | |lia|done].
    - intros q [Hq _]. apply Hq.
    - intros q vs r k (Hq & Ht & Hs) E. pose proof (pair_writev (fd e) vs (kernel q)) as Hl.
      rewrite E in Hl. destruct Hl as (Hj & Hsk & Htk). split; [by apply connected_after|].
      split; simpl; [intros a; by rewrite Htk | by rewrite Hsk by apply ends_differ].
    - intros q (Hq & Ht & Hs). split; [by apply connected_update | done]. }
  pose proof (Hsafe p ltac:(by split_and!)) as [(Hp' & Ht' & Hs') _]. unfold exec in *.
  destruct (Hp e) as [(w & Hw & Hfd) _].
  destruct (write_loop_sink (h e) (fd e) true
    (S (Z.to_nat (zlen (BufferViewList.contents (BufferViewList.of_view data)))))
    (BufferViewList.of_view data) 0 p w Hw Hfd) as (n & Hn & Hrun);
    rewrite ?Hc in *; try (unfold SIZE_MAX; lia).
  unfold write in *. rewrite Hc in *. destruct (write_loop _ _ _ _ _ _) as [r p'].
  split; [done|]. split; [done|]. split; [done|]. exists n. destruct Hrun as [Hs Hr].
  split; [done|]. split; [done|]. destruct r; try done. destruct Hr as [_ Hr]. by apply Hr.
Qed.

(** Receiving grows what was taken at one end by what [read] returns. *)
Lemma receive_effect e limit p : 0 <= limit -> connected p ->
  let '(r, p') := read (Some (h e)) limit p in
  connected p' /\ (forall a, sink a (kernel p') = sink a (kernel p)) /\
  taken (fd (negb e)) (kernel p') = taken (fd (negb e)) (kernel p) /\
  match r with
  | Ret data => taken (fd e) (kernel p') = taken (fd e) (kernel p) ++ data
  | Throw _ => taken (fd e) (kernel p') = taken (fd e) (kernel p)
  | _ => False
  end.
Proof.
  intros Hlim Hp. destruct (Hp e) as [(w & Hw & Hfd) _].
  pose proof (read_outcome (h e) w limit p Hw Hlim) as Hr. rewrite Hfd in Hr.
  pose proof (pair_read (fd e) (Z.min BUFFER_SIZE limit) (kernel p)) as Hl.
  destruct (sys_read (fd e) (Z.min BUFFER_SIZE limit) (kernel p)) as [r k].
  destruct Hl as (Hj & Hs & Ht). pose proof (Ht (fd e)) as Hte.
  pose proof (Ht (fd (negb e))) as Htn. rewrite decide_True in Hte by done.
  rewrite decide_False in Htn by apply ends_differ.
  pose proof (connected_after p r k Hp Hj) as Hp'. rewrite Hr.
  destruct (ret r <? 0).
  - rewrite app_nil_r in Hte. by split_and!.
  - split; [|by split_and!]. apply connected_update; [|done]. intros v. unfold read_effect.
    by destruct (_ && _).
Qed.

(** What a transfer did to the streams at each end. *)
Definition moves (ts : list transfer) (evs : list event) (p p' : Proc K) : Prop := forall e,
  taken (fd e) (kernel p') = taken (fd e) (kernel p) ++ received e ts evs /\
  exists data, transmitted e ts evs data /\
    sink (fd e) (kernel p') = sink (fd e) (kernel p) ++ data.

Lemma step_moves t p : valid_transfer t -> connected p ->
  exists ev p', transfer_step t p = (Ret ev, p') /\ connected p' /\ moves [t] [ev] p p'.
Proof.
  intros Hv Hp. unfold transfer_step, try_catch. destruct t as [e data|e limit]; simpl in Hv.
  - pose proof (send_effect e data p Hv Hp) as Hs. unfold mbind, M_bind.
    destruct (write_string _ _ _ p) as [r p'].
    destruct Hs as (Hp' & Ht & Hother & n & Hn & Hs & Hr).
    assert (Hm : forall ev, (ev = Sent -> n = zlen data) -> moves [Send e data] [ev] p p').
    { intros ev Hev e'. rewrite Ht. simpl. split; [by rewrite app_nil_r|].
      destruct (eqb_spec e e') as [<-|Hne].
      - exists (ztake n data). split; [|done]. exists (ztake n data), [].
        split; [by rewrite app_nil_r|]. split; [|split; [|done]].
        + exists (zdrop n data). by rewrite ztake_zdrop.
        + intros Hsent. rewrite (Hev Hsent). by apply ztake_all.
      - exists []. split; [done|]. rewrite app_nil_r. by destruct e, e'. }
    destruct r as [k|x| |]; try done; eexists _, p'; (split; [reflexivity|]);
      (split; [done|]); by apply Hm.
  - pose proof (receive_effect e limit p Hv Hp) as Hr. unfold mbind, M_bind.
    destruct (read _ _ p) as [r p']. destruct Hr as (Hp' & Hs & Hother & Hr).
    assert (Hend : forall e' x, x = taken (fd e) (kernel p') -> forall data,
      x = taken (fd e) (kernel p) ++ data ->
      taken (fd e') (kernel p') = taken (fd e') (kernel p) ++ ((if eqb e e' then data else []) ++ [])).
    { intros e' x -> data E. rewrite app_nil_r. destruct (eqb_spec e e') as [<-|Hne]; [done|].
      rewrite app_nil_r. by destruct e, e'. }
    destruct r as [data|x| |]; try done; eexists _, p'; (split; [reflexivity|]);
      (split; [done|]); intros e'; rewrite Hs; simpl;
      (split; [|exists []; by rewrite app_nil_r]).
    + by eapply Hend.
    + rewrite (Hend e' _ eq_refl []); [by destruct (eqb e e')|]. by rewrite app_nil_r.
Qed.

Lemma moves_cons t ev ts evs p p1 p2 : moves [t] [ev] p p1 -> moves ts evs p1 p2 ->
  moves (t :: ts) (ev :: evs) p p2.
Proof.
  intros Hm1 Hm2 e. destruct (Hm1 e) as (Ht1 & d1 & Hd1 & Hs1).
  destruct (Hm2 e) as (Ht2 & d2 & Hd2 & Hs2).
  rewrite Ht2, Ht1, Hs2, Hs1, <- !app_assoc. split.
  - f_equal. simpl. destruct t, ev; try done. by rewrite app_nil_r.
  - exists (d1 ++ d2). split; [|done]. simpl in Hd1 |- *. destruct t as [e' s|e' n].
    + destruct (eqb e' e); [|by subst d1].
      destruct Hd1 as (part & rest & -> & Hpre & Hsent & ->). exists part, d2.
      by rewrite app_nil_r.
    + by subst d1.
Qed.

Lemma transfers_move ts : forall p, Forall valid_transfer ts -> connected p ->
  exists evs p', transfers ts p = (Ret evs, p') /\ length evs = length ts /\
    connected p' /\ moves ts evs p p'.
Proof.
  induction ts as [|t ts IH]; intros p Hv Hp.
  - exists [], p. split; [done|]. split; [done|]. split; [done|]. intros e. simpl. rewrite app_nil_r.
    split; [done|]. exists []. by rewrite app_nil_r.
  - inversion_clear Hv. destruct (step_moves t p) as (ev & p1 & E1 & Hp1 & Hm1); [done..|].
    destruct (IH p1) as (evs & p2 & E2 & Hl & Hp2 & Hm2); [done..|].
    exists (ev :: evs), p2. split; [|split; [by simpl; rewrite Hl | split; [done|]]].
    + simpl. rewrite (bind_Ret _ _ _ _ _ E1). by rewrite (bind_Ret _ _ _ _ _ E2).
    + by eapply moves_cons.
Qed.

End Pair.

(** ** A concrete system *)

(** Descriptors [fd] and [7 - fd] are joined; transfers are of at most
    [chunk] bytes. *)
Module Pipes.

Record t : Type := mk {
  queue : gmap Z bytes;
  written : gmap Z bytes;
  consumed : gmap Z bytes;
  chunk : Z
}.

Definition content (fd : Z) (m : gmap Z bytes) : bytes := default [] (m !! fd).

Definition peer (fd : Z) : Z := 7 - fd.

Definition limit (k : t) : Z := Z.max 0 (Z.min (chunk k) INT_MAX).

Definition read (fd n : Z) (k : t) : sysret bytes * t :=
  let data := ztake (Z.min n (limit k)) (content fd (queue k)) in
  (mkRet (zlen data) 0 data,
   mk (<[fd := zdrop (Z.min n (limit k)) (content fd (queue k))]> (queue k)) (written k)
     (<[fd := content fd (consumed k) ++ data]> (consumed k)) (chunk k)).

Definition writev (fd : Z) (vs : list BufferViewList.iovec) (k : t) : sysret unit * t :=
  let data := ztake (limit k) (BufferViewList.iovecs_contents vs) in
  (mkRet (zlen data) 0 tt,
   mk (<[peer fd := content (peer fd) (queue k) ++ data]> (queue k))
     (<[fd := content fd (written k) ++ data]> (written k)) (consumed k) (chunk k)).

Definition nothing {A} (a : A) (k : t) : sysret A * t := (mkRet 0 0 a, k).

#[global] Instance kernel : Kernel t := {|
  sys_close := fun _ => nothing tt;
  sys_read := read;
  sys_writev := writev;
  sys_getfl := fun _ => nothing tt;
  sys_setfl := fun _ _ => nothing tt;
  sys_poll := fun _ _ => nothing []
|}.

Definition joined (a b : Z) (k : t) : Prop :=
  b = peer a /\ content a (written k) = content b (consumed k) ++ content b (queue k).

(** Ends 3 and 4, of objects 1 and 2. *)
Definition object (e : bool) : positive := if e then 1%positive else 2%positive.
Definition end_fd (e : bool) : Z := if e then 3 else 4.

Definition proc (chunk : Z) : Proc t :=
  mkProc 0 (mk ∅ ∅ ∅ chunk)
    (<[ 1%positive := (mkWrapper 3 false false 0 0, 1%nat) ]>
     (<[ 2%positive := (mkWrapper 4 false false 0 0, 1%nat) ]> ∅)) [].

Lemma content_insert a b v m :
  content a (<[b := v]> m) = if decide (a = b) then v else content a m.
Proof.
  unfold content. case_decide as E; [subst; by rewrite lookup_insert_eq|].
  by rewrite lookup_insert_ne.
Qed.

End Pipes.

#[export] Program Instance Pipes_Laws : KernelLaws Pipes.t := {|
  sink := fun fd k => Pipes.content fd (Pipes.written k)
|}.
Next Obligation.
  intros fd n k Hn. right. simpl. pose proof (zlen_nonneg (Pipes.content fd (Pipes.queue k))).
  rewrite zlen_ztake; unfold Pipes.limit; lia.
Qed.
Next Obligation.
  intros fd vs k. right. simpl. rewrite Pipes.content_insert, decide_True by done.
  pose proof (zlen_nonneg (BufferViewList.iovecs_contents vs)).
  rewrite zlen_ztake by (unfold Pipes.limit; lia). unfold Pipes.limit, INT_MAX.
  split; [lia|]. split; [lia|]. f_equal.
  destruct (decide (Z.max 0 (Z.min (Pipes.chunk k) (2 ^ 31 - 1)) <=
                    zlen (BufferViewList.iovecs_contents vs))) as [Hle|Hgt].
  - f_equal. lia.
  - by rewrite !ztake_all by lia.
Qed.
Next Obligation. intros fd k. by left. Qed.

#[export] Program Instance Pipes_StreamPairs : StreamPairs Pipes.t := {|
  taken := fun fd k => Pipes.content fd (Pipes.consumed k);
  joined := Pipes.joined
|}.
Next Obligation. intros a b k [_ E]. simpl. rewrite E. by eexists. Qed.
Next Obligation.
  intros fd n k. simpl. split; [|split; [done|]].
  - intros a b [-> E]. split; [done|]. simpl. rewrite !Pipes.content_insert.
    case_decide as Ed; [|done]. rewrite <- Ed, <- app_assoc, ztake_zdrop. done.
  - intros a. rewrite Pipes.content_insert. case_decide; [subst|done].
    match goal with |- context [if ?b then _ else _] => destruct b eqn:Hlt end; [|done].
    apply Z.ltb_lt in Hlt. zlia.
Qed.
Next Obligation.
  intros fd vs k. simpl. split; [|split].
  - intros a b [-> E]. split; [done|]. simpl. rewrite !Pipes.content_insert.
    destruct (decide (a = fd)) as [->|Hne].
    + rewrite decide_True by done. by rewrite E, app_assoc.
    + rewrite decide_False by (unfold Pipes.peer; lia). done.
  - intros a Hne. by rewrite Pipes.content_insert, decide_False.
  - done.
Qed.

(** ** Properties *)

(** C6. A stream between two descriptors, through [write] and [read]: on a
    system whose pairs deliver bytes in order, any program that sends strings
    from both ends and receives at both ends, in any order, with what its
    calls throw caught, runs to its end; and what [read] returned at one end
    is, put together, a first part of what [write] sent from the other: each
    string whole where [write] returned and its first bytes where it threw,
    in the order of the calls, nothing lost, repeated or made up, however the
    system cuts its transfers and whichever of them fail. *)
Theorem pair_delivers_in_order {K : Type} `{StreamPairs K} h fd ts (p : Proc K) :
  fd true <> fd false -> connected h fd p -> Forall valid_transfer ts ->
  (forall e, taken (fd (negb e)) (kernel p) = sink (fd e) (kernel p)) ->
  exists evs p', transfers h ts p = (Ret evs, p') /\ length evs = length ts /\
    forall e, exists data, transmitted e ts evs data /\
      received (negb e) ts evs `prefix_of` data.
Proof.
  intros Hne Hp Hv Hempty.
  destruct (transfers_move h fd Hne ts p Hv Hp) as (evs & p' & E & Hl & Hp' & Hm).
  exists evs, p'. split; [done|]. split; [done|]. intros e.
  destruct (Hm e) as (_ & data & Hd & Hs). destruct (Hm (negb e)) as [Ht _].
  exists data. split; [done|]. destruct (Hp' e) as [_ Hj].
  pose proof (joined_prefix _ _ _ Hj) as Hpre. rewrite Ht, Hs, Hempty in Hpre.
  by apply prefix_app_inv in Hpre.
Qed.

(** Both ends at once, in transfers of three bytes. *)
Lemma pair_delivers_in_order_witness :
  let ts := [Send true (lit "hello"); Send false (lit "hey"); Receive false 9; Receive true 2;
             Send true (lit "!"); Receive false 9] in
  exists evs p', transfers Pipes.object ts (Pipes.proc 3) = (Ret evs, p') /\
    length evs = 6%nat /\
    forall e, exists data, transmitted e ts evs data /\
      received (negb e) ts evs `prefix_of` data.
Proof.
  refine (pair_delivers_in_order Pipes.object Pipes.end_fd _ (Pipes.proc 3) _ _ _ _).
  - done.
  - intros []; (split; [by eexists | by split]).
  - repeat (apply Forall_cons_2; [by vm_compute|]). apply Forall_nil_2.
  - by intros [].
Defined.
