(* ===== verification/Address.v ===== *)
(** Socket addresses: [Address] of [libsponge/util/address.{hh,cc}], over a
    resolver given as an interface. *)

From S2P Require Import Prelude CString Buffer Parser Process.

Local Open Scope Z_scope.

(** ** Constants and layouts of the Linux ABI *)

Definition AF_INET : Z := 2.
Definition AI_NUMERICHOST : Z := 4.
Definition AI_ALL : Z := 16.
Definition AI_NUMERICSERV : Z := 1024.
Definition NI_NUMERICHOST : Z := 1.
Definition NI_NUMERICSERV : Z := 2.
Definition NI_MAXHOST : Z := 1025.
Definition NI_MAXSERV : Z := 32.

(** [sizeof(sockaddr_storage)] and [sizeof(sockaddr_in)] *)
Definition sizeof_storage : Z := 128.
Definition sizeof_in : Z := 16.

Definition zeros (n : Z) : bytes := replicate (Z.to_nat n) Byte.x00.

(** An integer in memory, on a little-endian machine. *)
Fixpoint le_load (bs : bytes) : Z :=
  match bs with
  | [] => 0
  | b :: bs' => b2z b + 256 * le_load bs'
  end.

(** [be32toh], on a little-endian machine: the four bytes in reverse. *)
Definition be32toh (v : Z) : Z :=
  (v `mod` 256) * 2 ^ 24 + ((v / 256) `mod` 256) * 2 ^ 16 +
  ((v / 2 ^ 16) `mod` 256) * 2 ^ 8 + (v / 2 ^ 24) `mod` 256.

(** The members of a [sockaddr_storage] and a [sockaddr_in]. *)
Definition ss_family (storage : bytes) : Z := le_load (ztake 2 storage).
Definition sin_addr (addr : bytes) : Z := le_load (ztake 4 (zdrop 4 addr)).

(** [struct sockaddr_in] for an IPv4 address and a port: the family in the
    order of the machine, the port and the address in network order. *)
Definition sockaddr_in (ip port : Z) : bytes :=
  [z2b AF_INET; Byte.x00] ++ be_encode 2 port ++ be_encode 4 ip ++ zeros 8.

(** ** The resolver *)

Record addrinfo : Type := mkAddrinfo {
  ai_flags : Z;
  ai_family : Z;
  ai_addr : bytes;
  ai_addrlen : Z
}.

(** [getaddrinfo(3)], with the list it stores: where it is and its first
    entry; [freeaddrinfo]; and [getnameinfo(3)], with what it stores in the two
    arrays. *)
Class Resolver (K : Type) : Type := {
  sys_getaddrinfo : bytes -> bytes -> addrinfo -> K -> (Z * option (Z * addrinfo)) * K;
  sys_freeaddrinfo : Z -> K -> K;
  sys_getnameinfo : bytes -> Z -> Z -> Z -> K -> (Z * (bytes * bytes)) * K
}.

(** What [getaddrinfo] and [freeaddrinfo] do to the lists that are allocated,
    and how long an entry of a list is. *)
Class ResolverLists (K : Type) `{Resolver K} : Type := {
  lists : K -> gset Z;
  getaddrinfo_lists : forall node service hints k,
    let '((r, res), k') := sys_getaddrinfo node service hints k in
    match res with
    | Some (x, ai) =>
        if r =? 0
        then (x ∉ lists k) /\ lists k' = {[x]} ∪ lists k /\ ai_addrlen ai <= zlen (ai_addr ai)
        else lists k' = lists k
    | None => lists k' = lists k
    end;
  freeaddrinfo_lists : forall x k, x ∈ lists k -> lists (sys_freeaddrinfo x k) = lists k ∖ {[x]}
}.

(** ** The class *)

Record Address : Type := mkAddress { _size : Z; _address : bytes }.

Definition size (a : Address) : Z := _size a.

(** [operator const sockaddr *], for a callee that is also given [size()] *)
Definition sockaddr (a : Address) : bytes := ztake (_size a) (_address a).

(** [Address(const sockaddr *addr, const size_t size)]; [addr] is the memory
    pointed to. *)
Definition Address_of_sockaddr (addr : bytes) (size : Z) : outcome Address :=
  let _size := u32 size in
  let _address := zeros sizeof_storage in
  if size >? sizeof_storage then Throw (runtime_error (lit "invalid sockaddr size"))
  else if zlen addr <? size then Undef
  else Ret (mkAddress _size (fill (ztake size addr) _address)).

Definition gai_error_category : bytes := lit "gai_error_category".

Definition make_hints (flags family : Z) : addrinfo := mkAddrinfo flags family [] 0.

(** [operator==] and [operator!=] *)
Definition Address_eq (a other : Address) : bool :=
  if negb (_size a =? _size other) then false
  else bool_decide (ztake (_size a) (_address a) = ztake (_size a) (_address other)).

Definition Address_ne (a other : Address) : bool := negb (Address_eq a other).

Definition ipv4_numeric (a : Address) : outcome Z :=
  if negb (ss_family (_address a) =? AF_INET) || negb (_size a =? sizeof_in)
  then Throw (runtime_error (lit "ipv4_numeric called on non-IPV4 address"))
  else
    let ipv4_addr := fill (ztake (_size a) (_address a)) (zeros sizeof_in) in
    Ret (be32toh (sin_addr ipv4_addr)).

Section Address.
Context {K : Type} `{Resolver K}.

Definition env {A} (f : K -> A * K) : M (Proc K) A := fun p =>
  let '(a, k) := f (kernel p) in (Ret a, mkProc (errno p) k (wrappers p) (cerr p)).

(** In the scope of a [unique_ptr] whose deleter is [freeaddrinfo]. *)
Definition freeing {A} (list : Z) (m : M (Proc K) A) : M (Proc K) A :=
  r ← try_catch m (fun e => env (fun k => (tt, sys_freeaddrinfo list k)) ;;; throw e);
  env (fun k => (tt, sys_freeaddrinfo list k)) ;;;
  mret r.

(** [Address(node, service, hints)] *)
Definition Address_resolve (node service : bytes) (hints : addrinfo) : M (Proc K) Address :=
  r ← env (sys_getaddrinfo (c_str node) (c_str service) hints);
  let '(gai_ret, resolved_address) := r in
  if negb (gai_ret =? 0) then
    throw (tagged_error gai_error_category
      (lit "getaddrinfo(" ++ node ++ lit ", " ++ service ++ lit ")") gai_ret)
  else
    match resolved_address with
    | None => throw (runtime_error (lit "getaddrinfo returned successfully but with no results"))
    | Some (wrapped_address, ai) =>
        freeing wrapped_address (lift (Address_of_sockaddr (ai_addr ai) (ai_addrlen ai)))
    end.

(** [Address(hostname, service)] *)
Definition Address_of_host (hostname service : bytes) : M (Proc K) Address :=
  Address_resolve hostname service (make_hints AI_ALL AF_INET).

Definition numeric_hints : addrinfo := make_hints (Z.lor AI_NUMERICHOST AI_NUMERICSERV) AF_INET.

(** [Address(ip, port)] *)
Definition Address_of_ip (ip : bytes) (port : Z) : M (Proc K) Address :=
  Address_resolve ip (to_string port) numeric_hints.

Definition ni_flags : Z := Z.lor NI_NUMERICHOST NI_NUMERICSERV.

Definition ip_port (a : Address) : M (Proc K) (bytes * Z) :=
  let ip := zeros NI_MAXHOST in
  let port := zeros NI_MAXSERV in
  r ← env (sys_getnameinfo (sockaddr a) (zlen ip) (zlen port) ni_flags);
  let '(gni_ret, (host, serv)) := r in
  let ip := fill host ip in
  let port := fill serv port in
  if negb (gni_ret =? 0) then
    throw (tagged_error gai_error_category (lit "getnameinfo") gni_ret)
  else
    ip ← lift (string_of_array ip);
    port ← lift (string_of_array port);
    port ← lift (stoi port);
    mret (ip, u16 port).

Definition ip (a : Address) : M (Proc K) bytes := r ← ip_port a; mret (fst r).
Definition port (a : Address) : M (Proc K) Z := r ← ip_port a; mret (snd r).

Definition to_string (a : Address) : M (Proc K) bytes :=
  ip_and_port ← ip_port a;
  mret (fst ip_and_port ++ lit ":" ++ CString.to_string (snd ip_and_port)).

End Address.

(** A resolver that has one answer. *)
Module FixedResolver.

Definition localhost : Z := 127 * 2 ^ 24 + 1.

#[global] Instance resolver : Resolver unit := {|
  sys_getaddrinfo := fun _ _ _ k =>
    ((0, Some (1, mkAddrinfo 0 AF_INET (sockaddr_in localhost 80) sizeof_in)), k);
  sys_freeaddrinfo := fun _ k => k;
  sys_getnameinfo := fun _ _ _ _ k => ((0, (lit "127.0.0.1" ++ zeros 1, lit "80" ++ zeros 1)), k)
|}.

End FixedResolver.

(** One whose state is the lists that are allocated. *)
Module ListResolver.

#[global] Instance resolver : Resolver (gset Z) := {|
  sys_getaddrinfo := fun node service _ k =>
    if bool_decide (service = lit "80")
    then ((0, Some (fresh k, mkAddrinfo 0 AF_INET (sockaddr_in FixedResolver.localhost 80) sizeof_in)),
          {[fresh k]} ∪ k)
    else ((-2, None), k);
  sys_freeaddrinfo := fun x k => k ∖ {[x]};
  sys_getnameinfo := fun _ _ _ _ k => ((-4, ([], [])), k)
|}.

#[global] Program Instance resolver_lists : ResolverLists (gset Z) := {| lists := id |}.
Next Obligation.
  intros node service hints k. simpl. case_bool_decide; [|done]. simpl.
  split; [apply is_fresh|]. by split.
Qed.
Next Obligation. done. Qed.

End ListResolver.

(** ** The bytes of an address *)

Section Bytes.

Lemma zlen_zeros n : 0 <= n -> zlen (zeros n) = n.
Proof. intros. unfold zlen, zeros. rewrite length_replicate. lia. Qed.

Lemma fill_small data s : zlen data <= zlen s -> fill data s = data ++ zdrop (zlen data) s.
Proof.
  intros. zlens. unfold fill. apply ztake_all. znorm. lia.
Qed.

(** Each branch of the constructor. *)
Lemma Address_of_sockaddr_eq addr sz : 0 <= sz <= zlen addr ->
  Address_of_sockaddr addr sz =
    if sz <=? sizeof_storage
    then Ret (mkAddress sz (ztake sz addr ++ zeros (sizeof_storage - sz)))
    else Throw (runtime_error (lit "invalid sockaddr size")).
Proof.
  intros Hs. unfold Address_of_sockaddr. unfold sizeof_storage.
  destruct (Z.gtb_spec sz 128), (Z.leb_spec sz 128); try lia; [done|].
  rewrite (proj2 (Z.ltb_ge _ _)), wrapu_small by lia.
  do 2 f_equal. rewrite fill_small; rewrite zlen_ztake, Z.min_l by lia.
  - f_equal. unfold zdrop, zeros. rewrite drop_replicate. f_equal. lia.
  - rewrite zlen_zeros; lia.
Qed.

Lemma Address_of_sockaddr_returns addr sz : sz <= zlen addr ->
  (exists a, Address_of_sockaddr addr sz = Ret a) \/ (exists e, Address_of_sockaddr addr sz = Throw e).
Proof.
  intros Hs. unfold Address_of_sockaddr. destruct (_ >? _); [eauto|].
  rewrite (proj2 (Z.ltb_ge _ _)) by lia. eauto.
Qed.

Lemma sockaddr_eq addr sz a : 0 <= sz <= zlen addr -> Address_of_sockaddr addr sz = Ret a ->
  _size a = sz /\ sockaddr a = ztake sz addr.
Proof.
  intros Hs. rewrite Address_of_sockaddr_eq by done. destruct (sz <=? sizeof_storage); [|done].
  intros [= <-]. split; [done|]. unfold sockaddr. simpl.
  unfold ztake. rewrite take_app, take_take, Nat.min_id.
  rewrite length_take. unfold zlen in Hs. replace (_ - _)%nat with 0%nat by lia.
  by rewrite take_0, app_nil_r.
Qed.

Lemma be32toh_load a b c d : be32toh (le_load [a; b; c; d]) = be_decode [a; b; c; d].
Proof.
  pose proof (b2z_range a). pose proof (b2z_range b). pose proof (b2z_range c).
  pose proof (b2z_range d). unfold be32toh. simpl le_load. simpl be_decode.
  unfold zlen. simpl length.
  set (v := b2z a + _).
  assert (v `mod` 256 = b2z a) as ->.
  { symmetry. apply (Z.mod_unique_pos _ _ (b2z b + 256 * (b2z c + 256 * b2z d))); lia. }
  assert (v / 256 = b2z b + 256 * (b2z c + 256 * b2z d)) as ->.
  { symmetry. apply (Z.div_unique_pos _ _ _ (b2z a)); lia. }
  assert (v / 2 ^ 16 = b2z c + 256 * b2z d) as ->.
  { symmetry. apply (Z.div_unique_pos _ _ _ (b2z a + 256 * b2z b)); lia. }
  assert (v / 2 ^ 24 = b2z d) as ->.
  { symmetry. apply (Z.div_unique_pos _ _ _ (b2z a + 256 * (b2z b + 256 * b2z c))); lia. }
  rewrite (Z.mod_small (b2z d)) by lia.
  rewrite <- (Z.mod_unique_pos (b2z c + 256 * b2z d) 256 (b2z d) (b2z c)) by lia.
  rewrite <- (Z.mod_unique_pos (b2z b + 256 * (b2z c + 256 * b2z d)) 256
    (b2z c + 256 * b2z d) (b2z b)) by lia.
  lia.
Qed.

(** A [sockaddr_in] in an address. *)
Lemma sockaddr_in_address n p : 0 <= n < 2 ^ 32 ->
  exists a, Address_of_sockaddr (sockaddr_in n p) sizeof_in = Ret a /\
    sockaddr a = sockaddr_in n p /\ ipv4_numeric a = Ret n.
Proof.
  intros Hn. assert (Hl : zlen (sockaddr_in n p) = sizeof_in) by done.
  rewrite Address_of_sockaddr_eq by (rewrite Hl; unfold sizeof_in; lia).
  change (sizeof_in <=? sizeof_storage) with true. cbv iota. eexists. split; [done|].
  assert (Hs : ztake sizeof_in (sockaddr_in n p) = sockaddr_in n p)
    by (apply ztake_all; lia).
  rewrite Hs. unfold sockaddr, ipv4_numeric. cbn [_size _address].
  replace (ztake sizeof_in (sockaddr_in n p ++ _)) with (sockaddr_in n p) by done.
  split; [done|]. change (ss_family _) with AF_INET. simpl. f_equal.
  unfold sin_addr.
  replace (ztake 4 _) with (be_encode 4 n) by done.
  assert (He : be_encode 4 n = [z2b (n / 2 ^ 24); z2b (n / 2 ^ 16); z2b (n / 2 ^ 8); z2b (n / 2 ^ 0)])
    by done.
  rewrite He, be32toh_load, <- He, be_decode_encode. by apply Z.mod_small.
Qed.

End Bytes.

(** ** Properties *)

(** Addresses are their bytes: from memory that holds the [size] bytes
    it is told to copy, the constructor succeeds exactly when they fit a
    [sockaddr_storage] and otherwise throws; two addresses are equal exactly
    when they were made from the same bytes (so of the same size), whatever
    lay behind them in memory; and [!=] is the negation. *)
Theorem address_eq_same_bytes addr1 size1 addr2 size2 :
  0 <= size1 <= zlen addr1 -> 0 <= size2 <= zlen addr2 ->
  (is_Some (match Address_of_sockaddr addr1 size1 with Ret a => Some a | _ => None end) <->
    size1 <= sizeof_storage) /\
  (forall a1 a2, Address_of_sockaddr addr1 size1 = Ret a1 ->
     Address_of_sockaddr addr2 size2 = Ret a2 ->
     (Address_eq a1 a2 = true <-> ztake size1 addr1 = ztake size2 addr2) /\
     Address_ne a1 a2 = negb (Address_eq a1 a2) /\ Address_eq a1 a2 = Address_eq a2 a1).
Proof.
  intros H1 H2. split.
  - rewrite Address_of_sockaddr_eq by done. destruct (Z.leb_spec size1 sizeof_storage).
    + split; [done | by eexists].
    + split; [by intros [] | lia].
  - intros a1 a2 E1 E2. apply sockaddr_eq in E1 as [Hs1 Hb1], E2 as [Hs2 Hb2]; [|done..].
    unfold sockaddr in Hb1, Hb2. unfold Address_ne, Address_eq. rewrite <- Hb1, <- Hb2.
    destruct (Z.eqb_spec (_size a1) (_size a2)) as [E|E]; simpl.
    + rewrite <- E, Z.eqb_refl. simpl. rewrite bool_decide_eq_true. split; [done|].
      split; [done | by apply bool_decide_ext].
    + rewrite (proj2 (Z.eqb_neq (_size a2) (_size a1))) by lia. split; [|done].
      split; [done|]. intros Hb. rewrite Hb1, Hb2 in Hb. apply (f_equal zlen) in Hb.
      rewrite !zlen_ztake in Hb; lia.
Qed.

Lemma address_eq_same_bytes_witness :
  exists a1 a2, Address_of_sockaddr (lit "abc") 2 = Ret a1 /\
    Address_of_sockaddr (lit "abd") 2 = Ret a2 /\ Address_eq a1 a2 = true.
Proof.
  do 2 eexists. split; [reflexivity|]. split; [reflexivity|].
  apply (proj2 (address_eq_same_bytes (lit "abc") 2 (lit "abd") 2
    ltac:(by vm_compute) ltac:(by vm_compute)) _ _ eq_refl eq_refl).
Defined.

(** No list of the resolver is leaked or freed twice: whatever it answers,
    the constructor returns or throws, and the lists allocated are those that
    were. *)
Theorem resolver_lists_freed {K : Type} `{ResolverLists K} node service hints (p : Proc K) :
  let '(o, p') := Address_resolve node service hints p in
  returns o /\ lists (kernel p') = lists (kernel p).
Proof.
  unfold Address_resolve, freeing, env, try_catch, lift.
  pose proof (getaddrinfo_lists (c_str node) (c_str service) hints (kernel p)) as Hg. msimpl.
  destruct (sys_getaddrinfo _ _ _ _) as [[r res] k]. simpl.
  destruct (Z.eqb_spec r 0) as [->|Hr]; simpl.
  2:{ destruct res as [[]|]; by rewrite Hg. }
  destruct res as [[x ai]|]; [|done]. destruct Hg as (Hx & Hk & Hlen).
  assert (Hfree : lists (sys_freeaddrinfo x k) = lists (kernel p)).
  { rewrite freeaddrinfo_lists, Hk; set_solver. }
  destruct (Address_of_sockaddr_returns (ai_addr ai) (ai_addrlen ai) Hlen) as [[a ->]|[e ->]]; simpl;
    by rewrite Hfree.
Qed.

(** C29. Round trip of a numeric address: on a resolver that gives the
    [sockaddr_in] of an address for its text and its text for the
    [sockaddr_in], an [Address] made from a text and a port (printed to
    decimal and handed over as C strings) has that text and that port again
    (read back from the arrays, the port through [stoi]), its number, and
    prints as "text:port"; the list the resolver made has been freed, once. *)
Theorem numeric_address_roundtrip {K : Type} `{Resolver K} n host port (p : Proc K) k list ai :
  0 <= n < 2 ^ 32 -> 0 <= port < 2 ^ 16 -> no_nul host -> zlen host < NI_MAXHOST ->
  ai_addr ai = sockaddr_in n port -> ai_addrlen ai = sizeof_in ->
  sys_getaddrinfo host (CString.to_string port) numeric_hints (kernel p) =
    ((0, Some (list, ai)), k) ->
  sys_getnameinfo (sockaddr_in n port) NI_MAXHOST NI_MAXSERV ni_flags (sys_freeaddrinfo list k) =
    ((0, (host ++ zeros 1, CString.to_string port ++ zeros 1)), sys_freeaddrinfo list k) ->
  exists a, result (Address_of_ip host port) p = Ret a /\
    let p' := exec (Address_of_ip host port) p in
    kernel p' = sys_freeaddrinfo list k /\ ipv4_numeric a = Ret n /\ result (ip_port a) p' = Ret (host, port) /\
    result (to_string a) p' = Ret (host ++ lit ":" ++ CString.to_string port).
Proof.
  intros Hn Hp Hnul Hlen Haddr Hsz Hgai Hgni.
  destruct (sockaddr_in_address n port Hn) as (a & Ha & Hb & Hv).
  assert (E : Address_of_ip host port p =
    (Ret a, mkProc (errno p) (sys_freeaddrinfo list k) (wrappers p) (cerr p))).
  { unfold Address_of_ip, Address_resolve, freeing, env, try_catch, lift.
    rewrite !c_str_id by (done || apply no_nul_to_string; lia). unfold mbind, M_bind.
    rewrite Hgai. simpl. by rewrite Haddr, Hsz, Ha. }
  exists a. unfold result at 1. rewrite E. split; [done|]. unfold exec. rewrite E.
  set (p' := mkProc _ _ _ _). assert (Hk : kernel p' = sys_freeaddrinfo list k) by done.
  assert (Hip : ip_port a p' = (Ret (host, port), p')).
  { unfold ip_port, env. rewrite Hb, !zlen_zeros by done. unfold mbind at 1, M_bind at 1.
    rewrite Hk, Hgni. cbn [fst snd].
    change (negb (0 =? 0)) with false. cbv iota.
    destruct (to_string_digits port ltac:(lia)) as (_ & _ & _ & Hd).
    specialize (Hd 5%nat ltac:(lia) ltac:(lia)).
    rewrite !string_of_filled; try done.
    - do 2 (erewrite bind_Ret by done). rewrite stoi_to_string by lia.
      erewrite bind_Ret by done. by rewrite wrapu_small.
    - apply no_nul_to_string. lia.
    - rewrite zlen_zeros by done. unfold NI_MAXSERV. lia. }
  cbv zeta. cbn [snd]. split; [done|]. split; [done|]. unfold result, to_string. rewrite Hip. split; [done|].
  by erewrite bind_Ret by exact Hip.
Qed.

Lemma numeric_address_roundtrip_witness :
  exists a, result (Address_of_ip (lit "127.0.0.1") 80) (mkProc 0 tt ∅ []) = Ret a /\
    ipv4_numeric a = Ret (127 * 2 ^ 24 + 1).
Proof.
  destruct (numeric_address_roundtrip FixedResolver.localhost (lit "127.0.0.1") 80
    (mkProc 0 tt ∅ []) tt 1 (mkAddrinfo 0 AF_INET (sockaddr_in FixedResolver.localhost 80) sizeof_in))
    as (a & E & _ & Hv & _); [by vm_compute|lia| |by vm_compute|done..|by exists a].
  repeat (apply Forall_cons_2; [by vm_compute|]). apply Forall_nil_2.
Defined.
