(* ===== verification/Socket.v ===== *)
(** Network sockets: [Socket] and its subclasses of
    [libsponge/util/socket.{hh,cc}], and the TUN device of
    [libsponge/util/tun.{hh,cc}].  They add no state to the [FileDescriptor]
    they derive from: each is its handle. *)

From S2P Require Import Prelude CString Buffer Process FileDescriptor Address.

Local Open Scope Z_scope.

(** ** Constants of the Linux ABI *)

Definition AF_UNIX : Z := 1.
Definition SOCK_STREAM : Z := 1.
Definition SOCK_DGRAM : Z := 2.
Definition SOL_SOCKET : Z := 1.
Definition SO_REUSEADDR : Z := 2.
Definition SO_TYPE : Z := 3.
Definition SO_DOMAIN : Z := 39.
Definition SHUT_RD : Z := 0.
Definition SHUT_WR : Z := 1.
Definition SHUT_RDWR : Z := 2.
Definition MSG_TRUNC : Z := 32.
Definition sizeof_int : Z := 4.
Definition O_RDWR : Z := 2.
Definition IFF_TUN : Z := 1.
Definition IFF_NO_PI : Z := 4096.
Definition IFNAMSIZ : Z := 16.
Definition TUNSETIFF : Z := 1074025674.

(** The members of [struct ifreq] the source sets. *)
Record ifreq : Type := mkIfreq { ifr_name : bytes; ifr_flags : Z }.

(** ** The system calls on sockets *)

(** The calls that return more than a number store it in [out]: the value of
    an option and its length, an address and its length, a datagram. *)
Class SocketKernel (K : Type) : Type := {
  sys_socket : Z -> Z -> K -> sysret unit * K;
  sys_getsockopt : Z -> Z -> Z -> K -> sysret (Z * Z) * K;
  sys_setsockopt : Z -> Z -> Z -> Z -> K -> sysret unit * K;
  sys_getsockname : Z -> Z -> K -> sysret (bytes * Z) * K;
  sys_getpeername : Z -> Z -> K -> sysret (bytes * Z) * K;
  sys_bind : Z -> bytes -> K -> sysret unit * K;
  sys_connect : Z -> bytes -> K -> sysret unit * K;
  sys_shutdown : Z -> Z -> K -> sysret unit * K;
  sys_recvfrom : Z -> Z -> Z -> K -> sysret (bytes * (bytes * Z)) * K;
  sys_sendmsg : Z -> bytes -> list BufferViewList.iovec -> K -> sysret unit * K;
  sys_listen : Z -> Z -> K -> sysret unit * K;
  sys_accept : Z -> K -> sysret unit * K;
  sys_open : bytes -> Z -> K -> sysret unit * K;
  sys_ioctl : Z -> Z -> ifreq -> K -> sysret unit * K
}.

(** What [recvfrom] with [MSG_TRUNC] and a buffer of [n] bytes, and
    [sendmsg], give. *)
Definition recvfrom_result (n : Z) (r : sysret (bytes * (bytes * Z))) : Prop :=
  (ret r = -1 /\ 0 < err r) \/
  (0 <= ret r <= INT_MAX /\ zlen (fst (out r)) = Z.min (ret r) n /\
   zlen (fst (snd (out r))) = snd (snd (out r)) /\ snd (snd (out r)) <= sizeof_storage).

Definition sendmsg_result (r : sysret unit) : Prop :=
  (ret r = -1 /\ 0 < err r) \/ 0 <= ret r <= INT_MAX.

(** What the manual pages promise of datagrams: with [MSG_TRUNC], [recvfrom]
    returns the length of the datagram, and stores what fits the buffer and
    the sender's address. *)
Class SocketLaws (K : Type) `{SocketKernel K} : Type := {
  recvfrom_law : forall fd n k, 0 <= n ->
    let '(r, _) := sys_recvfrom fd n MSG_TRUNC k in recvfrom_result n r;
  sendmsg_law : forall fd dest vs k,
    let '(r, _) := sys_sendmsg fd dest vs k in sendmsg_result r
}.

(** What [getsockname] and [getpeername] give with room for [n] bytes: an
    address, cut to the room, and its whole length. *)
Definition name_result (n : Z) (r : sysret (bytes * Z)) : Prop :=
  (ret r = -1 /\ 0 < err r) \/
  (0 <= ret r /\ 0 <= snd (out r) /\ zlen (fst (out r)) = Z.min (snd (out r)) n).

Class NameLaws (K : Type) `{SocketKernel K} : Type := {
  getsockname_law : forall fd n k, 0 <= n -> let '(r, _) := sys_getsockname fd n k in name_result n r;
  getpeername_law : forall fd n k, 0 <= n -> let '(r, _) := sys_getpeername fd n k in name_result n r
}.

(** [UDPSocket::received_datagram] *)
Record received_datagram : Type := mkDatagram { source_address : Address; payload : bytes }.

Section Socket.
Context {K : Type} `{Kernel K, SocketKernel K}.

(** An exception in the constructor of a derived class destroys the base. *)
Definition constructing {A} (h : FileDescriptor) (m : M (Proc K) A) : M (Proc K) A :=
  try_catch m (fun e => destroy h ;;; throw e).

(** [Socket(domain, type)] *)
Definition Socket_new (domain type : Z) : M (Proc K) FileDescriptor :=
  r ← syscall (sys_socket domain type);
  fd ← SystemCall (lit "socket") (ret r) 0;
  FileDescriptor_new fd.

(** The verification of one option. *)
Definition check_option (h : FileDescriptor) (option expected : Z) (mismatch : bytes) :
    M (Proc K) unit :=
  fd ← fd_num h;
  r ← syscall (sys_getsockopt fd SOL_SOCKET option);
  _ ← SystemCall (lit "getsockopt") (ret r) 0;
  let '(actual_value, len) := out r in
  if negb (len =? sizeof_int) || negb (actual_value =? expected)
  then throw (runtime_error mismatch) else mret tt.

(** [Socket(fd, domain, type)], which moves [fd] into its base *)
Definition Socket_of_fd (h : FileDescriptor) (domain type : Z) : M (Proc K) FileDescriptor :=
  constructing h
    (check_option h SO_DOMAIN domain (lit "socket domain mismatch") ;;;
     check_option h SO_TYPE type (lit "socket type mismatch") ;;;
     mret h).

Definition UDPSocket_of_fd (h : FileDescriptor) := Socket_of_fd h AF_INET SOCK_DGRAM.
Definition UDPSocket_new := Socket_new AF_INET SOCK_DGRAM.
Definition TCPSocket_of_fd (h : FileDescriptor) := Socket_of_fd h AF_INET SOCK_STREAM.
Definition TCPSocket_new := Socket_new AF_INET SOCK_STREAM.
Definition LocalStreamSocket_of_fd (h : FileDescriptor) := Socket_of_fd h AF_UNIX SOCK_STREAM.

Definition get_address (h : FileDescriptor) (name_of_function : bytes)
    (function : Z -> Z -> K -> sysret (bytes * Z) * K) : M (Proc K) Address :=
  let address := zeros sizeof_storage in
  fd ← fd_num h;
  r ← syscall (function fd sizeof_storage);
  _ ← SystemCall_string name_of_function (ret r) 0;
  let '(stored, size) := out r in
  lift (Address_of_sockaddr (fill stored address) size).

Definition local_address (h : FileDescriptor) : M (Proc K) Address :=
  get_address h (lit "getsockname") sys_getsockname.
Definition peer_address (h : FileDescriptor) : M (Proc K) Address :=
  get_address h (lit "getpeername") sys_getpeername.

(** A call on the descriptor that is only checked for failure. *)
Definition checked (h : FileDescriptor) (attempt : bytes) (call : Z -> K -> sysret unit * K) :
    M (Proc K) unit :=
  fd ← fd_num h;
  r ← syscall (call fd);
  _ ← SystemCall attempt (ret r) 0;
  mret tt.

Definition bind (h : FileDescriptor) (address : Address) : M (Proc K) unit :=
  checked h (lit "bind") (fun fd => sys_bind fd (sockaddr address)).
Definition connect (h : FileDescriptor) (address : Address) : M (Proc K) unit :=
  checked h (lit "connect") (fun fd => sys_connect fd (sockaddr address)).
Definition listen (h : FileDescriptor) (backlog : Z) : M (Proc K) unit :=
  checked h (lit "listen") (fun fd => sys_listen fd backlog).
Definition setsockopt (h : FileDescriptor) (level option option_value : Z) : M (Proc K) unit :=
  checked h (lit "setsockopt") (fun fd => sys_setsockopt fd level option option_value).
Definition set_reuseaddr (h : FileDescriptor) : M (Proc K) unit :=
  setsockopt h SOL_SOCKET SO_REUSEADDR 1.

Definition shutdown (h : FileDescriptor) (how : Z) : M (Proc K) unit :=
  checked h (lit "shutdown") (fun fd => sys_shutdown fd how) ;;;
  if how =? SHUT_RD then register_read h
  else if how =? SHUT_WR then register_write h
  else if how =? SHUT_RDWR then register_read h ;;; register_write h
  else throw (runtime_error (lit "Socket::shutdown() called with invalid `how`")).

(** [recv(datagram, mtu)]: the caller's datagram is part of the state. *)
Definition recv_into (h : FileDescriptor) (mtu : Z) :
    M (Proc K * received_datagram) unit :=
  let on_proc {A} (m : M (Proc K) A) : M (Proc K * received_datagram) A :=
    zoom fst (fun p s => (p, snd s)) m in
  let set_payload f : M (Proc K * received_datagram) unit :=
    modify (fun s => (fst s, mkDatagram (source_address (snd s)) (f (payload (snd s))))) in
  let datagram_source_address := zeros sizeof_storage in
  set_payload (str_resize mtu) ;;;
  fd ← on_proc (fd_num h);
  r ← on_proc (syscall (sys_recvfrom fd mtu MSG_TRUNC));
  let '(data, (from, fromlen)) := out r in
  set_payload (fill data) ;;;
  recv_len ← on_proc (SystemCall (lit "recvfrom") (s32 (ret r)) 0);
  if recv_len >? s64 mtu then throw (runtime_error (lit "recvfrom (oversized datagram)"))
  else
    on_proc (register_read h) ;;;
    a ← lift (Address_of_sockaddr (fill from datagram_source_address) fromlen);
    modify (fun s => (fst s, mkDatagram a (payload (snd s)))) ;;;
    if recv_len <? 0 then throw (length_error "basic_string::_M_replace_aux")
    else set_payload (str_resize recv_len).

(** [recv(mtu)]: the datagram starts as [{{nullptr, 0}, ""}]. *)
Definition recv (h : FileDescriptor) (mtu : Z) : M (Proc K) received_datagram := fun p =>
  match Address_of_sockaddr [] 0 with
  | Ret a =>
      let '(r, (p', ret)) := recv_into h mtu (p, mkDatagram a []) in
      (_ ← r; Ret ret, p')
  | Throw e => (Throw e, p)
  | Undef => (Undef, p)
  | NoFuel => (NoFuel, p)
  end.

Definition sendmsg_helper (fd_num : Z) (destination_address : bytes)
    (payload : BufferViewList.t) : M (Proc K) unit :=
  let iovecs := BufferViewList.as_iovecs payload in
  r ← syscall (sys_sendmsg fd_num destination_address iovecs);
  bytes_sent ← SystemCall (lit "sendmsg") (s32 (ret r)) 0;
  if negb (u64 bytes_sent =? BufferViewList.size payload)
  then throw (runtime_error (lit "datagram payload too big for sendmsg()"))
  else mret tt.

Definition sendto (h : FileDescriptor) (destination : Address) (payload : BufferViewList.t) :
    M (Proc K) unit :=
  fd ← fd_num h;
  sendmsg_helper fd (sockaddr destination) payload ;;;
  register_write h.

(** [send(payload)]: a null address of length 0. *)
Definition send (h : FileDescriptor) (payload : BufferViewList.t) : M (Proc K) unit :=
  fd ← fd_num h;
  sendmsg_helper fd [] payload ;;;
  register_write h.

Definition accept (h : FileDescriptor) : M (Proc K) FileDescriptor :=
  register_read h ;;;
  fd ← fd_num h;
  r ← syscall (sys_accept fd);
  fd ← SystemCall (lit "accept") (ret r) 0;
  h' ← FileDescriptor_new fd;
  TCPSocket_of_fd h'.

(** ** The TUN device *)

Definition CLONEDEV : bytes := lit "/dev/net/tun".

(** [strncpy] into an array of at least [n] bytes: the string up to its NUL,
    cut at [n] and padded with NULs to [n]. *)
Definition strncpy (dest src : bytes) (n : Z) : bytes :=
  fill (str_resize n (c_str src)) dest.

Definition tun_req (devname : bytes) : ifreq :=
  let ifr_name := strncpy (zeros IFNAMSIZ) devname (IFNAMSIZ - 1) in
  mkIfreq (default ifr_name (zset ifr_name (IFNAMSIZ - 1) Byte.x00)) (Z.lor IFF_TUN IFF_NO_PI).

(** [TunFD(devname)] *)
Definition TunFD_new (devname : bytes) : M (Proc K) FileDescriptor :=
  r ← syscall (sys_open CLONEDEV O_RDWR);
  fd ← SystemCall (lit "open") (ret r) 0;
  h ← FileDescriptor_new fd;
  constructing h
    (checked h (lit "ioctl") (fun fd => sys_ioctl fd TUNSETIFF (tun_req devname)) ;;; mret h).

(** ** Ownership *)

(** A constructor's call: a new handle, or an exception and none. *)
Definition makes_handle (hs : list (option positive)) (c : outcome FileDescriptor * Proc K) : Prop :=
  match c with
  | (Ret h, p) => is_Some h /\ owned (wrappers p) (h :: hs)
  | (Throw _, p) => owned (wrappers p) hs
  | _ => False
  end.

(** A call that fails says why. *)
Definition honest {A} (r : sysret A) : Prop := ret r < 0 -> err r <> 0.

End Socket.

(** ** Sockets of the concrete system *)

(** A stream socket of the Internet domain; a datagram is all that is pending
    on the descriptor, and what is sent is cut at [chunk] bytes. *)
Module LoopbackSocket.

Definition from : bytes := sockaddr_in FixedResolver.localhost 53.
Definition self : bytes := sockaddr_in FixedResolver.localhost 4096.

Definition recvfrom (fd n flags : Z) (k : Loopback.t) :
    sysret (bytes * (bytes * Z)) * Loopback.t :=
  let msg := ztake INT_MAX (Loopback.content fd (Loopback.input k)) in
  (mkRet (zlen msg) 0 (ztake n msg, (from, sizeof_in)), k).

Definition sendmsg (fd : Z) (dest : bytes) (vs : list BufferViewList.iovec) (k : Loopback.t) :
    sysret unit * Loopback.t :=
  (mkRet (zlen (ztake (Loopback.limit k) (BufferViewList.iovecs_contents vs))) 0 tt, k).

Definition ok (k : Loopback.t) : sysret unit * Loopback.t := (mkRet 0 0 tt, k).

#[global] Instance LoopbackSocket_Kernel : SocketKernel Loopback.t := {|
  sys_socket := fun _ _ k => (mkRet 7 0 tt, k);
  sys_getsockopt := fun _ _ option k =>
    (mkRet 0 0 (if option =? SO_DOMAIN then AF_INET else SOCK_STREAM, sizeof_int), k);
  sys_setsockopt := fun _ _ _ _ => ok;
  sys_getsockname := fun _ n k => (mkRet 0 0 (ztake n self, sizeof_in), k);
  sys_getpeername := fun _ n k => (mkRet 0 0 (ztake n from, sizeof_in), k);
  sys_bind := fun _ _ => ok;
  sys_connect := fun _ _ => ok;
  sys_shutdown := fun _ _ => ok;
  sys_recvfrom := recvfrom;
  sys_sendmsg := sendmsg;
  sys_listen := fun _ _ => ok;
  sys_accept := fun _ k => (mkRet 8 0 tt, k);
  sys_open := fun _ _ k => (mkRet 9 0 tt, k);
  sys_ioctl := fun _ _ _ => ok
|}.

End LoopbackSocket.

Definition demo_socket (chunk : Z) : Proc Loopback.t :=
  mkProc 0 (Loopback.mk {[ 3 := lit "hello" ]} ∅ chunk 0 0 0 [] [])
    {[ 1%positive := (mkWrapper 3 false false 0 0, 1%nat) ]} [].

(** ** Constructors and ownership *)

Section Ownership.
Context {K : Type} `{Kernel K, SocketKernel K}.
Implicit Types (p : Proc K) (hs : list (option positive)).

Lemma FileDescriptor_new_makes fd hs p : owned (wrappers p) hs ->
  makes_handle hs (FileDescriptor_new fd p).
Proof.
  intros Ho. unfold FileDescriptor_new, FDWrapper_new. destruct (fd <? 0); [done|].
  split; [by eexists|]. simpl. rewrite Permutation_cons_append. apply owned_alloc; [done|].
  apply not_elem_of_dom, is_fresh.
Qed.

(** A handle a call needs is alive. *)
Lemma owned_alive p hs l : owned (wrappers p) hs -> Some l ∈ hs ->
  is_Some ((snd <$> wrappers p) !! l).
Proof.
  intros Ho Hl. apply list_elem_of_lookup in Hl as [i Hi]. by eapply owned_live_counts.
Qed.

Lemma makes_handle_bind {A} hs p (m : M (Proc K) A) (k : A -> M (Proc K) FileDescriptor) :
  safe (counts (snd <$> wrappers p)) m -> owned (wrappers p) hs ->
  (forall a p', owned (wrappers p') hs -> makes_handle hs (k a p')) ->
  makes_handle hs ((m ≫= k) p).
Proof.
  intros Hm Ho Hk. destruct (Hm p eq_refl) as [Hc Hr]. unfold exec, result in *.
  unfold mbind, M_bind. destruct (m p) as [[a|e| |] p']; try done; simpl in *.
  - apply Hk. by eapply owned_counts.
  - by eapply owned_counts.
Qed.

Lemma makes_handle_then hs (m : M (Proc K) FileDescriptor) (k : FileDescriptor -> M (Proc K) FileDescriptor) p :
  makes_handle hs (m p) ->
  (forall l p', owned (wrappers p') (Some l :: hs) -> makes_handle hs (k (Some l) p')) ->
  makes_handle hs ((m ≫= k) p).
Proof.
  intros Hm Hk. unfold mbind, M_bind. destruct (m p) as [[h|e| |] p']; try done.
  destruct Hm as [[l ->] Ho]. by apply Hk.
Qed.

(** The body of a constructor that hands on the handle of its base. *)
Lemma constructing_makes hs l (m : M (Proc K) unit) p :
  owned (wrappers p) (Some l :: hs) ->
  (forall c, is_Some (c !! l) -> safe (counts c) m) ->
  makes_handle hs (constructing (Some l) (m ;;; mret (Some l)) p).
Proof.
  intros Ho Hm. destruct (Hm (snd <$> wrappers p)) with (s := p) as [Hc Hr]; [|done|].
  { eapply owned_alive; [done | left]. }
  unfold exec, result in *. unfold constructing, try_catch. unfold mbind at 1, M_bind at 1.
  destruct (m p) as [[a|e| |] p']; try done; simpl in *; apply (owned_counts _ _ _ Hc) in Ho.
  - split; [by eexists | done].
  - destruct (destroy_owned l p' hs Ho) as (p2 & Hd & Ho2 & _). by erewrite bind_Ret by exact Hd.
Qed.

Lemma safe_check_option c l option expected what : is_Some (c !! l) ->
  safe (@counts K c) (check_option (Some l) option expected what).
Proof.
  intros Hl. unfold check_option, fd_num.
  apply safe_bind; [apply safe_bind; [by apply safe_obj | intros; apply safe_ret]|]. intros fd.
  apply safe_bind; [apply safe_syscall|]. intros r.
  apply safe_bind; [apply safe_SystemCall|]. intros _.
  destruct (out r) as [v len]. apply safe_if; [apply safe_throw | apply safe_ret].
Qed.

Lemma Socket_of_fd_makes hs l domain type p : owned (wrappers p) (Some l :: hs) ->
  makes_handle hs (Socket_of_fd (Some l) domain type p).
Proof.
  intros Ho. unfold Socket_of_fd. unfold constructing at 1, try_catch.
  rewrite <- bind_assoc. apply (constructing_makes hs l); [done|]. intros c Hl.
  apply safe_bind; [by apply safe_check_option | intros; by apply safe_check_option].
Qed.

Lemma safe_register_read c l : is_Some (c !! l) -> safe (@counts K c) (register_read (Some l)).
Proof. intros. by apply safe_modify_obj. Qed.

Lemma safe_fd_num c l : is_Some (c !! l) -> safe (@counts K c) (fd_num (Some l)).
Proof. intros. apply safe_bind; [by apply safe_obj | intros; apply safe_ret]. Qed.

Lemma safe_checked c l attempt (call : Z -> K -> sysret unit * K) : is_Some (c !! l) ->
  safe (@counts K c) (checked (Some l) attempt call).
Proof.
  intros Hl. apply safe_bind; [by apply safe_fd_num|]. intros fd.
  apply safe_bind; [apply safe_syscall|]. intros r.
  apply safe_bind; [apply safe_SystemCall | intros; apply safe_ret].
Qed.

(** A system call that makes a descriptor, its handle, and what is built on
    it. *)
Lemma makes_from_call {A} hs attempt (call : K -> sysret A * K)
    (k : FileDescriptor -> M (Proc K) FileDescriptor) p : owned (wrappers p) hs ->
  (forall l p', owned (wrappers p') (Some l :: hs) -> makes_handle hs (k (Some l) p')) ->
  makes_handle hs
    ((r ← syscall call; fd ← SystemCall attempt (ret r) 0; h ← FileDescriptor_new fd; k h) p).
Proof.
  intros Ho Hk. apply makes_handle_bind; [apply safe_syscall | done |]. intros r p1 Ho1.
  apply makes_handle_bind; [apply safe_SystemCall | done |]. intros fd p2 Ho2.
  apply makes_handle_then; [by apply FileDescriptor_new_makes | done].
Qed.

Lemma Socket_new_makes hs domain type p : owned (wrappers p) hs ->
  makes_handle hs (Socket_new domain type p).
Proof.
  intros Ho. unfold Socket_new. apply makes_handle_bind; [apply safe_syscall | done |].
  intros r p1 Ho1. apply makes_handle_bind; [apply safe_SystemCall | done |].
  intros fd p2 Ho2. by apply FileDescriptor_new_makes.
Qed.

Lemma accept_makes hs l p : owned (wrappers p) hs -> Some l ∈ hs ->
  makes_handle hs (accept (Some l) p).
Proof.
  intros Ho Hl. pose proof (owned_alive p hs l Ho Hl) as Hlive.
  unfold accept. apply makes_handle_bind; [by apply safe_register_read | done |].
  intros _ p1 Ho1. apply makes_handle_bind; [|done|].
  { apply safe_fd_num. by apply (owned_alive p1 hs). }
  intros fd p2 Ho2. apply makes_from_call; [done|]. intros l' p3 Ho3.
  by apply Socket_of_fd_makes.
Qed.

End Ownership.

(** ** What the kernel's replies decide *)

Section Replies.
Context {K : Type} `{Kernel K, SocketKernel K}.
Implicit Types p : Proc K.

Lemma SystemCall_after {A} attempt (r : sysret A) k p : honest r ->
  SystemCall attempt (ret r) 0 (after r k p) =
    if ret r <? 0 then (Throw (unix_error attempt (err r)), after r k p)
    else (Ret (ret r), after r k p).
Proof.
  intros Hr. destruct (Z.ltb_spec (ret r) 0); [|by apply SystemCall_ok].
  assert (He : errno (after r k p) = err r).
  { unfold after. simpl. by rewrite (proj2 (Z.ltb_lt _ _)). }
  rewrite SystemCall_err; rewrite ?He; auto.
Qed.

Lemma deref_after {A} l (r : sysret A) k p : deref l (wrappers (after r k p)) = deref l (wrappers p).
Proof. done. Qed.

(** One option checked: it passes exactly on the expected value at the
    expected length. *)
Lemma check_option_eq l w option expected what p r k :
  deref l (wrappers p) = Some w ->
  sys_getsockopt (_fd w) SOL_SOCKET option (kernel p) = (r, k) -> honest r ->
  check_option (Some l) option expected what p =
    if ret r <? 0 then (Throw (unix_error (lit "getsockopt") (err r)), after r k p)
    else if bool_decide (out r = (expected, sizeof_int)) then (Ret tt, after r k p)
    else (Throw (runtime_error what), after r k p).
Proof.
  intros Hl Hsys Hr. unfold check_option.
  erewrite bind_Ret by (by apply fd_num_eq). erewrite bind_Ret by (by apply syscall_eq).
  unfold mbind, M_bind. rewrite SystemCall_after by done.
  destruct (ret r <? 0); [done|]. destruct (out r) as [v len].
  destruct (Z.eqb_spec len sizeof_int), (Z.eqb_spec v expected); simpl;
    case_bool_decide; simplify_eq; done.
Qed.

End Replies.

(** ** Datagrams *)

Section Datagrams.
Context {K : Type} `{Kernel K, SocketKernel K}.
Implicit Types p : Proc K.

Lemma recv_at l w mtu p r k : deref l (wrappers p) = Some w -> 0 <= mtu < 2 ^ 63 ->
  sys_recvfrom (_fd w) mtu MSG_TRUNC (kernel p) = (r, k) -> recvfrom_result mtu r ->
  let p1 := after r k p in
  if ret r <? 0 then recv (Some l) mtu p = (Throw (unix_error (lit "recvfrom") (err r)), p1)
  else if ret r >? mtu then
    recv (Some l) mtu p = (Throw (runtime_error (lit "recvfrom (oversized datagram)")), p1)
  else exists a, recv (Some l) mtu p =
         (Ret (mkDatagram a (fst (out r))), set_wrappers (update_obj incr_read l) p1) /\
       sockaddr a = fst (snd (out r)).
Proof.
  intros Hl Hm Hsys Hlaw p1. unfold recvfrom_result in Hlaw.
  destruct (out r) as [data [from fromlen]] eqn:Hout. cbn [fst snd] in *.
  unfold recv. change (Address_of_sockaddr [] 0) with (Ret (mkAddress 0 (zeros 128))). cbv iota.
  unfold recv_into. unfold zoom, modify. unfold mbind, M_bind. cbn [fst snd source_address payload].
  rewrite (fd_num_eq l w p Hl). cbn [fst snd]. rewrite (syscall_eq _ p r k Hsys). cbn [fst snd].
  rewrite Hout. cbn [fst snd source_address payload]. fold p1.
  destruct Hlaw as [[Hr He]|(Hr & Hd & Hf & Hfl)].
  { rewrite Hr. change (s32 (-1)) with (-1). rewrite <- Hr.
    rewrite (SystemCall_failed _ r k p Hr He), Hr. done. }
  unfold INT_MAX in Hr. rewrite s32_small, SystemCall_ok by lia. cbn [fst snd].
  rewrite s64_small by lia. replace (ret r <? 0) with false by (symmetry; apply Z.ltb_ge; lia).
  destruct (Z.gtb_spec (ret r) mtu); [done|].
  unfold register_read. rewrite (modify_obj_eq _ l w) by done. cbn [fst snd].
  zlens. assert (Hz : zlen (zeros sizeof_storage) = sizeof_storage) by done.
  assert (Hlen : zlen (fill from (zeros sizeof_storage)) = sizeof_storage)
    by (rewrite zlen_fill; lia).
  pose proof (Address_of_sockaddr_eq (fill from (zeros sizeof_storage)) fromlen ltac:(lia)) as Ha.
  rewrite (proj2 (Z.leb_le _ _)) in Ha by lia. unfold lift. rewrite Ha.
  cbn [fst snd source_address payload]. eexists. split.
  - replace (str_resize (ret r) (fill data (str_resize mtu []))) with data; [done|].
    replace (ret r) with (zlen data) by lia. symmetry. apply fill_own.
    rewrite zlen_str_resize; lia.
  - apply sockaddr_eq in Ha as [_ ->]; [|lia]. rewrite fill_small by lia.
    rewrite <- Hf. unfold ztake, zlen. rewrite Nat2Z.id. by rewrite take_app_length.
Qed.

Lemma sendmsg_helper_at fd dest buffer p r k : zlen (BufferViewList.contents buffer) < 2 ^ 63 ->
  sys_sendmsg fd dest (BufferViewList.as_iovecs buffer) (kernel p) = (r, k) -> sendmsg_result r ->
  sendmsg_helper fd dest buffer p =
    (if ret r <? 0 then Throw (unix_error (lit "sendmsg") (err r))
     else if ret r =? zlen (BufferViewList.contents buffer) then Ret tt
     else Throw (runtime_error (lit "datagram payload too big for sendmsg()")), after r k p).
Proof.
  intros Hlen Hsys Hlaw. unfold sendmsg_helper.
  erewrite bind_Ret by (by apply syscall_eq). destruct Hlaw as [[Hr He]|Hr].
  - rewrite Hr. change (s32 (-1)) with (-1). rewrite <- Hr.
    rewrite (bind_Throw _ _ _ (after r k p) (unix_error (lit "sendmsg") (err r))).
    + by rewrite Hr.
    + by apply SystemCall_failed.
  - unfold INT_MAX in Hr. rewrite s32_small by lia.
    erewrite bind_Ret by (apply SystemCall_ok; lia). destruct (size_eq buffer Hlen) as [-> _].
    rewrite wrapu_small, (proj2 (Z.ltb_ge (ret r) 0)) by lia.
    by destruct (ret r =? zlen (BufferViewList.contents buffer)).
Qed.

Lemma send_at l w dest buffer p r k : deref l (wrappers p) = Some w ->
  zlen (BufferViewList.contents buffer) < 2 ^ 63 ->
  sys_sendmsg (_fd w) dest (BufferViewList.as_iovecs buffer) (kernel p) = (r, k) ->
  sendmsg_result r ->
  (fd ← fd_num (Some l); sendmsg_helper fd dest buffer ;;; register_write (Some l)) p =
    if ret r <? 0 then (Throw (unix_error (lit "sendmsg") (err r)), after r k p)
    else if ret r =? zlen (BufferViewList.contents buffer)
    then (Ret tt, set_wrappers (update_obj incr_write l) (after r k p))
    else (Throw (runtime_error (lit "datagram payload too big for sendmsg()")), after r k p).
Proof.
  intros Hl Hlen Hsys Hlaw.
  pose proof (sendmsg_helper_at (_fd w) dest buffer p r k Hlen Hsys Hlaw) as Hs.
  erewrite bind_Ret by (by apply fd_num_eq).
  unfold mbind, M_bind. rewrite Hs. destruct (ret r <? 0); [done|].
  destruct (ret r =? _); [|done]. unfold register_write. by rewrite (modify_obj_eq _ l w).
Qed.

(** The address the system reports, in the storage of an [Address]. *)
Lemma get_address_at l w what (call : Z -> Z -> K -> sysret (bytes * Z) * K) p r k :
  deref l (wrappers p) = Some w -> call (_fd w) sizeof_storage (kernel p) = (r, k) ->
  name_result sizeof_storage r ->
  get_address (Some l) what call p =
    (if ret r <? 0 then Throw (unix_error (c_str what) (err r))
     else if snd (out r) <=? sizeof_storage
     then Ret (mkAddress (snd (out r)) (fst (out r) ++ zeros (sizeof_storage - snd (out r))))
     else Throw (runtime_error (lit "invalid sockaddr size")), after r k p).
Proof.
  intros Hl E Hlaw. unfold get_address. rewrite (bind_Ret _ _ _ _ _ (fd_num_eq l w p Hl)).
  rewrite (bind_Ret _ _ _ _ _ (syscall_eq _ p r k E)). unfold SystemCall_string.
  destruct Hlaw as [[Hr He]|(Hr & Hs & Hz)].
  { rewrite (bind_Throw _ _ _ _ _ (SystemCall_failed _ r k p Hr He)).
    by rewrite (proj2 (Z.ltb_lt (ret r) 0)) by lia. }
  rewrite (bind_Ret _ _ _ _ _ (SystemCall_ok _ _ _ _ Hr)).
  rewrite (proj2 (Z.ltb_ge (ret r) 0)) by lia. destruct (out r) as [stored size]. simpl in *.
  assert (Hzs : zlen (zeros sizeof_storage) = sizeof_storage) by done. zlens.
  destruct (Z.leb_spec size sizeof_storage).
  - unfold lift. rewrite Address_of_sockaddr_eq, (proj2 (Z.leb_le size _)) by (rewrite ?zlen_fill; lia).
    rewrite fill_small by lia. do 4 f_equal. rewrite Z.min_l in Hz by lia.
    rewrite <- Hz. unfold ztake, zlen. rewrite Nat2Z.id. by rewrite take_app_length.
  - unfold lift, Address_of_sockaddr. by rewrite (proj2 (Z.gtb_lt size sizeof_storage)) by lia.
Qed.

(** The same, by what the system reported. *)
Lemma reported_address l w what (call : Z -> Z -> K -> sysret (bytes * Z) * K) p r k :
  no_nul what -> deref l (wrappers p) = Some w ->
  call (_fd w) sizeof_storage (kernel p) = (r, k) -> name_result sizeof_storage r ->
  let '(stored, size) := out r in
  let c := get_address (Some l) what call p in
  snd c = after r k p /\
  match fst c with
  | Ret a => 0 <= ret r /\ size <= sizeof_storage /\ sockaddr a = stored /\ _size a = size /\
             _address a = stored ++ zeros (sizeof_storage - size) /\
             forall x, _size x = size -> sockaddr x = stored -> Address_eq a x = true
  | Throw e => (ret r < 0 /\ e = unix_error what (err r)) \/
               (0 <= ret r /\ sizeof_storage < size /\ e = runtime_error (lit "invalid sockaddr size"))
  | _ => False
  end.
Proof.
  intros Hnul Hl E Hlaw. pose proof (get_address_at l w what call p r k Hl E Hlaw) as Hg.
  destruct Hlaw as [[Hr He]|(Hr & Hs & Hz)]; destruct (out r) as [stored size]; cbv zeta;
    rewrite Hg; cbn [fst snd] in *; (split; [done|]).
  - rewrite (proj2 (Z.ltb_lt (ret r) 0)) by lia. left. rewrite (c_str_id what Hnul). split; [lia|done].
  - rewrite (proj2 (Z.ltb_ge (ret r) 0)) by lia. destruct (Z.leb_spec size sizeof_storage); [|right; split_and!; done || lia].
    assert (Hst : ztake size (stored ++ zeros (sizeof_storage - size)) = stored).
    { rewrite Z.min_l in Hz by lia. rewrite <- Hz. unfold ztake, zlen. rewrite Nat2Z.id.
      by rewrite take_app_length. }
    split_and!; try done. intros x Hx Hb. unfold Address_eq. simpl. rewrite Hx, Z.eqb_refl. simpl.
    apply bool_decide_eq_true. rewrite Hst. unfold sockaddr in Hb. by rewrite <- Hb, Hx.
Qed.

End Datagrams.

(** ** The concrete system keeps its promises *)

#[export] Program Instance LoopbackSocket_Laws : SocketLaws Loopback.t.
Next Obligation.
  intros fd n k Hn. right. unfold INT_MAX. simpl. zlens. znorm.
  change (zlen LoopbackSocket.from) with 16. unfold sizeof_in, sizeof_storage, INT_MAX. lia.
Qed.
Next Obligation.
  intros fd dest vs k. right. unfold Loopback.limit, INT_MAX. simpl.
  rewrite zlen_ztake by lia. zlia.
Qed.

#[export] Program Instance LoopbackSocket_NameLaws : NameLaws Loopback.t.
Next Obligation.
  intros fd n k Hn. right. simpl. rewrite zlen_ztake by done.
  change (zlen LoopbackSocket.self) with 16. unfold sizeof_in. lia.
Qed.
Next Obligation.
  intros fd n k Hn. right. simpl. rewrite zlen_ztake by done.
  change (zlen LoopbackSocket.from) with 16. unfold sizeof_in. lia.
Qed.

Lemma demo_socket_owned chunk : owned (wrappers (demo_socket chunk)) [Some 1%positive].
Proof.
  intros l. simpl. destruct (decide (l = 1%positive)) as [->|Hl].
  - rewrite lookup_singleton_eq. split; [done | lia].
  - rewrite lookup_singleton_ne by done. unfold refs. by rewrite filter_cons, decide_False by congruence.
Qed.

(** ** Properties *)

(** C20. No constructor leaks a descriptor: on any system, making a socket,
    accepting a connection on a live socket, opening a TUN device and turning
    a handle into a socket either returns one new handle to a live object, or
    throws and owns nothing more than before: a handle given to a socket that
    then fails its checks is destroyed with its base. *)
Theorem constructors_never_leak {K : Type} `{Kernel K, SocketKernel K} hs l domain type devname
    (p : Proc K) :
  owned (wrappers p) hs -> Some l ∈ hs ->
  makes_handle hs (Socket_new domain type p) /\ makes_handle hs (accept (Some l) p) /\
  makes_handle hs (TunFD_new devname p) /\
  (forall l' q, owned (wrappers q) (Some l' :: hs) ->
     makes_handle hs (Socket_of_fd (Some l') domain type q)).
Proof.
  intros Ho Hl. split_and!.
  - by apply Socket_new_makes.
  - by apply accept_makes.
  - unfold TunFD_new. apply makes_from_call; [done|]. intros l' p1 Ho1.
    apply constructing_makes; [done|]. intros. by apply safe_checked.
  - intros l' q Hq. by apply Socket_of_fd_makes.
Qed.

Lemma constructors_never_leak_witness :
  makes_handle [Some 1%positive] (Socket_new AF_INET SOCK_STREAM (demo_socket 2)) /\
  makes_handle [Some 1%positive] (accept (Some 1%positive) (demo_socket 2)) /\
  makes_handle [Some 1%positive] (TunFD_new (lit "tun0") (demo_socket 2)).
Proof.
  destruct (constructors_never_leak [Some 1%positive] 1%positive AF_INET SOCK_STREAM
    (lit "tun0") (demo_socket 2) (demo_socket_owned 2) ltac:(left)) as (H1 & H2 & H3 & _).
  by split_and!.
Defined.

(** The checks of [Socket(fd, domain, type)]: on a live descriptor it
    asks for the domain and then for the type, and returns the handle,
    changing no object, exactly when both calls succeed with the expected
    value at the length of an [int]. *)
Theorem socket_checks_domain_and_type {K : Type} `{Kernel K, SocketKernel K} l w domain type
    (p : Proc K) :
  deref l (wrappers p) = Some w ->
  let '(r1, k1) := sys_getsockopt (_fd w) SOL_SOCKET SO_DOMAIN (kernel p) in
  let '(r2, k2) := sys_getsockopt (_fd w) SOL_SOCKET SO_TYPE k1 in
  honest r1 -> honest r2 ->
  (exists p', Socket_of_fd (Some l) domain type p = (Ret (Some l), p') /\
     wrappers p' = wrappers p /\ kernel p' = k2) <->
  0 <= ret r1 /\ out r1 = (domain, sizeof_int) /\ 0 <= ret r2 /\ out r2 = (type, sizeof_int).
Proof.
  intros Hl. destruct (sys_getsockopt _ _ SO_DOMAIN _) as [r1 k1] eqn:E1.
  destruct (sys_getsockopt _ _ SO_TYPE _) as [r2 k2] eqn:E2. intros Hr1 Hr2.
  pose proof (check_option_eq l w SO_DOMAIN domain (lit "socket domain mismatch") p r1 k1
    Hl E1 Hr1) as C1.
  pose proof (check_option_eq l w SO_TYPE type (lit "socket type mismatch") (after r1 k1 p) r2 k2
    Hl E2 Hr2) as C2.
  assert (Hthrow : forall e q q', (destroy (Some l) ;;; throw e : M (Proc K) FileDescriptor) q <>
    (Ret (Some l), q')).
  { intros e q q' E. by apply bind_Ret_inv in E as (? & ? & _ & E). }
  unfold Socket_of_fd, constructing, try_catch. unfold mbind at 1, M_bind at 1. rewrite C1.
  destruct (Z.ltb_spec (ret r1) 0); [split; [by intros (q & E & _); apply Hthrow in E | lia]|].
  destruct (bool_decide_reflect (out r1 = (domain, sizeof_int)));
    [|split; [by intros (q & E & _); apply Hthrow in E | tauto]].
  unfold mbind at 1, M_bind at 1. rewrite C2.
  destruct (Z.ltb_spec (ret r2) 0); [split; [by intros (q & E & _); apply Hthrow in E | lia]|].
  destruct (bool_decide_reflect (out r2 = (type, sizeof_int)));
    [|split; [by intros (q & E & _); apply Hthrow in E | tauto]].
  split; [done|]. intros _. by eexists.
Qed.

Lemma socket_checks_domain_and_type_witness :
  exists p', Socket_of_fd (Some 1%positive) AF_INET SOCK_STREAM (demo_socket 2) =
    (Ret (Some 1%positive), p') /\
    wrappers p' = wrappers (demo_socket 2) /\ kernel p' = kernel (demo_socket 2).
Proof.
  pose proof (socket_checks_domain_and_type 1%positive (mkWrapper 3 false false 0 0) AF_INET
    SOCK_STREAM (demo_socket 2) eq_refl) as Hw. simpl in Hw. apply Hw; [done | done | done].
Defined.

(** C36. [UDPSocket::recv] on every branch, on a system whose [recvfrom] does
    what its manual says: a failure throws what the system reported, and a
    datagram longer than [mtu] throws, neither counting a read; otherwise it
    returns the whole datagram, cut back to its length from the [mtu] bytes
    asked for, with the sender's address, and counts one read. *)
Theorem recv_behaviour {K : Type} `{Kernel K, SocketLaws K} l w mtu (p : Proc K) :
  deref l (wrappers p) = Some w -> 0 <= mtu < 2 ^ 63 ->
  let '(r, k) := sys_recvfrom (_fd w) mtu MSG_TRUNC (kernel p) in
  let p1 := after r k p in
  if ret r <? 0 then recv (Some l) mtu p = (Throw (unix_error (lit "recvfrom") (err r)), p1)
  else if ret r >? mtu then
    recv (Some l) mtu p = (Throw (runtime_error (lit "recvfrom (oversized datagram)")), p1)
  else exists a, recv (Some l) mtu p =
         (Ret (mkDatagram a (fst (out r))), set_wrappers (update_obj incr_read l) p1) /\
       sockaddr a = fst (snd (out r)).
Proof.
  intros Hl Hm. pose proof (recvfrom_law (_fd w) mtu (kernel p) ltac:(lia)) as Hlaw.
  destruct (sys_recvfrom _ _ _ _) as [r k] eqn:Hsys. by apply (recv_at l w).
Qed.

Lemma recv_behaviour_witness :
  exists a p', recv (Some 1%positive) 9 (demo_socket 2) = (Ret (mkDatagram a (lit "hello")), p') /\
    sockaddr a = LoopbackSocket.from.
Proof.
  destruct (recv_behaviour 1%positive (mkWrapper 3 false false 0 0) 9 (demo_socket 2) eq_refl
    ltac:(lia)) as (a & E & Ha).
  by eexists a, _.
Defined.

(** C30. [Socket::local_address] and [peer_address] on every branch, on a
    system whose [getsockname] and [getpeername] do what their manuals say.
    Each asks its own call about the socket's descriptor, with room for any
    address.  A failure throws what the system reported; an address too long
    for the room throws too, and is not cut; otherwise the [Address] has the
    length reported and is what the system stored, with zeros behind it, so it
    is equal to any [Address] of these bytes.  Nothing is counted. *)
Theorem addresses_as_reported {K : Type} `{Kernel K, NameLaws K} l w (p : Proc K) :
  deref l (wrappers p) = Some w ->
  let reports (attempt : bytes) (answer : sysret (bytes * Z) * K) (c : outcome Address * Proc K) :=
    let '(r, k) := answer in
    let '(stored, size) := out r in
    snd c = after r k p /\
    match fst c with
    | Ret a => 0 <= ret r /\ size <= sizeof_storage /\ sockaddr a = stored /\ _size a = size /\
               _address a = stored ++ zeros (sizeof_storage - size) /\
               forall x, _size x = size -> sockaddr x = stored -> Address_eq a x = true
    | Throw e => (ret r < 0 /\ e = unix_error attempt (err r)) \/
                 (0 <= ret r /\ sizeof_storage < size /\ e = runtime_error (lit "invalid sockaddr size"))
    | _ => False
    end in
  reports (lit "getsockname") (sys_getsockname (_fd w) sizeof_storage (kernel p))
    (local_address (Some l) p) /\
  reports (lit "getpeername") (sys_getpeername (_fd w) sizeof_storage (kernel p))
    (peer_address (Some l) p).
Proof.
  intros Hl. cbv zeta.
  pose proof (getsockname_law (_fd w) sizeof_storage (kernel p) ltac:(done)) as H1'.
  pose proof (getpeername_law (_fd w) sizeof_storage (kernel p) ltac:(done)) as H2'.
  unfold local_address, peer_address. split.
  - destruct (sys_getsockname _ _ _) as [r k] eqn:E.
    apply (reported_address l w); try done; by repeat constructor.
  - destruct (sys_getpeername _ _ _) as [r k] eqn:E.
    apply (reported_address l w); try done; by repeat constructor.
Qed.

Lemma addresses_as_reported_witness :
  exists a b p1 p2, local_address (Some 1%positive) (demo_socket 2) = (Ret a, p1) /\
    peer_address (Some 1%positive) (demo_socket 2) = (Ret b, p2) /\
    sockaddr a = LoopbackSocket.self /\ sockaddr b = LoopbackSocket.from.
Proof.
  destruct (addresses_as_reported 1%positive (mkWrapper 3 false false 0 0) (demo_socket 2) eq_refl)
    as [Hs Hp].
  destruct (local_address (Some 1%positive) (demo_socket 2)) as [[a|e| |] p1] eqn:E1.
  2: destruct Hs as [_ [[Hr _]|[_ [Hz _]]]]; [vm_compute in Hr; discriminate | vm_compute in Hz; discriminate].
  2-3: destruct Hs as [_ []].
  destruct (peer_address (Some 1%positive) (demo_socket 2)) as [[b|e| |] p2] eqn:E2.
  2: destruct Hp as [_ [[Hr _]|[_ [Hz _]]]]; [vm_compute in Hr; discriminate | vm_compute in Hz; discriminate].
  2-3: destruct Hp as [_ []].
  exists a, b, p1, p2. split; [reflexivity|]. split; [reflexivity|].
  destruct Hs as [_ (_ & _ & Ha & _)], Hp as [_ (_ & _ & Hb & _)].
  split; [rewrite Ha | rewrite Hb]; reflexivity.
Defined.

(** C39. [UDPSocket::sendto] and [send] on every branch, for a payload of less
    than [2^63] bytes in any number of views: the kernel is given all of it, as
    one datagram for the destination (for none, in [send]).  A failure throws
    what the system reported, and a datagram taken only in part throws too,
    neither counting a write; the call returns, and counts one write, exactly
    when all of it was taken. *)
Theorem send_all_or_throw {K : Type} `{Kernel K, SocketLaws K} l w dest buffer (p : Proc K) :
  deref l (wrappers p) = Some w -> zlen (BufferViewList.contents buffer) < 2 ^ 63 ->
  let outcome_of (c : sysret unit * K) :=
    let '(r, k) := c in
    if ret r <? 0 then (Throw (unix_error (lit "sendmsg") (err r)), after r k p)
    else if ret r =? zlen (BufferViewList.contents buffer)
    then (Ret tt, set_wrappers (update_obj incr_write l) (after r k p))
    else (Throw (runtime_error (lit "datagram payload too big for sendmsg()")), after r k p) in
  let datagram := BufferViewList.as_iovecs buffer in
  BufferViewList.iovecs_contents datagram = BufferViewList.contents buffer /\
  sendto (Some l) dest buffer p =
    outcome_of (sys_sendmsg (_fd w) (sockaddr dest) datagram (kernel p)) /\
  send (Some l) buffer p = outcome_of (sys_sendmsg (_fd w) [] datagram (kernel p)).
Proof.
  intros Hl Hlen. cbv zeta. split; [apply iovecs_contents_eq|].
  assert (Hs : forall to,
    let '(r, k) := sys_sendmsg (_fd w) to (BufferViewList.as_iovecs buffer) (kernel p) in
    sys_sendmsg (_fd w) to (BufferViewList.as_iovecs buffer) (kernel p) = (r, k) /\
    sendmsg_result r).
  { intros to. pose proof (sendmsg_law (_fd w) to (BufferViewList.as_iovecs buffer) (kernel p)).
    by destruct (sys_sendmsg _ _ _ _). }
  split.
  - specialize (Hs (sockaddr dest)). destruct (sys_sendmsg (_fd w) (sockaddr dest) _ _) as [r k] eqn:E.
    destruct Hs as [_ Hr]. exact (send_at l w (sockaddr dest) buffer p r k Hl Hlen E Hr).
  - specialize (Hs []). destruct (sys_sendmsg (_fd w) [] _ _) as [r k] eqn:E.
    destruct Hs as [_ Hr]. exact (send_at l w [] buffer p r k Hl Hlen E Hr).
Qed.

Lemma send_all_or_throw_witness :
  result (send (Some 1%positive) [lit "ab"; lit "c"]) (demo_socket 2) =
    Throw (runtime_error (lit "datagram payload too big for sendmsg()")).
Proof.
  unfold result. rewrite (proj2 (proj2 (send_all_or_throw 1%positive (mkWrapper 3 false false 0 0)
    (mkAddress 0 []) [lit "ab"; lit "c"] (demo_socket 2) eq_refl ltac:(by vm_compute)))).
  reflexivity.
Defined.
