(* ===== verification/Doctests.v ===== *)
(** The examples of the documentation, [doctests/socket_dt.cc] and
    [doctests/address_dt.cc] with the files they include, as programs over
    the classes they show. *)

From S2P Require Import Prelude CString Buffer Process FileDescriptor Address Socket.

Local Open Scope Z_scope.

(** What [getaddrinfo] and [getnameinfo] promise: an entry is as long as it
    says, and what is stored in the arrays ends in a NUL. *)
Class ResolverLaws (K : Type) `{Resolver K} : Type := {
  getaddrinfo_law : forall node service hints k,
    match fst (sys_getaddrinfo node service hints k) with
    | (_, Some (_, ai)) => ai_addrlen ai <= zlen (ai_addr ai)
    | _ => True
    end;
  getnameinfo_law : forall addr hostlen servlen flags k,
    let '(r, (host, serv)) := fst (sys_getnameinfo addr hostlen servlen flags k) in
    r = 0 -> (Byte.x00 ∈ host /\ zlen host <= hostlen) /\ (Byte.x00 ∈ serv /\ zlen serv <= servlen)
}.

(** What a program returns, when it returns. *)
Definition yields {S A} (P : A -> Prop) (m : M S A) : Prop :=
  forall s a, result m s = Ret a -> P a.

Section Doctests.
Context {K : Type} `{Kernel K, SocketKernel K, Resolver K}.
Variables (random_word : K -> Z * K) (sys_socketpair : Z -> Z -> Z -> K -> sysret (Z * Z) * K).

(** A local object: its destructor runs when the scope is left, whichever
    way. *)
Definition scope {A} (h : FileDescriptor) (m : M (Proc K) A) : M (Proc K) A :=
  r ← try_catch m (fun e => destroy h ;;; throw e);
  destroy h ;;;
  mret r.

(** [(random_device()() % 50000) + 1025] *)
Definition random_port : M (Proc K) Z :=
  w ← env random_word; mret (u16 (u32 w `mod` 50000 + 1025)).

Definition wrong_data : exn := runtime_error (lit "wrong data received").

Definition check_received (recvd recvd2 : bytes) : M (Proc K) unit :=
  if negb (bool_decide (recvd = lit "hi there")) || negb (bool_decide (recvd2 = lit "hi yourself"))
  then throw wrong_data else mret tt.

Definition socket_example_1 : M (Proc K) unit :=
  portnum ← random_port;
  sock1 ← UDPSocket_new;
  scope sock1 (
    a ← Address_of_ip (lit "127.0.0.1") portnum;
    bind sock1 a ;;;
    sock2 ← UDPSocket_new;
    scope sock2 (
      a ← Address_of_ip (lit "127.0.0.1") portnum;
      sendto sock2 a (BufferViewList.of_c_string (lit "hi there")) ;;;
      recvd ← recv sock1 65536;
      connect sock1 (source_address recvd) ;;;
      send sock1 (BufferViewList.of_c_string (lit "hi yourself")) ;;;
      recvd2 ← recv sock2 65536;
      check_received (payload recvd) (payload recvd2))).

Definition socket_example_2 : M (Proc K) unit :=
  portnum ← random_port;
  sock1 ← TCPSocket_new;
  scope sock1 (
    a ← Address_of_ip (lit "127.0.0.1") portnum;
    bind sock1 a ;;;
    listen sock1 1 ;;;
    sock2 ← TCPSocket_new;
    scope sock2 (
      a ← Address_of_ip (lit "127.0.0.1") portnum;
      connect sock2 a ;;;
      sock3 ← accept sock1;
      scope sock3 (
        _ ← write_c_string sock3 (lit "hi there") true;
        recvd ← read sock2 SIZE_MAX;
        _ ← write_c_string sock2 (lit "hi yourself") true;
        recvd2 ← read sock3 SIZE_MAX;
        close sock1 ;;;
        close sock2 ;;;
        shutdown sock3 SHUT_RDWR ;;;
        check_received recvd recvd2))).

Definition socket_example_3 : M (Proc K) unit :=
  r ← syscall (sys_socketpair AF_UNIX SOCK_STREAM 0);
  _ ← SystemCall (lit "socketpair") (ret r) 0;
  let '(fd0, fd1) := out r in
  pipe1 ← (h ← FileDescriptor_new fd0; LocalStreamSocket_of_fd h);
  scope pipe1 (
    pipe2 ← (h ← FileDescriptor_new fd1; LocalStreamSocket_of_fd h);
    scope pipe2 (
      _ ← write_c_string pipe1 (lit "hi there") true;
      recvd ← read pipe2 SIZE_MAX;
      _ ← write_c_string pipe2 (lit "hi yourself") true;
      recvd2 ← read pipe1 SIZE_MAX;
      check_received recvd recvd2)).

(** [main] of [socket_dt.cc] *)
Definition socket_dt : M (Proc K) Z :=
  try_catch
    (socket_example_1 ;;; socket_example_2 ;;; socket_example_3 ;;; mret EXIT_SUCCESS)
    (fun _ => mret EXIT_FAILURE).

Definition google_webserver : M (Proc K) Address :=
  Address_of_host (lit "www.google.com") (lit "https").
Definition a_dns_server : M (Proc K) Address := Address_of_ip (lit "18.71.0.151") 53.
Definition a_dns_server_numeric (dns : Address) : M (Proc K) Z := lift (ipv4_numeric dns).

(** [main] of [address_dt.cc]; the exception is reported on [cerr]. *)
Definition address_dt : M (Proc K) Z :=
  try_catch
    (google ← google_webserver;
     dns ← a_dns_server;
     numeric ← a_dns_server_numeric dns;
     p ← port google;
     if negb (p =? 443) || negb (numeric =? 0x12470097)
     then throw (runtime_error (lit "unexpected value"))
     else mret EXIT_SUCCESS)
    (fun e => modify (log_cerr e) ;;; mret EXIT_FAILURE).

(** The reference counts are right for the handles [hs]. *)
Definition owned_by (hs : list (option positive)) (p : Proc K) : Prop := owned (wrappers p) hs.

End Doctests.

(** ** Calls keep the handles right *)

Section Calls.
Context {K : Type} `{Kernel K, SocketKernel K, Resolver K}.
Implicit Types (p : Proc K) (hs : list (option positive)).

Lemma owned_by_counts {A} hs (m : M (Proc K) A) :
  (forall c, (forall l, Some l ∈ hs -> is_Some (c !! l)) -> safe (counts c) m) ->
  safe (owned_by hs) m.
Proof.
  intros Hm p Hp. destruct (Hm (snd <$> wrappers p)) with (s := p) as [Hc Hr]; [|done|].
  - intros l Hl. by eapply owned_alive.
  - split; [|done]. by eapply owned_counts.
Qed.

Lemma safe_env {A} c (f : K -> A * K) : safe (@counts K c) (env f).
Proof. intros p Hp. unfold env. msimpl. by destruct (f (kernel p)). Qed.

Lemma safe_sendmsg_helper c fd dest payload : safe (@counts K c) (sendmsg_helper fd dest payload).
Proof.
  apply safe_bind; [apply safe_syscall|]. intros r.
  apply safe_bind; [apply safe_SystemCall|]. intros n.
  apply safe_if; [apply safe_throw | apply safe_ret].
Qed.

Lemma safe_sendto c l dest payload : is_Some (c !! l) ->
  safe (@counts K c) (sendto (Some l) dest payload).
Proof.
  intros Hl. apply safe_bind; [by apply safe_fd_num|]. intros fd.
  apply safe_bind; [apply safe_sendmsg_helper | intros; by apply safe_modify_obj].
Qed.

Lemma safe_send c l payload : is_Some (c !! l) -> safe (@counts K c) (send (Some l) payload).
Proof.
  intros Hl. apply safe_bind; [by apply safe_fd_num|]. intros fd.
  apply safe_bind; [apply safe_sendmsg_helper | intros; by apply safe_modify_obj].
Qed.

(** An address made from the bytes a system call stored in a
    [sockaddr_storage]. *)
Lemma Address_of_storage_returns from size :
  returns (Address_of_sockaddr (fill from (zeros sizeof_storage)) size).
Proof.
  unfold Address_of_sockaddr. rewrite zlen_fill. change (zlen (zeros sizeof_storage)) with 128.
  unfold sizeof_storage. destruct (Z.gtb_spec size 128); [done|].
  by rewrite (proj2 (Z.ltb_ge _ _)) by lia.
Qed.

Lemma safe_recv c l mtu : is_Some (c !! l) -> safe (@counts K c) (recv (Some l) mtu).
Proof.
  intros Hl. assert (Hr : safe (fun s => counts c (fst s)) (recv_into (Some l) mtu)).
  { assert (Hz : forall A (m : M (Proc K) A), safe (counts c) m ->
      safe (fun s : Proc K * received_datagram => counts c (fst s))
        (zoom fst (fun p s => (p, snd s)) m)).
    { intros A m Hm. by apply (safe_zoom fst _ _ (@counts K c)). }
    unfold recv_into.
    repeat first [ apply Hz | by apply safe_fd_num | by apply safe_register_read
      | apply safe_syscall | apply safe_SystemCall | apply safe_ret | apply safe_throw
      | apply safe_lift, Address_of_storage_returns
      | apply safe_if | apply safe_modify; by intros []
      | apply safe_bind; [|intros ?] | match goal with |- context [out ?r] =>
          destruct (out r) as [data [from fromlen]] end ]. }
  intros p Hp. unfold recv. change (Address_of_sockaddr [] 0) with (Ret (mkAddress 0 (zeros 128))).
  cbv iota. destruct (Hr (p, mkDatagram (mkAddress 0 (zeros 128)) []) Hp) as [H1' H2'].
  unfold exec, result in *. destruct (recv_into _ _ _) as [o [p' d]]. split; [done|].
  by destruct o.
Qed.

Lemma safe_shutdown c l how : is_Some (c !! l) -> safe (@counts K c) (shutdown (Some l) how).
Proof.
  intros Hl. unfold shutdown. apply safe_bind; [by apply safe_checked|]. intros _.
  repeat apply safe_if; try (by apply safe_modify_obj); [|apply safe_throw].
  apply safe_bind; [|intros _]; by apply safe_modify_obj.
Qed.

Lemma safe_resolve `{!ResolverLaws K} c node service hints :
  safe (@counts K c) (Address_resolve node service hints).
Proof.
  intros p Hp. unfold Address_resolve, freeing, env, try_catch.
  pose proof (getaddrinfo_law (c_str node) (c_str service) hints (kernel p)) as Hlaw. msimpl.
  destruct (sys_getaddrinfo _ _ _ _) as [[r ai] k]. simpl in *.
  destruct (negb (r =? 0)); [done|]. destruct ai as [[x ai]|]; [|done].
  by destruct (Address_of_sockaddr_returns (ai_addr ai) (ai_addrlen ai) Hlaw) as [[a ->]|[e ->]].
Qed.

(** ** Scopes *)

(** Whatever happens in its scope, a local object is destroyed. *)
Lemma scope_owned {A} hs h (m : M (Proc K) A) p :
  safe (owned_by (h :: hs)) m -> owned_by (h :: hs) p ->
  owned_by hs (exec (scope h m) p) /\ returns (result (scope h m) p).
Proof.
  intros Hm Hp. destruct (Hm p Hp) as [Ho Hr]. unfold exec, result in *.
  destruct (m p) as [o p1] eqn:Em. simpl in *.
  destruct (destroy_handle h p1 hs Ho) as (p2 & E & Ho2).
  assert (Es : scope h m p = (o, p2)); [|by rewrite Es].
  unfold scope, try_catch. destruct o as [a|e| |]; try done.
  - rewrite (bind_Ret _ _ p p1 a); [by rewrite (bind_Ret _ _ _ _ _ E) | by rewrite Em].
  - rewrite (bind_Throw _ _ p p2 e); [done|]. rewrite Em. by rewrite (bind_Ret _ _ _ _ _ E).
Qed.

(** A local object made by a constructor. *)
Lemma safe_local {A} hs (make : M (Proc K) FileDescriptor) (body : FileDescriptor -> M (Proc K) A) :
  (forall p, owned_by hs p -> makes_handle hs (make p)) ->
  (forall l, safe (owned_by (Some l :: hs)) (body (Some l))) ->
  safe (owned_by hs) (h ← make; scope h (body h)).
Proof.
  intros Hmake Hbody p Hp. specialize (Hmake p Hp). unfold exec, result, mbind, M_bind.
  destruct (make p) as [[h|e| |] p1]; try done. destruct Hmake as [[l ->] Ho].
  exact (scope_owned hs (Some l) (body (Some l)) p1 (Hbody l) Ho).
Qed.

Lemma LocalStreamSocket_makes hs fd p : owned_by hs p ->
  makes_handle hs ((h ← FileDescriptor_new fd; LocalStreamSocket_of_fd h) p).
Proof.
  intros Ho. apply makes_handle_then; [by apply FileDescriptor_new_makes|].
  intros l p' Ho'. by apply Socket_of_fd_makes.
Qed.

End Calls.

(** ** Exit codes *)

Section Yields.
Context {S A B : Type}.
Variable P : A -> Prop.

Lemma yields_ret a : P a -> yields P (mret a : M S A).
Proof. intros Ha s a' E. by injection E as <-. Qed.

Lemma yields_throw e : yields P (throw e : M S A).
Proof. by intros s a. Qed.

Lemma yields_bind (m : M S B) (k : B -> M S A) : (forall b, yields P (k b)) -> yields P (m ≫= k).
Proof.
  intros Hk s a. unfold result, mbind, M_bind. destruct (m s) as [[b|e| |] s']; try done.
  apply Hk.
Qed.

Lemma yields_if (b : bool) (m1 m2 : M S A) : yields P m1 -> yields P m2 ->
  yields P (if b then m1 else m2).
Proof. by destruct b. Qed.

Lemma yields_try (m : M S A) (h : exn -> M S A) : yields P m -> (forall e, yields P (h e)) ->
  yields P (try_catch m h).
Proof.
  intros Hm Hh s a. specialize (Hm s). unfold result, try_catch in *.
  destruct (m s) as [[b|e| |] s']; try done; [apply Hm | apply Hh].
Qed.

(** The rest of a [safe] call that cannot throw. *)
Lemma safe_yields (I : S -> Prop) (m : M S A) s : safe I m -> yields P m -> I s ->
  (forall e, result m s <> Throw e) ->
  exists a s', m s = (Ret a, s') /\ P a /\ I s'.
Proof.
  intros Hs Hy HI Ht. destruct (Hs s HI) as [H1 H2]. specialize (Hy s). unfold exec, result in *.
  destruct (m s) as [[a|e| |] s']; try done; [|by destruct (Ht e)].
  exists a, s'. split; [done|]. split; [by apply Hy | done].
Qed.

End Yields.

(** A [main] that catches everything. *)
Lemma main_returns {S} (I : S -> Prop) (P : Z -> Prop) (m : M S Z) (h : exn -> M S Z) s :
  safe I (try_catch m h) -> yields P (try_catch m h) -> (forall e s', exists c s'', h e s' = (Ret c, s'')) ->
  I s -> exists c s', try_catch m h s = (Ret c, s') /\ P c /\ I s'.
Proof.
  intros Hs Hy Hh HI. apply (safe_yields P I); try done. intros e. unfold result, try_catch.
  destruct (m s) as [[a|e'| |] s']; try done. by destruct (Hh e' s') as (c & s'' & ->).
Qed.

(** ** The examples *)

Section Examples.
Context {K : Type} `{Kernel K, SocketKernel K, ResolverLaws K}.
Variables (random_word : K -> Z * K) (sys_socketpair : Z -> Z -> Z -> K -> sysret (Z * Z) * K).

(** Goes through the statements of a block, each a call on the sockets in
    scope or on none. *)
Ltac block_step :=
  first
    [ apply safe_if | apply safe_ret | apply safe_throw
    | apply owned_by_counts; intros c Hc;
      first [ apply safe_env | apply safe_syscall | apply safe_SystemCall | by apply safe_resolve
            | apply safe_checked; apply Hc; set_solver
            | apply safe_sendto; apply Hc; set_solver
            | apply safe_send; apply Hc; set_solver
            | apply safe_recv; apply Hc; set_solver
            | apply safe_shutdown; apply Hc; set_solver
            | apply safe_close; apply Hc; set_solver
            | apply safe_read; apply Hc; set_solver
            | apply safe_write; [apply Hc; set_solver | by vm_compute] ]
    | apply safe_local; [intros ? ?; by apply Socket_new_makes | intros ?]
    | apply safe_local; [intros ? ?; by apply LocalStreamSocket_makes | intros ?]
    | apply safe_local; [intros ? ?; apply accept_makes; [done | set_solver] | intros ?]
    | apply safe_bind; [|intros ?] ].

Lemma safe_example_1 hs : safe (owned_by hs) (socket_example_1 random_word).
Proof. clear sys_socketpair. unfold socket_example_1, random_port, check_received. repeat block_step. Qed.

Lemma safe_example_2 hs : safe (owned_by hs) (socket_example_2 random_word).
Proof. unfold socket_example_2, random_port, check_received. repeat block_step. Qed.

Lemma safe_example_3 hs : safe (owned_by hs) (socket_example_3 sys_socketpair).
Proof.
  unfold socket_example_3, check_received.
  repeat first [ block_step | match goal with |- context [out ?r] => destruct (out r) end ].
Qed.

Lemma safe_socket_dt hs :
  safe (owned_by hs) (socket_dt random_word sys_socketpair).
Proof.
  unfold socket_dt. apply safe_try; [|intros; apply safe_ret].
  repeat (apply safe_bind; [|intros _]); auto using safe_example_1, safe_example_2,
    safe_example_3. apply safe_ret.
Qed.

(** A NUL-terminated string stored in an array. *)
Lemma string_of_stored host n : Byte.x00 ∈ host -> zlen host <= n ->
  returns (string_of_array (fill host (zeros n))).
Proof.
  intros Hin Hlen. zlens. unfold string_of_array.
  replace (existsb _ _) with true; [done|]. symmetry. apply existsb_exists.
  exists Byte.x00. split; [|done]. rewrite fill_small by (rewrite zlen_zeros; lia).
  apply list_elem_of_In, elem_of_app. by left.
Qed.

Lemma stoi_returns s : returns (stoi s).
Proof.
  unfold stoi. destruct (skip_spaces s) as [|c s']; [done|].
  destruct (if b2z c =? 45 then _ else _) as [sign rest]. destruct rest; [done|].
  destruct (is_digit _); [|done]. by destruct (_ && _).
Qed.

Lemma safe_port c a : safe (@counts K c) (port a).
Proof.
  unfold port. apply safe_bind; [|intros; apply safe_ret]. intros p Hp. unfold ip_port, exec, result.
  pose proof (getnameinfo_law (sockaddr a) (zlen (zeros NI_MAXHOST)) (zlen (zeros NI_MAXSERV))
    ni_flags (kernel p)) as Hlaw.
  destruct (sys_getnameinfo _ _ _ _ _) as [[r [host serv]] k] eqn:E. simpl in Hlaw.
  set (p1 := mkProc (errno p) k (wrappers p) (cerr p)).
  rewrite (bind_Ret (env _) _ p p1 (r, (host, serv))) by (unfold env; by rewrite E).
  destruct (Z.eqb_spec r 0) as [->|Hr]; simpl; [|done].
  destruct Hlaw as [[Hh Hhl] [Hs Hsl]]; [done|].
  assert (Hall : safe (@counts K c)
    (ip ← lift (string_of_array (fill host (zeros NI_MAXHOST)));
     port ← lift (string_of_array (fill serv (zeros NI_MAXSERV)));
     port ← lift (stoi port); mret (ip, u16 port) : M (Proc K) (bytes * Z))).
  { apply safe_bind; [apply safe_lift, string_of_stored; [done|]|intros i].
    { by rewrite zlen_zeros in Hhl by done. }
    apply safe_bind; [apply safe_lift, string_of_stored; [done|]|intros q].
    { by rewrite zlen_zeros in Hsl by done. }
    apply safe_bind; [apply safe_lift, stoi_returns | intros; apply safe_ret]. }
  exact (Hall p1 Hp).
Qed.

Lemma safe_address_dt hs : safe (owned_by hs) address_dt.
Proof.
  unfold address_dt, google_webserver, a_dns_server, a_dns_server_numeric.
  apply safe_try; [|intros e; apply safe_bind; [by apply safe_modify | intros; apply safe_ret]].
  repeat first [ apply owned_by_counts; intros c Hc; apply safe_port
    | block_step | apply safe_lift; unfold ipv4_numeric; by destruct (_ || _) ].
Qed.

End Examples.

(** ** A concrete resolver *)

(** It knows one host and one service, and reads numeric addresses as the
    one of the example. *)
Module ExampleResolver.

Definition google : Z := 142 * 2 ^ 24 + 250 * 2 ^ 16 + 68 * 2 ^ 8 + 4.
Definition dns : Z := 0x12470097.

#[global] Instance resolver : Resolver Loopback.t := {|
  sys_getaddrinfo := fun node service hints k =>
    ((0, Some (1, mkAddrinfo 0 AF_INET
       (if bool_decide (service = lit "https") then sockaddr_in google 443
        else sockaddr_in dns 53) sizeof_in)), k);
  sys_freeaddrinfo := fun _ k => k;
  sys_getnameinfo := fun addr hostlen servlen _ k =>
    let host := lit "142.250.68.4" ++ zeros 1 in
    let serv := lit "443" ++ zeros 1 in
    ((if (zlen host <=? hostlen) && (zlen serv <=? servlen) then (0, (host, serv))
      else (-12, ([], []))), k)
|}.

End ExampleResolver.

#[export] Program Instance ExampleResolver_Laws : ResolverLaws Loopback.t.
Next Obligation. intros. simpl. by case_bool_decide. Qed.
Next Obligation.
  intros addr hostlen servlen flags k.
  assert (Hnul : forall t, Byte.x00 ∈ t ++ zeros 1)
    by (intros t; apply elem_of_app; right; apply list_elem_of_here).
  cbn [sys_getnameinfo ExampleResolver.resolver fst].
  destruct (Z.leb_spec (zlen (lit "142.250.68.4" ++ zeros 1)) hostlen); [|done].
  destruct (Z.leb_spec (zlen (lit "443" ++ zeros 1)) servlen); [|done].
  intros _. by split_and!.
Qed.

(** The addresses of the documentation are what it says, for this resolver. *)
Example address_dt_succeeds :
  result address_dt (mkProc 0 (Loopback.quiet 1) ∅ []) = Ret EXIT_SUCCESS.
Proof. vm_compute. reflexivity. Qed.

(** ** Properties *)

(** C32. The documentation's examples release everything: on any system
    whatever, whichever of their calls fail, [socket_dt] and [address_dt] run
    to their end and report success or failure, and every handle they made
    has been destroyed: the objects alive are exactly those that were owned
    before.  The name service is only assumed to return entries as long as it
    says and strings that end. *)
Theorem doctests_release_everything {K : Type} `{Kernel K, SocketKernel K, ResolverLaws K}
    random_word sys_socketpair hs (p : Proc K) :
  owned (wrappers p) hs ->
  (let '(r, p') := socket_dt random_word sys_socketpair p in
   (r = Ret EXIT_SUCCESS \/ r = Ret EXIT_FAILURE) /\ owned (wrappers p') hs) /\
  (let '(r, p') := address_dt p in
   (r = Ret EXIT_SUCCESS \/ r = Ret EXIT_FAILURE) /\ owned (wrappers p') hs).
Proof.
  intros Ho. split.
  - destruct (main_returns _ (fun r => r = EXIT_SUCCESS \/ r = EXIT_FAILURE) _ _ p
      (safe_socket_dt random_word sys_socketpair hs)) as (c & p' & E & Hc & Ho');
      [|by intros; do 2 eexists | done |].
    + apply yields_try; [|intros; apply yields_ret; auto].
      repeat (apply yields_bind; intros _). apply yields_ret. auto.
    + unfold socket_dt. rewrite E. split; [by destruct Hc as [->| ->]; auto | done].
  - destruct (main_returns _ (fun r => r = EXIT_SUCCESS \/ r = EXIT_FAILURE) _ _ p
      (safe_address_dt hs)) as (c & p' & E & Hc & Ho'); [|by intros; do 2 eexists | done |].
    + apply yields_try; [|intros; apply yields_bind; intros _; apply yields_ret; auto].
      repeat (apply yields_bind; intros ?). apply yields_if; [apply yields_throw|].
      apply yields_ret. auto.
    + unfold address_dt. rewrite E. split; [by destruct Hc as [->| ->]; auto | done].
Qed.

Lemma doctests_release_everything_witness :
  let p := mkProc 0 (Loopback.quiet 1) ∅ [] in
  let socketpair := fun _ _ _ (k : Loopback.t) => (mkRet 0 0 (3, 4), k) in
  let word := fun k : Loopback.t => (4919, k) in
  (let '(r, p') := socket_dt word socketpair p in
   (r = Ret EXIT_SUCCESS \/ r = Ret EXIT_FAILURE) /\ owned (wrappers p') []) /\
  (let '(r, p') := address_dt p in
   (r = Ret EXIT_SUCCESS \/ r = Ret EXIT_FAILURE) /\ owned (wrappers p') []).
Proof.
  intros p socketpair word. apply (doctests_release_everything word socketpair [] p).
  intros l. simpl. by rewrite lookup_empty.
Defined.
