(* ===== verification/Network.v ===== *)
(** Datagram sockets on a machine, as an abstract network that the system calls
    implement when they succeed, and what the calls of
    [libsponge/util/socket.hh] do there.  Calls may fail, and datagrams may be
    lost, repeated and reordered; none is made up. *)

From S2P Require Import Prelude CString Buffer Process FileDescriptor Address Socket.

Local Open Scope Z_scope.

(** ** The abstract network *)

(** A datagram socket: the address it has, the one it is connected to, and the
    datagrams that may still be received from it, each with its sender. *)
Record dsock : Type := mkSock {
  name : option bytes;
  dest : option bytes;
  inbox : list (bytes * bytes)
}.

Abbreviation Net := (gmap Z dsock).

Definition new_sock : dsock := mkSock None None [].

(** No socket has the address [a]; no other than [fd] has. *)
Definition free (a : bytes) (n : Net) : Prop :=
  forall fd s, n !! fd = Some s -> name s <> Some a.

Definition holds (a : bytes) (fd : Z) (n : Net) : Prop :=
  forall fd' s, n !! fd' = Some s -> name s = Some a -> fd' = fd.

(** The address 127.0.0.1 and a port that is not 0. *)
Definition loopback (port : Z) : bytes := sockaddr_in FixedResolver.localhost port.

Definition is_loopback (a : bytes) : Prop := exists port, 0 < port < 2 ^ 16 /\ a = loopback port.

(** A call that fails, with a reason, or does [P]. *)
Definition fails_or {A} (P : Prop) (r : sysret A) : Prop :=
  (ret r = -1 /\ 0 < err r) \/ (0 <= ret r <= INT_MAX /\ P).

(** The datagram sockets of a program on one machine, to which no other
    program sends: [serves k n] says that the system in state [k] has the
    sockets [n].  Each law is what the manual page of a call says of it when it
    succeeds: the number of a new socket is not in use; an address has one
    socket, 127.0.0.1 with a port stays what it is, and a socket that sends
    without an address gets one; what is sent comes to the socket with the
    address, with its sender, or does not, or does more than once; what is
    received is one of the datagrams that came, with its length. *)
Class DatagramNetwork (K : Type) `{Kernel K, SocketKernel K, Resolver K} : Type := {
  serves : K -> Net -> Prop;
  serves_socket : forall k n, serves k n ->
    let '(r, k') := sys_socket AF_INET SOCK_DGRAM k in
    fails_or (n !! ret r = None /\ serves k' (<[ret r := new_sock]> n)) r;
  serves_getaddrinfo : forall k n port, 0 < port < 2 ^ 16 -> serves k n ->
    let '((g, ai), k') := sys_getaddrinfo (lit "127.0.0.1") (CString.to_string port) numeric_hints k in
    forall list entry, g = 0 -> ai = Some (list, entry) ->
    (exists flags, entry = mkAddrinfo flags AF_INET (loopback port) sizeof_in) /\
    serves (sys_freeaddrinfo list k') n;
  serves_bind : forall k n fd s port, n !! fd = Some s -> 0 < port < 2 ^ 16 -> serves k n ->
    let '(r, k') := sys_bind fd (loopback port) k in
    fails_or (free (loopback port) n /\
              serves k' (<[fd := mkSock (Some (loopback port)) (dest s) (inbox s)]> n)) r;
  serves_sendmsg : forall k n fd s fd' s' to addr vs,
    n !! fd = Some s -> n !! fd' = Some s' -> fd <> fd' -> name s' = Some to -> is_loopback to ->
    holds to fd' n -> (addr = to \/ addr = [] /\ dest s = Some to) -> serves k n ->
    let '(r, k') := sys_sendmsg fd addr vs k in
    fails_or (exists from came,
      (name s = Some from \/ name s = None /\ is_loopback from /\ free from n) /\
      (forall d, d ∈ came -> d ∈ inbox s' \/ d = (from, BufferViewList.iovecs_contents vs)) /\
      serves k' (<[fd' := mkSock (name s') (dest s') came]>
                  (<[fd := mkSock (Some from) (dest s) (inbox s)]> n))) r;
  serves_recvfrom : forall k n fd s len, n !! fd = Some s -> 0 <= len -> serves k n ->
    let '(r, k') := sys_recvfrom fd len MSG_TRUNC k in
    fails_or (exists from data kept, (from, data) ∈ inbox s /\ kept ⊆ inbox s /\
      ret r = zlen data /\ out r = (ztake len data, (from, zlen from)) /\
      zlen from <= sizeof_storage /\ serves k' (<[fd := mkSock (name s) (dest s) kept]> n)) r;
  serves_connect : forall k n fd s a to, n !! fd = Some s -> name s = Some a -> is_loopback to ->
    serves k n ->
    let '(r, k') := sys_connect fd to k in
    fails_or (exists kept, kept ⊆ inbox s /\ serves k' (<[fd := mkSock (Some a) (Some to) kept]> n)) r
}.

(** A random device, apart from the network. *)
Definition serves_random {K : Type} `{DatagramNetwork K} (random_word : K -> Z * K) : Prop :=
  forall k n, serves k n -> serves (snd (random_word k)) n.

(** The process: each object's descriptor; and the network. *)
Definition fd_view (x : FDWrapper * nat) : Z := _fd (fst x).

Definition world {K : Type} `{DatagramNetwork K} (m : gmap positive Z) (n : Net) (p : Proc K) : Prop :=
  fd_view <$> wrappers p = m /\ serves (kernel p) n.

(** What a program on the network may throw: that a call failed. *)
Definition call_failed (e : exn) : Prop :=
  match e with
  | unix_error _ _ | tagged_error _ _ _ => True
  | runtime_error text =>
      text = lit "datagram payload too big for sendmsg()" \/
      text = lit "recvfrom (oversized datagram)" \/
      text = lit "getaddrinfo returned successfully but with no results"
  | _ => False
  end.

(** ** Calls on the world *)

Section World.
Context {K : Type} `{DatagramNetwork K}.
Implicit Types (m : gmap positive Z) (n : Net) (p : Proc K).

#[local] Abbreviation tries := (attempts call_failed).

Lemma world_obj l m n fd p : m !! l = Some fd -> world m n p ->
  exists w, deref l (wrappers p) = Some w /\ _fd w = fd.
Proof.
  intros Hl [Hm _]. rewrite <- Hm, lookup_fmap in Hl. unfold deref.
  destruct (wrappers p !! l) as [[w cnt]|]; [|done]. simpl in Hl.
  unfold fd_view in Hl. simplify_eq/=. eauto.
Qed.

Lemma world_after {A} m n n' p (r : sysret A) k : world m n p -> serves k n' ->
  world m n' (after r k p).
Proof. by intros [Hm _]. Qed.

Lemma world_update f l m n p : (forall w, _fd (f w) = _fd w) -> world m n p ->
  world m n (set_wrappers (update_obj f l) p).
Proof.
  intros Hf [Hm Hs]. split; [|done]. rewrite <- Hm. simpl. apply map_eq. intros i.
  rewrite !lookup_fmap. unfold update_obj. destruct (decide (l = i)) as [<-|Hne].
  - rewrite lookup_alter_eq. destruct (wrappers p !! l) as [[w k]|]; [|done]. simpl.
    unfold fd_view. simpl. by rewrite Hf.
  - by rewrite lookup_alter_ne.
Qed.

(** A call on a descriptor that the network answers, and that is checked for
    failure. *)
Lemma checked_attempts l m n fd attempt (call : Z -> K -> sysret unit * K) (Q : Net -> Prop) :
  m !! l = Some fd ->
  (forall k, serves k n -> let '(r, k') := call fd k in
     fails_or (exists n', Q n' /\ serves k' n') r) ->
  tries (world m n) (checked (Some l) attempt call) (fun _ p => exists n', Q n' /\ world m n' p).
Proof.
  intros Hl Hcall p Hp. destruct (world_obj l m n fd p Hl Hp) as (w & Hw & <-).
  specialize (Hcall (kernel p) (proj2 Hp)). unfold checked.
  rewrite (bind_Ret _ _ _ _ _ (fd_num_eq l w p Hw)).
  destruct (call (_fd w) (kernel p)) as [r k] eqn:E.
  rewrite (bind_Ret _ _ _ _ _ (syscall_eq _ p r k E)).
  destruct Hcall as [[Hr He]|(Hr & n' & HQ & Hs)].
  - rewrite (bind_Throw _ _ _ _ _ (SystemCall_failed _ r k p Hr He)). done.
  - rewrite (bind_Ret _ _ _ _ _ (SystemCall_ok _ _ _ _ (proj1 Hr))).
    exists n'. split; [done|]. by eapply world_after.
Qed.

(** ** Operations *)

Lemma UDPSocket_new_attempts m n :
  tries (world m n) UDPSocket_new
    (fun h p => exists l fd, h = Some l /\ (m !! l = None /\ n !! fd = None) /\
       world (<[l := fd]> m) (<[fd := new_sock]> n) p).
Proof.
  intros p [Hm Hs]. pose proof (serves_socket (kernel p) n Hs) as Hr.
  unfold UDPSocket_new, Socket_new. destruct (sys_socket AF_INET SOCK_DGRAM (kernel p)) as [r k] eqn:E.
  rewrite (bind_Ret _ _ _ _ _ (syscall_eq _ p r k E)). destruct Hr as [[Hr He]|(Hr & Hn & Hs')].
  - by rewrite (bind_Throw _ _ _ _ _ (SystemCall_failed _ r k p Hr He)).
  - rewrite (bind_Ret _ _ _ _ _ (SystemCall_ok _ _ _ _ (proj1 Hr))).
    unfold FileDescriptor_new, FDWrapper_new. rewrite (proj2 (Z.ltb_ge (ret r) 0)) by lia.
    set (l := fresh (dom (wrappers (after r k p)))).
    assert (Hl : wrappers p !! l = None) by (apply not_elem_of_dom, is_fresh).
    exists l, (ret r). split; [done|]. split; [by rewrite <- Hm, lookup_fmap, Hl|].
    split; [|done]. simpl. by rewrite fmap_insert, Hm.
Qed.

Lemma Address_of_ip_attempts m n port : 0 < port < 2 ^ 16 ->
  tries (world m n) (Address_of_ip (lit "127.0.0.1") port)
    (fun a p => sockaddr a = loopback port /\ world m n p).
Proof.
  intros Hport p [Hm Hs].
  pose proof (serves_getaddrinfo (kernel p) n port Hport Hs) as Hg.
  unfold Address_of_ip, Address_resolve, env.
  rewrite (c_str_id (lit "127.0.0.1")) by (repeat constructor; by vm_compute).
  rewrite c_str_id by (apply no_nul_to_string; lia).
  unfold mbind, M_bind. destruct (sys_getaddrinfo _ _ _ _) as [[g ai] k].
  destruct (Z.eqb_spec g 0) as [->|]; [|done]. destruct ai as [[list ai]|]; [|by simpl; auto].
  destruct (Hg list ai eq_refl eq_refl) as [[flags ->] Hk]. simpl.
  destruct (sockaddr_in_address FixedResolver.localhost port ltac:(by vm_compute)) as (a & Ha & Hb & _).
  injection Ha as <-.
  split; [exact Hb | by split].
Qed.

Lemma bind_attempts l m n fd s port a : m !! l = Some fd -> n !! fd = Some s ->
  sockaddr a = loopback port -> 0 < port < 2 ^ 16 ->
  tries (world m n) (bind (Some l) a)
    (fun _ p => free (loopback port) n /\
       world m (<[fd := mkSock (Some (loopback port)) (dest s) (inbox s)]> n) p).
Proof.
  intros Hl Hn Ha Hport. eapply attempts_post.
  - eapply (checked_attempts l m n fd _ _ (fun n' => free (loopback port) n /\
      n' = <[fd := mkSock (Some (loopback port)) (dest s) (inbox s)]> n)); [done|].
    intros k Hk. pose proof (serves_bind k n fd s port Hn Hport Hk) as Hb. rewrite Ha.
    destruct (sys_bind _ _ _) as [r k']. destruct Hb as [?|(? & ? & ?)]; [by left | right].
    split; [done|]. by eexists.
  - by intros ? p (n' & [? ->] & ?).
Qed.

Lemma connect_attempts l m n fd s a x : m !! l = Some fd -> n !! fd = Some s ->
  name s = Some a -> is_loopback (sockaddr x) ->
  tries (world m n) (connect (Some l) x)
    (fun _ p => exists kept, kept ⊆ inbox s /\
       world m (<[fd := mkSock (Some a) (Some (sockaddr x)) kept]> n) p).
Proof.
  intros Hl Hn Ha Hx. eapply attempts_post.
  - eapply (checked_attempts l m n fd _ _ (fun n' => exists kept, kept ⊆ inbox s /\
      n' = <[fd := mkSock (Some a) (Some (sockaddr x)) kept]> n)); [done|].
    intros k Hk. pose proof (serves_connect k n fd s a _ Hn Ha Hx Hk) as Hc.
    destruct (sys_connect _ _ _) as [r k']. destruct Hc as [?|(? & kept & ? & ?)]; [by left | right].
    split; [done|]. eexists. split; [by exists kept | done].
  - intros ? p (n' & (kept & ? & ->) & ?). by exists kept.
Qed.

(** [sendto] and [send], to the socket that has the address. *)
Lemma send_attempts l m n fd s fd' s' to addr data : m !! l = Some fd ->
  n !! fd = Some s -> n !! fd' = Some s' -> fd <> fd' -> name s' = Some to -> is_loopback to ->
  holds to fd' n -> (addr = to \/ addr = [] /\ dest s = Some to) ->
  zlen (BufferViewList.contents data) < 2 ^ 63 ->
  tries (world m n)
    (fd ← fd_num (Some l); sendmsg_helper fd addr data ;;; register_write (Some l))
    (fun _ p => exists from came,
       (name s = Some from \/ name s = None /\ is_loopback from /\ free from n) /\
       (forall d, d ∈ came -> d ∈ inbox s' \/ d = (from, BufferViewList.contents data)) /\
       world m (<[fd' := mkSock (name s') (dest s') came]>
                 (<[fd := mkSock (Some from) (dest s) (inbox s)]> n)) p).
Proof.
  intros Hl Hn Hn' Hne Hname Hlo Hto Haddr Hlen p Hp.
  destruct (world_obj l m n fd p Hl Hp) as (w & Hw & Hfd).
  pose proof (serves_sendmsg (kernel p) n fd s fd' s' to addr
    (BufferViewList.as_iovecs data) Hn Hn' Hne Hname Hlo Hto Haddr (proj2 Hp)) as Hr.
  rewrite iovecs_contents_eq in Hr.
  destruct (sys_sendmsg fd addr _ _) as [r k] eqn:E. rewrite <- Hfd in E.
  rewrite (send_at l w addr data p r k Hw Hlen E) by (destruct Hr as [?|[? _]]; [by left | by right]).
  destruct Hr as [[Hr He]|(Hr & from & came & Hfrom & Hcame & Hs)].
  - by rewrite (proj2 (Z.ltb_lt _ _)) by lia.
  - rewrite (proj2 (Z.ltb_ge (ret r) 0)) by lia. destruct (ret r =? _); [|by left].
    exists from, came. split; [done|]. split; [done|].
    apply world_update; [done|]. by eapply world_after.
Qed.

Lemma recv_attempts l m n fd s mtu : m !! l = Some fd -> n !! fd = Some s -> 0 <= mtu < 2 ^ 63 ->
  tries (world m n) (recv (Some l) mtu)
    (fun d p => exists kept, ((sockaddr (source_address d), payload d) ∈ inbox s /\ kept ⊆ inbox s) /\
       world m (<[fd := mkSock (name s) (dest s) kept]> n) p).
Proof.
  intros Hl Hn Hm p Hp. destruct (world_obj l m n fd p Hl Hp) as (w & Hw & Hfd).
  pose proof (serves_recvfrom (kernel p) n fd s mtu Hn ltac:(lia) (proj2 Hp)) as Hr.
  destruct (sys_recvfrom fd mtu MSG_TRUNC (kernel p)) as [r k] eqn:E. rewrite <- Hfd in E.
  assert (Hlaw : recvfrom_result mtu r).
  { destruct Hr as [?|(? & from & data & kept & _ & _ & Hret & Hout & Hfrom & _)]; [by left | right].
    rewrite Hout, Hret in *. simpl. rewrite zlen_ztake by lia. split_and!; lia || done. }
  pose proof (recv_at l w mtu p r k Hw Hm E Hlaw) as Heq. cbv zeta in Heq.
  destruct Hr as [[Hr He]|(Hr & from & data & kept & Hin & Hleft & Hret & Hout & Hfrom & Hs)].
  { rewrite (proj2 (Z.ltb_lt _ _)) in Heq by lia. by rewrite Heq. }
  rewrite (proj2 (Z.ltb_ge (ret r) 0)) in Heq by lia.
  destruct (Z.gtb_spec (ret r) mtu); [rewrite Heq; by right; left|].
  destruct Heq as (a & -> & Ha). rewrite Hout in *. cbn [fst snd source_address payload] in *.
  exists kept. rewrite Ha, ztake_all by lia. split; [done|].
  apply world_update; [done|]. by eapply world_after.
Qed.

End World.
