(* ===== verification/NetMachine.v ===== *)
(** A concrete machine with datagram sockets: each system call does to them
    what [DatagramNetwork] asks, or fails; it may lose the first datagrams that
    are sent.  It shows that the laws can hold. *)

From S2P Require Import Prelude CString Buffer Process FileDescriptor Address Socket Doctests Network.

Local Open Scope Z_scope.

(** ** The machine *)

Module NetMachine.

(** The sockets, and how many of the next datagrams get lost. *)
Record t : Type := mk { sockets : Net; losses : nat }.

Definition done_with {A} (r : Z) (a : A) (k : t) : sysret A * t := (mkRet r 0 a, k).

(** Failing with an error of [errno(3)]. *)
Definition fail {A} (error : Z) (a : A) (k : t) : sysret A * t := (mkRet (-1) error a, k).

Definition EAGAIN : Z := 11.
Definition EINVAL : Z := 22.
Definition EADDRINUSE : Z := 98.
Definition ECONNREFUSED : Z := 111.

Definition set_sock (fd : Z) (s : dsock) (k : t) : t := mk (<[fd := s]> (sockets k)) (losses k).

(** A number no socket has. *)
Definition new_fd (k : t) : Z :=
  Z.of_nat (fresh (set_map Z.to_nat (dom (sockets k)) : gset nat)).

(** The socket that has the address. *)
Definition find_named (a : bytes) (n : Net) : option Z :=
  fst <$> head (filter (fun x => name x.2 = Some a) (map_to_list n)).

(** An address no socket has, among the ephemeral ports. *)
Definition ephemeral (n : Net) : option bytes :=
  find (fun a => bool_decide (find_named a n = None))
    (map (fun i => loopback (49152 + Z.of_nat i)) (seq 0 100)).

Definition socket (domain type : Z) (k : t) : sysret unit * t :=
  if new_fd k <=? INT_MAX then done_with (new_fd k) tt (set_sock (new_fd k) new_sock k)
  else fail EINVAL tt k.

Definition bind (fd : Z) (a : bytes) (k : t) : sysret unit * t :=
  match sockets k !! fd, find_named a (sockets k) with
  | Some s, None => done_with 0 tt (set_sock fd (mkSock (Some a) (dest s) (inbox s)) k)
  | Some s, Some _ => fail EADDRINUSE tt k
  | _, _ => fail EINVAL tt k
  end.

Definition connect (fd : Z) (a : bytes) (k : t) : sysret unit * t :=
  match sockets k !! fd with
  | Some s => done_with 0 tt (set_sock fd (mkSock (name s) (Some a) (inbox s)) k)
  | _ => fail EINVAL tt k
  end.

Definition sendmsg (fd : Z) (addr : bytes) (vs : list BufferViewList.iovec) (k : t) : sysret unit * t :=
  let data := BufferViewList.iovecs_contents vs in
  match sockets k !! fd with
  | Some s =>
      match (if bool_decide (addr = []) then dest s else Some addr) ≫= (fun a => find_named a (sockets k)),
            match name s with Some a => Some a | None => ephemeral (sockets k) end with
      | Some fd', Some from =>
          if (INT_MAX <? zlen data) || bool_decide (fd = fd') then fail EINVAL tt k
          else
            let n := <[fd := mkSock (Some from) (dest s) (inbox s)]> (sockets k) in
            match losses k, sockets k !! fd' with
            | O, Some s' =>
                done_with (zlen data) tt
                  (mk (<[fd' := mkSock (name s') (dest s') (inbox s' ++ [(from, data)])]> n) O)
            | losses, _ => done_with (zlen data) tt (mk n (pred losses))
            end
      | _, _ => fail ECONNREFUSED tt k
      end
  | _ => fail EINVAL tt k
  end.

(** It does not wait for a datagram. *)
Definition recvfrom (fd len flags : Z) (k : t) : sysret (bytes * (bytes * Z)) * t :=
  match sockets k !! fd with
  | Some s =>
      match inbox s with
      | (from, data) :: kept =>
          if (INT_MAX <? zlen data) || (sizeof_storage <? zlen from) then fail EINVAL ([], ([], 0)) k
          else done_with (zlen data) (ztake len data, (from, zlen from))
                 (set_sock fd (mkSock (name s) (dest s) kept) k)
      | [] => fail EAGAIN ([], ([], 0)) k
      end
  | _ => fail EINVAL ([], ([], 0)) k
  end.

Definition close (fd : Z) (k : t) : sysret unit * t :=
  done_with 0 tt (mk (delete fd (sockets k)) (losses k)).

(** Numeric addresses of this machine. *)
Definition getaddrinfo (node service : bytes) (hints : addrinfo) (k : t) :
    (Z * option (Z * addrinfo)) * t :=
  if bool_decide (node = lit "127.0.0.1")
  then ((0, Some (1, mkAddrinfo 0 AF_INET (loopback (CString.digits service 0)) sizeof_in)), k)
  else ((-2, None), k).

#[global] Instance kernel : Kernel t := {|
  sys_close := close;
  sys_read := fun _ _ => fail EINVAL [];
  sys_writev := fun _ _ => fail EINVAL tt;
  sys_getfl := fun _ => fail EINVAL tt;
  sys_setfl := fun _ _ => fail EINVAL tt;
  sys_poll := fun _ _ => fail EINVAL []
|}.

#[global] Instance socket_kernel : SocketKernel t := {|
  sys_socket := socket;
  sys_getsockopt := fun _ _ _ => fail EINVAL (0, 0);
  sys_setsockopt := fun _ _ _ _ => fail EINVAL tt;
  sys_getsockname := fun _ _ => fail EINVAL ([], 0);
  sys_getpeername := fun _ _ => fail EINVAL ([], 0);
  sys_bind := bind;
  sys_connect := connect;
  sys_shutdown := fun _ _ => fail EINVAL tt;
  sys_recvfrom := recvfrom;
  sys_sendmsg := sendmsg;
  sys_listen := fun _ _ => fail EINVAL tt;
  sys_accept := fun _ => fail EINVAL tt;
  sys_open := fun _ _ => fail EINVAL tt;
  sys_ioctl := fun _ _ _ => fail EINVAL tt
|}.

#[global] Instance resolver : Resolver t := {|
  sys_getaddrinfo := getaddrinfo;
  sys_freeaddrinfo := fun _ k => k;
  sys_getnameinfo := fun _ _ _ _ k => ((-4, ([], [])), k)
|}.

(** A random device. *)
Definition random_word (k : t) : Z * t := (4919, k).

End NetMachine.

(** ** Its laws *)

Import NetMachine.

Lemma new_fd_spec k : 0 <= new_fd k /\ sockets k !! new_fd k = None.
Proof.
  split; [apply Nat2Z.is_nonneg|]. apply not_elem_of_dom. intros Hin.
  apply (is_fresh (set_map Z.to_nat (dom (sockets k)) : gset nat)). apply elem_of_map.
  exists (new_fd k). split; [|done]. unfold new_fd. by rewrite Nat2Z.id.
Qed.

Lemma find_named_free a n : find_named a n = None <-> free a n.
Proof.
  unfold find_named. rewrite fmap_None, head_None. split.
  - intros Hf fd s Hs Ha. assert (Hin : (fd, s) ∈ filter (fun x => name x.2 = Some a) (map_to_list n))
      by (apply list_elem_of_filter; by rewrite elem_of_map_to_list).
    rewrite Hf in Hin. by apply elem_of_nil in Hin.
  - intros Hf. destruct (filter _ _) as [|[fd s] l] eqn:E; [done|].
    assert (Hin : (fd, s) ∈ filter (fun x => name x.2 = Some a) (map_to_list n))
      by (rewrite E; apply list_elem_of_here).
    apply list_elem_of_filter in Hin as [Ha Hin]. apply elem_of_map_to_list in Hin.
    by destruct (Hf fd s).
Qed.

Lemma find_named_holds a fd s n : holds a fd n -> n !! fd = Some s -> name s = Some a ->
  find_named a n = Some fd.
Proof.
  intros Hh Hs Ha. destruct (find_named a n) as [fd'|] eqn:E.
  - unfold find_named in E. apply fmap_Some in E as ([fd'' s'] & Hx & ->).
    apply head_Some_elem_of, list_elem_of_filter in Hx as [Ha' Hin].
    apply elem_of_map_to_list in Hin. simpl in *. f_equal. by eapply Hh.
  - apply find_named_free in E. by destruct (E fd s).
Qed.

Lemma ephemeral_spec n a : ephemeral n = Some a -> is_loopback a /\ free a n.
Proof.
  intros [Hin Hf]%find_some. apply bool_decide_eq_true, find_named_free in Hf. split; [|done].
  apply in_map_iff in Hin as (i & <- & Hi). apply in_seq in Hi.
  exists (49152 + Z.of_nat i). split; [lia | done].
Qed.

Lemma loopback_nonempty a : is_loopback a -> a <> [].
Proof. by intros (port & _ & ->). Qed.

Lemma fails_with {A} (P : Prop) error (a : A) : 0 < error -> fails_or P (mkRet (-1) error a).
Proof. intros He. by left. Qed.

#[local] Hint Extern 1 (fails_or _ (mkRet (-1) _ _)) => apply fails_with; reflexivity : core.

#[export] Program Instance NetMachine_Network : DatagramNetwork t := {|
  serves := fun k n => sockets k = n
|}.
Next Obligation.
  intros k n <-. destruct (new_fd_spec k) as [Hfd Hn]. simpl. unfold socket.
  destruct (Z.leb_spec (new_fd k) INT_MAX); simpl; [|auto]. right. by split_and!.
Qed.
Next Obligation.
  intros k n port Hport <-. simpl. intros list entry _ [= <- <-]. split; [|done]. exists 0.
  by destruct (to_string_digits port) as (_ & _ & -> & _); [lia|].
Qed.
Next Obligation.
  intros k n fd s port Hfd Hport <-. simpl. unfold bind. rewrite Hfd.
  destruct (find_named _ _) eqn:E; simpl; [auto|]. right. split; [by unfold INT_MAX|].
  split; [by apply find_named_free | done].
Qed.
Next Obligation.
  intros k n fd s fd' s' to addr vs Hfd Hfd' Hne Hname Hlo Hto Haddr <-. simpl. unfold sendmsg.
  rewrite Hfd. apply loopback_nonempty in Hlo.
  assert (Eg : (if bool_decide (addr = []) then dest s else Some addr) ≫=
    (fun a => find_named a (sockets k)) = Some fd').
  { rewrite <- (find_named_holds to fd' s' (sockets k) Hto Hfd' Hname).
    destruct Haddr as [->|[-> ->]]; [by rewrite bool_decide_eq_false_2|done]. }
  rewrite Eg. destruct (match name s with Some a => Some a | None => _ end) as [from|] eqn:Ef;
    simpl; [|auto].
  assert (Hfrom : name s = Some from \/ name s = None /\ is_loopback from /\ free from (sockets k)).
  { destruct (name s); [left; congruence | right]. split; [done | by apply ephemeral_spec]. }
  destruct ((INT_MAX <? _) || _) eqn:El; simpl; [auto|].
  apply orb_false_iff in El as [El%Z.ltb_ge _].
  set (data := BufferViewList.iovecs_contents vs) in *. zlens.
  rewrite Hfd'. destruct (losses k) as [|j]; (right; split; [simpl; lia|]); exists from.
  - exists (inbox s' ++ [(from, data)]). split; [done|]. split; [|done].
    intros d [Hd|Hd]%elem_of_app; [by left | right; by apply list_elem_of_singleton in Hd].
  - exists (inbox s'). split; [done|]. split; [by left|]. simpl.
    rewrite (insert_id _ fd'); [done|]. rewrite lookup_insert_ne by done. by destruct s'.
Qed.
Next Obligation.
  intros k n fd s len Hfd Hlen <-. simpl. unfold recvfrom. rewrite Hfd.
  destruct (inbox s) as [|[from data] kept] eqn:Ei; simpl; [auto|].
  destruct ((INT_MAX <? _) || _) eqn:El; simpl; [auto|].
  apply orb_false_iff in El as [El%Z.ltb_ge Ef%Z.ltb_ge]. zlens. right. split; [simpl; lia|].
  exists from, data, kept. split; [apply list_elem_of_here|]. split; [set_solver|]. by split_and!.
Qed.
Next Obligation.
  intros k n fd s a to Hfd Ha Hto <-. simpl. unfold connect. rewrite Hfd. simpl. right.
  split; [by unfold INT_MAX|]. exists (inbox s). split; [done|]. by rewrite Ha.
Qed.

#[export] Program Instance NetMachine_ResolverLaws : ResolverLaws t.
Next Obligation.
  intros node service hints k. simpl. unfold getaddrinfo. by case_bool_decide.
Qed.
Next Obligation. by intros addr hostlen servlen flags k. Qed.

Lemma NetMachine_random : serves_random random_word.
Proof. by intros k n Hk. Qed.

(** A process without descriptors on a machine without sockets. *)
Definition fresh_proc (losses : nat) : Proc t := mkProc 0 (mk ∅ losses) ∅ [].
