(* ===== verification/SocketExamples.v ===== *)
(** The first of the documentation's socket examples,
    [doctests/socket_example_1.cc], on the network of [Network.v]: two
    datagram sockets that greet each other, where calls fail and datagrams
    get lost. *)

From S2P Require Import Prelude CString Buffer Process FileDescriptor Address Socket Doctests Network NetMachine.

Local Open Scope Z_scope.

(** How the example may end: it finds what it received right, or throws that a
    call failed, and not its own complaint. *)
Definition unconfused (o : outcome unit) : Prop :=
  match o with
  | Ret _ => True
  | Throw e => call_failed e /\ e <> wrong_data
  | _ => False
  end.

(** ** Sockets and addresses *)

Lemma holds_insert_eq a fd s n : free a n -> holds a fd (<[fd := s]> n).
Proof.
  intros Hf i s' [[<- <-]|[_ Hi]]%lookup_insert_Some Ha; [done | by destruct (Hf i s')].
Qed.

Lemma holds_insert a fd fd' s n : name s <> Some a \/ fd' = fd -> holds a fd n ->
  holds a fd (<[fd' := s]> n).
Proof.
  intros Hs Hh i s' [[<- <-]|[? ?]]%lookup_insert_Some Ha; [by destruct Hs | by eapply Hh].
Qed.

(** What an update leaves, up to conversion. *)
Ltac look := solve [repeat first [rewrite lookup_insert_eq | rewrite lookup_insert_ne by done]; done].

(** Runs the first of two calls by a lemma, with what it returns known. *)
Ltac known := repeat first [ apply attempts_ex; intros ? | apply attempts_pure; intros ? ].

(** ** The example *)

Section Example1.
Context {K : Type} `{DatagramNetwork K}.
Implicit Types (m : gmap positive Z) (n : Net) (p : Proc K).

#[local] Abbreviation tries := (attempts call_failed).

Lemma random_port_attempts m n (random_word : K -> Z * K) : serves_random random_word ->
  tries (world m n) (random_port random_word) (fun port p => 0 < port < 2 ^ 16 /\ world m n p).
Proof.
  intros Hw p [Hm Hs]. unfold random_port, env. msimpl. pose proof (Hw (kernel p) n Hs) as Hk.
  destruct (random_word (kernel p)) as [w k]. simpl.
  pose proof (Z.mod_pos_bound (u32 w) 50000 ltac:(lia)).
  rewrite wrapu_small by lia. split; [lia | by split].
Qed.

(** A destructor reports what fails, and throws nothing. *)
Lemma destroy_attempts P h : tries P (destroy h) (fun _ _ => True).
Proof.
  intros p _. unfold destroy. destruct h as [l|]; [|done]. unfold mbind, M_bind, get.
  destruct (use_count l (wrappers p)) as [|[|c]]; [done| |done].
  unfold FDWrapper_delete, try_catch. by destruct ((lw ← obj (Some l); _) p) as [[[]|e| |] p'].
Qed.

Lemma scope_attempts {A} P h (body : M (Proc K) A) (Q : A -> Prop) :
  tries P body (fun a _ => Q a) -> tries P (scope h body) (fun a _ => Q a).
Proof.
  intros Hb p Hp. specialize (Hb p Hp). unfold scope, try_catch, mbind, M_bind.
  destruct (body p) as [[a|e| |] p1]; try done;
    pose proof (destroy_attempts (fun _ => True) h p1 I) as Hd;
    by destruct (destroy h p1) as [[[]|e'| |] p2].
Qed.

Lemma check_received_attempts P recvd recvd2 : recvd = lit "hi there" -> recvd2 = lit "hi yourself" ->
  tries P (check_received recvd recvd2 : M (Proc K) unit) (fun _ _ => True).
Proof. by intros -> -> p _. Qed.

(** What [sock1], bound to [a], and [sock2] say to each other. *)
Lemma conversation_attempts m n l1 fd1 l2 fd2 port :
  m !! l1 = Some fd1 -> m !! l2 = Some fd2 -> fd1 <> fd2 ->
  n !! fd1 = Some (mkSock (Some (loopback port)) None []) -> n !! fd2 = Some new_sock ->
  holds (loopback port) fd1 n -> 0 < port < 2 ^ 16 ->
  tries (world m n)
    (a ← Address_of_ip (lit "127.0.0.1") port;
     sendto (Some l2) a (BufferViewList.of_c_string (lit "hi there")) ;;;
     recvd ← recv (Some l1) 65536;
     connect (Some l1) (source_address recvd) ;;;
     send (Some l1) (BufferViewList.of_c_string (lit "hi yourself")) ;;;
     recvd2 ← recv (Some l2) 65536;
     check_received (payload recvd) (payload recvd2))
    (fun _ _ => True).
Proof.
  intros Hl1 Hl2 Hne Hn1 Hn2 Hholds Hport. set (a0 := loopback port) in *.
  assert (Ha0 : is_loopback a0) by (by exists port).
  eapply attempts_bind; [by apply Address_of_ip_attempts | intros a; cbv beta; known].
  eapply attempts_bind; [apply (send_attempts l2 m n fd2 new_sock fd1 (mkSock (Some a0) None []) a0 _
    (BufferViewList.of_c_string (lit "hi there"))); try done; by left | intros ?; cbv beta; known].
  change (BufferViewList.contents _) with (lit "hi there") in *. simpl in *.
  rename x into from, x0 into came1. destruct H4 as [?|(_ & Hlo & Hfree)]; [done|].
  assert (Hfrom : Some a0 <> Some from) by exact (Hfree fd1 _ Hn1).
  assert (Hcame : forall d, d ∈ came1 -> d = (from, lit "hi there"))
    by (intros d Hd; destruct (H5 d Hd) as [Hd'|]; [by apply elem_of_nil in Hd' | done]). clear H5.
  eapply attempts_bind; [eapply (recv_attempts l1 m _ fd1); [done | look | lia] | intros d; cbv beta; known].
  simpl in *. destruct H4 as [Hd Hkept]. apply Hcame in Hd. injection Hd as Hsrc Hpay.
  rewrite insert_insert_eq.
  eapply attempts_bind; [eapply (connect_attempts l1 m _ fd1 _ a0); [done | look | done | by rewrite Hsrc]
    | intros ?; cbv beta; known]. rewrite Hsrc, insert_insert_eq.
  rename x0 into kept2.
  assert (Hback : holds from fd2 (<[fd1 := mkSock (Some a0) (Some from) kept2]>
                     (<[fd2 := mkSock (Some from) None []]> n)))
    by (apply holds_insert; [by left | by apply holds_insert_eq]).
  eapply attempts_bind; [eapply (send_attempts l1 m _ fd1 _ fd2 _ from []);
    [done | look | look | done | done | done | done | by right | by vm_compute]
    | intros ?; cbv beta; known].
  simpl in *. destruct H5 as [[= <-]|[? _]]; [|done].
  change (BufferViewList.contents _) with (lit "hi yourself") in *. rename x1 into came2.
  eapply attempts_bind; [eapply (recv_attempts l2 m _ fd2); [done | look | lia] | intros d2; cbv beta; known].
  simpl in *. destruct H5 as [Hd2 _].
  apply check_received_attempts; [done|].
  destruct (H6 _ Hd2) as [Hd2'|Hd2']; [by apply elem_of_nil in Hd2' | by injection Hd2'].
Qed.

Lemma socket_example_1_attempts m n (random_word : K -> Z * K) : serves_random random_word ->
  tries (world m n) (socket_example_1 random_word) (fun _ _ => True).
Proof.
  intros Hw. unfold socket_example_1.
  eapply attempts_bind; [by apply random_port_attempts | intros port; cbv beta; known].
  eapply attempts_bind; [apply UDPSocket_new_attempts | intros h1; cbv beta; known]. subst h1.
  rename x into l1, x0 into fd1. destruct H5 as [Hl1 Hfd1].
  apply (scope_attempts _ _ _ (fun _ => True)).
  eapply attempts_bind; [by apply Address_of_ip_attempts | intros a; cbv beta; known].
  eapply attempts_bind; [eapply (bind_attempts l1 _ _ fd1 new_sock port); [look | look | done | done]
    | intros ?; cbv beta; known]. rewrite insert_insert_eq.
  assert (Hfree : free (loopback port) n).
  { intros fd s Hs. apply (H5 fd s). rewrite lookup_insert_ne; congruence. }
  eapply attempts_bind; [apply UDPSocket_new_attempts | intros h2; cbv beta; known]. subst h2.
  rename x into l2, x0 into fd2. destruct H7 as [Hl2 Hfd2].
  apply lookup_insert_None in Hl2 as [Hl2 Hl12], Hfd2 as [Hfd2 Hfd12].
  apply (scope_attempts _ _ _ (fun _ => True)).
  eapply (conversation_attempts _ _ l1 fd1 l2 fd2 port); try done; try look.
  apply holds_insert; [by left | by apply holds_insert_eq].
Qed.

End Example1.

(** ** Properties *)

(** C7. The documentation's first socket example never receives wrong data:
    on a machine where calls may fail at any point, and datagrams may be
    lost, repeated and reordered but not made up, whatever port the random
    device gives, the program either ends, and each socket has then received
    what the other sent; or a call failed, and that is what it throws, never
    its own complaint about what it received.  Either way it has destroyed the
    handles it made. *)
Theorem socket_example_1_is_not_confused {K : Type} `{DatagramNetwork K, !ResolverLaws K}
    (random_word : K -> Z * K) hs n (p : Proc K) :
  serves_random random_word -> owned (wrappers p) hs -> serves (kernel p) n ->
  let '(o, p') := socket_example_1 random_word p in
  unconfused o /\ owned (wrappers p') hs.
Proof.
  intros Hw Ho Hs.
  pose proof (socket_example_1_attempts (fd_view <$> wrappers p) n random_word Hw p
    ltac:(by split)) as Ht.
  pose proof (safe_example_1 random_word hs p Ho) as [Ho' Hr]. unfold exec, result, owned_by in *.
  destruct (socket_example_1 random_word p) as [o p']. split; [|done].
  destruct o as [|e| |]; try done. split; [done|]. intros ->. by destruct Ht as [?|[?|?]].
Qed.

Lemma socket_example_1_is_not_confused_witness :
  let '(o, p') := socket_example_1 NetMachine.random_word (fresh_proc 0) in
  unconfused o /\ owned (wrappers p') [].
Proof.
  apply (socket_example_1_is_not_confused NetMachine.random_word [] ∅ (fresh_proc 0));
    [exact NetMachine_random | intros l; simpl; by rewrite lookup_empty | reflexivity].
Defined.

(** On this machine it ends well if nothing is lost, and otherwise because
    nothing is received. *)
Example socket_example_1_runs :
  result (socket_example_1 NetMachine.random_word) (fresh_proc 0) = Ret tt /\
  result (socket_example_1 NetMachine.random_word) (fresh_proc 1) = Throw (unix_error (lit "recvfrom") NetMachine.EAGAIN).
Proof. vm_compute. by split. Qed.
