(* ===== verification/StreamTests.v ===== *)
(** The tests of the byte stream: the harness of
    [tests/byte_stream_test_harness.{hh,cc}], the five programs
    [tests/byte_stream_*.cc] that [check_lab0] runs, and what each of them
    reports of the class as it is. *)

From S2P Require Import Prelude CString Util ByteStream Process.

Local Open Scope Z_scope.

(** ** Steps *)

(** The classes derived from [ByteStreamTestStep]. *)
Inductive ByteStreamTestStep : Type :=
  | EndInput
  | Write (_data : bytes) (_bytes_written : option Z)
  | Pop (_len : Z)
  | InputEnded (_input_ended : bool)
  | BufferEmpty (_buffer_empty : bool)
  | Eof (_eof : bool)
  | BufferSize (_buffer_size : Z)
  | BytesWritten (_bytes_written : Z)
  | BytesRead (_bytes_read : Z)
  | RemainingCapacity (_remaining_capacity : Z)
  | Peek (_output : bytes).

(** [std::to_string] of a [bool], which is promoted to an [int] *)
Definition string_of_bool (b : bool) : bytes := to_string (if b then 1 else 0).

Definition quote : bytes := [z2b 34].
Definition newline : bytes := [z2b 10].
Definition tab : bytes := [z2b 9].

Definition description (s : ByteStreamTestStep) : bytes :=
  match s with
  | EndInput => lit "end input"
  | Write d _ => lit "write " ++ quote ++ d ++ quote ++ lit " to the stream"
  | Pop len => lit "pop " ++ to_string len
  | InputEnded b => lit "input_ended: " ++ string_of_bool b
  | BufferEmpty b => lit "buffer_empty: " ++ string_of_bool b
  | Eof b => lit "eof: " ++ string_of_bool b
  | BufferSize n => lit "buffer_size: " ++ to_string n
  | BytesWritten n => lit "bytes_written: " ++ to_string n
  | BytesRead n => lit "bytes_read: " ++ to_string n
  | RemainingCapacity n => lit "remaining_capacity: " ++ to_string n
  | Peek out => quote ++ out ++ quote ++ lit " at the front of the stream"
  end.

(** [operator std::string] of [ByteStreamAction] and [ByteStreamExpectation] *)
Definition step_string (s : ByteStreamTestStep) : bytes :=
  match s with
  | EndInput | Write _ _ | Pop _ => lit "     Action: " ++ description s
  | _ => lit "Expectation: " ++ description s
  end.

(** [ByteStreamExpectationViolation::property], on the texts of the values *)
Definition property (property_name expected actual : bytes) : exn :=
  ByteStreamExpectationViolation
    (lit "The ByteStream should have had " ++ property_name ++ lit " equal to " ++
     expected ++ lit " but instead it was " ++ actual).

Definition expect_size (name : bytes) (expected actual : Z) : M ByteStream unit :=
  if negb (actual =? expected) then throw (property name (to_string expected) (to_string actual))
  else mret tt.

Definition expect_bool (name : bytes) (expected actual : bool) : M ByteStream unit :=
  if negb (eqb actual expected)
  then throw (property name (string_of_bool expected) (string_of_bool actual))
  else mret tt.

(** [step.execute(_byte_stream)] *)
Definition execute_step (s : ByteStreamTestStep) : M ByteStream unit :=
  match s with
  | EndInput => end_input
  | Write d expected =>
      bytes_written ← write d;
      match expected with
      | Some n => expect_size (lit "bytes_written") n bytes_written
      | None => mret tt
      end
  | Pop len => pop_output len
  | InputEnded b => bs ← get; expect_bool (lit "input_ended") b (input_ended bs)
  | BufferEmpty b => bs ← get; expect_bool (lit "buffer_empty") b (buffer_empty bs)
  | Eof b => bs ← get; expect_bool (lit "eof") b (eof bs)
  | BufferSize n => bs ← get; expect_size (lit "buffer_size") n (buffer_size bs)
  | BytesWritten n => bs ← get; expect_size (lit "bytes_written") n (bytes_written bs)
  | BytesRead n => bs ← get; expect_size (lit "bytes_read") n (bytes_read bs)
  | RemainingCapacity n =>
      bs ← get; expect_size (lit "remaining_capacity") n (remaining_capacity bs)
  | Peek out =>
      bs ← get;
      output ← lift (peek_output (zlen out) bs);
      if negb (bool_decide (output = out))
      then throw (ByteStreamExpectationViolation
             (lit "Expected " ++ quote ++ out ++ quote ++
              lit " at the front of the stream, but found " ++ quote ++ output ++ quote))
      else mret tt
  end.

(** ** The harness *)

Record ByteStreamTestHarness : Type := mkHarness {
  _test_name : bytes;
  _byte_stream : ByteStream;
  _steps_executed : list bytes
}.

(** A harness, and what has been written to [std::cerr]. *)
Definition Test : Type := ByteStreamTestHarness * bytes.

Definition on_stream {A} (m : M ByteStream A) : M Test A :=
  zoom (fun t => _byte_stream (fst t))
    (fun bs t => (mkHarness (_test_name (fst t)) bs (_steps_executed (fst t)), snd t)) m.

Definition record_step (s : ByteStreamTestStep) : M Test unit :=
  modify (fun t => (mkHarness (_test_name (fst t)) (_byte_stream (fst t))
                      (_steps_executed (fst t) ++ [step_string s]), snd t)).

Definition print (text : bytes) : M Test unit := modify (fun t => (fst t, snd t ++ text)).

Section Harness.

(** [error_category::message] *)
Context (message : bytes -> Z -> bytes).

(** What both handlers of [execute] print. *)
Definition report (kind : bytes) (s : ByteStreamTestStep) (e : exn) (steps : list bytes) : bytes :=
  lit "Test Failure on expectation:" ++ newline ++ tab ++ step_string s ++
  newline ++ newline ++ kind ++ newline ++ tab ++ what message e ++
  newline ++ newline ++ lit "List of steps that executed successfully:" ++
  concat (map (fun t => newline ++ tab ++ t) steps) ++ newline ++ newline.

(** [ByteStreamTestHarness::execute] *)
Definition execute (s : ByteStreamTestStep) : M Test unit :=
  try_catch
    (on_stream (execute_step s) ;;; record_step s)
    (fun e =>
       t ← get;
       match e with
       | ByteStreamExpectationViolation _ =>
           print (report (lit "Failure message:") s e (_steps_executed (fst t))) ;;;
           throw (ByteStreamExpectationViolation
             (lit "The test " ++ quote ++ _test_name (fst t) ++ quote ++ lit " failed"))
       | _ =>
           print (report (lit "Exception:") s e (_steps_executed (fst t))) ;;;
           throw (ByteStreamExpectationViolation
             (lit "The test " ++ quote ++ _test_name (fst t) ++ quote ++
              lit " caused your implementation to throw an exception!"))
       end).

(** [ByteStreamTestHarness test{test_name, capacity}], with the memory its
    stream finds. *)
Definition harness_new (u : Uninit) (test_name : bytes) (capacity : Z) :
    outcome ByteStreamTestHarness :=
  bs ← ByteStream_new u capacity;
  Ret (mkHarness test_name bs
         [lit "Initialized with (capacity=" ++ to_string capacity ++ lit ")"]).

(** Statements with a harness in scope. *)
Definition in_harness (h : ByteStreamTestHarness) (m : M Test unit) : M bytes unit := fun cerr =>
  let '(r, (_, cerr')) := m (h, cerr) in (r, cerr').

Definition with_harness (h : outcome ByteStreamTestHarness) (m : M Test unit) : M bytes unit :=
  h ← lift h; in_harness h m.

(** [test.execute(step)], for each of some steps in turn. *)
Fixpoint execute_all (steps : list ByteStreamTestStep) : M Test unit :=
  match steps with
  | [] => mret tt
  | s :: rest => execute s ;;; execute_all rest
  end.

(** One block of a test program. *)
Record TestCase : Type := mkTest { name : bytes; capacity : Z; steps : list ByteStreamTestStep }.

Definition run_test (u : Uninit) (t : TestCase) : M bytes unit :=
  with_harness (harness_new u (name t) (capacity t)) (execute_all (steps t)).

(** The blocks of a program, each finding other memory. *)
Fixpoint run_tests (memory : nat -> Uninit) (ts : list TestCase) : M bytes unit :=
  match ts with
  | [] => mret tt
  | t :: rest => run_test (memory 0%nat) t ;;; run_tests (fun i => memory (S i)) rest
  end.

(** The [try] block around a test program's [main]. *)
Definition main_of {S} (log : bytes -> S -> S) (body : M S unit) : M S Z :=
  try_catch
    (body ;;; mret EXIT_SUCCESS)
    (fun e => modify (log (lit "Exception: " ++ what message e ++ newline)) ;;;
              mret EXIT_FAILURE).

Definition test_main (memory : nat -> Uninit) (ts : list TestCase) : M bytes Z :=
  main_of (fun text cerr => cerr ++ text) (run_tests memory ts).

End Harness.

(** ** The programs *)

(** The seven expectations every test repeats, in their order. *)
Definition looks (input_ended buffer_empty eof : bool)
    (bytes_read bytes_written remaining_capacity buffer_size : Z) : list ByteStreamTestStep :=
  [InputEnded input_ended; BufferEmpty buffer_empty; Eof eof; BytesRead bytes_read;
   BytesWritten bytes_written; RemainingCapacity remaining_capacity; BufferSize buffer_size].

Definition byte_stream_construction : list TestCase := [
  mkTest (lit "construction") 15 (looks false true false 0 0 15 0);
  mkTest (lit "construction-end") 15 ([EndInput] ++ looks true true true 0 0 15 0)
].

Definition byte_stream_one_write : list TestCase := [
  mkTest (lit "write-end-pop") 15 (
    Write (lit "cat") None ::
    looks false false false 0 3 12 3 ++ [Peek (lit "cat"); EndInput] ++
    looks true false false 0 3 12 3 ++ [Peek (lit "cat"); Pop 3] ++
    looks true true true 3 3 15 0);
  mkTest (lit "write-pop-end") 15 (
    Write (lit "cat") None ::
    looks false false false 0 3 12 3 ++ [Peek (lit "cat"); Pop 3] ++
    looks false true false 3 3 15 0 ++ [EndInput] ++
    looks true true true 3 3 15 0);
  mkTest (lit "write-pop2-end") 15 (
    Write (lit "cat") None ::
    looks false false false 0 3 12 3 ++ [Peek (lit "cat"); Pop 1] ++
    looks false false false 1 3 13 2 ++ [Peek (lit "at"); Pop 2] ++
    looks false true false 3 3 15 0 ++ [EndInput] ++
    looks true true true 3 3 15 0)
].

Definition byte_stream_two_writes : list TestCase := [
  mkTest (lit "write-write-end-pop-pop") 15 (
    Write (lit "cat") None ::
    looks false false false 0 3 12 3 ++ [Peek (lit "cat"); Write (lit "tac") None] ++
    looks false false false 0 6 9 6 ++ [Peek (lit "cattac"); EndInput] ++
    looks true false false 0 6 9 6 ++ [Peek (lit "cattac"); Pop 2] ++
    looks true false false 2 6 11 4 ++ [Peek (lit "ttac"); Pop 4] ++
    looks true true true 6 6 15 0);
  mkTest (lit "write-pop-write-end-pop") 15 (
    Write (lit "cat") None ::
    looks false false false 0 3 12 3 ++ [Peek (lit "cat"); Pop 2] ++
    looks false false false 2 3 14 1 ++ [Peek (lit "t"); Write (lit "tac") None] ++
    looks false false false 2 6 11 4 ++ [Peek (lit "ttac"); EndInput] ++
    looks true false false 2 6 11 4 ++ [Peek (lit "ttac"); Pop 4] ++
    looks true true true 6 6 15 0)
].

Definition byte_stream_capacity : list TestCase := [
  mkTest (lit "overwrite") 2 (
    Write (lit "cat") (Some 2) ::
    looks false false false 0 2 0 2 ++ [Peek (lit "ca"); Write (lit "t") (Some 0)] ++
    looks false false false 0 2 0 2 ++ [Peek (lit "ca")]);
  mkTest (lit "overwrite-clear-overwrite") 2 (
    [Write (lit "cat") (Some 2); Pop 2; Write (lit "tac") (Some 2)] ++
    looks false false false 2 4 0 2 ++ [Peek (lit "ta")]);
  mkTest (lit "overwrite-pop-overwrite") 2 (
    [Write (lit "cat") (Some 2); Pop 1; Write (lit "tac") (Some 1)] ++
    looks false false false 1 3 0 2 ++ [Peek (lit "at")])
].

Section ManyWrites.
Context {K : Type} (message : bytes -> Z -> bytes) (random_word : K -> Z * K).

Definition NREPS : Z := 1000.
Definition MIN_WRITE : Z := 10.
Definition MAX_WRITE : Z := 200.
Definition CAPACITY : Z := MAX_WRITE * NREPS.

(** The generator [rd], and the test. *)
Definition Many : Type := mt19937 * Test.

Definition rd : M Many Z := fun s => let '(z, e) := next_number (fst s) in (Ret z, (e, snd s)).

Definition on_test (m : M Test unit) : M Many unit := zoom snd (fun t s => (fst s, t)) m.

(** [generate(d.begin(), d.end(), [&] { return 'a' + (rd() % 26); })] *)
Fixpoint random_letters (n : nat) : M Many bytes :=
  match n with
  | O => mret []
  | S n' => z ← rd; cs ← random_letters n'; mret (z2b (97 + z `mod` 26) :: cs)
  end.

(** The loop, [todo] rounds before its end. *)
Fixpoint many_writes_loop (todo : nat) (acc : Z) : M Many unit :=
  match todo with
  | O => mret tt
  | S todo' =>
      z ← rd;
      let size := u64 (MIN_WRITE + z `mod` (MAX_WRITE - MIN_WRITE)) in
      d ← random_letters (Z.to_nat size);
      on_test (execute message (Write d (Some size))) ;;;
      let acc := u64 (acc + size) in
      on_test (execute_all message (looks false false false 0 acc (u64 (CAPACITY - acc)) acc)) ;;;
      many_writes_loop todo' acc
  end.

(** [main], on a random device and the error output *)
Definition byte_stream_many_writes (u : Uninit) : M (K * bytes) Z :=
  main_of message (fun text s => (fst s, snd s ++ text))
    (rd ← zoom fst (fun k s => (k, snd s)) (get_random_generator random_word);
     zoom snd (fun cerr s => (fst s, cerr))
       (with_harness (harness_new u (lit "many writes") CAPACITY)
          (fun t => let '(r, (_, t')) := many_writes_loop (Z.to_nat NREPS) 0 (rd, t) in (r, t')))).

End ManyWrites.

(** ** What a test says of the log *)

(** Whether a step is satisfied by a stream that implements a log and whose
    counters started from [w0] and [r0], and the log after it. *)
Definition judge (w0 r0 : Z) (s : ByteStreamTestStep) (a : WriteLog.log) : bool * WriteLog.log :=
  let n := zlen (WriteLog.accepted a) in
  let empty := n `mod` (WriteLog.limit a + 1) =? 0 in
  match s with
  | EndInput => (true, snd (WriteLog.step ByteStream.EndInput a))
  | Write d expected =>
      let '(n, a') := WriteLog.write d a in
      (match expected with Some m => n =? m | None => true end, a')
  | Pop _ => (true, a)
  | InputEnded b => (eqb (WriteLog.closed a) b, a)
  | BufferEmpty b => (eqb empty b, a)
  | Eof b => (eqb (WriteLog.closed a && empty) b, a)
  | BufferSize m => (0 =? m, a)
  | BytesWritten m => (u64 (s32 (w0 + n)) =? m, a)
  | BytesRead m => (u64 r0 =? m, a)
  | RemainingCapacity m => (WriteLog.limit a =? m, a)
  | Peek out => (bool_decide (out = []), a)
  end.

(** The steps satisfied before the first that is not. *)
Fixpoint satisfied (w0 r0 : Z) (steps : list ByteStreamTestStep) (a : WriteLog.log) :
    list ByteStreamTestStep :=
  match steps with
  | [] => []
  | s :: rest =>
      let '(ok, a') := judge w0 r0 s a in
      if ok then s :: satisfied w0 r0 rest a' else []
  end.

Definition passes (w0 r0 : Z) (steps : list ByteStreamTestStep) (a : WriteLog.log) : bool :=
  (length (satisfied w0 r0 steps a) =? length steps)%nat.

(** The counters of a stream in memory that held zero. *)
Definition counters_zero (u : Uninit) : bool := (uninit_w u =? 0) && (uninit_r u =? 0).

Definition valid_step (s : ByteStreamTestStep) : bool :=
  match s with Pop len => 0 <=? len | _ => true end.

Definition failed_test (test_name : bytes) : exn :=
  ByteStreamExpectationViolation
    (lit "The test " ++ quote ++ test_name ++ quote ++ lit " failed").

(** A step on a stream that implements a log does what the log says. *)
Definition judged (w0 r0 : Z) (s : ByteStreamTestStep) (a : WriteLog.log)
    (c : outcome unit * ByteStream) : Prop :=
  implements_log w0 r0 (snd (judge w0 r0 s a)) (snd c) /\
  exists e, fst c = if fst (judge w0 r0 s a) then Ret tt
                    else Throw (ByteStreamExpectationViolation e).

(** What executing some steps leads to: the test goes on or fails, the steps
    recorded are [done_] more than before, and the error output is touched
    only on failure. *)
Definition leads_to (w0 r0 : Z) (h : ByteStreamTestHarness) (cerr : bytes) (ok : bool)
    (done_ : list ByteStreamTestStep) (a : WriteLog.log) (c : outcome unit * Test) : Prop :=
  let '(r, (h', cerr')) := c in
  r = (if ok then Ret tt else Throw (failed_test (_test_name h))) /\
  _test_name h' = _test_name h /\
  _steps_executed h' = _steps_executed h ++ map step_string done_ /\
  implements_log w0 r0 a (_byte_stream h') /\
  (ok = true -> cerr' = cerr).

(** The verdict of one block, on a stream found in memory [u]. *)
Definition verdict (u : Uninit) (t : TestCase) : bool :=
  passes (uninit_w u) (uninit_r u) (steps t) (WriteLog.new (capacity t)).

(** A program succeeds when all its blocks do. *)
Fixpoint verdicts (memory : nat -> Uninit) (ts : list TestCase) : bool :=
  match ts with
  | [] => true
  | t :: rest => verdict (memory 0%nat) t && verdicts (fun i => memory (S i)) rest
  end.

Definition valid_test (t : TestCase) : Prop :=
  good_capacity (capacity t) /\ Forall valid_step (steps t).

(** ** What the harness reports *)

Lemma expect_size_eq name n v bs :
  exists e, expect_size name n v bs =
    (if v =? n then Ret tt else Throw (ByteStreamExpectationViolation e), bs).
Proof. unfold expect_size. eexists. by destruct (v =? n). Qed.

Lemma expect_bool_eq name b v bs :
  exists e, expect_bool name b v bs =
    (if eqb v b then Ret tt else Throw (ByteStreamExpectationViolation e), bs).
Proof. unfold expect_bool. eexists. by destruct (eqb v b). Qed.

Lemma judged_look w0 r0 s a bs (b : bool) (m : M ByteStream unit) :
  implements_log w0 r0 a bs -> judge w0 r0 s a = (b, a) ->
  (exists e, m bs = (if b then Ret tt else Throw (ByteStreamExpectationViolation e), bs)) ->
  judged w0 r0 s a (m bs).
Proof. intros Hi Ej [e Em]. unfold judged. rewrite Ej, Em. simpl. eauto. Qed.

Lemma judged_step w0 r0 s o a bs :
  implements_log w0 r0 a bs -> - 2 ^ 31 <= r0 < 2 ^ 31 -> valid_op o ->
  judge w0 r0 s a = (true, snd (WriteLog.step o a)) ->
  (forall r bs', step o bs = (Ret r, bs') -> execute_step s bs = (Ret tt, bs')) ->
  judged w0 r0 s a (execute_step s bs).
Proof.
  intros Hi Hr Hv Ej Hs. destruct (step_simulates w0 r0 a bs o Hr Hv Hi) as (bs' & E & Hi').
  unfold judged. rewrite Ej, (Hs _ _ E). simpl. split; [done|]. by exists [].
Qed.

Lemma execute_step_judged w0 r0 s a bs : - 2 ^ 31 <= r0 < 2 ^ 31 -> valid_step s ->
  implements_log w0 r0 a bs -> judged w0 r0 s a (execute_step s bs).
Proof.
  intros Hr Hv Hi. pose proof Hi as (Hlim & Hsz & Ht & Hh & Hring & Hcl & Herr & Hw & Hr').
  assert (Hem : buffer_empty bs = (zlen (WriteLog.accepted a) `mod` (WriteLog.limit a + 1) =? 0))
    by (unfold buffer_empty; by rewrite Ht, Hh, Hsz).
  destruct s as [|d expected|len|b|b|b|n|n|n|n|out].
  - apply (judged_step _ _ _ ByteStream.EndInput); [done..|]. msimpl. by intros r bs' [= _ <-].
  - destruct (step_simulates w0 r0 a bs (ByteStream.Write d) Hr I Hi) as (bs' & E & Hi').
    unfold judged. simpl step in E. simpl in Hi', E |- *.
    destruct (WriteLog.write d a) as [n a'] eqn:Ew. simpl in *.
    apply bind_Ret_inv in E as (n' & bs1 & E & [= -> ->]).
    rewrite (bind_Ret _ _ _ _ _ E). destruct expected as [m|]; [|by simpl; eauto].
    destruct (expect_size_eq (lit "bytes_written") m n bs') as [e ->]. simpl. eauto.
  - apply (judged_step _ _ _ (ByteStream.Pop len)); [done..|]. simpl step. simpl execute_step.
    intros r bs' E. apply bind_Ret_inv in E as ([] & bs1 & E & [= _ ->]). done.
  - eapply judged_look; [done | reflexivity|]. simpl. msimpl. unfold input_ended. rewrite Hcl.
    apply expect_bool_eq.
  - eapply judged_look; [done | reflexivity|]. simpl. msimpl. rewrite Hem. apply expect_bool_eq.
  - eapply judged_look; [done | reflexivity|]. simpl. msimpl. unfold eof, input_ended.
    rewrite Hem, Hcl. apply expect_bool_eq.
  - eapply judged_look; [done | reflexivity|]. simpl. msimpl. apply expect_size_eq.
  - eapply judged_look; [done | reflexivity|]. simpl. msimpl. unfold bytes_written. rewrite Hw.
    apply expect_size_eq.
  - eapply judged_look; [done | reflexivity|]. simpl. msimpl. unfold bytes_read. rewrite Hr'.
    apply expect_size_eq.
  - eapply judged_look; [done | reflexivity|]. simpl. msimpl.
    rewrite remaining_capacity_eq by (unfold INT_MAX in *; lia).
    replace (m_buf_size bs - 1) with (WriteLog.limit a) by lia. apply expect_size_eq.
  - eapply judged_look; [done | reflexivity|]. simpl. msimpl.
    rewrite peek_output_eq by apply zlen_nonneg. eexists.
    rewrite (bool_decide_ext (out = []) ([] = out)) by done. by destruct (bool_decide _).
Qed.

Section Verdicts.
Variables (message : bytes -> Z -> bytes) (w0 r0 : Z).
Hypothesis r0_range : - 2 ^ 31 <= r0 < 2 ^ 31.

Lemma execute_leads s a h cerr : valid_step s -> implements_log w0 r0 a (_byte_stream h) ->
  let '(ok, a') := judge w0 r0 s a in
  leads_to w0 r0 h cerr ok (if ok then [s] else []) a' (execute message s (h, cerr)).
Proof.
  intros Hv Hi. destruct (execute_step_judged w0 r0 s a (_byte_stream h) r0_range Hv Hi) as [Hi' [e E]].
  destruct (judge w0 r0 s a) as [ok a']. unfold execute, try_catch, on_stream, zoom. msimpl.
  destruct (execute_step s (_byte_stream h)) as [r bs']. simpl in E, Hi'. subst r.
  destruct ok; simpl; [by auto|]. by rewrite app_nil_r.
Qed.

Lemma execute_all_leads steps : forall a h cerr,
  Forall valid_step steps -> implements_log w0 r0 a (_byte_stream h) ->
  exists a', leads_to w0 r0 h cerr (passes w0 r0 steps a) (satisfied w0 r0 steps a) a'
    (execute_all message steps (h, cerr)).
Proof.
  induction steps as [|s steps IH]; intros a h cerr Hv Hi; simpl.
  - exists a. simpl. by rewrite app_nil_r.
  - inversion_clear Hv. pose proof (execute_leads s a h cerr ltac:(done) Hi) as Hs.
    unfold passes. simpl satisfied. destruct (judge w0 r0 s a) as [ok a1].
    destruct (execute message s (h, cerr)) as [r [h1 cerr1]] eqn:E.
    destruct Hs as (-> & Hn & Hst & Hi1 & Hc). destruct ok.
    + rewrite (bind_Ret _ _ _ _ _ E). destruct (IH a1 h1 cerr1) as [a2 Ha2]; [done..|].
      exists a2. unfold passes in Ha2. simpl length.
      destruct (execute_all message steps (h1, cerr1)) as [r2 [h2 cerr2]].
      destruct Ha2 as (-> & Hn2 & Hst2 & Hi2 & Hc2).
      split; [by rewrite Hn|]. split; [congruence|]. split; [|split; [done|]].
      * by rewrite Hst2, Hst, <- app_assoc.
      * intros Hok. rewrite Hc2, Hc; done.
    + rewrite (bind_Throw _ _ _ _ _ E). exists a1. simpl. split; [done|]. split; [done|].
      by rewrite Hst.
Qed.

Lemma passes_cons s steps a : passes w0 r0 (s :: steps) a =
  fst (judge w0 r0 s a) && passes w0 r0 steps (snd (judge w0 r0 s a)).
Proof. unfold passes. simpl. by destruct (judge w0 r0 s a) as [[] a']. Qed.

(** The seven expectations change nothing, and no stream meets them whose
    remaining capacity is not its whole capacity. *)
Lemma passes_full ie be eo br bw rc bz rest a : WriteLog.limit a <> rc ->
  passes w0 r0 (looks ie be eo br bw rc bz ++ rest) a = false.
Proof.
  intros Hne. simpl app. rewrite !passes_cons. simpl.
  apply Z.eqb_neq in Hne. rewrite Hne. simpl. by rewrite !andb_false_r.
Qed.

End Verdicts.

Lemma harness_new_ok u t cerr : good_capacity (capacity t) -> good_uninit u ->
  exists h, harness_new u (name t) (capacity t) = Ret h /\ _test_name h = name t /\
    implements_log (uninit_w u) (uninit_r u) (WriteLog.new (capacity t)) (_byte_stream h) /\
    forall m : M Test unit, with_harness (harness_new u (name t) (capacity t)) m cerr =
      (let '(r, (_, cerr')) := m (h, cerr) in (r, cerr')).
Proof.
  intros Hc Hu. destruct (ByteStream_new_ok u (capacity t) Hc) as (buf & _ & E).
  unfold with_harness, harness_new. rewrite E. simpl.
  eexists. split; [done|]. split; [done|]. split; [by apply implements_log_new | done].
Qed.

Lemma run_test_verdict message u t cerr :
  good_capacity (capacity t) -> good_uninit u -> Forall valid_step (steps t) ->
  result (run_test message u t) cerr =
    if verdict u t then Ret tt else Throw (failed_test (name t)).
Proof.
  intros Hc Hu Hv. destruct (harness_new_ok u t cerr Hc Hu) as (h & _ & Hn & Hi & E).
  unfold result, run_test. rewrite E.
  destruct (execute_all_leads message _ _ ltac:(apply Hu) (steps t) _ h cerr Hv Hi) as [a Ha].
  destruct (execute_all _ _ _) as [r [h' cerr']]. destruct Ha as (-> & _).
  unfold verdict. by rewrite Hn.
Qed.

Lemma test_main_verdicts message ts : forall memory cerr,
  (forall i, good_uninit (memory i)) -> Forall valid_test ts ->
  result (test_main message memory ts) cerr =
    Ret (if verdicts memory ts then EXIT_SUCCESS else EXIT_FAILURE).
Proof.
  intros memory cerr Hm Hts.
  assert (Hr : forall ts memory cerr, (forall i, good_uninit (memory i)) -> Forall valid_test ts ->
    if verdicts memory ts then result (run_tests message memory ts) cerr = Ret tt
    else exists e, result (run_tests message memory ts) cerr = Throw e).
  { clear. induction ts as [|t ts IH]; intros memory cerr Hm Hts; [done|].
    inversion_clear Hts as [|? ? [Hc Hv] Hts']. simpl.
    pose proof (run_test_verdict message (memory 0%nat) t cerr Hc (Hm _) Hv) as E.
    unfold result in *. destruct (run_test _ _ _ _) as [r cerr1] eqn:Et. simpl in E. subst r.
    destruct (verdict _ _); simpl.
    - rewrite (bind_Ret _ _ _ _ _ Et). by apply IH.
    - rewrite (bind_Throw _ _ _ _ _ Et). by eexists. }
  specialize (Hr ts memory cerr Hm Hts). unfold result, test_main, main_of, try_catch in *.
  destruct (run_tests message memory ts cerr) as [r cerr1] eqn:Et. destruct (verdicts memory ts).
  - simpl in Hr. subst r. by rewrite (bind_Ret _ _ _ _ _ Et).
  - destruct Hr as [e Hr]. simpl in Hr. subst r. by rewrite (bind_Throw _ _ _ _ _ Et).
Qed.

(** ** The random writes *)

Lemma random_letters_eq n : forall (e : mt19937) (t : Test),
  exists cs e', random_letters n (e, t) = (Ret cs, (e', t)) /\ length cs = n.
Proof.
  induction n as [|n IH]; intros e t; simpl; [by exists [], e|].
  unfold rd. unfold mbind, M_bind at 1. simpl. destruct (next_number e) as [z e1].
  destruct (IH e1 t) as (cs & e2 & E & Hl). unfold M_bind. rewrite E.
  eexists _, _. split; [done|]. simpl. by rewrite Hl.
Qed.

Lemma on_test_eq (m : M Test unit) e t :
  on_test m (e, t) = (let '(r, t') := m t in (r, (e, t'))).
Proof. done. Qed.

Lemma size_range z : 10 <= u64 (MIN_WRITE + z `mod` (MAX_WRITE - MIN_WRITE)) < 200.
Proof.
  unfold MIN_WRITE, MAX_WRITE. change (200 - 10) with 190.
  pose proof (Z.mod_pos_bound z 190 ltac:(lia)).
  rewrite wrapu_small; lia.
Qed.

(** The first round writes at least ten bytes and then finds the remaining
    capacity unchanged. *)
Lemma many_writes_first message w0 r0 todo e h cerr : - 2 ^ 31 <= r0 < 2 ^ 31 ->
  implements_log w0 r0 (WriteLog.new CAPACITY) (_byte_stream h) ->
  exists x s', many_writes_loop message (S todo) 0 (e, (h, cerr)) = (Throw x, s').
Proof.
  intros Hr Hi. cbn [many_writes_loop].
  destruct (next_number e) as [z e1] eqn:En.
  rewrite (bind_Ret rd _ _ (e1, (h, cerr)) z) by (unfold rd; simpl; by rewrite En).
  pose proof (size_range z) as Hs. revert Hs.
  generalize (u64 (MIN_WRITE + z `mod` (MAX_WRITE - MIN_WRITE))). intros size Hs.
  destruct (random_letters_eq (Z.to_nat size) e1 (h, cerr)) as (d & e2 & E & Hd).
  rewrite (bind_Ret _ _ _ _ _ E).
  assert (Hz : zlen d = size) by (unfold zlen; lia).
  pose proof (execute_leads message w0 r0 Hr (Write d (Some size)) _ h cerr I Hi) as Hx.
  simpl in Hx. destruct (execute message (Write d (Some size)) (h, cerr)) as [r [h1 cerr1]] eqn:Ex.
  replace (Z.min (zlen d) CAPACITY =? size) with true in Hx
    by (symmetry; apply Z.eqb_eq; unfold CAPACITY, MAX_WRITE, NREPS; lia).
  destruct Hx as (-> & _ & _ & Hi1 & _).
  erewrite bind_Ret by (rewrite on_test_eq, Ex; reflexivity).
  set (acc := u64 (0 + size)). set (rem := u64 (CAPACITY - acc)).
  destruct (execute_all_leads message w0 r0 Hr (looks false false false 0 acc rem acc) _ h1 cerr1
    ltac:(by repeat constructor) Hi1) as [a Ha].
  rewrite <- (app_nil_r (looks _ _ _ _ _ _ _)), passes_full in Ha.
  - destruct (execute_all message _ (h1, cerr1)) as [r [h2 cerr2]] eqn:El.
    rewrite app_nil_r in El. destruct Ha as (-> & _).
    eexists _, _. apply bind_Throw. by rewrite on_test_eq, El.
  - simpl. unfold rem, acc. rewrite Z.add_0_l. unfold CAPACITY, MAX_WRITE, NREPS.
    rewrite (wrapu_small 64 size), wrapu_small; lia.
Qed.

Lemma many_writes_fails {K} message (random_word : K -> Z * K) u s : good_uninit u ->
  result (byte_stream_many_writes message random_word u) s = Ret EXIT_FAILURE.
Proof.
  intros Hu. destruct s as [k cerr]. unfold result, byte_stream_many_writes, main_of, try_catch.
  set (body := mbind _ (zoom fst _ (get_random_generator random_word))).
  assert (Hb : exists x s', body (k, cerr) = (Throw x, s')).
  { assert (Hg : exists rd k1, get_random_generator random_word k = (Ret rd, k1)).
    { pose proof (generate_words_draws random_word state_size k) as E. unfold get_random_generator.
      rewrite (bind_Ret _ _ _ _ _ E). eexists _, _. reflexivity. }
    destruct Hg as (rd & k1 & Hg). subst body.
    rewrite (bind_Ret (zoom _ _ _) _ _ (k1, cerr) rd)
      by (unfold zoom; cbn [fst snd]; rewrite Hg; reflexivity).
    destruct (harness_new_ok u (mkTest (lit "many writes") CAPACITY []) cerr)
      as (h & _ & _ & Hi & E); [unfold good_capacity, INT_MAX; simpl; by vm_compute | done|].
    cbn [name capacity] in Hi, E. unfold zoom. cbn [fst snd]. rewrite E.
    destruct (many_writes_first message _ _ 999 rd h cerr ltac:(apply Hu) Hi) as (x & s' & Em).
    change (Z.to_nat NREPS) with 1000%nat. cbv beta. unfold Test in *.
    rewrite Em. destruct s' as [rd' [h' cerr']].
    eexists _, _. reflexivity. }
  destruct Hb as (x & s' & Hb). by rewrite (bind_Throw _ _ _ _ _ Hb).
Qed.

(** ** The verdicts *)

Lemma counters_zero_reads u : good_uninit u ->
  (u64 (uninit_r u) =? 0) && (u64 (s32 (uninit_w u + 0)) =? 0) = counters_zero u.
Proof.
  intros [Hw Hr]. rewrite Z.add_0_r, s32_small by lia. unfold counters_zero.
  assert (Hz : forall z, - 2 ^ 31 <= z < 2 ^ 31 -> (u64 z =? 0) = (z =? 0)).
  { intros z Hz. destruct (Z.eqb_spec z 0) as [->|Hn]; [done|]. apply Z.eqb_neq. unfold wrapu.
    destruct (decide (0 <= z)); [rewrite Z.mod_small; lia|].
    rewrite <- (Z_mod_plus_full _ 1), Z.mod_small; lia. }
  rewrite !Hz by done. by rewrite andb_comm.
Qed.

Lemma construction_verdicts memory : (forall i, good_uninit (memory i)) ->
  verdicts memory byte_stream_construction =
    counters_zero (memory 0%nat) && counters_zero (memory 1%nat).
Proof.
  intros Hm. simpl. rewrite andb_true_r. unfold verdict.
  rewrite <- !counters_zero_reads by done. f_equal.
  - unfold looks. cbn [steps capacity]. rewrite !passes_cons. simpl. by rewrite !andb_true_r.
  - unfold looks. cbn [steps capacity]. rewrite !passes_cons. simpl. by rewrite !andb_true_r.
Qed.

(** The first block of a program fails when its first write is accepted and
    then something is expected to be stored. *)
Lemma first_block_fails memory nm cap d expected ie be eo br bw rc bz rest ts :
  cap <> rc ->
  verdicts memory (mkTest nm cap (Write d expected :: looks ie be eo br bw rc bz ++ rest) :: ts)
    = false.
Proof.
  intros Hne. cbn [verdicts]. unfold verdict. cbn [steps capacity]. rewrite passes_cons.
  rewrite (passes_full _ _ ie be eo br bw rc bz); [by rewrite andb_false_r|]. simpl. done.
Qed.

Lemma programs_valid : Forall valid_test byte_stream_construction /\
  Forall valid_test byte_stream_one_write /\ Forall valid_test byte_stream_two_writes /\
  Forall valid_test byte_stream_capacity.
Proof.
  unfold valid_test, good_capacity, INT_MAX.
  split_and!; repeat constructor; by vm_compute.
Qed.

(** What the second of them prints: the first violation of the contract it
    meets, after the steps that agreed with it. *)
Example one_write_report :
  exec (run_test (fun _ _ => []) zeroed
         (mkTest (lit "write-end-pop") 15 (Write (lit "cat") None :: looks false false false 0 3 12 3)))
    [] =
  report (fun _ _ => []) (lit "Failure message:") (RemainingCapacity 12)
    (ByteStreamExpectationViolation
      (lit "The ByteStream should have had remaining_capacity equal to 12 but instead it was 15"))
    [lit "Initialized with (capacity=15)";
     lit "     Action: write " ++ quote ++ lit "cat" ++ quote ++ lit " to the stream";
     lit "Expectation: input_ended: 0"; lit "Expectation: buffer_empty: 0";
     lit "Expectation: eof: 0"; lit "Expectation: bytes_read: 0"; lit "Expectation: bytes_written: 3"].
Proof. vm_compute. reflexivity. Qed.

(** ** Properties *)

(** C38. What the repository's own tests of the class report: of the five
    programs [check_lab0] runs for the byte stream, the one that only
    constructs streams succeeds exactly when the memory of the counters of
    both its streams happened to hold zero, and the other four fail, whatever
    the memory holds, whatever the random device gives and whatever was
    printed before. *)
Theorem byte_stream_tests_outcome {K : Type} message (random_word : K -> Z * K)
    (memory : nat -> Uninit) cerr k :
  (forall i, good_uninit (memory i)) ->
  result (test_main message memory byte_stream_construction) cerr =
    Ret (if counters_zero (memory 0%nat) && counters_zero (memory 1%nat)
         then EXIT_SUCCESS else EXIT_FAILURE) /\
  result (test_main message memory byte_stream_one_write) cerr = Ret EXIT_FAILURE /\
  result (test_main message memory byte_stream_two_writes) cerr = Ret EXIT_FAILURE /\
  result (test_main message memory byte_stream_capacity) cerr = Ret EXIT_FAILURE /\
  result (byte_stream_many_writes message random_word (memory 0%nat)) (k, cerr) =
    Ret EXIT_FAILURE.
Proof.
  intros Hm. destruct programs_valid as (H1 & H2 & H3 & H4).
  split; [|split; [|split; [|split]]].
  - by rewrite test_main_verdicts, construction_verdicts by done.
  - rewrite test_main_verdicts by done. unfold byte_stream_one_write.
    by rewrite first_block_fails by done.
  - rewrite test_main_verdicts by done. unfold byte_stream_two_writes.
    by rewrite first_block_fails by done.
  - rewrite test_main_verdicts by done. unfold byte_stream_capacity.
    by rewrite first_block_fails by done.
  - by apply many_writes_fails.
Qed.

(** In memory that holds 7 where the second stream has its counters, with a
    device that gives the same word again and again. *)
Lemma byte_stream_tests_outcome_witness :
  let memory := fun i => mkUninit (fun _ => Byte.x00) 0 (if (i =? 1)%nat then 7 else 0) in
  let message := fun (_ : bytes) (_ : Z) => lit "error" in
  result (test_main message memory byte_stream_construction) [] = Ret EXIT_FAILURE /\
  result (test_main message memory byte_stream_one_write) [] = Ret EXIT_FAILURE /\
  result (test_main message memory byte_stream_two_writes) [] = Ret EXIT_FAILURE /\
  result (test_main message memory byte_stream_capacity) [] = Ret EXIT_FAILURE /\
  result (byte_stream_many_writes message (fun k : Z => (42, k)) (memory 0%nat)) (0, []) =
    Ret EXIT_FAILURE.
Proof.
  intros memory message.
  refine (byte_stream_tests_outcome message (fun k : Z => (42, k)) memory [] 0 _).
  intros [|[|i]]; unfold good_uninit; simpl; lia.
Defined.
