(* ===== verification/Webget.v ===== *)
(** The command-line client [apps/webget.cc]: its [main], and [get_URL], which
    the repository leaves as an exercise. *)

From S2P Require Import Prelude CString Process.

Local Open Scope Z_scope.

(** What a run of the program ends with. *)
Inductive ending : Type := Exit_status (n : Z) | Aborted.

(** What has been written to [std::cerr]. *)
Definition cerr_text : Type := bytes.

Definition print (s : bytes) : M cerr_text unit := modify (fun t => t ++ s).

Definition newline : bytes := [z2b 10].

Definition get_URL (host path : bytes) : M cerr_text unit :=
  print (lit "Function called: get_URL(" ++ host ++ lit ", " ++ path ++ lit ")." ++ newline) ;;;
  print (lit "Warning: get_URL() has not been implemented yet." ++ newline).

Definition usage (argv0 : bytes) : M cerr_text unit :=
  print (lit "Usage: " ++ argv0 ++ lit " HOST PATH" ++ newline) ;;;
  print ([z2b 9] ++ lit "Example: " ++ argv0 ++ lit " stanford.edu /class/cs144" ++ newline).

Section Main.

(** [error_category::message] *)
Context (message : bytes -> Z -> bytes).

(** [argv] holds [argc] strings. *)
Definition main (argv : list bytes) : M cerr_text ending :=
  let argc := zlen argv in
  try_catch
    (if argc <=? 0 then mret Aborted
     else if negb (argc =? 3) then
       argv0 ← lift (match argv !! 0%nat with Some s => Ret s | None => Undef end);
       usage argv0 ;;;
       mret (Exit_status EXIT_FAILURE)
     else
       host ← lift (match argv !! 1%nat with Some s => Ret s | None => Undef end);
       path ← lift (match argv !! 2%nat with Some s => Ret s | None => Undef end);
       get_URL host path ;;;
       mret (Exit_status EXIT_SUCCESS))
    (fun e =>
       print (what message e ++ newline) ;;;
       mret (Exit_status EXIT_FAILURE)).

End Main.

(** ** The run of the program *)

(** It never goes wrong on its arguments: without a program name it aborts,
    with two arguments it succeeds having printed the warning only, and with
    any other number it fails with the usage message. *)
Lemma main_outcome message argv t :
  result (main message argv) t =
    Ret (if zlen argv <=? 0 then Aborted
         else if zlen argv =? 3 then Exit_status EXIT_SUCCESS else Exit_status EXIT_FAILURE) /\
  (zlen argv = 3 -> forall host path, argv !! 1%nat = Some host -> argv !! 2%nat = Some path ->
     exec (main message argv) t = exec (get_URL host path) t).
Proof.
  destruct argv as [|a0 [|a1 [|a2 [|a3 argv]]]]; try done.
  - split; [done|]. intros _ host path [= <-] [= <-]. done.
  - rewrite !zlen_cons. zlens.
    assert (Hle : (1 + (1 + (1 + (1 + zlen argv))) <=? 0) = false) by (apply Z.leb_gt; lia).
    assert (H3 : (1 + (1 + (1 + (1 + zlen argv))) =? 3) = false) by (apply Z.eqb_neq; lia).
    split; [|lia]. unfold result, main. rewrite !zlen_cons, Hle, H3. done.
Qed.
